(* ===== verification/_CoqProject ===== *)
-Q . S2P
Prelude.v
State.v
TicketLock.v
Kmath.v
Buddy.v
FreeList.v
BuddyInv.v
BuddyDemo.v
BuddyOps.v
BuddyInit.v
BuddyFresh.v
BuddyTheorems.v
Slab.v
SlabTheorems.v
SlabRings.v
PhysKmalloc.v
SlabObjects.v
SlabAlloc.v
Mapped.v
Mmu.v
MmuInv.v
MmuOps.v
MmuTheorems.v
RbTree.v
RbRep.v
RbInsert.v
RbBalance.v
RbDelete.v
RbTheorems.v
Vm.v
RbValidate.v
Paging.v
LockFrame.v
PagingInv.v
PagingTheorems.v
Kunmap.v
AddressSpace.v
UnmapHuge.v
InitMmu.v
Layout.v
Screen.v
RbPrint.v
ScreenTheorems.v
Interrupts.v
InterruptTheorems.v
Kstrings.v
Kasm.v
KasmTheorems.v
KasmTypes.v
InlineAsm.v
KasmWrappers.v
KasmString.v
KasmStringTheorems.v
BootLoader.v
BootLoaderTheorems.v
InterruptEntry.v
PerCpu.v
PerCpuTheorems.v
Boot.v
