(* ===== verification/Prelude.v ===== *)
(** * mikrokernellib: a verification library

    mikrokernellib is a small x86-64 kernel in C with some assembly.  A boot
    loader hands it the firmware's memory map; the kernel builds a buddy
    allocator over the largest usable region, slab caches on top of it, then
    its own four-level page tables, switches to them and from then on reaches
    physical memory through a direct map.  Areas and chunks of virtual memory
    are kept in red-black trees.  Every shared structure has a ticket lock.
    [start_kernel] runs these steps in order and enters [kmain] in the new
    address space; each processor keeps its own data behind its GS base.

    ** Parts, files and sources

    (all sources under src/src/mikroKernellib and src/include, and for the
    boot loader src/src/mikroBootldr)

    - Prelude: machine integers, memory, the command monad with its
      weakest-precondition lemmas, tactics and generic lemmas.
    - State: the kernel state (memory, allocator metadata, locks, RFLAGS, TLB
      flushes) and the spinlock routines as one processor executes them
      (spinlocks.asm, spinlocks.h).
    - TicketLock: spinlocks.asm instruction by instruction on any number of
      processors, as a step relation; refinement of a queue.
    - Kmath: kmath.c.
    - Buddy (definitions), FreeList, BuddyInv, BuddyOps, BuddyInit (invariant and
      lemmas), BuddyDemo (a concrete state), BuddyFresh (single pages taken and
      given back while the bitmap is still as initialisation left it),
      BuddyTheorems: the buddy allocator of phys_kmalloc.c.  The class
      [AllocClient] of BuddyOps states what a client of the page allocator
      keeps about it; the layers above are proved for any client.
    - Slab (definitions), SlabTheorems (geometry, creation, size classes),
      SlabRings (the three rings of slabs of a cache), SlabObjects (free lists
      of objects and the invariant of a cache), SlabAlloc (allocation, release
      and clients): the slab allocator of phys_kmalloc.c.
    - PhysKmalloc: the front end of phys_kmalloc.c, the direct-map translation
      of mmu.h, and the class [FrameAllocator], the contract under which the
      page tables use the allocator, with the buddy allocator as instance.
    - Mapped: mapped_phys_kmalloc.c.
    - Mmu (definitions), MmuInv, MmuOps, MmuTheorems: mmu.c.
    - RbTree (definitions), RbRep, RbInsert, RbBalance, RbDelete, RbTheorems:
      rb_tree.c.
    - Vm: the trees of areas and chunks of vm.c and virt_kmalloc.c;
      RbValidate: the debug check [rb_validate] of rb_tree.h; RbPrint:
      [rb_print_tree].
    - Paging (definitions), LockFrame (which locks a routine leaves alone),
      PagingInv (the invariant of the kernel's address space, over the page
      allocator, the cache of areas, the tree of areas and the page tables),
      PagingTheorems (mapping, the direct map), Kunmap (release): paging.c.
    - AddressSpace (what a list of mapping requests means for the page tables
      and the tree of areas, and that [kmap_pages] carries a list out), InitMmu
      ([__init_mmu] as the list of its requests): the first address space.
    - UnmapHuge: the release of huge pages by mmu.c and paging.c, down to the
      tables that become empty and go back to the page allocator.
    - Layout: the regions, stack slots, entry and index macros of mmu.h.
    - Screen (definitions, painting lemmas), ScreenTheorems:
      vesa_graphics_lib.c.
    - Interrupts (definitions), InterruptTheorems: idt.c, isr_dispatch.c;
      InterruptEntry: the stubs of idt_common.asm between the processor's
      delivery of an exception and [isr_dispatch].
    - Kstrings: kstrings.c and pmap.c.
    - Kasm (definitions), KasmTheorems, KasmTypes: what the instructions of
      kasm-expanded.h do to registers and words; InlineAsm: extended inline
      assembly, from template text and operand constraints to execution;
      KasmWrappers: the wrappers with C operands as their statements, and what
      they do; KasmString (definitions), KasmStringTheorems: the flag,
      sign-extension, string and system-call statements.
    - BootLoader (definitions), BootLoaderTheorems: both stages of the boot
      loader (disk geometry, memory map, mode search, A20 and processor tests,
      descriptor tables, page tables) and [pml5_detect] of mmu.asm.
    - PerCpu (definitions), PerCpuTheorems: per_cpu.c and the task accesses of
      vm.c, on any number of processors.  The class [CpuOps] names the hardware
      routines, [CpuLaws] what per_cpu.c relies on; the registers of Kasm are an
      instance.  The address space the processors run on is a parameter, and
      every dereference goes through it.
    - Boot: start_kernel.c, kmain.c and [enter_virtual] of mmu.asm, over the
      joint state of all the parts they start.

    ** How code becomes definitions

    A C function is a Definition or Fixpoint of the same name; a loop is a
    Fixpoint of its own.  Functions that change memory or locks are commands
    [cmd kstate A]: they return, stop in PANIC with its message, or diverge (a
    loop whose exit can no longer be reached, a lock nobody will release).  The
    tree code touches nothing but memory and one root pointer and is written on
    the pair of both.  Integers are [Z] with the wrap-around of their C type
    written out.  Memory maps an address to the scalar stored there; a struct
    is the scalars at its field offsets, so aliasing is as in the code.
    Addresses are the stored, physical ones: [directmap_p2v] is applied by the
    code at each dereference only, and PhysKmalloc shows that it reaches the
    stored address before and after the switch of address spaces.  Two places of
    the source dereference a stored address without it: the accessors of
    per_cpu.c, which PerCpu models through the address space in force, and
    [rb_validate], whose model holds while the nodes are mapped at their physical
    addresses.  The metadata of the page allocator is a record of the kernel
    state; where it lies in memory is [metadata_end], and Boot asks for, and
    keeps, that it can be reached.  Static variables start with the values the
    source gives them, also those in .bss, which nothing zeroes: [kernel_rb_root]
    is one, and the theorems that rely on it say so.  Messages the
    allocators print while they start are left out.  Paging adds the static
    variables of paging.c and CR3 to the kernel state and lifts the routines of
    the layers below ([lift]).  The screen, the interrupt table and the string
    routines touch nothing the other parts use: each has a state of its own (a
    memory of pixels with the mode, the table with the ports written, a memory
    of bytes); Boot puts these states together.  Code that is not in the
    repository (the routines and the structure per_cpu.h declares) is a
    parameter with named laws; what the linker and the boot loader fix are
    arguments.

    ** Bounds and fuel

    Loops with a known number of turns take that number.  The searches for an
    order run on 8-bit counters: 256 turns visit every value, so running out of
    them is divergence, and a theorem says exactly when.  Tree loops take a
    bound on their turns; the theorems show that [2 * log2 (n + 1)] turns are
    enough for [n] nodes, and the boot theorems ask for that many for the number
    of requests of the plan.  [boot_budget] counts the page frames the first
    address space can need: tables, slabs of areas and the stack.  No theorem of
    the form "if it returns" is used for the absence of divergence: results are
    stated as [Ret] or [Some].

    ** What the theorems show

    - Buddy allocator: initialisation establishes an invariant whose free pages
      are the region; allocation returns the least sufficient block out of the
      free pages; freeing gives the block back when the bitmap is right about
      the buddies met, and two runs show how the bitmap goes wrong; bits of the
      bitmap lie inside it, and belong to one pair when the region is a whole
      number of 4 MB blocks.
    - Slab allocator: geometry of slabs, choice of caches, creation; allocation
      and release take and give back exactly one object under an invariant of
      the cache, and no sequence of calls of a client overlaps two objects in
      use or writes into one.
    - Page tables: mapping extends the tree by exactly the requested entries,
      or stops for want of a frame; unmapping by case.
    - Red-black trees: insertion and deletion keep the red-black conditions,
      the order and the set of nodes; search and traversal.
    - Areas and chunks: lookups after insertion and removal, neighbours; the
      trees [rb_validate] accepts are exactly the red-black ones with children
      on their sides.
    - Kernel paging: [kmap_pages] records the area and maps its pages, both or
      PANIC; [kunmap_pages] clears the entries and drops the area, whole even
      when a part of it is unmapped; the direct map of a memory region is exactly
      its whole pages, in 2 MB pages exactly where the aligned block lies in it;
      [kmap_page] maps nothing; unmapping an area of huge pages within a gigabyte
      removes exactly its translations, leaves no table on the way empty and
      gives back exactly the frames of the tables that are gone.
    - First address space: [__init_mmu] maps exactly the image, the stack, the
      direct map, the boot memory and the frame buffer, records them as areas and
      switches, or panics for want of memory; every usable page is in the direct
      map, and above 16 MB nothing is both writable and executable.
    - Boot: for a memory run below 4 GB whose metadata fits the pages mapped
      behind the image, [start_kernel] reaches [kmain] with that address space
      (image data, metadata and the pages of the run in it), its stack, the
      interrupt table and the screen in place, and never returns; when the
      memory run ends at a multiple of eight pages, [kmain] gets to its last line
      with the low 16 MB unmapped, their directory given back and everything
      else translated as before; a run of the whole boot.
    - Boot loader: stage 2 ends at the kernel's first instruction with long mode
      on, the first 4 GB mapped to themselves and the kernel image to physical
      memory from 0; the memory map is the firmware's entries in order; the
      tests for CPUID and long mode answer what they ask, the one for the A20
      line always says it is off.
    - Layout: the regions are apart by their bounds (their SIZE macros say
      otherwise), indices determine addresses, entries give back frame and flags.
    - Screen and interrupts: text appears glyph by glyph and nowhere else; the
      last row exists only on tall screens; the table leads every exception to
      its stub; the stub hands [isr_dispatch] the interrupted state and resumes
      it; every exception shows its message on a screen of 84 rows, and changes
      no visible pixel, but for the lines a page fault blanks, on one of 81.
    - Processors: while the boot memory is mapped, whatever they do in whatever
      order, each sees the task it set last; without it the first use of the
      per-processor structure faults.
    - Instruction wrappers: the text of each moves the register it is named
      after, exchanges and adds words, finds, counts, rotates and swaps bits, or
      does not assemble; bit strings reach beyond their word; repeated string
      instructions fill, copy and search memory.
    - Strings: copies end in their buffer, comparison is the order of bytes; the
      copy of the memory map fits up to 85 entries.
    - Ticket locks: refinement of a queue, mutual exclusion, progress.

    ** Not modelled

    Of the boot loader: segment loads, the real-mode stack and the far jumps;
    the BIOS services and CPUID are parameters.  The build.  Of
    kasm-expanded.h, which no file includes: the fence, cache, prefetch, pause,
    xsave and monitor statements, the trap statements and the constants no wrapper
    uses; of its inline assembly, the clobber lists and the flags other than the
    carry bit; of kasm.h, [hlt] is the end of a run.  [virt_kmalloc] and
    [virt_kfree] have no body in the source, and the body of [map_page] behind
    its first return cannot be reached.
    Of what is modelled, the theorems about unmapping 4 KB pages leave out the
    case in which a page table becomes empty and is freed, and the theorem about
    huge pages asks for a page allocator that takes single pages back: the buddy
    allocator takes a block back correctly only when its bitmap is right about
    the buddies it meets, and it is not always.  BuddyFresh gives the states in
    which it is, the boot is one of them; hence the condition on the end of the
    memory run in the boot theorem. *)

From stdpp Require Export base tactics sets list list_numbers numbers strings.
From Stdlib Require Export ZArith Lia.

#[global] Set Default Proof Using "Type".
Open Scope Z_scope.

(** ** Machine integers

    An unsigned [w]-bit integer is a [Z]; the conversions below are C's
    conversions to the unsigned types of <stdint.h>. *)

Definition u8 (x : Z) : Z := x mod 2 ^ 8.
Definition u16 (x : Z) : Z := x mod 2 ^ 16.
Definition u32 (x : Z) : Z := x mod 2 ^ 32.
Definition u64 (x : Z) : Z := x mod 2 ^ 64.

Lemma u8_small x : 0 <= x < 2 ^ 8 -> u8 x = x.
Proof. apply Z.mod_small. Qed.
Lemma u16_small x : 0 <= x < 2 ^ 16 -> u16 x = x.
Proof. apply Z.mod_small. Qed.
Lemma u32_small x : 0 <= x < 2 ^ 32 -> u32 x = x.
Proof. apply Z.mod_small. Qed.
Lemma u64_small x : 0 <= x < 2 ^ 64 -> u64 x = x.
Proof. apply Z.mod_small. Qed.

(** [x << n] on a 64-bit operand.  The x86-64 shift masks its count to six
    bits, which is what the compiled code does once the count reaches 64. *)
Definition shl64 (x n : Z) : Z := u64 (Z.shiftl x (n mod 64)).

(** [~x] on a 64-bit operand. *)
Definition not64 (x : Z) : Z := u64 (Z.lnot x).

(** ** Memory

    A pointer is the 64-bit number the code stores.  Memory is a total map
    from addresses to the scalar the program keeps there: its content before
    the program writes it is arbitrary, as it is on the machine. *)

Abbreviation ptr := Z.
Definition NULL : ptr := 0.
Abbreviation mem := (Z -> Z).

Definition upd {A} (m : Z -> A) (a : Z) (v : A) : Z -> A := fun x => if x =? a then v else m x.

(** [memset(a, v, n)] for the byte-wise fills of the kernel, all of which
    store zero: every scalar in [a, a + n) becomes [v]. *)
Definition fill (m : mem) (a n v : Z) : mem :=
  fun x => if (a <=? x) && (x <? a + n) then v else m x.

Declare Scope mem_scope.
Delimit Scope mem_scope with mem.
Notation "m '.[' a '<-' v ']'" := (upd m a v)
  (at level 1, a at level 200, v at level 200, left associativity,
   format "m .[ a  <-  v ]") : mem_scope.
Open Scope mem_scope.

Lemma upd_eq {A} (m : Z -> A) a v : (m.[a <- v]) a = v.
Proof. unfold upd. by rewrite Z.eqb_refl. Qed.

Lemma upd_ne {A} (m : Z -> A) a v x : x <> a -> (m.[a <- v]) x = m x.
Proof. unfold upd. intros. by rewrite (proj2 (Z.eqb_neq x a)). Qed.

Lemma upd_same {A} (m : Z -> A) a x : (m.[a <- m a]) x = m x.
Proof. unfold upd. destruct (Z.eqb_spec x a); congruence. Qed.

Lemma fill_in m a n v x : a <= x < a + n -> fill m a n v x = v.
Proof.
  unfold fill. intros. destruct (Z.leb_spec a x), (Z.ltb_spec x (a + n)); simpl; lia.
Qed.

Lemma fill_out m a n v x : x < a \/ a + n <= x -> fill m a n v x = m x.
Proof.
  unfold fill. intros. destruct (Z.leb_spec a x), (Z.ltb_spec x (a + n)); simpl; lia.
Qed.

(** ** Outcomes

    A kernel routine returns, halts in [PANIC], or never returns (a loop whose
    exit test can no longer become true, or a lock nobody will release). *)

Inductive outcome (S A : Type) : Type :=
  | Ret (a : A) (s : S)
  | Panic (msg : string)
  | Diverge.
Arguments Ret {S A} a s.
Arguments Panic {S A} msg.
Arguments Diverge {S A}.

Definition cmd (S A : Type) : Type := S -> outcome S A.

Definition ret {S A} (a : A) : cmd S A := fun s => Ret a s.
Definition bind {S A B} (c : cmd S A) (k : A -> cmd S B) : cmd S B := fun s =>
  match c s with
  | Ret a s' => k a s'
  | Panic msg => Panic msg
  | Diverge => Diverge
  end.
Definition panic {S A} (msg : string) : cmd S A := fun _ => Panic msg.
Definition diverge {S A} : cmd S A := fun _ => Diverge.
Definition gets {S A} (f : S -> A) : cmd S A := fun s => Ret (f s) s.
Definition modify {S} (f : S -> S) : cmd S unit := fun s => Ret tt (f s).

(** The value of a loop that was given a bounded number of turns; the bound is
    one after which the loop state repeats, so [None] is divergence. *)
Definition of_loop {S A} (o : option A) : cmd S A :=
  match o with Some a => ret a | None => diverge end.

Declare Scope cmd_scope.
Delimit Scope cmd_scope with cmd.
Notation "'let!' x ':=' c 'in' k" := (bind c (fun x => k))
  (at level 10, x name, c at level 200, k at level 200) : cmd_scope.
Notation "c ';;' k" := (bind c (fun _ => k))
  (at level 100, k at level 200, right associativity) : cmd_scope.
Open Scope cmd_scope.

(** Total correctness: the routine returns and its result satisfies [Q]. *)
Definition wp {S A} (c : cmd S A) (Q : A -> S -> Prop) (s : S) : Prop :=
  match c s with Ret a s' => Q a s' | _ => False end.

Section wp.
Context {S A B : Type}.
Implicit Types (c : cmd S A) (Q : A -> S -> Prop).

Lemma wp_ret (a : A) Q s : Q a s -> wp (ret a) Q s.
Proof. done. Qed.

Lemma wp_bind c (k : A -> cmd S B) (Q : B -> S -> Prop) s :
  wp c (fun a => wp (k a) Q) s -> wp (bind c k) Q s.
Proof. unfold wp, bind. by destruct (c s). Qed.

Lemma wp_gets {C} (f : S -> C) (Q : C -> S -> Prop) s : Q (f s) s -> wp (gets f) Q s.
Proof. done. Qed.

Lemma wp_modify (f : S -> S) (Q : unit -> S -> Prop) s : Q tt (f s) -> wp (modify f) Q s.
Proof. done. Qed.

Lemma wp_mono c Q1 Q2 s : wp c Q1 s -> (forall a s', Q1 a s' -> Q2 a s') -> wp c Q2 s.
Proof. unfold wp. destruct (c s); naive_solver. Qed.

Lemma wp_elim c Q s : wp c Q s -> exists a s', c s = Ret a s' /\ Q a s'.
Proof. unfold wp. destruct (c s); naive_solver. Qed.

Lemma wp_intro c Q s a s' : c s = Ret a s' -> Q a s' -> wp c Q s.
Proof. unfold wp. by intros ->. Qed.
End wp.

(** Correct up to a halt: the routine returns and its result satisfies [Q], or
    it stops in [PANIC] with a message that satisfies [P]. *)
Definition wpe {S A} (c : cmd S A) (Q : A -> S -> Prop) (P : string -> Prop) (s : S) : Prop :=
  match c s with Ret a s' => Q a s' | Panic msg => P msg | Diverge => False end.

Section wpe.
Context {S A B : Type}.
Implicit Types (c : cmd S A) (Q : A -> S -> Prop) (P : string -> Prop).

Lemma wpe_wp c Q P s : wp c Q s -> wpe c Q P s.
Proof. unfold wp, wpe. by destruct (c s). Qed.

Lemma wpe_bind c (k : A -> cmd S B) (Q : B -> S -> Prop) P s :
  wpe c (fun a => wpe (k a) Q P) P s -> wpe (bind c k) Q P s.
Proof. unfold wpe, bind. by destruct (c s). Qed.

Lemma wpe_mono c Q1 Q2 P1 P2 s :
  wpe c Q1 P1 s -> (forall a s', Q1 a s' -> Q2 a s') -> (forall msg, P1 msg -> P2 msg) ->
  wpe c Q2 P2 s.
Proof. unfold wpe. destruct (c s); naive_solver. Qed.

Lemma wpe_elim c Q P s :
  wpe c Q P s -> (exists a s', c s = Ret a s' /\ Q a s') \/ (exists msg, c s = Panic msg /\ P msg).
Proof. unfold wpe. destruct (c s); naive_solver. Qed.
End wpe.

Create HintDb kernel.
#[export] Hint Resolve upd_eq fill_in fill_out : kernel.

(** Walk a [wp] goal through the monad's own operations. *)
Ltac wp_step :=
  match goal with
  | |- wp (bind _ _) _ _ => apply wp_bind
  | |- wp (ret _) _ _ => apply wp_ret
  | |- wp (gets _) _ _ => apply wp_gets
  | |- wp (modify _) _ _ => apply wp_modify
  end; cbv beta.
Ltac wp_steps := repeat wp_step.

(** Read a memory after updates whose addresses [lia] can compare. *)
Ltac upd_step :=
  match goal with
  | |- context [upd ?m ?a ?v ?x] =>
      first [ rewrite (upd_ne m a v x) by lia
            | replace (upd m a v x) with v by (symmetry; replace x with a by lia; apply upd_eq) ]
  end.
Ltac upd_solve := repeat upd_step.

(** [lia] with quotients and remainders by a constant. *)
Ltac dlia := Z.to_euclidean_division_equations; lia.

(** ** Lists *)

Lemma filter_id {A} (P : A -> Prop) `{!forall x, Decision (P x)} (l : list A) :
  (forall x, x ∈ l -> P x) -> filter P l = l.
Proof.
  induction l as [|x l IH]; intros Hall; [done|]. rewrite filter_cons_True by (apply Hall; left).
  f_equal. apply IH. intros. apply Hall. by right.
Qed.

(** ** Masks *)

(** [x & ~(2^n - 1)]: clearing the low [n] bits of a 64-bit word. *)
Lemma land_not64_low x n :
  0 <= x < 2 ^ 64 -> 0 <= n -> Z.land x (not64 (2 ^ n - 1)) = x - x mod 2 ^ n.
Proof.
  intros Hx Hn. unfold not64, u64. rewrite <- (Z.land_ones (Z.lnot _) 64) by lia.
  rewrite (Z.land_comm (Z.lnot _)), Z.land_assoc, Z.land_ones, (Z.mod_small x) by lia.
  replace (2 ^ n - 1) with (Z.ones n) by (rewrite Z.ones_equiv; lia).
  rewrite <- Z.ldiff_land, Z.ldiff_ones_r, Z.shiftl_mul_pow2, Z.shiftr_div_pow2 by lia.
  pose proof (Z.div_mod x (2 ^ n) ltac:(pose proof (Z.pow_pos_nonneg 2 n); lia)). lia.
Qed.

(** [x & (2^n - 1)] *)
Lemma land_low x n : 0 <= n -> Z.land x (2 ^ n - 1) = x mod 2 ^ n.
Proof.
  intros Hn. replace (2 ^ n - 1) with (Z.ones n) by (rewrite Z.ones_equiv; lia).
  by apply Z.land_ones.
Qed.
