(* ===== verification/State.v ===== *)
(** * The kernel's state

    The records of include/spinlocks.h and phys_kmalloc.c, the constants of
    include/mikroKernellib-common.h and include/mmu.h, and the state every
    routine of the library runs on: physical memory, the allocator metadata,
    the spinlocks, RFLAGS and the flushed TLB entries.  The spinlock routines
    of spinlocks.asm are modelled as one processor executes them. *)

From S2P Require Import Prelude.

Definition PAGE_SIZE : Z := 0x1000.
Definition HUGE_PAGE_SIZE : Z := 0x200000.
Definition STATUS_OK : Z := 0.
Definition STATUS_ERROR : Z := -1.

(** ** Data *)

Record spinlock_t : Type := mk_spinlock {
  lk_ticket : Z;
  lk_serving : Z;
  lk_cpu_id : Z;
  lk_rflags : Z;
}.

(** The statically allocated locks of the kernel. *)
Inductive lock_id : Set := buddy_lock | slab_lock | kernel_page_lock | vac_rb_spinlock.

#[export] Instance lock_id_eq_dec : EqDecision lock_id.
Proof. solve_decision. Defined.

(** [buddy_metadata] with the two arrays it points to: the free-list heads and
    the bytes of the bitmap, both placed behind the kernel image.  The record stands
    for memory the allocator can reach, up to [metadata_end] of Buddy; that this
    memory is mapped, before and after the switch, is part of the theorem of Boot. *)
Record buddy_metadata : Type := mk_buddy_metadata {
  bm_base_address : ptr;
  bm_size : Z;
  bm_min_order : Z;
  bm_max_order : Z;
  bm_free_lists : Z -> ptr;
  bm_bitmap : Z -> Z;
  bm_order_offsets : Z -> Z;
}.

Record kstate : Type := mk_kstate {
  k_mem : mem;
  k_buddy : buddy_metadata;
  k_locks : lock_id -> spinlock_t;
  k_rflags : Z;            (* RFLAGS of the running processor *)
  k_cpuid_ebx : Z;         (* EBX of CPUID leaf 1 *)
  phys_map_offset : Z;
  k_invlpg : list Z;       (* addresses whose TLB entry was flushed, last first *)
  k_slab_caches : ptr;     (* address the linker gave the array [slab_caches] *)
}.

Definition set_mem (m : mem) (s : kstate) : kstate :=
  mk_kstate m (k_buddy s) (k_locks s) (k_rflags s) (k_cpuid_ebx s) (phys_map_offset s) (k_invlpg s)
    (k_slab_caches s).
Definition set_buddy (b : buddy_metadata) (s : kstate) : kstate :=
  mk_kstate (k_mem s) b (k_locks s) (k_rflags s) (k_cpuid_ebx s) (phys_map_offset s) (k_invlpg s)
    (k_slab_caches s).
Definition set_lock (id : lock_id) (lk : spinlock_t) (rflags : Z) (s : kstate) : kstate :=
  mk_kstate (k_mem s) (k_buddy s)
    (fun i => if decide (i = id) then lk else k_locks s i)
    rflags (k_cpuid_ebx s) (phys_map_offset s) (k_invlpg s) (k_slab_caches s).
Definition add_invlpg (a : Z) (s : kstate) : kstate :=
  mk_kstate (k_mem s) (k_buddy s) (k_locks s) (k_rflags s) (k_cpuid_ebx s) (phys_map_offset s)
    (a :: k_invlpg s) (k_slab_caches s).

Definition set_free_lists (f : Z -> ptr) (b : buddy_metadata) : buddy_metadata :=
  mk_buddy_metadata (bm_base_address b) (bm_size b) (bm_min_order b) (bm_max_order b)
    f (bm_bitmap b) (bm_order_offsets b).
Definition set_bitmap (f : Z -> Z) (b : buddy_metadata) : buddy_metadata :=
  mk_buddy_metadata (bm_base_address b) (bm_size b) (bm_min_order b) (bm_max_order b)
    (bm_free_lists b) f (bm_order_offsets b).

(** Loads and stores through a pointer of the program. *)
Definition load (a : ptr) : cmd kstate Z := gets (fun s => k_mem s a).
Definition store (a : ptr) (v : Z) : cmd kstate unit :=
  modify (fun s => set_mem (k_mem s).[a <- v] s).

Lemma wp_load a (Q : Z -> kstate -> Prop) s : Q (k_mem s a) s -> wp (load a) Q s.
Proof. done. Qed.
Lemma wp_store a v (Q : unit -> kstate -> Prop) s :
  Q tt (set_mem (k_mem s).[a <- v] s) -> wp (store a v) Q s.
Proof. done. Qed.

(** Walk a [wp] goal through memory accesses as well. *)
Ltac kwp_step :=
  first [ wp_step
        | lazymatch goal with
          | |- wp (load _) _ _ => apply wp_load
          | |- wp (store _ _) _ _ => apply wp_store
          end; cbv beta ].
Ltac kwp := repeat kwp_step.

(** ** Spinlocks *)

(** The interrupt flag of RFLAGS. *)
Definition RFLAGS_IF_BIT : Z := 9.

Definition spinlock_init (id : lock_id) : cmd kstate unit :=
  modify (fun s => set_lock id (mk_spinlock 0 0 0xffffffff 0) (k_rflags s) s).

(** With a single processor running, a ticket that is not being served when it
    is drawn will never be: [.spin] does not exit. *)
Definition spinlock_acquire (id : lock_id) : cmd kstate unit := fun s =>
  let lk := k_locks s id in
  let rdx := k_rflags s in
  let ax := lk_ticket lk in
  if lk_serving lk =? ax then
    let apic_id := Z.land (Z.shiftr (k_cpuid_ebx s) 24) 0xff in
    Ret tt (set_lock id (mk_spinlock (u16 (ax + 1)) (lk_serving lk) apic_id rdx)
              (Z.clearbit rdx RFLAGS_IF_BIT) s)
  else Diverge.

Definition spinlock_release (id : lock_id) : cmd kstate unit := fun s =>
  let lk := k_locks s id in
  let rdx := lk_rflags lk in
  Ret tt (set_lock id (mk_spinlock (lk_ticket lk) (u16 (lk_serving lk + 1)) 0xffffffff rdx) rdx s).

(** ** Lock discipline *)

Definition lock_free (s : kstate) (id : lock_id) : Prop :=
  lk_serving (k_locks s id) = lk_ticket (k_locks s id).

(** What every routine leaves as it found it: free locks are free again, the
    interrupt flag is back, the address translation is the same. *)
Record kframe (s s' : kstate) : Prop := {
  kf_locks : forall id, lock_free s id -> lock_free s' id;
  kf_rflags : k_rflags s' = k_rflags s;
  kf_offset : phys_map_offset s' = phys_map_offset s;
  kf_invlpg : k_invlpg s' = k_invlpg s;
  kf_caches : k_slab_caches s' = k_slab_caches s;
}.

#[export] Instance kframe_preorder : PreOrder kframe.
Proof.
  split.
  - intros s. by split.
  - intros s1 s2 s3 [H1 ? ? ? ?] [H2 ? ? ? ?]. split; try congruence. eauto.
Qed.

Lemma kframe_set_mem m s s' : kframe s s' -> kframe s (set_mem m s').
Proof. intros []. by split. Qed.
Lemma kframe_set_buddy b s s' : kframe s s' -> kframe s (set_buddy b s').
Proof. intros []. by split. Qed.

Lemma kframe_refl s : kframe s s.
Proof. reflexivity. Qed.

Create HintDb kframe.
#[export] Hint Resolve kframe_set_mem kframe_set_buddy kframe_refl : kframe.

(** A critical section: the body starts with the lock taken; if it keeps the
    lock record and the locks that are free, releasing restores everything. *)
Definition held (id : lock_id) (s0 s : kstate) : Prop :=
  lk_ticket (k_locks s id) = u16 (lk_ticket (k_locks s0 id) + 1) /\
  lk_serving (k_locks s id) = lk_ticket (k_locks s0 id) /\
  lk_rflags (k_locks s id) = k_rflags s0 /\
  (forall i, i <> id -> lock_free s0 i -> lock_free s i) /\
  phys_map_offset s = phys_map_offset s0 /\ k_invlpg s = k_invlpg s0 /\
  k_slab_caches s = k_slab_caches s0.

Lemma held_set_mem id s0 s m : held id s0 s -> held id s0 (set_mem m s).
Proof. done. Qed.
Lemma held_set_buddy id s0 s b : held id s0 s -> held id s0 (set_buddy b s).
Proof. done. Qed.
#[export] Hint Resolve held_set_mem held_set_buddy : kframe.

Lemma wp_acquire id Q s :
  lock_free s id ->
  (forall s', held id s s' -> k_mem s' = k_mem s -> k_buddy s' = k_buddy s -> Q tt s') ->
  wp (spinlock_acquire id) Q s.
Proof.
  unfold lock_free, wp, spinlock_acquire. intros Hf HQ.
  rewrite Hf, Z.eqb_refl. apply HQ; try done.
  repeat split; simpl; rewrite ?decide_True by done; try done.
  intros i Hi. unfold lock_free. simpl. by rewrite decide_False.
Qed.

Lemma wp_release id Q s0 s :
  held id s0 s ->
  (forall s', kframe s0 s' -> k_mem s' = k_mem s -> k_buddy s' = k_buddy s -> Q tt s') ->
  wp (spinlock_release id) Q s.
Proof.
  intros (Ht & Hs & Hr & Hl & Ho & Hi & Hc) HQ. unfold wp, spinlock_release. apply HQ; try done.
  split; simpl; try congruence.
  intros i Hf. unfold lock_free in *. simpl. destruct (decide (i = id)) as [->|Hne]; simpl.
  - congruence.
  - apply Hl; done.
Qed.
