(* ===== verification/TicketLock.v ===== *)
(** * spinlocks.asm on many processors

    The other files run the spinlock routines on one processor.  Here any
    number of processors execute them instruction by instruction on one lock:
    a processor is a program counter with the registers that are live there.
    The lock refines a queue: processors join at the end when they draw a
    ticket and leave from the front when they release. *)

From stdpp Require Import relations.
From S2P Require Import Prelude State.

(** ** Processors *)

(** The next instruction of a processor: outside, in [spinlock_acquire], in the
    critical section, or in [spinlock_release]. *)
Inductive pc_t : Type :=
  | Out                       (* not in the lock's code *)
  | Xadd (rdx : Z)            (* lock xadd word [rdi], ax *)
  | Spin (rdx ax : Z)         (* .spin: cmp word [rdi + 2], ax *)
  | Locked (rdx : Z)          (* .locked: mov qword [rdi + 8], rdx *)
  | Stamp                     (* mov dword [rdi + 4], ebx *)
  | Crit                      (* acquired *)
  | Rel_cpu (rdx : Z)         (* mov dword [rdi + 4], 0xffffffff *)
  | Rel_serve (rdx : Z)       (* add word [rdi + 2], 1 *)
  | Rel_flags (rdx : Z).      (* push rdx; popfq *)

(** [c_entry] is the value of RFLAGS at the call of [spinlock_acquire]; no
    instruction reads it. *)
Record cpu := mk_cpu { c_pc : pc_t; c_rflags : Z; c_entry : Z }.

(** One instruction of a processor with APIC id [apic]; outside and in the
    critical section, the call of the next routine. *)
Definition cpu_step (apic : Z) (lk : spinlock_t) (c : cpu) : spinlock_t * cpu :=
  let at_pc pc := mk_cpu pc (c_rflags c) (c_entry c) in
  match c_pc c with
  | Out => (lk, mk_cpu (Xadd (c_rflags c)) (Z.clearbit (c_rflags c) RFLAGS_IF_BIT) (c_rflags c))
  | Xadd rdx =>
      (mk_spinlock (u16 (lk_ticket lk + 1)) (lk_serving lk) (lk_cpu_id lk) (lk_rflags lk),
       at_pc (Spin rdx (lk_ticket lk)))
  | Spin rdx ax => (lk, at_pc (if lk_serving lk =? ax then Locked rdx else Spin rdx ax))
  | Locked rdx => (mk_spinlock (lk_ticket lk) (lk_serving lk) (lk_cpu_id lk) rdx, at_pc Stamp)
  | Stamp => (mk_spinlock (lk_ticket lk) (lk_serving lk) apic (lk_rflags lk), at_pc Crit)
  | Crit => (lk, at_pc (Rel_cpu (lk_rflags lk)))
  | Rel_cpu rdx => (mk_spinlock (lk_ticket lk) (lk_serving lk) 0xffffffff (lk_rflags lk), at_pc (Rel_serve rdx))
  | Rel_serve rdx =>
      (mk_spinlock (lk_ticket lk) (u16 (lk_serving lk + 1)) (lk_cpu_id lk) (lk_rflags lk), at_pc (Rel_flags rdx))
  | Rel_flags rdx => (lk, mk_cpu Out rdx (c_entry c))
  end.

Definition init_lock : spinlock_t := mk_spinlock 0 0 0xffffffff 0.

Section machine.
Context (apic : nat -> Z).

Record machine := mk_machine { m_lock : spinlock_t; m_cpus : list cpu }.

(** Any processor may take the next step; outside the lock's code a processor
    may change its flags. *)
Inductive step (s : machine) : machine -> Prop :=
  | step_code i c lk' c' :
      m_cpus s !! i = Some c -> cpu_step (apic i) (m_lock s) c = (lk', c') ->
      step s (mk_machine lk' (<[i := c']> (m_cpus s)))
  | step_flags i c fl :
      m_cpus s !! i = Some c -> c_pc c = Out ->
      step s (mk_machine (m_lock s) (<[i := mk_cpu Out fl (c_entry c)]> (m_cpus s))).

Definition initial (s : machine) : Prop :=
  m_lock s = init_lock /\ (forall i c, m_cpus s !! i = Some c -> c_pc c = Out) /\
  Z.of_nat (length (m_cpus s)) <= 2 ^ 16.

(** The state after the processors of a schedule took their steps. *)
Fixpoint run (sched : list nat) (s : machine) : machine :=
  match sched with
  | [] => s
  | i :: sched' =>
      match m_cpus s !! i with
      | Some c => let '(lk', c') := cpu_step (apic i) (m_lock s) c in
                  run sched' (mk_machine lk' (<[i := c']> (m_cpus s)))
      | None => run sched' s
      end
  end.

Lemma run_reachable sched s : rtc step s (run sched s).
Proof using Type.
  revert s. induction sched as [|i sched IH]; intros s; simpl; [done|].
  destruct (m_cpus s !! i) as [c|] eqn:Hc; [|done]. destruct (cpu_step (apic i) (m_lock s) c) as [lk' c'] eqn:E.
  eapply rtc_l; [by eapply step_code|apply IH].
Qed.

(** ** The specification: a queue *)

Inductive queue_step : list nat -> list nat -> Prop :=
  | join q i : (i ∉ q) -> queue_step q (q ++ [i])
  | leave q i : queue_step (i :: q) q.

(** What the position in the code says about the queue and the lock. *)
Definition pc_ok (lk : spinlock_t) (q : list nat) (i : nat) (c : cpu) : Prop :=
  match c_pc c with
  | Out => i ∉ q
  | Xadd rdx => (i ∉ q) /\ rdx = c_entry c
  | Spin rdx ax => rdx = c_entry c /\ exists k, q !! k = Some i /\ ax = u16 (lk_serving lk + Z.of_nat k)
  | Locked rdx => head q = Some i /\ rdx = c_entry c
  | Stamp => head q = Some i /\ lk_rflags lk = c_entry c
  | Crit => head q = Some i /\ lk_rflags lk = c_entry c /\ lk_cpu_id lk = apic i
  | Rel_cpu rdx | Rel_serve rdx => head q = Some i /\ rdx = c_entry c
  | Rel_flags rdx => (i ∉ q) /\ rdx = c_entry c
  end /\
  (c_pc c <> Out -> Z.testbit (c_rflags c) RFLAGS_IF_BIT = false).

Record lock_inv (s : machine) (q : list nat) : Prop := {
  li_nodup : NoDup q;
  li_cpus : forall i, i ∈ q -> (i < length (m_cpus s))%nat;
  li_small : Z.of_nat (length (m_cpus s)) <= 2 ^ 16;
  li_serving : 0 <= lk_serving (m_lock s) < 2 ^ 16;
  li_ticket : lk_ticket (m_lock s) = u16 (lk_serving (m_lock s) + Z.of_nat (length q));
  li_pc : forall i c, m_cpus s !! i = Some c -> pc_ok (m_lock s) q i c;
}.

(** The processor is past the spin loop and has not bumped [serving]. *)
Definition holds_lock (c : cpu) : bool :=
  match c_pc c with Locked _ | Stamp | Crit | Rel_cpu _ | Rel_serve _ => true | _ => false end.

Lemma holder_head lk q i c : pc_ok lk q i c -> holds_lock c = true -> head q = Some i.
Proof using Type. unfold pc_ok, holds_lock. destruct (c_pc c); naive_solver. Qed.

Lemma queue_length s q : lock_inv s q -> Z.of_nat (length q) <= 2 ^ 16.
Proof using Type.
  intros H. assert (q ⊆+ seq 0 (length (m_cpus s))) as Hs.
  { apply NoDup_submseteq; [apply H|]. intros i Hi. apply elem_of_seq. pose proof (li_cpus _ _ H i Hi). lia. }
  apply submseteq_length in Hs. rewrite length_seq in Hs. pose proof (li_small _ _ H). lia.
Qed.

(** A ticket is served exactly when its owner is at the front. *)
Lemma served_front s q k i : lock_inv s q -> q !! k = Some i ->
  (lk_serving (m_lock s) = u16 (lk_serving (m_lock s) + Z.of_nat k) <-> k = 0%nat).
Proof using Type.
  intros H Hk. apply lookup_lt_Some in Hk. pose proof (queue_length _ _ H). pose proof (li_serving _ _ H).
  set (v := lk_serving (m_lock s)) in *. assert (Z.of_nat k < 2 ^ 16) by lia.
  split; [|intros ->; rewrite u16_small; lia]. unfold u16. intros E.
  destruct (decide (v + Z.of_nat k < 2 ^ 16)) as [Hl|Hl].
  - rewrite Z.mod_small in E by lia. lia.
  - rewrite <- (Z.mod_unique (v + Z.of_nat k) (2 ^ 16) 1 (v + Z.of_nat k - 2 ^ 16)) in E by lia. lia.
Qed.

(** A processor's description survives a change of the lock by another one. *)
Lemma other_ok lk lk' q q' i c j :
  pc_ok lk q i c -> i <> j -> head q = Some j -> NoDup q ->
  lk_serving lk' = lk_serving lk -> q' = q -> pc_ok lk' q' i c.
Proof using Type.
  intros [H1 H2] Hij Hh Hnd Es ->. split; [|done]. destruct (c_pc c); rewrite ?Es; naive_solver.
Qed.

Lemma quiet_step s q i c lk' c' :
  lock_inv s q -> m_cpus s !! i = Some c -> pc_ok lk' q i c' ->
  lk_serving lk' = lk_serving (m_lock s) -> lk_ticket lk' = lk_ticket (m_lock s) ->
  lk' = m_lock s \/ head q = Some i ->
  lock_inv (mk_machine lk' (<[i := c']> (m_cpus s))) q.
Proof using Type.
  intros [H1 H2 H3 H4 H5 H6] Hc Hc' Es Et Hl. split; cbn [m_lock m_cpus]; rewrite ?length_insert, ?Es, ?Et; try done.
  intros j cj Hj. destruct (decide (j = i)) as [->|Hne].
  - rewrite list_lookup_insert_eq in Hj by (by eapply lookup_lt_Some). by injection Hj as <-.
  - rewrite list_lookup_insert_ne in Hj by done. specialize (H6 j cj Hj).
    destruct Hl as [->|Hh]; [done|]. by eapply other_ok.
Qed.

Lemma u16_shift a b : u16 (u16 (a + 1) + Z.of_nat b) = u16 (a + Z.of_nat (S b)).
Proof using Type. unfold u16. rewrite Zplus_mod_idemp_l. f_equal. lia. Qed.

Lemma join_step s q i rdx fl e :
  lock_inv s q -> m_cpus s !! i = Some (mk_cpu (Xadd rdx) fl e) ->
  lock_inv (mk_machine
    (mk_spinlock (u16 (lk_ticket (m_lock s) + 1)) (lk_serving (m_lock s)) (lk_cpu_id (m_lock s)) (lk_rflags (m_lock s)))
    (<[i := mk_cpu (Spin rdx (lk_ticket (m_lock s))) fl e]> (m_cpus s))) (q ++ [i]).
Proof using Type.
  intros [H1 H2 H3 H4 H5 H6] Hc. destruct (H6 i _ Hc) as [[Hni He] Hfl]. simpl in He, Hfl.
  assert (Hlt := lookup_lt_Some _ _ _ Hc).
  split; cbn [m_lock m_cpus lk_serving lk_ticket]; rewrite ?length_insert; try done.
  - apply NoDup_app. split_and!; [done| |apply NoDup_singleton]. set_solver.
  - intros j [Hj| ->%list_elem_of_singleton]%elem_of_app; auto.
  - rewrite H5, length_app. unfold u16. rewrite Zplus_mod_idemp_l. f_equal. simpl. lia.
  - intros j cj Hj. destruct (decide (j = i)) as [->|Hne].
    + rewrite list_lookup_insert_eq in Hj by done. injection Hj as <-. split; [|simpl; by intros; apply Hfl].
      simpl. split; [done|]. exists (length q). split; [by rewrite lookup_app_r, Nat.sub_diag|done].
    + rewrite list_lookup_insert_ne in Hj by done. destruct (H6 j cj Hj) as [Hp Hf]. split; [|done].
      assert (Hhd : forall x, head q = Some x -> head (q ++ [i]) = Some x) by (by destruct q).
      assert (Hnin : j ∉ q -> j ∉ q ++ [i]) by set_solver.
      destruct (c_pc cj); cbn [lk_serving lk_rflags lk_cpu_id] in *; try (destruct_and?; split_and?; by auto).
      destruct Hp as (-> & k & Hk & ->). split; [done|]. exists k. split; [by apply lookup_app_l_Some|done].
Qed.

Lemma leave_step s q i rdx fl e :
  lock_inv s q -> m_cpus s !! i = Some (mk_cpu (Rel_serve rdx) fl e) ->
  exists q0, q = i :: q0 /\ lock_inv (mk_machine
    (mk_spinlock (lk_ticket (m_lock s)) (u16 (lk_serving (m_lock s) + 1)) (lk_cpu_id (m_lock s)) (lk_rflags (m_lock s)))
    (<[i := mk_cpu (Rel_flags rdx) fl e]> (m_cpus s))) q0.
Proof using Type.
  intros [H1 H2 H3 H4 H5 H6] Hc. destruct (H6 i _ Hc) as [[Hh He] Hfl]. simpl in Hh, He, Hfl.
  destruct q as [|i' q0]; [done|]. injection Hh as ->. exists q0. split; [done|].
  apply NoDup_cons in H1 as [Hni H1]. assert (Hlt := lookup_lt_Some _ _ _ Hc).
  split; cbn [m_lock m_cpus lk_serving lk_ticket]; rewrite ?length_insert; try done.
  - intros j Hj. apply H2. by right.
  - unfold u16. apply Z.mod_pos_bound. lia.
  - by rewrite H5, u16_shift.
  - intros j cj Hj. destruct (decide (j = i)) as [->|Hne].
    + rewrite list_lookup_insert_eq in Hj by done. injection Hj as <-. split; [done|simpl; by intros; apply Hfl].
    + rewrite list_lookup_insert_ne in Hj by done. destruct (H6 j cj Hj) as [Hp Hf]. split; [|done].
      assert (Hnin : j ∉ i :: q0 -> j ∉ q0) by (intros Hj1 Hj2; apply Hj1; by right).
      destruct (c_pc cj); cbn [lk_serving lk_rflags lk_cpu_id head] in *;
        try (destruct_and?; split_and?; by auto || congruence).
      destruct Hp as (-> & [|k] & Hk & ->); [simpl in Hk; congruence|]. split; [done|].
      exists k. split; [done|by rewrite u16_shift].
Qed.

Lemma if_cleared x : Z.testbit (Z.clearbit x RFLAGS_IF_BIT) RFLAGS_IF_BIT = false.
Proof using Type. by rewrite Z.clearbit_eq. Qed.

(** Every step of the machine is a step of the queue or leaves it alone. *)
Lemma step_sim s q s' :
  lock_inv s q -> step s s' -> exists q', lock_inv s' q' /\ (q' = q \/ queue_step q q').
Proof using Type.
  intros Hinv Hst. destruct Hst as [i c lk' c' Hc Hstep|i c fl Hc Hout].
  2:{ exists q. split; [|by left]. apply (quiet_step s q i _ _ _ Hinv Hc); [|done|done|by left].
      destruct (li_pc _ _ Hinv i c Hc) as [Hp _]. rewrite Hout in Hp. by split. }
  destruct (li_pc _ _ Hinv i c Hc) as [Hp Hfl]. destruct c as [pc fl e]. unfold cpu_step in Hstep.
  destruct pc; cbn [c_pc c_rflags c_entry] in *; injection Hstep as <- <-.
  - exists q. split; [|by left]. apply (quiet_step s q i _ _ _ Hinv Hc); [|done|done|by left]. split; [done|]. intros _. apply if_cleared.
  - exists (q ++ [i]). split; [by apply join_step|]. right. by apply join, Hp.
  - exists q. split; [|by left]. apply (quiet_step s q i _ _ _ Hinv Hc); [|done|done|by left]. destruct Hp as (-> & k & Hk & ->).
    destruct (Z.eqb_spec (lk_serving (m_lock s)) (u16 (lk_serving (m_lock s) + Z.of_nat k))) as [E|E].
    + apply (served_front s q k i Hinv Hk) in E as ->. split; [|by simpl; intros; apply Hfl]. simpl.
      split; [by destruct q|done].
    + split; [|by simpl; intros; apply Hfl]. simpl. split; [done|]. by exists k.
  - exists q. split; [|by left]. destruct Hp as [Hh ->]. apply (quiet_step s q i _ _ _ Hinv Hc); [|done|done|by right].
    split; [done|by simpl; intros; apply Hfl].
  - exists q. split; [|by left]. destruct Hp as [Hh Hr]. apply (quiet_step s q i _ _ _ Hinv Hc); [|done|done|by right].
    split; [done|by simpl; intros; apply Hfl].
  - exists q. split; [|by left]. destruct Hp as (Hh & Hr & _). apply (quiet_step s q i _ _ _ Hinv Hc); [|done|done|by left].
    split; [done|by simpl; intros; apply Hfl].
  - exists q. split; [|by left]. destruct Hp as [Hh Hr]. apply (quiet_step s q i _ _ _ Hinv Hc); [|done|done|by right].
    split; [done|by simpl; intros; apply Hfl].
  - destruct (leave_step s q i rdx fl e Hinv Hc) as (q0 & -> & Hinv'). exists q0. split; [done|]. right. constructor.
  - exists q. split; [|by left]. destruct Hp as [Hn ->]. apply (quiet_step s q i _ _ _ Hinv Hc); [|done|done|by left]. by split.
Qed.

Lemma initial_inv s : initial s -> lock_inv s [].
Proof using Type.
  intros (El & Hout & Hn). split; rewrite ?El; try done.
  - apply NoDup_nil_2.
  - intros i Hi. by apply elem_of_nil in Hi.
  - intros i c Hc. unfold pc_ok. rewrite (Hout i c Hc). split; [|done]. set_solver.
Qed.

Lemma reachable_inv s0 s : initial s0 -> rtc step s0 s -> exists q, lock_inv s q /\ rtc queue_step [] q.
Proof using Type.
  intros Hi Hr. assert (H0 : exists q, lock_inv s0 q /\ rtc queue_step [] q)
    by (exists []; split; [by apply initial_inv|done]).
  clear Hi. induction Hr as [|s0 s1 s2 Hst _ IH]; [done|]. apply IH. destruct H0 as (q & Hq & Hr).
  destruct (step_sim _ _ _ Hq Hst) as (q' & Hq' & [->|Hs]); [by exists q|].
  exists q'. split; [done|]. by eapply rtc_r.
Qed.

(** C15. The ticket lock refines a queue of processors: for any number of processors
    up to [2^16] and any interleaving of their instructions from a fresh lock, each
    state has a queue such that every step joins it at the end, leaves it from the
    front or does not change it, a processor spins exactly while it is in the queue
    and only the front processor can be past the spin loop.  Wrapping of the 16-bit
    counters included. *)
Theorem ticket_lock_refines_queue s0 s s' :
  initial s0 -> rtc step s0 s -> step s s' ->
  exists q q', lock_inv s q /\ lock_inv s' q' /\ rtc queue_step [] q /\ (q' = q \/ queue_step q q').
Proof using Type.
  intros Hi Hr Hst. destruct (reachable_inv s0 s Hi Hr) as (q & Hq & Hrq).
  destruct (step_sim s q s' Hq Hst) as (q' & Hq' & Hs). by exists q, q'.
Qed.

(** C14. Mutual exclusion on any number of processors up to [2^16]: no two processors
    are between the end of the spin loop and the release of the lock; the one in
    its critical section has interrupts off and is the owner the lock records; and
    when it restores RFLAGS after the release, they are the flags it had before it
    called [spinlock_acquire]. *)
Theorem ticket_lock_mutual_exclusion s0 s i j ci cj :
  initial s0 -> rtc step s0 s -> m_cpus s !! i = Some ci -> m_cpus s !! j = Some cj ->
  (holds_lock ci = true -> holds_lock cj = true -> i = j) /\
  (c_pc ci = Crit -> lk_cpu_id (m_lock s) = apic i /\ Z.testbit (c_rflags ci) RFLAGS_IF_BIT = false) /\
  (forall rdx, c_pc ci = Rel_flags rdx -> rdx = c_entry ci).
Proof using Type.
  intros Hi0 Hr Hi Hj. destruct (reachable_inv s0 s Hi0 Hr) as (q & Hq & _).
  pose proof (li_pc _ _ Hq i ci Hi) as Pi. pose proof (li_pc _ _ Hq j cj Hj) as Pj. split_and!.
  - intros H1 H2. apply (holder_head _ _ _ _ Pi) in H1. apply (holder_head _ _ _ _ Pj) in H2. congruence.
  - intros E. destruct Pi as [Pi Hf]. rewrite E in Pi, Hf. split; [apply Pi|by apply Hf].
  - intros rdx E. destruct Pi as [Pi _]. rewrite E in Pi. apply Pi.
Qed.

(** C36. The lock never gets stuck: whenever processors wait and none holds the lock,
    the next compare of the processor at the front of the queue succeeds, and no
    other processor's does. *)
Theorem ticket_lock_front_enters s0 s i c rdx ax :
  initial s0 -> rtc step s0 s -> m_cpus s !! i = Some c -> c_pc c = Spin rdx ax ->
  (forall j cj, m_cpus s !! j = Some cj -> holds_lock cj = false) ->
  exists j cj, m_cpus s !! j = Some cj /\
    c_pc (cpu_step (apic j) (m_lock s) cj).2 = Locked (c_entry cj) /\
    forall j' cj', m_cpus s !! j' = Some cj' -> j' <> j ->
      holds_lock (cpu_step (apic j') (m_lock s) cj').2 = false.
Proof using Type.
  intros Hi0 Hr Hi Hpc Hno. destruct (reachable_inv s0 s Hi0 Hr) as (q & Hq & _).
  destruct (li_pc _ _ Hq i c Hi) as [Pi _]. rewrite Hpc in Pi. destruct Pi as (_ & k & Hk & _).
  destruct q as [|j q0] eqn:Eq; [done|]. rewrite <- Eq in *.
  assert (Hjq : q !! 0%nat = Some j) by (by subst q).
  destruct (m_cpus s !! j) as [cj|] eqn:Hj.
  2:{ apply lookup_ge_None in Hj. assert (j ∈ q) as Hin by (subst q; left). apply (li_cpus _ _ Hq) in Hin. lia. }
  exists j, cj. split; [done|]. pose proof (li_pc _ _ Hq j cj Hj) as [Pj _].
  assert (Hjin : j ∈ q) by (subst q; left). pose proof (Hno j cj Hj) as Hnj. unfold holds_lock in Hnj.
  unfold cpu_step. destruct (c_pc cj) eqn:Epc; try done; try (by destruct Pj).
  destruct Pj as (-> & k' & Hk' & ->).
  assert (k' = 0%nat) as -> by (by eapply NoDup_lookup; [apply Hq|..]).
  rewrite (proj2 (Z.eqb_eq _ _)) by (by apply (served_front s q 0 j Hq)). split; [done|].
  intros j' cj' Hj' Hne. pose proof (li_pc _ _ Hq j' cj' Hj') as [Pj' _]. pose proof (Hno j' cj' Hj') as Hnj'.
  unfold holds_lock in *. destruct (c_pc cj') eqn:Epc'; try done. cbn [snd c_pc].
  destruct Pj' as (-> & k2 & Hk2 & ->). destruct (Z.eqb_spec (lk_serving (m_lock s)) (u16 (lk_serving (m_lock s) + Z.of_nat k2))) as [E|]; [|done].
  apply (served_front s q k2 j' Hq Hk2) in E as ->. congruence.
Qed.
End machine.

(** ** One processor *)

(** [n] steps of a single processor. *)
Fixpoint cpu_steps (n : nat) (apic : Z) (lk : spinlock_t) (c : cpu) : spinlock_t * cpu :=
  match n with
  | O => (lk, c)
  | S n' => let '(lk', c') := cpu_step apic lk c in cpu_steps n' apic lk' c'
  end.

(** The routines the rest of the development runs are these instructions: with
    the lock free, five steps from the call of [spinlock_acquire] reach the critical
    section, four from the call of [spinlock_release] leave it, and the lock and
    RFLAGS are those of the one-processor versions. *)
Theorem one_processor_spinlock id s e :
  lock_free s id ->
  let apic := Z.land (Z.shiftr (k_cpuid_ebx s) 24) 0xff in
  exists s1, spinlock_acquire id s = Ret tt s1 /\
    cpu_steps 5 apic (k_locks s id) (mk_cpu Out (k_rflags s) e) =
      (k_locks s1 id, mk_cpu Crit (k_rflags s1) (k_rflags s)) /\
  exists s2, spinlock_release id s1 = Ret tt s2 /\ k_rflags s2 = k_rflags s /\
    cpu_steps 4 apic (k_locks s1 id) (mk_cpu Crit (k_rflags s1) (k_rflags s)) =
      (k_locks s2 id, mk_cpu Out (k_rflags s2) (k_rflags s)).
Proof.
  intros Hf apic. unfold lock_free in Hf. unfold spinlock_acquire. rewrite Hf, Z.eqb_refl.
  eexists. split; [reflexivity|]. split.
  - cbn [cpu_steps cpu_step c_pc c_rflags c_entry lk_serving lk_ticket lk_cpu_id lk_rflags].
    rewrite Hf, Z.eqb_refl. cbn [k_locks k_rflags set_lock]. by rewrite decide_True.
  - eexists. split; [reflexivity|]. cbn [k_locks k_rflags set_lock]. rewrite !decide_True by done. done.
Qed.

Lemma one_processor_spinlock_witness :
  let s := mk_kstate (fun _ => 0) (mk_buddy_metadata 0 0 0 0 (fun _ => 0) (fun _ => 0) (fun _ => 0))
    (fun _ => init_lock) 0x202 0x03000000 0 [] 0 in
  exists s1, spinlock_acquire buddy_lock s = Ret tt s1 /\
    cpu_steps 5 3 init_lock (mk_cpu Out 0x202 0) = (k_locks s1 buddy_lock, mk_cpu Crit (k_rflags s1) 0x202).
Proof.
  intros s. destruct (one_processor_spinlock buddy_lock s 0 eq_refl) as (s1 & E1 & E2 & _).
  exists s1. split; [exact E1|exact E2].
Defined.

(** ** Two processors *)

Definition two_cpus : machine := mk_machine init_lock [mk_cpu Out 0x202 0; mk_cpu Out 0x246 0].
Definition ids (i : nat) : Z := Z.of_nat i.

Lemma two_cpus_initial : initial two_cpus.
Proof. split_and!; [done| |done]. intros [|[|i]] c; simpl; intros [= <-]; done. Qed.

(** Processor 0 is in its critical section and processor 1 spins. *)
Definition contended : machine := run ids [0; 0; 1; 0; 1; 0; 0; 1]%nat two_cpus.

Lemma ticket_lock_refines_queue_witness :
  exists q q', lock_inv ids contended q /\ lock_inv ids (run ids [1%nat] contended) q' /\
    (q' = q \/ queue_step q q').
Proof.
  destruct (ticket_lock_refines_queue ids two_cpus contended (run ids [1%nat] contended) two_cpus_initial)
    as (q & q' & H1 & H2 & _ & H3).
  - apply run_reachable.
  - eapply (step_code ids contended 1); reflexivity.
  - exists q, q'. split; [exact H1|]. split; [exact H2|exact H3].
Defined.

Lemma ticket_lock_mutual_exclusion_witness :
  c_pc <$> m_cpus contended = [Crit; Spin 0x246 1] /\
  (forall c0 c1, m_cpus contended = [c0; c1] -> holds_lock c0 = true -> holds_lock c1 = true -> False).
Proof.
  split; [reflexivity|]. intros c0 c1 E H0 H1.
  destruct (ticket_lock_mutual_exclusion ids two_cpus contended 0 1 c0 c1 two_cpus_initial) as [H _].
  - apply run_reachable.
  - by rewrite E.
  - by rewrite E.
  - by specialize (H H0 H1).
Defined.

(** Both spin and nobody holds the lock. *)
Definition both_spin : machine := run ids [1; 0; 0; 1]%nat two_cpus.

Lemma ticket_lock_front_enters_witness :
  exists j cj, m_cpus both_spin !! j = Some cj /\
    c_pc (cpu_step (ids j) (m_lock both_spin) cj).2 = Locked (c_entry cj).
Proof.
  destruct (ticket_lock_front_enters ids two_cpus both_spin 1 (mk_cpu (Spin 0x246 1) 0x46 0x246) 0x246 1
    two_cpus_initial) as (j & cj & H1 & H2 & _).
  - apply run_reachable.
  - reflexivity.
  - reflexivity.
  - intros [|[|j]] cj; vm_compute; intros [= <-]; reflexivity.
  - exists j, cj. split; [exact H1|exact H2].
Defined.
