(* ===== verification/Kmath.v ===== *)
(** * kmath.c

    The four arithmetic helpers, at the width of their C types, and what they
    compute: [klog2] is the binary logarithm, [round_up_pow2] the least power
    of two not below its argument, [align_up] the least multiple, and
    [buddy_order] the order of a page count. *)

From S2P Require Import Prelude State.

(** [((x + y - 1) / y) * y] on 32-bit operands. *)
Definition align_up (x y : Z) : Z := u32 ((u32 (x + y - 1) / y) * y).

(** [while (x >>= 1) r++;] — a 64-bit [x] is zero after 64 shifts. *)
Fixpoint klog2_loop (fuel : nat) (x r : Z) : option Z :=
  match fuel with
  | O => None
  | S f => let x := Z.shiftr x 1 in
           if x =? 0 then Some r else klog2_loop f x (u32 (r + 1))
  end.
Definition klog2 (x : Z) : option Z := klog2_loop 64 x 0.

Definition round_up_pow2 (x : Z) : Z :=
  if x =? 0 then 1 else
  let x := u32 (x - 1) in
  let x := Z.lor x (Z.shiftr x 1) in
  let x := Z.lor x (Z.shiftr x 2) in
  let x := Z.lor x (Z.shiftr x 4) in
  let x := Z.lor x (Z.shiftr x 8) in
  let x := Z.lor x (Z.shiftr x 16) in
  u32 (x + 1).

(** [while ((1ULL << order) < pages) order++;] *)
Fixpoint buddy_order_loop (fuel : nat) (pages order : Z) : option Z :=
  match fuel with
  | O => None
  | S f => if shl64 1 order <? pages then buddy_order_loop f pages (u32 (order + 1)) else Some order
  end.
Definition buddy_order (size : Z) : option Z := buddy_order_loop 64 (size / PAGE_SIZE) 0.

(** ** Logarithms *)

Lemma klog2_loop_log2 fuel x r :
  0 <= x < 2 ^ Z.of_nat fuel -> 0 <= r -> r + Z.log2 x < 2 ^ 32 -> (0 < fuel)%nat ->
  klog2_loop fuel x r = Some (r + Z.log2 x).
Proof.
  revert x r. induction fuel as [|f IH]; intros x r Hx Hr Hb Hf; [lia|].
  cbn [klog2_loop]. cbv zeta. rewrite Z.shiftr_div_pow2 by lia. change (2 ^ 1) with 2.
  destruct (Z.eqb_spec (x / 2) 0) as [H0|H0].
  - assert (x = 0 \/ x = 1) as [-> | ->] by dlia; simpl; f_equal; lia.
  - assert (2 <= x) by dlia. assert (Hlog : Z.log2 x = 1 + Z.log2 (x / 2)).
    { change (x / 2) with (x / 2 ^ 1).
      rewrite <- (Z.shiftr_div_pow2 x 1), Z.log2_shiftr by lia.
      assert (1 <= Z.log2 x) by (apply (Z.log2_le_mono 2); lia). lia. }
    assert (0 <= Z.log2 (x / 2)) by apply Z.log2_nonneg.
    assert (Hlt : x / 2 < 2 ^ Z.of_nat f).
    { apply Z.div_lt_upper_bound; [lia|]. rewrite Nat2Z.inj_succ, Z.pow_succ_r in Hx; lia. }
    unfold u32. rewrite Z.mod_small by lia. assert (0 <= x / 2) by dlia.
    rewrite IH; try lia.
    + f_equal; lia.
    + destruct f; [simpl in Hlt; lia|lia].
Qed.

Lemma klog2_log2 x : 0 <= x < 2 ^ 64 -> klog2 x = Some (Z.log2 x).
Proof.
  intros Hx. unfold klog2. rewrite klog2_loop_log2; try lia; [done|].
  destruct (decide (x = 0)) as [->|]; [simpl; lia|].
  assert (Z.log2 x < 64) by (apply Z.log2_lt_pow2; lia). lia.
Qed.

Lemma shl64_one k : 0 <= k < 64 -> shl64 1 k = 2 ^ k.
Proof.
  intros Hk. unfold shl64, u64. rewrite (Z.mod_small k) by lia.
  rewrite Z.shiftl_1_l, Z.mod_small; [done|].
  split; [apply Z.pow_nonneg; lia|apply Z.pow_lt_mono_r; lia].
Qed.

Lemma buddy_order_loop_up fuel pages order :
  1 <= pages <= 2 ^ 63 -> 0 <= order <= Z.log2_up pages ->
  Z.log2_up pages - order < Z.of_nat fuel ->
  buddy_order_loop fuel pages order = Some (Z.log2_up pages).
Proof.
  intros Hp. revert order. induction fuel as [|f IH]; intros order Ho Hf; [lia|].
  assert (Z.log2_up pages <= 63) by (apply Z.log2_up_le_pow2; lia).
  cbn [buddy_order_loop]. rewrite shl64_one by lia.
  destruct (Z.ltb_spec (2 ^ order) pages) as [Hlt|Hge].
  - assert (order < Z.log2_up pages) by (apply Z.log2_up_lt_pow2; lia).
    unfold u32. rewrite Z.mod_small by lia. apply IH; lia.
  - assert (Z.log2_up pages <= order) by (apply Z.log2_up_le_pow2; lia). f_equal. lia.
Qed.

Lemma buddy_order_log2_up size :
  0 <= size < 2 ^ 64 -> buddy_order size = Some (Z.log2_up (size / PAGE_SIZE)).
Proof.
  intros Hs. unfold buddy_order, PAGE_SIZE.
  destruct (decide (size < 0x1000)).
  { rewrite Z.div_small by lia. reflexivity. }
  apply buddy_order_loop_up.
  - split; [apply Z.div_le_lower_bound; lia|]. apply Z.div_le_upper_bound; lia.
  - pose proof (Z.log2_up_nonneg (size / 0x1000)). lia.
  - enough (Z.log2_up (size / 0x1000) <= 63) by lia.
    apply Z.log2_up_le_pow2; [apply Z.div_str_pos; lia|].
    apply Z.div_le_upper_bound; lia.
Qed.

(** ** Rounding *)

Lemma align_up_spec x y :
  0 <= x -> 0 < y -> x + y - 1 < 2 ^ 32 ->
  x <= align_up x y < x + y /\ (y | align_up x y).
Proof.
  intros Hx Hy Hb. unfold align_up, u32.
  rewrite (Z.mod_small (x + y - 1)) by lia.
  pose proof (Z.div_mod (x + y - 1) y ltac:(lia)) as Hd.
  pose proof (Z.mod_pos_bound (x + y - 1) y Hy) as Hm.
  set (q := (x + y - 1) / y) in *.
  rewrite Z.mod_small by nia. split; [nia|]. exists q. lia.
Qed.

(** The bits [n - k + 1 .. n] of [x] are set and [n] is its top bit. *)
Definition top_ones (x n k : Z) : Prop :=
  0 <= n /\ 0 <= x /\
  (forall i, 0 <= i -> n - k < i <= n -> Z.testbit x i = true) /\
  (forall i, n < i -> Z.testbit x i = false).

Lemma top_ones_smear x n k :
  0 < k -> top_ones x n k -> top_ones (Z.lor x (Z.shiftr x k)) n (2 * k).
Proof.
  intros Hk (Hn & Hx & Hset & Hclr). split; [done|]. split.
  { apply Z.lor_nonneg. split; [done|]. by apply Z.shiftr_nonneg. }
  split; intros i Hi.
  - intros Hr. rewrite Z.lor_spec, Z.shiftr_spec by lia.
    destruct (decide (n - k < i)).
    + by rewrite Hset by lia.
    + rewrite (Hset (i + k)) by lia. by rewrite orb_true_r.
  - rewrite Z.lor_spec, Z.shiftr_spec by lia. by rewrite !Hclr by lia.
Qed.

Lemma top_ones_log2 x : 0 < x -> top_ones x (Z.log2 x) 1.
Proof.
  intros Hx. pose proof (Z.log2_nonneg x). split; [done|]. split; [lia|]. split; intros i Hi.
  - intros. replace i with (Z.log2 x) by lia. apply Z.bit_log2; lia.
  - apply Z.bits_above_log2; lia.
Qed.

Lemma top_ones_full x n k : n < k -> top_ones x n k -> x = Z.ones (n + 1).
Proof.
  intros Hk (Hn & Hx & Hset & Hclr). apply Z.bits_inj'. intros i Hi.
  destruct (decide (i <= n)).
  - rewrite Hset by lia. by rewrite Z.ones_spec_low by lia.
  - rewrite Hclr by lia. by rewrite Z.ones_spec_high by lia.
Qed.

Lemma round_up_pow2_log2_up x :
  0 < x < 2 ^ 32 -> round_up_pow2 x = u32 (2 ^ Z.log2_up x).
Proof.
  intros Hx. unfold round_up_pow2. destruct (Z.eqb_spec x 0); [lia|]. cbv zeta.
  assert (Hsub : u32 (x - 1) = x - 1) by (apply Z.mod_small; lia). rewrite Hsub.
  destruct (decide (x = 1)) as [->|Hx1]; [reflexivity|].
  set (y := x - 1). assert (0 < y < 2 ^ 32) as [Hy Hy2] by (unfold y; lia).
  assert (Hup : Z.log2_up x = Z.log2 y + 1).
  { unfold y. rewrite Z.sub_1_r, Z.log2_up_eqn by lia. lia. }
  pose proof (top_ones_log2 y Hy) as H.
  apply (top_ones_smear _ _ 1) in H; [|lia]. apply (top_ones_smear _ _ 2) in H; [|lia].
  apply (top_ones_smear _ _ 4) in H; [|lia]. apply (top_ones_smear _ _ 8) in H; [|lia].
  apply (top_ones_smear _ _ 16) in H; [|lia].
  assert (Z.log2 y < 32) by (apply Z.log2_lt_pow2; lia).
  apply top_ones_full in H; [|lia]. rewrite H, Hup, Z.ones_equiv. f_equal.
  pose proof (Z.log2_nonneg y). lia.
Qed.

(** [round_up_pow2] returns the least power of two that is not below its
    argument, for every argument up to 2^31; above that the power of two does
    not fit 32 bits and the result is 0. *)
Theorem round_up_pow2_least x :
  0 < x < 2 ^ 32 ->
  (x <= 2 ^ 31 ->
     exists n, 0 <= n <= 31 /\ round_up_pow2 x = 2 ^ n /\ x <= 2 ^ n /\
               forall k, 0 <= k -> x <= 2 ^ k -> 2 ^ n <= 2 ^ k) /\
  (2 ^ 31 < x -> round_up_pow2 x = 0).
Proof.
  intros Hx. rewrite round_up_pow2_log2_up by done. split; intros Hb.
  - exists (Z.log2_up x).
    assert (0 <= Z.log2_up x <= 31) as Hn.
    { split; [apply Z.log2_up_nonneg|]. apply Z.log2_up_le_pow2; lia. }
    split_and!; try lia.
    + unfold u32. apply Z.mod_small. split; [apply Z.pow_nonneg; lia|].
      apply Z.pow_lt_mono_r; lia.
    + apply Z.log2_up_le_pow2; lia.
    + intros k Hk Hxk. apply Z.pow_le_mono_r; [lia|]. apply Z.log2_up_le_pow2; lia.
  - assert (Z.log2_up x = 32) as ->; [|reflexivity].
    assert (Z.log2_up x <= 32) by (apply Z.log2_up_le_pow2; lia).
    assert (31 < Z.log2_up x) by (apply Z.log2_up_lt_pow2; lia). lia.
Qed.

Lemma round_up_pow2_least_witness :
  exists n, round_up_pow2 1000 = 2 ^ n /\ 1000 <= 2 ^ n.
Proof.
  destruct (proj1 (round_up_pow2_least 1000 ltac:(lia)) ltac:(lia)) as (n & _ & H & H' & _).
  eauto.
Defined.
