(* ===== verification/Buddy.v ===== *)
(** * The buddy allocator of phys_kmalloc.c: definitions

    [__init_buddy], [toggle_bitmap], [buddy_kalloc] and [buddy_kfree].  The
    free-list links live inside the free pages, so they are words of the
    shared memory; the heads, the bitmap and the offsets are the arrays of the
    metadata record.  Every loop is a function on the number of turns it can
    take; the order searches have as many turns as an 8-bit counter has
    values. *)

From S2P Require Import Prelude State Kmath.

(** An entry of the BIOS e820 memory map. *)
Record mmap_entry_0xe820 : Type := mk_mmap_entry {
  me_base_address : ptr;
  me_chunk_size : Z;
  me_type : Z;
  me_ACPI_ext_attr : Z;
}.

Definition ONE_MB_ADDRESS : Z := 0x100000.

(** [sizeof(buddy_metadata)] (packed) and the size of a pointer. *)
Definition sizeof_buddy_metadata : Z := 78.
Definition sizeof_pointer : Z := 8.

(** Where the metadata ends: the struct, the heads of the free lists and the bitmap,
    one bit for each page of a region of [size] bytes, lie behind the kernel image. *)
Definition metadata_end (kernel_end size : Z) : Z :=
  kernel_end + sizeof_buddy_metadata + 11 * sizeof_pointer + (size / PAGE_SIZE + 7) / 8.

(** [buddy_chunk]: the two links at the start of a free block. *)
Definition off_next : Z := 0.
Definition off_prev : Z := 8.

Definition NUM_MAX_ORDER (md : buddy_metadata) : Z := bm_max_order md + 1.

(** [(1ULL << order) * PAGE_SIZE] *)
Definition chunk_bytes (order : Z) : Z := u64 (shl64 1 order * PAGE_SIZE).

(** ** Initialisation *)

(** [while (idx + 1 < mmap_entry_count && ...)]: swallow the entries that
    continue the run; returns its size and the entries behind it. *)
Fixpoint coalesce_e820 (base size : Z) (rest : list mmap_entry_0xe820) :
    Z * list mmap_entry_0xe820 :=
  match rest with
  | e :: rest' =>
      if (me_type e =? 1) && (me_base_address e =? u64 (base + size))
      then coalesce_e820 base (u64 (size + me_chunk_size e)) rest'
      else (size, rest)
  | [] => (size, [])
  end.

Fixpoint best_e820 (fuel : nat) (entries : list mmap_entry_0xe820) (best_base best_size : Z) : Z * Z :=
  match fuel, entries with
  | S f, e :: rest =>
      if negb (me_type e =? 1) then best_e820 f rest best_base best_size else
      let '(size, rest') := coalesce_e820 (me_base_address e) (me_chunk_size e) rest in
      if size >? best_size then best_e820 f rest' (me_base_address e) size
      else best_e820 f rest' best_base best_size
  | _, _ => (best_base, best_size)
  end.

(** The managed region: the best run, moved above the kernel and its metadata,
    with its start aligned up to the largest order and its size to pages. *)
Definition clamp_region (kernel_end num_max_order best_base best_size : Z) : Z * Z :=
  let worst_case_bitmap := (best_size / PAGE_SIZE) / 8 in
  let after_metadata := u64 (kernel_end + sizeof_buddy_metadata +
                             num_max_order * sizeof_pointer + worst_case_bitmap) in
  let lower_bound := if after_metadata >? ONE_MB_ADDRESS then after_metadata else ONE_MB_ADDRESS in
  if (best_base <? lower_bound) && (lower_bound <? u64 (best_base + best_size))
  then (lower_bound, u64 (best_size - (lower_bound - best_base)))
  else (best_base, best_size).

Definition align_region (max_order base size : Z) : Z * Z :=
  let max_order_align := chunk_bytes max_order in
  let align := Z.land (u64 (max_order_align - Z.land base (max_order_align - 1)))
                      (max_order_align - 1) in
  (u64 (base + align), Z.land (u64 (size - align)) (not64 (PAGE_SIZE - 1))).

(** The inner search of the counting loop; [min_order - 1] if no order fits. *)
Fixpoint fitting_order (turns : nat) (order addr remaining : Z) : Z :=
  match turns with
  | O => order
  | S t =>
      let cb := chunk_bytes order in
      if (cb <=? remaining) && (Z.land addr (cb - 1) =? 0) then order
      else fitting_order t (order - 1) addr remaining
  end.

Fixpoint count_chunks (fuel : nat) (min_order max_order addr remaining : Z) (counts : Z -> Z) :
    option (Z -> Z) :=
  if remaining <? PAGE_SIZE then Some counts else
  match fuel with
  | O => None
  | S f =>
      let order := fitting_order (Z.to_nat (max_order - min_order + 1)) max_order addr remaining in
      if order <? min_order then Some counts else
      count_chunks f min_order max_order
        (u64 (addr + chunk_bytes order)) (u64 (remaining - chunk_bytes order))
        counts.[order <- u32 (counts order + 1)]
  end.

(** [for (i = 0; i < count; i++)]: link the chunks of one order, laid out one
    after the other; returns the address behind the last. *)
Fixpoint link_chunks (turns : nat) (i count order : Z) (cur : ptr) (m : mem) : mem * ptr :=
  match turns with
  | O => (m, cur)
  | S t =>
      let next_chunk := u64 (cur + chunk_bytes order) in
      let m := m.[cur + off_next <- if i =? u32 (count - 1) then NULL else next_chunk] in
      let m := m.[cur + off_prev <- if i =? 0 then NULL else u64 (cur - chunk_bytes order)] in
      link_chunks t (i + 1) count order next_chunk m
  end.

(** [for (order = max_order; order >= 0; order--)] *)
Fixpoint link_orders (turns : nat) (order : Z) (counts : Z -> Z) (cur : ptr) (m : mem)
    (heads : Z -> ptr) : mem * (Z -> ptr) :=
  match turns with
  | O => (m, heads)
  | S t =>
      if counts order =? 0 then link_orders t (order - 1) counts cur m heads else
      let '(m', cur') := link_chunks (Z.to_nat (counts order)) 0 (counts order) order cur m in
      link_orders t (order - 1) counts cur' m' heads.[order <- cur]
  end.

Fixpoint fill_offsets (turns : nat) (k num_pages : Z) (offs : Z -> Z) : Z -> Z :=
  match turns with
  | O => offs
  | S t => fill_offsets t (k + 1) num_pages
             offs.[k <- u32 (offs (k - 1) + u32 (Z.shiftr num_pages k))]
  end.

(** [__init_buddy]; the two screen messages are left out.  [entries] is the
    e820 map the boot loader left ([mmap_entry_count] of them). *)
Definition __init_buddy (kernel_end : ptr) (entries : list mmap_entry_0xe820) : cmd kstate unit :=
  spinlock_init buddy_lock;;
  let! md := gets k_buddy in
  let max_order := 10 in
  let num_max_order := max_order + 1 in
  let heads := fill (bm_free_lists md) 0 num_max_order NULL in
  let '(best_base, best_size) := best_e820 (length entries) entries 0 0 in
  let '(best_base, best_size) := clamp_region kernel_end num_max_order best_base best_size in
  let '(best_base, best_size) := align_region max_order best_base best_size in
  let num_pages := best_size / PAGE_SIZE in
  let! counts := of_loop (count_chunks (Z.to_nat num_pages) 0 max_order best_base best_size
                            (fun _ => 0)) in
  let! m := gets k_mem in
  let '(m', heads') := link_orders (Z.to_nat num_max_order) max_order counts best_base m heads in
  let bitmap := fill (bm_bitmap md) 0 (num_pages / 8) 0 in
  let offs := (bm_order_offsets md).[0 <- 0] in
  let offs := fill_offsets (Z.to_nat max_order) 1 num_pages offs in
  modify (set_mem m');;
  modify (set_buddy (mk_buddy_metadata best_base best_size 0 max_order heads' bitmap offs)).

(** ** The bitmap *)

Definition bitmap_bit_pos (md : buddy_metadata) (addr order : Z) : Z :=
  let block_idx := u32 (Z.shiftr (u64 (addr - bm_base_address md)) (12 + order)) in
  let pair_idx := Z.shiftr block_idx 1 in
  u32 (bm_order_offsets md order + pair_idx).

Definition flip_bit (md : buddy_metadata) (pos : Z) : buddy_metadata :=
  set_bitmap (bm_bitmap md).[pos / 8 <- Z.lxor (bm_bitmap md (pos / 8)) (Z.shiftl 1 (pos mod 8))] md.

Definition read_bit (md : buddy_metadata) (pos : Z) : Z :=
  Z.land (Z.shiftr (bm_bitmap md (pos / 8)) (pos mod 8)) 1.

Definition toggle_bitmap (addr order : Z) : cmd kstate Z :=
  let! md := gets k_buddy in
  let bit_pos := bitmap_bit_pos md addr order in
  spinlock_acquire buddy_lock;;
  modify (fun s => set_buddy (flip_bit (k_buddy s) bit_pos) s);;
  let! r := gets (fun s => read_bit (k_buddy s) bit_pos) in
  spinlock_release buddy_lock;;
  ret r.

(** ** Free lists *)

(** Take the head of list [idx]. *)
Definition pop_chunk (idx : Z) (m : mem) (heads : Z -> ptr) : ptr * mem * (Z -> ptr) :=
  let chunk := heads idx in
  let heads := heads.[idx <- m (chunk + off_next)] in
  let m := if m (chunk + off_next) =? NULL then m
           else m.[m (chunk + off_next) + off_prev <- NULL] in
  (chunk, m.[chunk + off_next <- NULL], heads).

(** Put [block] at the head of list [k]. *)
Definition push_chunk (k : Z) (block : ptr) (m : mem) (heads : Z -> ptr) : mem * (Z -> ptr) :=
  let m := m.[block + off_prev <- NULL] in
  let m := m.[block + off_next <- heads k] in
  let m := if m (block + off_next) =? NULL then m
           else m.[m (block + off_next) + off_prev <- block] in
  (m, heads.[k <- block]).

(** Unlink [buddy] from wherever it is in list [k]. *)
Definition unlink_chunk (k : Z) (buddy : ptr) (m : mem) (heads : Z -> ptr) : mem * (Z -> ptr) :=
  let heads' := if m (buddy + off_prev) =? NULL then heads.[k <- m (buddy + off_next)] else heads in
  let m := if m (buddy + off_prev) =? NULL then m
           else m.[m (buddy + off_prev) + off_next <- m (buddy + off_next)] in
  let m := if m (buddy + off_next) =? NULL then m
           else m.[m (buddy + off_next) + off_prev <- m (buddy + off_prev)] in
  let m := m.[buddy + off_next <- NULL] in
  (m.[buddy + off_prev <- NULL], heads').

(** Run a free-list step on the state. *)
Definition on_lists (f : mem -> (Z -> ptr) -> mem * (Z -> ptr)) : cmd kstate unit :=
  modify (fun s => let '(m, h) := f (k_mem s) (bm_free_lists (k_buddy s)) in
                   set_buddy (set_free_lists h (k_buddy s)) (set_mem m s)).

(** [for (level = idx; level > order; level--)]: hand the upper halves back. *)
Fixpoint split_chunk (turns : nat) (level : Z) (chunk : ptr) (m : mem) (heads : Z -> ptr) :
    mem * (Z -> ptr) :=
  match turns with
  | O => (m, heads)
  | S t =>
      let buddy := u64 (chunk + chunk_bytes (level - 1)) in
      let '(m', heads') := push_chunk (level - 1) buddy m heads in
      split_chunk t (level - 1) chunk m' heads'
  end.

(** ** Allocation *)

(** [while (size > (1ULL << order) * PAGE_SIZE) order++;] *)
Fixpoint order_loop (fuel : nat) (size order : Z) : option Z :=
  match fuel with
  | O => None
  | S f => if size >? chunk_bytes order then order_loop f size (u8 (order + 1)) else Some order
  end.

(** An 8-bit order takes 256 values: a loop that has not left by then has seen
    each of them and goes round for ever. *)
Definition order_of_size (size : Z) : option Z := order_loop 256 size 0.

(** [for (idx = order; idx < NUM_MAX_ORDER; idx++)] *)
Fixpoint kalloc_scan (turns : nat) (order idx : Z) : cmd kstate ptr :=
  match turns with
  | O => ret NULL
  | S t =>
      spinlock_acquire buddy_lock;;
      let! head := gets (fun s => bm_free_lists (k_buddy s) idx) in
      if head =? NULL then
        spinlock_release buddy_lock;;
        kalloc_scan t order (idx + 1)
      else
        let! chunk := gets (fun s => (pop_chunk idx (k_mem s) (bm_free_lists (k_buddy s))).1.1) in
        on_lists (fun m h => let '(_, m', h') := pop_chunk idx m h in (m', h'));;
        on_lists (split_chunk (Z.to_nat (idx - order)) idx chunk);;
        spinlock_release buddy_lock;;
        toggle_bitmap chunk order;;
        ret chunk
  end.

Definition buddy_kalloc (size : Z) : cmd kstate ptr :=
  let! md := gets k_buddy in
  let! order := of_loop (order_of_size size) in
  if order >? bm_max_order md then ret NULL else
  kalloc_scan (Z.to_nat (NUM_MAX_ORDER md - order)) order order.

(** ** Freeing *)

(** [while (order < max_order)]: merge with the buddy while the pair's bit is 0
    after the toggle. *)
Fixpoint kfree_coalesce (turns : nat) (chunk : ptr) (order : Z) : cmd kstate (ptr * Z) :=
  match turns with
  | O => ret (chunk, order)
  | S t =>
      let! bit := toggle_bitmap chunk order in
      if negb (bit =? 0) then ret (chunk, order) else
      let buddy := Z.lxor chunk (chunk_bytes order) in
      spinlock_acquire buddy_lock;;
      on_lists (unlink_chunk order buddy);;
      let chunk := if buddy <? chunk then buddy else chunk in
      spinlock_release buddy_lock;;
      kfree_coalesce t chunk (u8 (order + 1))
  end.

Definition buddy_kfree (chunk : ptr) (size : Z) : cmd kstate unit :=
  if (chunk =? NULL) || (size =? 0) then ret tt else
  let! md := gets k_buddy in
  let! order := of_loop (order_of_size size) in
  let order := if order >? bm_max_order md then bm_max_order md else order in
  (if order =? bm_max_order md then toggle_bitmap chunk order;; ret tt else ret tt);;
  let! r := kfree_coalesce (Z.to_nat (bm_max_order md - order)) chunk order in
  spinlock_acquire buddy_lock;;
  on_lists (push_chunk r.2 r.1);;
  spinlock_release buddy_lock.

#[global] Arguments pop_chunk : simpl never.
#[global] Arguments push_chunk : simpl never.
#[global] Arguments unlink_chunk : simpl never.
#[global] Arguments on_lists : simpl never.
#[global] Arguments flip_bit : simpl never.
#[global] Arguments read_bit : simpl never.
#[global] Arguments bitmap_bit_pos : simpl never.
#[global] Arguments chunk_bytes : simpl never.

Lemma wp_on_lists f m h Q s :
  f (k_mem s) (bm_free_lists (k_buddy s)) = (m, h) ->
  Q tt (set_buddy (set_free_lists h (k_buddy s)) (set_mem m s)) -> wp (on_lists f) Q s.
Proof. intros Hf HQ. unfold wp, on_lists, modify. by rewrite Hf. Qed.
