(* ===== verification/FreeList.v ===== *)
(** * Free lists in memory

    A NULL-terminated doubly linked list of page-aligned blocks whose links are
    the first two words of each block, and what pushing, popping and unlinking
    a block does to it and to the lists beside it. *)

From S2P Require Import Prelude State Kmath Buddy.

Definition page_aligned (x : Z) : Prop := x mod PAGE_SIZE = 0.

(** [dseg m pp p l]: from [p], whose predecessor is [pp], the blocks [l] are
    linked up to NULL.  [oseg] is a segment that ends in front of [q]. *)
Fixpoint dseg (m : mem) (pp p : ptr) (l : list ptr) : Prop :=
  match l with
  | [] => p = NULL
  | x :: l' => p = x /\ x <> NULL /\ m (x + off_prev) = pp /\ dseg m x (m (x + off_next)) l'
  end.

Fixpoint oseg (m : mem) (pp p : ptr) (l : list ptr) (q : ptr) : Prop :=
  match l with
  | [] => p = q
  | x :: l' => p = x /\ x <> NULL /\ m (x + off_prev) = pp /\ oseg m x (m (x + off_next)) l' q
  end.

Fixpoint last_or (pp : ptr) (l : list ptr) : ptr :=
  match l with [] => pp | x :: l' => last_or x l' end.

(** The words a list of blocks keeps its links in. *)
Definition link_word (l : list ptr) (a : Z) : Prop :=
  exists x, x ∈ l /\ (a = x + off_next \/ a = x + off_prev).

(** [m'] differs from [m] at link words of [l] only. *)
Definition same_except (l : list ptr) (m m' : mem) : Prop :=
  forall a, ~ link_word l a -> m' a = m a.

Lemma same_except_refl l m : same_except l m m.
Proof. by intros a _. Qed.

Lemma same_except_trans l m1 m2 m3 :
  same_except l m1 m2 -> same_except l m2 m3 -> same_except l m1 m3.
Proof. intros H1 H2 a Ha. rewrite H2 by done. by apply H1. Qed.

Lemma same_except_mono l l' m m' : l ⊆ l' -> same_except l m m' -> same_except l' m m'.
Proof. intros Hl H a Ha. apply H. intros (x & Hx & E). apply Ha. exists x. eauto. Qed.

Lemma same_except_upd_next l m m' x v :
  x ∈ l -> same_except l m m' -> same_except l m (m'.[x + off_next <- v]).
Proof.
  intros Hx H a Ha. rewrite upd_ne; [by apply H|]. intros ->. apply Ha. exists x. eauto.
Qed.

Lemma same_except_upd_prev l m m' x v :
  x ∈ l -> same_except l m m' -> same_except l m (m'.[x + off_prev <- v]).
Proof.
  intros Hx H a Ha. rewrite upd_ne; [by apply H|]. intros ->. apply Ha. exists x. eauto.
Qed.
#[export] Hint Resolve same_except_refl same_except_upd_next same_except_upd_prev : kernel.

(** Distinct aligned blocks have distinct link words. *)
Lemma aligned_words x y :
  page_aligned x -> page_aligned y -> x <> y ->
  x + off_next <> y + off_next /\ x + off_next <> y + off_prev /\
  x + off_prev <> y + off_next /\ x + off_prev <> y + off_prev.
Proof. unfold page_aligned, PAGE_SIZE, off_next, off_prev. intros. dlia. Qed.

Lemma next_ne_prev x : x + off_next <> x + off_prev.
Proof. unfold off_next, off_prev. lia. Qed.

Lemma not_link_word l x :
  Forall page_aligned (x :: l) -> x ∉ l ->
  ~ link_word l (x + off_next) /\ ~ link_word l (x + off_prev).
Proof.
  intros Ha Hx. inversion Ha as [|? ? Hax Hal]; subst.
  split; intros (y & Hy & E); assert (x <> y) by (intros ->; done);
    rewrite Forall_forall in Hal; pose proof (aligned_words x y Hax (Hal y Hy)); intuition lia.
Qed.

(** ** Frame *)

Lemma dseg_frame m m' pp p l :
  (forall x, x ∈ l -> m' (x + off_next) = m (x + off_next) /\ m' (x + off_prev) = m (x + off_prev)) ->
  dseg m pp p l -> dseg m' pp p l.
Proof.
  revert pp p. induction l as [|x l IH]; intros pp p Hm; simpl; [done|].
  destruct (Hm x) as [Hn Hp]; [left|]. rewrite Hn, Hp. intros (? & ? & ? & ?).
  split_and!; try done. apply IH; [|done]. intros y Hy. apply Hm. by right.
Qed.

Lemma oseg_frame m m' pp p l q :
  (forall x, x ∈ l -> m' (x + off_next) = m (x + off_next) /\ m' (x + off_prev) = m (x + off_prev)) ->
  oseg m pp p l q -> oseg m' pp p l q.
Proof.
  revert pp p. induction l as [|x l IH]; intros pp p Hm; simpl; [done|].
  destruct (Hm x) as [Hn Hp]; [left|]. rewrite Hn, Hp. intros (? & ? & ? & ?).
  split_and!; try done. apply IH; [|done]. intros y Hy. apply Hm. by right.
Qed.

Lemma same_except_disjoint l l' m m' pp p :
  Forall page_aligned (l ++ l') -> (forall x, x ∈ l -> x ∉ l') ->
  same_except l' m m' -> dseg m pp p l -> dseg m' pp p l.
Proof.
  intros Ha Hd Hs. apply dseg_frame. intros x Hx.
  assert (Forall page_aligned (x :: l')) as Hf.
  { rewrite Forall_app, !Forall_forall in Ha. destruct Ha as [Ha1 Ha2].
    constructor; [by apply Ha1|by apply Forall_forall]. }
  destruct (not_link_word l' x Hf (Hd x Hx)). split; by apply Hs.
Qed.

Lemma dseg_head m pp p l : dseg m pp p l -> p = NULL <-> l = [].
Proof. destruct l; simpl; naive_solver. Qed.

Lemma last_or_snoc pp l y : last_or pp (l ++ [y]) = y.
Proof. revert pp. induction l; simpl; auto. Qed.

Lemma dseg_app m pp p l1 l2 :
  dseg m pp p (l1 ++ l2) <-> exists q, oseg m pp p l1 q /\ dseg m (last_or pp l1) q l2.
Proof.
  revert pp p. induction l1 as [|x l1 IH]; intros pp p; simpl.
  - naive_solver.
  - setoid_rewrite IH. naive_solver.
Qed.

Lemma oseg_snoc m pp p l y q :
  oseg m pp p (l ++ [y]) q <->
  oseg m pp p l y /\ y <> NULL /\ m (y + off_prev) = last_or pp l /\ m (y + off_next) = q.
Proof.
  revert pp p. induction l as [|x l IH]; intros pp p; simpl.
  - naive_solver.
  - setoid_rewrite IH. naive_solver.
Qed.

(** ** One list: push, pop, unlink *)

Lemma page_aligned_multiple x : page_aligned x -> exists q, x = 4096 * q.
Proof. unfold page_aligned, PAGE_SIZE. intros. exists (x / 4096). dlia. Qed.

(** Turn alignment into equations and settle reads behind writes. *)
Ltac unalign :=
  repeat match goal with
    | H : page_aligned ?x |- _ => apply page_aligned_multiple in H as [? H]
    end;
  unfold off_next, off_prev, NULL in *.
Ltac word_solve := unalign; upd_solve; try done; try lia.

Lemma push_chunk_dseg k x m heads l m' heads' :
  push_chunk k x m heads = (m', heads') ->
  dseg m NULL (heads k) l -> Forall page_aligned (x :: l) -> NoDup (x :: l) -> x <> NULL ->
  dseg m' NULL (heads' k) (x :: l) /\ heads' = heads.[k <- x] /\ same_except (x :: l) m m'.
Proof.
  unfold push_chunk. intros [= <- <-] Hl Ha [Hx Hnd]%NoDup_cons Hnz. rewrite !upd_eq.
  split_and!; [|done|].
  - destruct l as [|y l]; simpl in Hl |- *.
    + rewrite Hl, Z.eqb_refl. split_and!; word_solve.
    + destruct Hl as (-> & Hy & Hyp & Hl). rewrite (proj2 (Z.eqb_neq y NULL) Hy).
      apply not_elem_of_cons in Hx as [Hxy Hxl]. apply NoDup_cons in Hnd as [Hyl _].
      rewrite !Forall_cons in Ha. destruct Ha as (Hax & Hay & Hal).
      split_and!; [done|done|word_solve| |done|word_solve|]; [word_solve|].
      assert (Hn : forall v, (m.[x + off_prev <- NULL].[x + off_next <- y]).[y + off_prev <- v] (y + off_next)
                = m (y + off_next)) by (intros; word_solve).
      rewrite Hn. eapply dseg_frame; [|exact Hl]. intros z Hz.
      assert (y <> z /\ x <> z) as [? ?] by (split; congruence).
      rewrite Forall_forall in Hal. specialize (Hal z Hz). split; word_solve.
  - destruct l as [|y l]; simpl in Hl.
    + rewrite Hl, Z.eqb_refl. assert (x ∈ [x]) by set_solver. auto with kernel.
    + destruct Hl as (-> & Hy & _). rewrite (proj2 (Z.eqb_neq y NULL) Hy).
      assert (x ∈ x :: y :: l /\ y ∈ x :: y :: l) as [? ?] by set_solver.
      auto with kernel.
Qed.

Lemma pop_chunk_dseg k x m heads l c m' heads' :
  pop_chunk k m heads = (c, m', heads') ->
  dseg m NULL (heads k) (x :: l) -> Forall page_aligned (x :: l) -> NoDup (x :: l) ->
  c = x /\ dseg m' NULL (heads' k) l /\ (exists p, heads' = heads.[k <- p]) /\
  same_except (x :: l) m m'.
Proof.
  unfold pop_chunk. intros [= <- <- <-] Hl Ha [Hx Hnd]%NoDup_cons. simpl in Hl.
  destruct Hl as (-> & Hnz & Hp & Hl). rewrite upd_eq.
  rewrite Forall_cons in Ha. destruct Ha as (Hax & Hal).
  split_and!; [done| |eauto|].
  - destruct l as [|y l]; simpl in Hl |- *; [done|].
    destruct Hl as (Ey & Hy & Hyp & Hl). rewrite Ey, (proj2 (Z.eqb_neq y NULL) Hy).
    apply not_elem_of_cons in Hx as [Hxy Hxl]. apply NoDup_cons in Hnd as [Hyl _].
    apply Forall_cons in Hal as [Hay Hal].
    split_and!; [done|done|word_solve|].
    assert (Hn : m.[y + off_prev <- NULL].[x + off_next <- NULL] (y + off_next) = m (y + off_next))
      by word_solve.
    rewrite Hn. eapply dseg_frame; [|exact Hl]. intros z Hz.
    assert (y <> z /\ x <> z) as [? ?] by (split; congruence).
    rewrite Forall_forall in Hal. specialize (Hal z Hz). split; word_solve.
  - assert (x ∈ x :: l) by set_solver. apply same_except_upd_next; [done|].
    destruct (Z.eqb_spec (m (x + off_next)) NULL); [auto with kernel|].
    apply same_except_upd_prev; [|auto with kernel].
    destruct l as [|y l]; simpl in Hl; [done|]. destruct Hl as [-> _]. set_solver.
Qed.

(** Writing the successor of the last block of a segment. *)
Lemma oseg_redirect m m' pp p l y q q' :
  oseg m pp p (l ++ [y]) q -> m' (y + off_next) = q' -> m' (y + off_prev) = m (y + off_prev) ->
  (forall x, x ∈ l -> m' (x + off_next) = m (x + off_next) /\ m' (x + off_prev) = m (x + off_prev)) ->
  oseg m' pp p (l ++ [y]) q'.
Proof.
  rewrite !oseg_snoc. intros (Ho & Hy & Hp & _) Hn Hp' Hf.
  split_and!; [by eapply oseg_frame|done|congruence|done].
Qed.

(** Writing the predecessor of the first block of a list. *)
Lemma dseg_redirect m m' pp pp' p l :
  dseg m pp p l ->
  (forall z l', l = z :: l' -> m' (z + off_prev) = pp' /\ m' (z + off_next) = m (z + off_next) /\
     forall x, x ∈ l' -> m' (x + off_next) = m (x + off_next) /\ m' (x + off_prev) = m (x + off_prev)) ->
  dseg m' pp' p l.
Proof.
  destruct l as [|z l]; simpl; [done|]. intros (? & ? & ? & Hl) Hf.
  destruct (Hf z l eq_refl) as (Hp & Hn & Hf'). rewrite Hn.
  split_and!; try done. by eapply dseg_frame.
Qed.

(** What [unlink_chunk] leaves at every other block. *)
Lemma unlink_chunk_mem k x m heads m' heads' prev next :
  unlink_chunk k x m heads = (m', heads') ->
  m (x + off_prev) = prev -> m (x + off_next) = next ->
  page_aligned x -> prev <> x -> next <> x ->
  (prev <> NULL -> page_aligned prev) -> (next <> NULL -> page_aligned next) ->
  (heads' = if prev =? NULL then heads.[k <- next] else heads) /\
  (prev <> NULL -> m' (prev + off_next) = next) /\
  (next <> NULL -> m' (next + off_prev) = prev) /\
  (forall z, page_aligned z -> z <> x ->
     (z <> prev \/ prev = NULL -> m' (z + off_next) = m (z + off_next)) /\
     (z <> next \/ next = NULL -> m' (z + off_prev) = m (z + off_prev))).
Proof.
  unfold unlink_chunk. intros [= <- <-] Ep En Hx Hp Hn Hap Han. rewrite Ep, En.
  split; [done|].
  destruct (Z.eqb_spec prev NULL) as [E1|E1].
  - clear Hap. rewrite Ep, En, E1. destruct (Z.eqb_spec next NULL) as [E2|E2].
    + clear Han. split_and!; [done|done|].
      intros z Hz Hzx. split; intros _; word_solve.
    + specialize (Han E2). split_and!; [done|intros _; word_solve|].
      intros z Hz Hzx. split; intros ?; word_solve.
  - specialize (Hap E1).
    assert (m.[prev + off_next <- next] (x + off_next) = next) as -> by (rewrite <- En; word_solve).
    assert (m.[prev + off_next <- next] (x + off_prev) = prev) as -> by (rewrite <- Ep; word_solve).
    destruct (Z.eqb_spec next NULL) as [E2|E2].
    + clear Han. split_and!; [intros _; word_solve|done|].
      intros z Hz Hzx. split; intros ?; word_solve.
    + specialize (Han E2). split_and!; [intros _; word_solve|intros _; word_solve|].
      intros z Hz Hzx. split; intros ?; word_solve.
Qed.

Lemma dseg_inv_mid m pp p l1 x l2 :
  dseg m pp p (l1 ++ x :: l2) ->
  oseg m pp p l1 x /\ x <> NULL /\ m (x + off_prev) = last_or pp l1 /\
  dseg m x (m (x + off_next)) l2.
Proof. rewrite dseg_app. intros (q & Ho & -> & ? & ? & ?). done. Qed.

Lemma unlink_same_except k x m heads m' heads' prev next l :
  unlink_chunk k x m heads = (m', heads') ->
  m (x + off_prev) = prev -> m (x + off_next) = next -> x ∈ l ->
  prev <> x -> page_aligned x -> (prev <> NULL -> page_aligned prev) ->
  (prev <> NULL -> prev ∈ l) -> (next <> NULL -> next ∈ l) -> same_except l m m'.
Proof.
  unfold unlink_chunk. intros [= <- <-] Ep En Hx Hpx Hax Hap Hp Hn. rewrite Ep, En.
  apply same_except_upd_prev; [done|]. apply same_except_upd_next; [done|].
  destruct (Z.eqb_spec prev NULL) as [E1|E1].
  - rewrite Ep, En. destruct (Z.eqb_spec next NULL); eauto with kernel.
  - specialize (Hap E1).
    assert (m.[prev + off_next <- next] (x + off_next) = next) as -> by (rewrite <- En; word_solve).
    destruct (Z.eqb_spec next NULL); eauto 6 with kernel.
Qed.

Lemma dseg_nonnull m pp p l : dseg m pp p l -> forall x, x ∈ l -> x <> NULL.
Proof.
  revert pp p. induction l as [|y l IH]; intros pp p; simpl; [set_solver|].
  intros (_ & ? & _ & Hl) x [->|Hx]%elem_of_cons; eauto.
Qed.

Lemma unlink_chunk_dseg k x m heads l1 l2 m' heads' :
  unlink_chunk k x m heads = (m', heads') ->
  dseg m NULL (heads k) (l1 ++ x :: l2) ->
  Forall page_aligned (l1 ++ x :: l2) -> NoDup (l1 ++ x :: l2) ->
  dseg m' NULL (heads' k) (l1 ++ l2) /\ (forall j, j <> k -> heads' j = heads j) /\
  same_except (l1 ++ x :: l2) m m'.
Proof.
  intros Hu Hl Ha Hnd. pose proof (dseg_nonnull _ _ _ _ Hl) as Hnn.
  apply dseg_inv_mid in Hl as (Ho & Hnz & Hp & Hl).
  rewrite Forall_app, Forall_cons in Ha. destruct Ha as (Ha1 & Hax & Ha2).
  apply NoDup_app in Hnd as (Hnd1 & Hd & [Hx2 Hnd2]%NoDup_cons).
  assert (x ∉ l1) as Hx1 by (intros ?; apply (Hd x); [done|left]).
  rewrite Forall_forall in Ha1, Ha2.
  assert (Hprev : last_or NULL l1 <> NULL -> last_or NULL l1 ∈ l1).
  { destruct l1 as [|y l1 _] using rev_ind; [done|]. rewrite last_or_snoc. set_solver. }
  assert (Hnext : m (x + off_next) <> NULL -> m (x + off_next) ∈ l2).
  { destruct l2; simpl in Hl; [done|]. destruct Hl as [-> _]. set_solver. }
  assert (Hpx : last_or NULL l1 <> x).
  { intros E. apply Hx1. rewrite <- E. apply Hprev. by rewrite E. }
  assert (Hnx : m (x + off_next) <> x).
  { intros E. apply Hx2. rewrite <- E at 1. apply Hnext. by rewrite E. }
  split_and!.
  2:{ intros j Hj. destruct (unlink_chunk_mem _ _ _ _ _ _ _ _ Hu Hp eq_refl) as (-> & _); auto.
      destruct (_ =? _); [by rewrite upd_ne|done]. }
  2:{ eapply unlink_same_except; eauto; set_solver. }
  destruct (unlink_chunk_mem _ _ _ _ _ _ _ _ Hu Hp eq_refl) as (Eh & Mp & Mn & Mz); auto.
  apply dseg_app. exists (m (x + off_next)). split.
  - destruct l1 as [|y l1 _] using rev_ind.
    + simpl in *. rewrite Eh. simpl. by rewrite upd_eq.
    + rewrite last_or_snoc in *. apply oseg_snoc in Ho as Ho'. destruct Ho' as (_ & Hy & Hyp & _).
      rewrite Eh, (proj2 (Z.eqb_neq y NULL) Hy).
      assert (y ∈ l1 ++ [y]) as Hyl by set_solver.
      eapply oseg_redirect; [exact Ho|by apply Mp| |].
      * apply Mz; [by apply Ha1|congruence|]. left. intros E. apply (Hd y Hyl). right.
        rewrite E. apply Hnext. by rewrite <- E.
      * intros z Hz. assert (z ∈ l1 ++ [y]) as Hzl by set_solver.
        apply NoDup_app in Hnd1 as (_ & Hdy & _).
        assert (z <> x) by congruence.
        destruct (Mz z (Ha1 z Hzl)) as [M1 M2]; [done|]. split.
        -- apply M1. left. intros ->. apply (Hdy y Hz). set_solver.
        -- apply M2. left. intros E. apply (Hd z Hzl). right. rewrite E. apply Hnext.
           rewrite <- E. apply Hnn. set_solver.
  - eapply dseg_redirect; [exact Hl|]. intros z l' ->. simpl in Hl. destruct Hl as (Ez & Hz & Hzp & Hl').
    rewrite Ez in *. split; [by apply Mn|]. apply NoDup_cons in Hnd2 as [Hzl' _].
    assert (Hkeep : forall w, w ∈ z :: l' -> m' (w + off_next) = m (w + off_next)).
    { intros w Hw. apply Mz; [by apply Ha2|congruence|].
      destruct l1 as [|y l1 _] using rev_ind; [by right|]. rewrite last_or_snoc. left.
      intros ->. apply (Hd y); set_solver. }
    split; [apply Hkeep; set_solver|]. intros w Hw. split; [apply Hkeep; set_solver|].
    apply Mz; [apply Ha2; set_solver|set_solver|]. left. congruence.
Qed.
