(* ===== verification/BuddyInv.v ===== *)
(** * The buddy allocator: pages, blocks and the invariant

    A block of order [k] is [2^k] pages.  The state of the allocator is
    described by a map [L] from an order to the blocks on its free list; its
    invariant says that the lists are linked in memory, that every block is
    aligned to its size and inside the region, and that no page is free
    twice. *)

From S2P Require Import Prelude State Kmath Buddy FreeList.

Definition MAX_ORDER : Z := 10.

(** The page an address lies in, and the pages of a block. *)
Definition page_of (a : Z) : Z := PAGE_SIZE * (a / PAGE_SIZE).
Definition page_range (x n : Z) : list Z := (fun i => x + i * PAGE_SIZE) <$> seqZ 0 n.
Definition pages_of (k x : Z) : list Z := page_range x (2 ^ k).

Definition free_pages (L : Z -> list ptr) : list Z :=
  seqZ 0 (MAX_ORDER + 1) ≫= fun k => L k ≫= pages_of k.

Definition block_ok (md : buddy_metadata) (k x : Z) : Prop :=
  (2 ^ k * PAGE_SIZE | x) /\
  bm_base_address md <= x /\ x + 2 ^ k * PAGE_SIZE <= bm_base_address md + bm_size md.

Record buddy_inv (m : mem) (md : buddy_metadata) (L : Z -> list ptr) : Prop := {
  bi_min : bm_min_order md = 0;
  bi_max : bm_max_order md = MAX_ORDER;
  bi_base : 0 < bm_base_address md;
  bi_align : (2 ^ MAX_ORDER * PAGE_SIZE | bm_base_address md);
  bi_end : bm_base_address md + bm_size md <= 2 ^ 48;
  bi_links : forall k, 0 <= k <= MAX_ORDER -> dseg m NULL (bm_free_lists md k) (L k);
  bi_blocks : forall k x, 0 <= k <= MAX_ORDER -> x ∈ L k -> block_ok md k x;
  bi_nodup : NoDup (free_pages L);
}.

(** [m'] differs from [m] inside the pages [P] only. *)
Definition mem_frame (P : list Z) (m m' : mem) : Prop := forall a, page_of a ∉ P -> m' a = m a.

Lemma mem_frame_refl P m : mem_frame P m m.
Proof. by intros a _. Qed.
Lemma mem_frame_trans P m1 m2 m3 : mem_frame P m1 m2 -> mem_frame P m2 m3 -> mem_frame P m1 m3.
Proof. intros H1 H2 a Ha. rewrite H2 by done. by apply H1. Qed.
Lemma mem_frame_mono P P' m m' : P ⊆ P' -> mem_frame P m m' -> mem_frame P' m m'.
Proof. intros HP H a Ha. apply H. set_solver. Qed.

(** ** Sizes *)

Lemma chunk_bytes_pow k : 0 <= k < 52 -> chunk_bytes k = 2 ^ k * PAGE_SIZE.
Proof.
  intros Hk. unfold chunk_bytes, u64, PAGE_SIZE. rewrite shl64_one by lia. change 0x1000 with (2 ^ 12).
  rewrite <- Z.pow_add_r by lia. apply Z.mod_small. split; [apply Z.pow_nonneg; lia|].
  apply Z.pow_lt_mono_r; lia.
Qed.

Lemma pow2_pos k : 0 <= k -> 0 < 2 ^ k.
Proof. intros. apply Z.pow_pos_nonneg; lia. Qed.

Lemma pow2_succ k : 0 <= k -> 2 ^ (k + 1) = 2 * 2 ^ k.
Proof. intros. rewrite Z.pow_add_r by lia. lia. Qed.

Lemma pow2_max k : 0 <= k <= MAX_ORDER -> 1 <= 2 ^ k <= 1024.
Proof.
  unfold MAX_ORDER. intros Hk. split; [pose proof (pow2_pos k); lia|].
  change 1024 with (2 ^ 10). apply Z.pow_le_mono_r; lia.
Qed.

Lemma pow2_divide j k : 0 <= j <= k -> (2 ^ j * PAGE_SIZE | 2 ^ k * PAGE_SIZE).
Proof.
  intros. apply Z.mul_divide_mono_r. exists (2 ^ (k - j)). rewrite <- Z.pow_add_r by lia. f_equal. lia.
Qed.

Lemma block_aligned md k x : 0 <= k -> block_ok md k x -> page_aligned x.
Proof.
  intros Hk [Hd _]. unfold page_aligned. apply Z.mod_divide; [done|].
  etrans; [|exact Hd]. by apply Z.divide_factor_r.
Qed.

(** ** Pages of a block *)

Lemma page_range_elem x n a :
  a ∈ page_range x n <-> exists i, 0 <= i < n /\ a = x + i * PAGE_SIZE.
Proof. unfold page_range. rewrite list_elem_of_fmap. setoid_rewrite elem_of_seqZ. naive_solver lia. Qed.

Lemma pages_of_self k x : 0 <= k -> x ∈ pages_of k x.
Proof. intros. apply page_range_elem. exists 0. pose proof (pow2_pos k). lia. Qed.

Lemma page_range_app x n1 n2 :
  0 <= n1 -> 0 <= n2 ->
  page_range x (n1 + n2) = page_range x n1 ++ page_range (x + n1 * PAGE_SIZE) n2.
Proof.
  intros H1 H2. unfold page_range. rewrite seqZ_app, fmap_app by lia. f_equal.
  replace (0 + n1) with (n1 + 0) by lia.
  rewrite <- (fmap_add_seqZ n1 0), <- list_fmap_compose by lia.
  apply list_fmap_ext. intros i a _. simpl. lia.
Qed.

Lemma pages_of_split k x :
  0 <= k -> pages_of (k + 1) x = pages_of k x ++ pages_of k (x + 2 ^ k * PAGE_SIZE).
Proof.
  intros Hk. unfold pages_of. rewrite pow2_succ by done. pose proof (pow2_pos k Hk).
  rewrite <- page_range_app by lia. f_equal. lia.
Qed.

Lemma NoDup_page_range x n : NoDup (page_range x n).
Proof.
  unfold page_range. apply NoDup_fmap_2; [|apply NoDup_seqZ].
  intros i j. unfold PAGE_SIZE. lia.
Qed.

Lemma page_of_block x a :
  page_aligned x -> a = x + off_next \/ a = x + off_prev -> page_of a = x.
Proof. unfold page_aligned, page_of, PAGE_SIZE, off_next, off_prev. intros. dlia. Qed.

(** ** Free pages *)

Definition rest_pages (k : Z) (L : Z -> list ptr) : list Z :=
  filter (fun j => j <> k) (seqZ 0 (MAX_ORDER + 1)) ≫= fun j => L j ≫= pages_of j.

Lemma bind_ext_elem {A B} (f g : A -> list B) l :
  (forall x, x ∈ l -> f x = g x) -> l ≫= f = l ≫= g.
Proof.
  induction l as [|x l IH]; intros H; [done|]. rewrite !bind_cons. rewrite H by left.
  f_equal. apply IH. intros. apply H. by right.
Qed.

Lemma free_pages_at k L :
  0 <= k <= MAX_ORDER -> free_pages L ≡ₚ (L k ≫= pages_of k) ++ rest_pages k L.
Proof.
  intros Hk. unfold free_pages, rest_pages.
  assert (seqZ 0 (MAX_ORDER + 1) ≡ₚ k :: filter (fun j => j <> k) (seqZ 0 (MAX_ORDER + 1))) as E.
  { apply NoDup_Permutation; [apply NoDup_seqZ| |].
    - apply NoDup_cons. split; [|apply NoDup_filter, NoDup_seqZ].
      rewrite list_elem_of_filter. tauto.
    - intros j. rewrite elem_of_cons, list_elem_of_filter, !elem_of_seqZ.
      destruct (decide (j = k)); intuition lia. }
  rewrite E at 1. by rewrite bind_cons.
Qed.

Lemma rest_pages_upd k L l : rest_pages k (L.[k <- l]) = rest_pages k L.
Proof.
  apply bind_ext_elem. intros j [Hj _]%list_elem_of_filter. by rewrite upd_ne.
Qed.

(** Putting block [x] on list [k], seen from either side. *)
Lemma free_pages_block k L l l' x :
  0 <= k <= MAX_ORDER -> l ≡ₚ x :: l' ->
  free_pages (L.[k <- l]) ≡ₚ pages_of k x ++ free_pages (L.[k <- l']).
Proof.
  intros Hk Hl. rewrite !(free_pages_at k) by done. rewrite !rest_pages_upd, !upd_eq, Hl.
  rewrite bind_cons. by rewrite app_assoc.
Qed.

Lemma free_pages_ext L L' :
  (forall k, 0 <= k <= MAX_ORDER -> L k = L' k) -> free_pages L = free_pages L'.
Proof.
  intros H. apply bind_ext_elem. intros k Hk%elem_of_seqZ. rewrite H; [done|lia].
Qed.

Lemma free_pages_upd_id k L : free_pages (L.[k <- L k]) = free_pages L.
Proof. apply free_pages_ext. intros j _. apply upd_same. Qed.

Lemma free_pages_push k L x :
  0 <= k <= MAX_ORDER -> free_pages (L.[k <- x :: L k]) ≡ₚ pages_of k x ++ free_pages L.
Proof. intros Hk. rewrite (free_pages_block k L _ (L k) x) by done. by rewrite free_pages_upd_id. Qed.

Lemma free_pages_remove k L l x :
  0 <= k <= MAX_ORDER -> L k ≡ₚ x :: l -> free_pages L ≡ₚ pages_of k x ++ free_pages (L.[k <- l]).
Proof. intros Hk Hl. rewrite <- (free_pages_upd_id k L) at 1. by apply free_pages_block. Qed.

Lemma free_pages_elem k L x p :
  0 <= k <= MAX_ORDER -> x ∈ L k -> p ∈ pages_of k x -> p ∈ free_pages L.
Proof.
  intros Hk Hx Hp. rewrite (free_pages_at k) by done. apply elem_of_app. left.
  apply list_elem_of_bind. eauto.
Qed.

(** ** Consequences of the invariant *)

Lemma block_in_pages k l x : 0 <= k -> x ∈ l -> x ∈ l ≫= pages_of k.
Proof. intros. apply list_elem_of_bind. exists x. eauto using pages_of_self. Qed.

Lemma NoDup_bind_blocks k l : 0 <= k -> NoDup (l ≫= pages_of k) -> NoDup l.
Proof.
  intros Hk. induction l as [|x l IH]; [constructor|]. rewrite bind_cons.
  intros (_ & Hd & Hl)%NoDup_app. constructor; [|auto]. intros Hx.
  apply (Hd x); [by apply pages_of_self|]. apply list_elem_of_bind. eauto using pages_of_self.
Qed.

Section consequences.
Context (m : mem) (md : buddy_metadata) (L : Z -> list ptr) (Hinv : buddy_inv m md L).

Lemma inv_list_nodup k : 0 <= k <= MAX_ORDER -> NoDup (L k).
Proof using Hinv.
  intros Hk. pose proof (bi_nodup _ _ _ Hinv) as Hn.
  rewrite (free_pages_at k) in Hn by done. apply NoDup_app in Hn as (Hn & _).
  eapply NoDup_bind_blocks; [|exact Hn]. lia.
Qed.

Lemma inv_list_aligned k : 0 <= k <= MAX_ORDER -> Forall page_aligned (L k).
Proof using Hinv.
  intros Hk. apply Forall_forall. intros x Hx.
  apply (block_aligned md k); [lia|]. by apply (bi_blocks _ _ _ Hinv).
Qed.

Lemma inv_lists_disjoint j k x :
  0 <= j <= MAX_ORDER -> 0 <= k <= MAX_ORDER -> j <> k -> x ∈ L j -> x ∉ L k.
Proof using Hinv.
  intros Hj Hk Hjk Hx1 Hx2. pose proof (bi_nodup _ _ _ Hinv) as Hn.
  rewrite (free_pages_at k) in Hn by done. apply NoDup_app in Hn as (_ & Hd & _).
  apply (Hd x).
  - apply block_in_pages; [lia|done].
  - apply list_elem_of_bind. exists j. split.
    + apply block_in_pages; [lia|done].
    + apply list_elem_of_filter. split; [done|]. apply elem_of_seqZ. lia.
Qed.

(** A change to list [k] that stays within the links of [l] keeps the others. *)
Lemma inv_other_lists k l l' heads' m' :
  0 <= k <= MAX_ORDER ->
  (forall j, j <> k -> heads' j = bm_free_lists md j) -> dseg m' NULL (heads' k) l' ->
  same_except l m m' -> Forall page_aligned l ->
  (forall j x, 0 <= j <= MAX_ORDER -> j <> k -> x ∈ L j -> x ∉ l) ->
  forall j, 0 <= j <= MAX_ORDER -> dseg m' NULL (heads' j) (L.[k <- l'] j).
Proof using Hinv.
  intros Hk Hh Hl Hs Ha Hd j Hj. destruct (decide (j = k)) as [->|Hjk].
  - by rewrite upd_eq.
  - rewrite upd_ne, Hh by done.
    eapply same_except_disjoint; [| |exact Hs|by apply (bi_links _ _ _ Hinv)].
    + apply Forall_app. split; [by apply inv_list_aligned|done].
    + eauto.
Qed.
End consequences.

Lemma same_except_frame l P m m' :
  Forall page_aligned l -> l ⊆ P -> same_except l m m' -> mem_frame P m m'.
Proof.
  intros Ha Hp Hs a Hpa. apply Hs. intros (x & Hx & E). apply Hpa.
  rewrite (page_of_block x a); [by apply Hp| |done]. by eapply Forall_forall.
Qed.

(** ** The list operations keep the invariant *)

Lemma push_inv k x m md L m' heads' :
  buddy_inv m md L -> 0 <= k <= MAX_ORDER -> block_ok md k x ->
  NoDup (pages_of k x ++ free_pages L) ->
  push_chunk k x m (bm_free_lists md) = (m', heads') ->
  buddy_inv m' (set_free_lists heads' md) (L.[k <- x :: L k]) /\
  mem_frame (pages_of k x ++ free_pages L) m m'.
Proof.
  intros Hi Hk Hb Hnd Hpush.
  assert (Hax : page_aligned x) by (eapply block_aligned; [|done]; lia).
  assert (Hfresh : forall j, 0 <= j <= MAX_ORDER -> x ∉ L j).
  { intros j Hj Hx. apply NoDup_app in Hnd as (_ & Hd & _). apply (Hd x).
    - apply pages_of_self. lia.
    - eapply free_pages_elem; [exact Hj|exact Hx|]. apply pages_of_self. lia. }
  assert (Hal : Forall page_aligned (x :: L k)).
  { constructor; [done|]. by eapply inv_list_aligned. }
  assert (Hxn : x <> NULL) by (destruct Hi, Hb; unfold NULL; lia).
  destruct (push_chunk_dseg k x _ _ (L k) _ _ Hpush) as (Hseg & Hh & Hse); auto.
  { by eapply bi_links. }
  { constructor; [auto|]. by eapply inv_list_nodup. }
  split.
  - destruct Hi as [H1 H2 H3 H4 H5 H6 H7 H8] eqn:EHi. split; simpl; try done.
    + eapply (inv_other_lists m md L Hi k (x :: L k)); eauto.
      * intros j Hj. rewrite Hh. by rewrite upd_ne.
      * intros j y Hj Hjk Hy [->|Hy']%elem_of_cons; [by eapply Hfresh|].
        by eapply (inv_lists_disjoint m md L Hi j k y).
    + intros j y Hj. destruct (decide (j = k)) as [->|Hjk].
      * rewrite upd_eq. intros [->|Hy]%elem_of_cons; [done|by apply H7].
      * rewrite upd_ne by done. intros Hy. by apply H7.
    + rewrite free_pages_push by done. done.
  - eapply same_except_frame; [exact Hal| |exact Hse].
    intros y [->|Hy]%elem_of_cons; apply elem_of_app.
    + left. apply pages_of_self. lia.
    + right. eapply free_pages_elem; [exact Hk|done|]. apply pages_of_self. lia.
Qed.

(** Removing block [x] from list [k], by a pop or by an unlink. *)
Lemma remove_inv k x l m md L m' heads' :
  buddy_inv m md L -> 0 <= k <= MAX_ORDER -> L k ≡ₚ x :: l ->
  dseg m' NULL (heads' k) l -> (forall j, j <> k -> heads' j = bm_free_lists md j) ->
  same_except (L k) m m' ->
  buddy_inv m' (set_free_lists heads' md) (L.[k <- l]) /\
  free_pages L ≡ₚ pages_of k x ++ free_pages (L.[k <- l]) /\
  block_ok md k x /\ mem_frame (free_pages L) m m'.
Proof.
  intros Hi Hk Hl Hseg Hh Hse.
  assert (Hp := free_pages_remove k L l x Hk Hl).
  split_and!; [|done| |].
  - pose proof Hi as [H1 H2 H3 H4 H5 H6 H7 H8]. split; simpl; try done.
    + eapply (inv_other_lists m md L Hi k (L k)); eauto.
      * by eapply inv_list_aligned.
      * intros j y Hj Hjk Hy. by eapply (inv_lists_disjoint m md L Hi j k y).
    + intros j y Hj. destruct (decide (j = k)) as [->|Hjk].
      * rewrite upd_eq. intros Hy. apply H7; [done|]. rewrite Hl. by right.
      * rewrite upd_ne by done. intros Hy. by apply H7.
    + rewrite Hp in H8. by apply NoDup_app in H8 as (_ & _ & ?).
  - apply (bi_blocks _ _ _ Hi); [done|]. rewrite Hl. by left.
  - eapply same_except_frame; [by eapply inv_list_aligned| |exact Hse].
    intros y Hy. eapply free_pages_elem; [exact Hk|done|]. apply pages_of_self. lia.
Qed.

Lemma pop_inv k m md L c m' heads' :
  buddy_inv m md L -> 0 <= k <= MAX_ORDER -> bm_free_lists md k <> NULL ->
  pop_chunk k m (bm_free_lists md) = (c, m', heads') ->
  exists L', buddy_inv m' (set_free_lists heads' md) L' /\
    free_pages L ≡ₚ pages_of k c ++ free_pages L' /\
    block_ok md k c /\ mem_frame (free_pages L) m m' /\ exists l, L k = c :: l /\ L' = L.[k <- l].
Proof.
  intros Hi Hk Hn Hpop. pose proof (bi_links _ _ _ Hi k Hk) as Hseg.
  destruct (L k) as [|x l] eqn:HL; [by simpl in Hseg|].
  destruct (pop_chunk_dseg k x _ _ l _ _ _ Hpop) as (-> & Hs & (p & Hh) & Hse).
  { done. }
  { rewrite <- HL. by eapply inv_list_aligned. }
  { rewrite <- HL. by eapply inv_list_nodup. }
  exists (L.[k <- l]). destruct (remove_inv k x l m md L m' heads') as (H1 & H2 & H3 & H4); eauto.
  - by rewrite HL.
  - intros j Hj. rewrite Hh. by rewrite upd_ne.
  - by rewrite HL.
  - eauto 10.
Qed.

Lemma filter_remove (x : ptr) l : x ∈ l -> NoDup l -> l ≡ₚ x :: filter (fun b => b <> x) l.
Proof.
  intros Hx Hnd. apply NoDup_Permutation; [done| |].
  - apply NoDup_cons. split; [|by apply NoDup_filter]. rewrite list_elem_of_filter. tauto.
  - intros y. rewrite elem_of_cons, list_elem_of_filter. destruct (decide (y = x)); naive_solver.
Qed.

Lemma unlink_inv k x m md L m' heads' :
  buddy_inv m md L -> 0 <= k <= MAX_ORDER -> x ∈ L k ->
  unlink_chunk k x m (bm_free_lists md) = (m', heads') ->
  let L' := L.[k <- filter (fun b => b <> x) (L k)] in
  buddy_inv m' (set_free_lists heads' md) L' /\
  free_pages L ≡ₚ pages_of k x ++ free_pages L' /\
  block_ok md k x /\ mem_frame (free_pages L) m m'.
Proof.
  intros Hi Hk Hx Hun L'. pose proof (bi_links _ _ _ Hi k Hk) as Hseg.
  assert (Hnd := inv_list_nodup _ _ _ Hi k Hk).
  destruct (list_elem_of_split _ _ Hx) as (l1 & l2 & HL).
  assert (Ef : filter (fun b => b <> x) (L k) = l1 ++ l2).
  { rewrite HL in Hnd |- *. apply NoDup_app in Hnd as (_ & Hd & [Hx2 _]%NoDup_cons).
    rewrite filter_app, filter_cons_False by tauto. f_equal; apply filter_id;
      intros y Hy ->; [|done]. apply (Hd x Hy). left. }
  destruct (unlink_chunk_dseg k x _ _ l1 l2 _ _ Hun) as (Hs & Hh & Hse).
  { by rewrite <- HL. }
  { rewrite <- HL. by eapply inv_list_aligned. }
  { by rewrite <- HL. }
  eapply remove_inv; eauto.
  - by apply filter_remove.
  - by rewrite Ef.
  - by rewrite HL.
Qed.
