(* ===== verification/BuddyDemo.v ===== *)
(** * A concrete allocator state

    The state the library's examples run on, and that it satisfies the
    invariant of BuddyInv. *)

From S2P Require Import Prelude State Kmath Buddy FreeList BuddyInv.

(** One 8 MB region at [0x400000] whose first 16 KB are page [0x400000] (in
    use), a free page, and a free block of two pages. *)

Definition demo_lists (k : Z) : list ptr :=
  if k =? 0 then [0x401000] else if k =? 1 then [0x402000] else if k =? 10 then [0x800000] else [].
Definition demo_heads (k : Z) : ptr := hd NULL (demo_lists k).
Definition demo_md : buddy_metadata :=
  mk_buddy_metadata 0x400000 0x800000 0 MAX_ORDER demo_heads (upd (fun _ => 0) 0 1)
    (fill_offsets 10 1 2048 (fun _ => 0)).
Definition demo_state : kstate :=
  mk_kstate (fun _ => 0) demo_md (fun _ => mk_spinlock 0 0 0xffffffff 0) 0x202 0 0 [] 0xffffffff80030000.

Lemma demo_inv : buddy_inv (k_mem demo_state) (k_buddy demo_state) demo_lists.
Proof.
  split; try done.
  - intros k _. unfold demo_state, demo_md, demo_heads, demo_lists. simpl.
    destruct (k =? 0), (k =? 1), (k =? 10); done.
  - intros k x _. unfold demo_lists.
    destruct (Z.eqb_spec k 0) as [->|]; [|destruct (Z.eqb_spec k 1) as [->|];
      [|destruct (Z.eqb_spec k 10) as [->|]; [|by intros ?%elem_of_nil]]];
      intros ->%list_elem_of_singleton; (split; [by apply Z.mod_divide|done]).
  - apply (bool_decide_unpack _). vm_compute. exact I.
Qed.
