(* ===== verification/BuddyOps.v ===== *)
(** * The buddy allocator: what the operations do

    [buddy_kalloc] and [buddy_kfree] against the invariant of BuddyInv: which
    block is returned, that pages are conserved, which memory is written, that
    the lock and the interrupt flag are restored, and on which sizes the order
    search terminates. *)

From S2P Require Import Prelude State Kmath Buddy FreeList BuddyInv.

(** ** The order of a size *)

(** [order] is the least order whose blocks hold [size] bytes. *)
Definition least_order (size order : Z) : Prop :=
  0 <= order /\ size <= 2 ^ order * PAGE_SIZE /\
  forall j, 0 <= j < order -> 2 ^ j * PAGE_SIZE < size.

Lemma order_loop_least fuel size order :
  size <= 2 ^ 63 -> 0 <= order <= 51 -> 51 - order < Z.of_nat fuel ->
  (forall j, 0 <= j < order -> 2 ^ j * PAGE_SIZE < size) ->
  exists o, order_loop fuel size order = Some o /\ o <= 51 /\ least_order size o.
Proof.
  intros Hs. revert order. induction fuel as [|f IH]; intros order Ho Hf Hlt; [lia|].
  cbn [order_loop]. rewrite chunk_bytes_pow by lia.
  destruct (Z.gtb_spec size (2 ^ order * PAGE_SIZE)) as [Hgt|Hle].
  - destruct (decide (order = 51)) as [->|].
    { change (2 ^ 51 * PAGE_SIZE) with (2 ^ 63) in Hgt. lia. }
    unfold u8. rewrite Z.mod_small by lia. apply IH; try lia. intros j Hj.
    destruct (decide (j = order)) as [->|]; [lia|]. apply Hlt. lia.
  - exists order. unfold least_order. split_and!; auto; lia.
Qed.

Lemma order_of_size_least size :
  size <= 2 ^ 63 -> exists o, order_of_size size = Some o /\ o <= 51 /\ least_order size o.
Proof. intros. apply order_loop_least; lia. Qed.

Lemma chunk_bytes_le order : 0 <= order -> chunk_bytes order <= 2 ^ 63.
Proof.
  intros Ho. assert (0 <= order mod 64 < 64) as Hm by (apply Z.mod_pos_bound; lia).
  assert (chunk_bytes order = chunk_bytes (order mod 64)) as ->.
  { unfold chunk_bytes, shl64. by rewrite Z.mod_mod by lia. }
  destruct (decide (order mod 64 < 52)).
  - rewrite chunk_bytes_pow by lia. change (2 ^ 63) with (2 ^ 51 * PAGE_SIZE).
    apply Z.mul_le_mono_nonneg_r; [done|]. apply Z.pow_le_mono_r; lia.
  - enough (chunk_bytes (order mod 64) = 0) by lia.
    unfold chunk_bytes, u64. rewrite shl64_one by lia. apply Z.mod_divide; [lia|].
    change PAGE_SIZE with (2 ^ 12). rewrite <- Z.pow_add_r by lia.
    exists (2 ^ (order mod 64 + 12 - 64)). rewrite <- Z.pow_add_r by lia. f_equal. lia.
Qed.

Lemma order_loop_diverges fuel size order :
  2 ^ 63 < size -> 0 <= order -> order_loop fuel size order = None.
Proof.
  intros Hs. revert order. induction fuel as [|f IH]; intros order Ho; [done|].
  cbn [order_loop]. pose proof (chunk_bytes_le order Ho).
  destruct (Z.gtb_spec size (chunk_bytes order)); [|lia].
  apply IH. apply Z.mod_pos_bound. lia.
Qed.

Lemma least_order_unique size o o' : least_order size o -> least_order size o' -> o = o'.
Proof.
  intros (H1 & H2 & H3) (H1' & H2' & H3').
  destruct (Z.lt_trichotomy o o') as [Hlt|[->|Hlt]]; [|done|].
  - specialize (H3' o). lia.
  - specialize (H3 o'). lia.
Qed.

(** ** Splitting *)

Lemma block_ok_halves md k x :
  0 <= k -> block_ok md (k + 1) x -> block_ok md k x /\ block_ok md k (x + 2 ^ k * PAGE_SIZE).
Proof.
  unfold block_ok. intros Hk (Hd & Hb & He). rewrite pow2_succ in * by done.
  pose proof (pow2_pos k Hk). unfold PAGE_SIZE in *.
  assert ((2 ^ k * 0x1000 | x)) as Hx by (etrans; [|exact Hd]; exists 2; lia).
  split; (split; [|lia]); [done|]. by apply Z.divide_add_r; [|apply Z.divide_refl].
Qed.

Lemma block_ok_range md k x m L :
  buddy_inv m md L -> 0 <= k -> block_ok md k x -> 0 < x /\ x + 2 ^ k * PAGE_SIZE <= 2 ^ 48.
Proof. intros [] Hk (Hd & Hb & He). lia. Qed.

Lemma split_inv turns level chunk m md L m' heads' :
  buddy_inv m md L -> 0 <= level - Z.of_nat turns -> level <= MAX_ORDER ->
  block_ok md level chunk -> NoDup (pages_of level chunk ++ free_pages L) ->
  split_chunk turns level chunk m (bm_free_lists md) = (m', heads') ->
  exists L', buddy_inv m' (set_free_lists heads' md) L' /\
    pages_of level chunk ++ free_pages L ≡ₚ pages_of (level - Z.of_nat turns) chunk ++ free_pages L' /\
    block_ok md (level - Z.of_nat turns) chunk /\
    mem_frame (pages_of level chunk ++ free_pages L) m m' /\
    forall j, exists l, L' j = l ++ L j /\ length l = if decide (level - Z.of_nat turns <= j < level) then 1%nat else 0%nat.
Proof.
  revert level m md L. induction turns as [|t IH]; intros level m md L Hi Hlo Hhi Hb Hnd Hs.
  - injection Hs as <- <-. rewrite Z.sub_0_r. exists L.
    split_and!; try done; [by destruct md|]. intros j. exists []. split; [done|]. by rewrite decide_False by lia.
  - cbn [split_chunk] in Hs. remember (level - 1) as k eqn:Ek.
    assert (level = k + 1) as -> by lia. rewrite chunk_bytes_pow in Hs by (unfold MAX_ORDER in *; lia).
    destruct (block_ok_range md (k + 1) chunk m L Hi ltac:(lia) Hb) as [Hc1 Hc2].
    pose proof (pow2_succ k ltac:(lia)) as Hpw. pose proof (pow2_pos k ltac:(lia)).
    unfold u64 in Hs. rewrite Z.mod_small in Hs by (unfold PAGE_SIZE in *; lia).
    destruct (block_ok_halves md k chunk ltac:(lia) Hb) as [Hb1 Hb2].
    destruct (push_chunk k (chunk + 2 ^ k * PAGE_SIZE) m (bm_free_lists md)) as [m1 h1] eqn:Hpush.
    rewrite pages_of_split in * by lia.
    assert (NoDup (pages_of k (chunk + 2 ^ k * PAGE_SIZE) ++ free_pages L)) as Hnd2.
    { rewrite <- app_assoc in Hnd. by apply NoDup_app in Hnd as (_ & _ & ?). }
    destruct (push_inv k (chunk + 2 ^ k * PAGE_SIZE) m md L m1 h1 Hi) as [Hi1 Hf1]; auto; [lia|].
    assert (Hfp := free_pages_push k L (chunk + 2 ^ k * PAGE_SIZE) ltac:(lia)).
    destruct (IH k m1 (set_free_lists h1 md) (L.[k <- (chunk + 2 ^ k * PAGE_SIZE) :: L k]))
      as (L' & Hi' & HP & Hb' & Hf' & HL'); auto; [lia|lia| |].
    { rewrite Hfp, app_assoc. by rewrite <- app_assoc in Hnd |- *. }
    replace (k + 1 - Z.of_nat (S t)) with (k - Z.of_nat t) by lia.
    exists L'. split_and!; [done| |done| |].
    + rewrite <- HP, Hfp. by rewrite app_assoc.
    + eapply mem_frame_trans.
      * eapply mem_frame_mono; [|exact Hf1]. set_solver.
      * eapply mem_frame_mono; [|exact Hf']. intros a. rewrite Hfp. set_solver.
    + intros j. destruct (HL' j) as (l & -> & Hlen). destruct (decide (j = k)) as [->|Hjk].
      * rewrite upd_eq. exists (l ++ [chunk + 2 ^ k * PAGE_SIZE]). rewrite <- app_assoc, length_app, Hlen.
        split; [done|]. rewrite decide_False, decide_True by lia. done.
      * rewrite upd_ne by done. exists l. split; [done|]. rewrite Hlen.
        destruct (decide (k - Z.of_nat t <= j < k)), (decide (k - Z.of_nat t <= j < k + 1)); (done || lia).
Qed.

(** ** The bitmap *)

Lemma flip_bit_inv m md L pos : buddy_inv m md L -> buddy_inv m (flip_bit md pos) L.
Proof. intros []. by split. Qed.

Lemma wp_toggle addr order Q s :
  lock_free s buddy_lock ->
  (forall s', kframe s s' -> k_mem s' = k_mem s ->
     k_buddy s' = flip_bit (k_buddy s) (bitmap_bit_pos (k_buddy s) addr order) ->
     Q (read_bit (k_buddy s') (bitmap_bit_pos (k_buddy s) addr order)) s') ->
  wp (toggle_bitmap addr order) Q s.
Proof.
  intros Hf HQ. unfold toggle_bitmap. wp_steps. apply wp_acquire; [done|].
  intros s1 Hh Hm Hb. wp_steps. eapply wp_release; [by apply held_set_buddy|].
  intros s2 Hk Hm2 Hb2. wp_steps. rewrite Hb in *.
  cbn [k_buddy k_mem set_buddy] in *. rewrite <- Hb2. apply HQ; [done| |done]. by rewrite Hm2.
Qed.

(** ** Allocation *)

(** The block handed out, the free blocks left and the memory touched. *)
Record allocated (order : Z) (s : kstate) (L : Z -> list ptr) (p : ptr) (s' : kstate)
    (L' : Z -> list ptr) : Prop := {
  al_inv : buddy_inv (k_mem s') (k_buddy s') L';
  al_block : block_ok (k_buddy s) order p;
  al_pages : free_pages L ≡ₚ pages_of order p ++ free_pages L';
  al_frame : mem_frame (free_pages L) (k_mem s) (k_mem s');
  al_region : bm_base_address (k_buddy s') = bm_base_address (k_buddy s) /\
              bm_size (k_buddy s') = bm_size (k_buddy s);
  al_bit : exists heads, k_buddy s' =
    flip_bit (set_free_lists heads (k_buddy s)) (bitmap_bit_pos (k_buddy s) p order);
  al_singles : (length (L 0%Z) <= 1 -> length (L' 0%Z) <= 1)%nat;
}.

Lemma kalloc_scan_spec turns order idx s L :
  buddy_inv (k_mem s) (k_buddy s) L -> lock_free s buddy_lock ->
  0 <= order <= idx -> idx + Z.of_nat turns = MAX_ORDER + 1 ->
  (forall k, order <= k < idx -> L k = []) ->
  wp (kalloc_scan turns order idx) (fun p s' => kframe s s' /\
    (p = NULL /\ k_mem s' = k_mem s /\ k_buddy s' = k_buddy s /\
       (forall k, idx <= k <= MAX_ORDER -> L k = []) \/
     p <> NULL /\ exists L', allocated order s L p s' L')) s.
Proof.
  revert idx s. induction turns as [|t IH]; intros idx s Hi Hl Ho Ht Hem; cbn [kalloc_scan].
  { apply wp_ret. split; [reflexivity|]. left. split_and!; try done. intros. lia. }
  wp_step. apply wp_acquire; [done|]. intros s1 Hh1 Hm1 Hb1. wp_steps. rewrite Hb1.
  pose proof (bi_links _ _ _ Hi idx ltac:(lia)) as Hseg.
  destruct (Z.eqb_spec (bm_free_lists (k_buddy s) idx) NULL) as [E|E].
  - wp_step. eapply wp_release; [exact Hh1|]. intros s2 Hk2 Hm2 Hb2.
    rewrite Hm1 in Hm2. rewrite Hb1 in Hb2.
    eapply wp_mono; [apply (IH (idx + 1) s2)|]; try lia.
    + by rewrite Hm2, Hb2.
    + by apply Hk2.
    + intros k Hk3. destruct (decide (k = idx)) as [->|]; [by apply (dseg_head _ _ _ _ Hseg)|apply Hem; lia].
    + intros p s' (Hk & HR). split; [by etrans|].
      destruct HR as [(-> & -> & -> & HR)|(Hp & L' & HA)]; [left|right].
      * split_and!; try done. intros k Hk3. destruct (decide (k = idx)) as [->|]; [|apply HR; lia].
        by apply (dseg_head _ _ _ _ Hseg).
      * split; [done|]. exists L'. destruct HA as [? ? ? ? ? ? ?]. rewrite Hm2, Hb2 in *. by split.
  - destruct (pop_chunk idx (k_mem s) (bm_free_lists (k_buddy s))) as [[c m2] h2] eqn:Hpop.
    destruct (pop_inv idx _ _ _ _ _ _ Hi ltac:(lia) E Hpop) as (L1 & Hi1 & HP1 & Hbl1 & Hf1 & l1 & El1 & ->).
    wp_steps. rewrite Hm1, Hb1, Hpop. cbv [fst].
    eapply wp_on_lists; [by rewrite Hm1, Hb1, Hpop|]. rewrite Hb1.
    destruct (split_chunk (Z.to_nat (idx - order)) idx c m2 h2) as [m3 h3] eqn:Hsp.
    destruct (split_inv (Z.to_nat (idx - order)) idx c m2 (set_free_lists h2 (k_buddy s)) (L.[idx <- l1]) m3 h3)
      as (L2 & Hi2 & HP2 & Hbl2 & Hf2 & HL2); auto; [lia|lia| |].
    { rewrite <- HP1. by eapply bi_nodup. }
    rewrite Z2Nat.id in * by lia. replace (idx - (idx - order)) with order in * by lia.
    wp_step. eapply wp_on_lists; [exact Hsp|]. wp_step.
    eapply wp_release; [by auto 6 with kframe|].
    intros s2 Hk2 Hm2 Hb2. simpl in Hm2, Hb2. wp_steps.
    apply wp_toggle; [by apply Hk2|]. intros s3 Hk3 Hm3 Hb3. wp_steps.
    split; [by etrans|]. right. split.
    { destruct Hi, Hbl1. unfold NULL. lia. }
    exists L2. split.
    + rewrite Hm3, Hb3, Hm2, Hb2. apply flip_bit_inv. exact Hi2.
    + exact Hbl2.
    + by rewrite HP1, HP2.
    + rewrite Hm3, Hm2. eapply mem_frame_trans; [exact Hf1|].
      eapply mem_frame_mono; [|exact Hf2]. intros a. by rewrite HP1.
    + rewrite Hb3, Hb2. done.
    + exists h3. rewrite Hb3, Hb2. done.
    + destruct (HL2 0) as (l & -> & Hlen). rewrite length_app. destruct (decide (0 = idx)) as [<-|Hne].
      * rewrite upd_eq, El1. rewrite decide_False in Hlen by lia. simpl. lia.
      * rewrite upd_ne by done. case_decide; [rewrite Hem by lia; simpl; lia|lia].
Qed.

Lemma kalloc_wp size s L :
  buddy_inv (k_mem s) (k_buddy s) L -> lock_free s buddy_lock -> size <= 2 ^ 63 ->
  wp (buddy_kalloc size) (fun p s' => kframe s s' /\ exists order, least_order size order /\
    (p = NULL /\ k_mem s' = k_mem s /\ k_buddy s' = k_buddy s /\
       (forall k, order <= k <= MAX_ORDER -> L k = []) \/
     p <> NULL /\ order <= MAX_ORDER /\ exists L', allocated order s L p s' L')) s.
Proof.
  intros Hi Hl Hs. unfold buddy_kalloc. wp_steps.
  destruct (order_of_size_least size Hs) as (o & -> & Ho & Hleast). unfold of_loop. wp_steps.
  pose proof Hleast as (Ho0 & _). rewrite (bi_max _ _ _ Hi).
  destruct (Z.gtb_spec o MAX_ORDER) as [Hgt|Hle].
  - wp_steps. split; [reflexivity|]. exists o. split; [done|]. left. split_and!; try done.
    intros. unfold MAX_ORDER in *. lia.
  - unfold NUM_MAX_ORDER. rewrite (bi_max _ _ _ Hi).
    eapply wp_mono; [apply (kalloc_scan_spec _ _ _ _ L); auto; try (unfold MAX_ORDER in *; lia); intros; lia|].
    intros p s' (Hk & HR). split; [done|]. exists o. split; [done|].
    destruct HR as [HR|(Hp & HR)]; [by left|right; auto].
Qed.

(** ** Clients *)

(** What a client knows of the allocator besides its invariant: a property of the
    metadata and the lists, the orders the client asks for, and the pages it may
    hold.  Every allocation of such an order has to keep the property, and every
    free page has to be one the client may hold. *)
Class AllocClient : Type := {
  ac_inv : buddy_metadata -> (Z -> list ptr) -> Prop;
  ac_order : Z -> Prop;
  ac_frame : Z -> Prop;
  ac_page : ac_order 0;
  ac_free m md L p : buddy_inv m md L -> ac_inv md L -> p ∈ free_pages L -> ac_frame p;
  ac_alloc order s L p s' L' :
    buddy_inv (k_mem s) (k_buddy s) L -> ac_order order -> ac_inv (k_buddy s) L ->
    allocated order s L p s' L' -> ac_inv (k_buddy s') L';
}.

(** The client that knows nothing more. *)
#[export] Instance any_client : AllocClient | 100 := {|
  ac_inv _ _ := True; ac_order _ := True; ac_frame _ := True;
  ac_page := I; ac_free _ _ _ _ _ _ _ := I; ac_alloc _ _ _ _ _ _ _ _ _ _ := I;
|}.

(** ** Buddies *)

Lemma lxor_one q : Z.lxor (2 * q) 1 = 2 * q + 1 /\ Z.lxor (2 * q + 1) 1 = 2 * q.
Proof.
  assert (H : Z.lxor (2 * q) 1 = 2 * q + 1).
  { symmetry. apply Z.add_nocarry_lxor. change 1 with (Z.ones 1). rewrite Z.land_ones by lia.
    rewrite Z.mul_comm. apply Z.mod_mul. lia. }
  split; [done|]. rewrite <- H. by rewrite Z.lxor_assoc, Z.lxor_nilpotent, Z.lxor_0_r.
Qed.

Lemma lxor_buddy x n :
  0 <= n -> (2 ^ n | x) ->
  (Z.lxor x (2 ^ n) = x + 2 ^ n /\ (2 ^ (n + 1) | x)) \/
  (Z.lxor x (2 ^ n) = x - 2 ^ n /\ (2 ^ (n + 1) | x - 2 ^ n)).
Proof.
  intros Hn [q ->]. rewrite Z.pow_add_r by lia. change (2 ^ 1) with 2.
  assert (E : Z.lxor (q * 2 ^ n) (2 ^ n) = Z.lxor q 1 * 2 ^ n).
  { rewrite <- !(Z.shiftl_mul_pow2 _ n) by done. rewrite <- (Z.mul_1_l (2 ^ n)).
    rewrite <- Z.shiftl_mul_pow2 by done. by rewrite Z.shiftl_lxor. }
  rewrite E. destruct (Z.Even_or_Odd q) as [[r ->]|[r ->]].
  - left. destruct (lxor_one r) as [-> _]. split; [lia|]. exists r. lia.
  - right. destruct (lxor_one r) as [_ ->]. split; [lia|]. exists r. lia.
Qed.

Definition buddy_of (x k : Z) : Z := Z.lxor x (chunk_bytes k).

(** Two buddies make the block of the next order that starts at the lower. *)
Lemma buddy_merge md k x :
  0 <= k < 51 -> block_ok md k x -> block_ok md k (buddy_of x k) ->
  block_ok md (k + 1) (Z.min x (buddy_of x k)) /\
  pages_of (k + 1) (Z.min x (buddy_of x k)) ≡ₚ pages_of k x ++ pages_of k (buddy_of x k).
Proof.
  intros Hk (Hd & Hb & He) (Hd' & Hb' & He'). unfold buddy_of in *.
  rewrite chunk_bytes_pow in * by lia. change PAGE_SIZE with (2 ^ 12) in *.
  rewrite <- Z.pow_add_r in * by lia. pose proof (pow2_pos (k + 12) ltac:(lia)) as Hpos.
  unfold block_ok. change PAGE_SIZE with (2 ^ 12).
  replace (2 ^ (k + 1) * 2 ^ 12) with (2 ^ (k + 12 + 1))
    by (rewrite <- Z.pow_add_r by lia; f_equal; lia).
  pose proof (pow2_succ (k + 12) ltac:(lia)).
  assert (Hp : forall y, pages_of (k + 1) y = pages_of k y ++ pages_of k (y + 2 ^ (k + 12))).
  { intros y. rewrite pages_of_split by lia. change PAGE_SIZE with (2 ^ 12).
    by rewrite <- Z.pow_add_r by lia. }
  destruct (lxor_buddy x (k + 12) ltac:(lia) Hd) as [[E Hdiv]|[E Hdiv]]; rewrite E in *.
  - rewrite Z.min_l by lia. split; [split; [done|lia]|by rewrite Hp].
  - rewrite Z.min_r by lia. split; [split; [done|lia]|]. rewrite Hp.
    replace (x - 2 ^ (k + 12) + 2 ^ (k + 12)) with x by lia. apply Permutation_app_comm.
Qed.

(** ** Freeing *)

(** The bitmap tells the truth about a free of [chunk]: each time the bit of the
    pair asks for a merge, the buddy is on the free list of its order. *)
Fixpoint coalesce_truthful (turns : nat) (md : buddy_metadata) (L : Z -> list ptr)
    (chunk : ptr) (order : Z) : Prop :=
  match turns with
  | O => True
  | S t =>
      let pos := bitmap_bit_pos md chunk order in
      let md' := flip_bit md pos in
      read_bit md' pos = 0 ->
      let buddy := buddy_of chunk order in
      buddy ∈ L order /\
      coalesce_truthful t md' (L.[order <- filter (fun b => b <> buddy) (L order)])
        (Z.min chunk buddy) (order + 1)
  end.

Lemma coalesce_truthful_lists turns h md L chunk order :
  coalesce_truthful turns (set_free_lists h md) L chunk order <->
  coalesce_truthful turns md L chunk order.
Proof.
  revert md L chunk order. induction turns as [|t IH]; intros md L chunk order; [done|].
  cbn [coalesce_truthful]. cbv zeta.
  change (bitmap_bit_pos (set_free_lists h md) chunk order) with (bitmap_bit_pos md chunk order).
  set (pos := bitmap_bit_pos md chunk order).
  change (flip_bit (set_free_lists h md) pos) with (set_free_lists h (flip_bit md pos)).
  rewrite IH. done.
Qed.

(** The merges of a free on a truthful bitmap: the metadata, the lists and the
    block they end with. *)
Fixpoint coalesced (turns : nat) (md : buddy_metadata) (L : Z -> list ptr) (chunk : ptr) (order : Z) :
    buddy_metadata * (Z -> list ptr) * (ptr * Z) :=
  match turns with
  | O => (md, L, (chunk, order))
  | S t =>
      let pos := bitmap_bit_pos md chunk order in
      let md' := flip_bit md pos in
      if read_bit md' pos =? 0 then
        let buddy := buddy_of chunk order in
        coalesced t md' (L.[order <- filter (fun b => b <> buddy) (L order)]) (Z.min chunk buddy) (order + 1)
      else (md', L, (chunk, order))
  end.

Lemma coalesced_lists turns h md L chunk order :
  coalesced turns (set_free_lists h md) L chunk order =
  let '(md', L', r) := coalesced turns md L chunk order in (set_free_lists h md', L', r).
Proof.
  revert md L chunk order. induction turns as [|t IH]; intros md L chunk order; [done|].
  cbn [coalesced]. cbv zeta.
  change (bitmap_bit_pos (set_free_lists h md) chunk order) with (bitmap_bit_pos md chunk order).
  set (pos := bitmap_bit_pos md chunk order).
  change (flip_bit (set_free_lists h md) pos) with (set_free_lists h (flip_bit md pos)).
  change (read_bit (set_free_lists h (flip_bit md pos)) pos) with (read_bit (flip_bit md pos) pos).
  destruct (_ =? 0); [apply IH|done].
Qed.

(** The block that is freed and the state it leaves. *)
Record freed (order : Z) (p : ptr) (s : kstate) (L : Z -> list ptr) (s' : kstate)
    (L' : Z -> list ptr) : Prop := {
  fr_inv : buddy_inv (k_mem s') (k_buddy s') L';
  fr_pages : free_pages L' ≡ₚ pages_of order p ++ free_pages L;
  fr_frame : mem_frame (pages_of order p ++ free_pages L) (k_mem s) (k_mem s');
  fr_region : bm_base_address (k_buddy s') = bm_base_address (k_buddy s) /\
              bm_size (k_buddy s') = bm_size (k_buddy s);
  fr_merge : order < MAX_ORDER -> exists heads md' L1 c o',
    coalesced (Z.to_nat (MAX_ORDER - order)) (k_buddy s) L p order = (md', L1, (c, o')) /\
    k_buddy s' = set_free_lists heads md' /\ L' = L1.[o' <- c :: L1 o'];
}.

Lemma kfree_coalesce_spec turns chunk order s L :
  buddy_inv (k_mem s) (k_buddy s) L -> lock_free s buddy_lock ->
  0 <= order -> order + Z.of_nat turns = MAX_ORDER -> block_ok (k_buddy s) order chunk ->
  NoDup (pages_of order chunk ++ free_pages L) ->
  coalesce_truthful turns (k_buddy s) L chunk order ->
  wp (kfree_coalesce turns chunk order) (fun r s' => kframe s s' /\ exists L',
    buddy_inv (k_mem s') (k_buddy s') L' /\ 0 <= r.2 <= MAX_ORDER /\
    block_ok (k_buddy s') r.2 r.1 /\
    pages_of order chunk ++ free_pages L ≡ₚ pages_of r.2 r.1 ++ free_pages L' /\
    mem_frame (free_pages L) (k_mem s) (k_mem s') /\
    bm_base_address (k_buddy s') = bm_base_address (k_buddy s) /\
    bm_size (k_buddy s') = bm_size (k_buddy s) /\
    exists heads md', coalesced turns (k_buddy s) L chunk order = (md', L', r) /\ k_buddy s' = set_free_lists heads md') s.
Proof.
  revert chunk order s L. induction turns as [|t IH];
    intros chunk order s L Hi Hl Ho Ht Hb Hnd Htr; cbn [kfree_coalesce].
  { wp_steps. split; [reflexivity|]. exists L. simpl. split_and!; try done; try lia.
    exists (bm_free_lists (k_buddy s)), (k_buddy s). split; [done|]. by destruct (k_buddy s). }
  wp_step. apply wp_toggle; [done|]. intros s1 Hk1 Hm1 Hb1.
  cbn [coalesce_truthful] in Htr. cbv zeta in Htr. cbn [coalesced]. cbv zeta. rewrite <- Hb1 in Htr |- *.
  set (bit := read_bit _ _) in *.
  assert (Hi1 : buddy_inv (k_mem s1) (k_buddy s1) L).
  { rewrite Hm1, Hb1. by apply flip_bit_inv. }
  destruct (Z.eqb_spec bit 0) as [E|E]; cbn [negb].
  2:{ wp_steps. split; [done|]. exists L. simpl. split_and!; try done; try lia.
      - by rewrite Hb1.
      - by rewrite Hm1.
      - by rewrite Hb1.
      - by rewrite Hb1.
      - exists (bm_free_lists (k_buddy s1)), (k_buddy s1). split; [done|]. by destruct (k_buddy s1). }
  destruct (Htr E) as [Hbd Htr'].
  assert (Hko : 0 <= order <= MAX_ORDER) by lia.
  fold (buddy_of chunk order).
  wp_step. apply wp_acquire; [by apply Hk1|]. intros s2 Hh2 Hm2 Hb2.
  destruct (unlink_chunk order (buddy_of chunk order) (k_mem s1) (bm_free_lists (k_buddy s1)))
    as [m3 h3] eqn:Hun.
  destruct (unlink_inv _ _ _ _ _ _ _ Hi1 Hko Hbd Hun) as (Hi3 & HP3 & Hbb3 & Hf3).
  wp_step. eapply wp_on_lists; [by rewrite Hm2, Hb2|].
  wp_steps. eapply wp_release; [by auto with kframe|]. intros s4 Hk4 Hm4 Hb4.
  cbn [k_mem k_buddy set_mem set_buddy] in Hm4, Hb4. rewrite Hb2 in Hb4.
  assert (Hmin : (if buddy_of chunk order <? chunk then buddy_of chunk order else chunk)
                 = Z.min chunk (buddy_of chunk order)).
  { destruct (Z.ltb_spec (buddy_of chunk order) chunk); lia. }
  rewrite Hmin. unfold u8. rewrite Z.mod_small by (unfold MAX_ORDER in *; lia).
  assert (Hb1' : block_ok (k_buddy s1) order chunk) by (rewrite Hb1; done).
  destruct (buddy_merge (k_buddy s1) order chunk) as [Hbm HPm];
    [unfold MAX_ORDER in *; lia|done|done|].
  eapply wp_mono; [eapply (IH _ _ s4 (L.[order <- _]))|].
  - rewrite Hm4, Hb4. exact Hi3.
  - apply Hk4. by apply Hk1.
  - lia.
  - lia.
  - rewrite Hb4. exact Hbm.
  - rewrite HPm, <- app_assoc, <- HP3. done.
  - rewrite Hb4. by apply coalesce_truthful_lists.
  - intros r s' (Hk' & L' & Hi' & Hr & Hbr & HP' & Hf' & Hreg1 & Hreg2 & heads & md' & Hco & Emd).
    split; [by repeat (etrans; eauto)|].
    exists L'. split_and!; try done; try lia.
    + rewrite HP3 at 1. by rewrite app_assoc, <- HPm.
    + intros a Ha. rewrite Hf'.
      * rewrite Hm4. rewrite Hf3 by done. by rewrite Hm1.
      * intros Hin. apply Ha. rewrite HP3. set_solver.
    + rewrite Hreg1. by rewrite Hb4, Hb1.
    + rewrite Hreg2. by rewrite Hb4, Hb1.
    + rewrite Hb4, coalesced_lists in Hco. destruct (coalesced t (k_buddy s1) _ _ _) as [[md2 L2] r2].
      injection Hco as <- <- <-. exists heads, md2. split; [done|]. by rewrite Emd.
Qed.

(** The merge loop and the final insertion, from a state [s0] that differs from
    the caller's [s] in the bitmap only. *)
Lemma kfree_merge_wp order chunk s s0 L :
  let turns := Z.to_nat (MAX_ORDER - order) in
  buddy_inv (k_mem s0) (k_buddy s0) L -> lock_free s0 buddy_lock -> 0 <= order <= MAX_ORDER ->
  block_ok (k_buddy s0) order chunk -> NoDup (pages_of order chunk ++ free_pages L) ->
  coalesce_truthful turns (k_buddy s0) L chunk order ->
  kframe s s0 -> k_mem s0 = k_mem s ->
  bm_base_address (k_buddy s0) = bm_base_address (k_buddy s) ->
  bm_size (k_buddy s0) = bm_size (k_buddy s) -> (order < MAX_ORDER -> k_buddy s0 = k_buddy s) ->
  wp (kfree_coalesce turns chunk order) (fun r =>
      wp (spinlock_acquire buddy_lock;; on_lists (push_chunk r.2 r.1);; spinlock_release buddy_lock)
       (fun _ s' => kframe s s' /\ exists L', freed order chunk s L s' L')) s0.
Proof.
  intros turns Hi0 Hl0 Ho Hb Hnd Htr Hk0 Hm0 Hbase Hsize Heq.
  eapply wp_mono; [apply (kfree_coalesce_spec _ _ _ _ L); auto; unfold turns; lia|].
  intros [c o'] s1 (Hk1 & L1 & Hi1 & Hr & Hbr & HP1 & Hf1 & Hreg1 & Hreg2 & heads & md' & Hco & Emd). cbn [fst snd] in *.
  wp_steps. apply wp_acquire; [by apply Hk1|]. intros s2 Hh2 Hm2 Hb2.
  destruct (push_chunk o' c (k_mem s1) (bm_free_lists (k_buddy s1))) as [m3 h3] eqn:Hpush.
  assert (NoDup (pages_of o' c ++ free_pages L1)) as Hnd1 by (by rewrite <- HP1).
  destruct (push_inv _ _ _ _ _ _ _ Hi1 Hr Hbr Hnd1 Hpush) as [Hi3 Hf3].
  wp_step. eapply wp_on_lists; [by rewrite Hm2, Hb2|].
  eapply wp_release; [by auto with kframe|]. intros s4 Hk4 Hm4 Hb4.
  cbn [k_mem k_buddy set_mem set_buddy] in Hm4, Hb4. rewrite Hb2 in Hb4.
  split; [by repeat (etrans; eauto)|]. eexists. split.
  - rewrite Hm4, Hb4. exact Hi3.
  - rewrite free_pages_push by lia. by rewrite <- HP1.
  - rewrite Hm4. intros a Ha. rewrite Hf3 by (by rewrite <- HP1).
    rewrite Hf1 by set_solver. by rewrite Hm0.
  - rewrite Hb4. simpl. split; congruence.
  - intros Hlt. exists h3, md', L1, c, o'. rewrite <- (Heq Hlt). split_and!; [done|by rewrite Hb4, Emd|done].
Qed.

Lemma kfree_wp size order chunk s L :
  buddy_inv (k_mem s) (k_buddy s) L -> lock_free s buddy_lock ->
  0 < size -> least_order size order -> order <= MAX_ORDER ->
  block_ok (k_buddy s) order chunk -> NoDup (pages_of order chunk ++ free_pages L) ->
  coalesce_truthful (Z.to_nat (MAX_ORDER - order)) (k_buddy s) L chunk order ->
  wp (buddy_kfree chunk size) (fun _ s' => kframe s s' /\ exists L', freed order chunk s L s' L') s.
Proof.
  intros Hi Hl Hsz Hlo Hom Hb Hnd Htr. pose proof Hlo as (Ho & Hle & _).
  destruct (block_ok_range (k_buddy s) order chunk _ L Hi Ho Hb) as [Hc _].
  unfold buddy_kfree.
  rewrite (proj2 (Z.eqb_neq chunk NULL)), (proj2 (Z.eqb_neq size 0)) by (unfold NULL; lia).
  cbn [orb]. wp_steps.
  assert (size <= 2 ^ 63) as Hs63.
  { pose proof (pow2_max order ltac:(lia)). unfold PAGE_SIZE in *. lia. }
  destruct (order_of_size_least size Hs63) as (o & -> & _ & Hlo').
  rewrite (least_order_unique _ _ _ Hlo' Hlo). unfold of_loop. wp_steps. rewrite (bi_max _ _ _ Hi).
  destruct (Z.gtb_spec order MAX_ORDER) as [Hgt|_]; [lia|].
  destruct (Z.eqb_spec order MAX_ORDER) as [E|E]; wp_steps.
  - apply wp_toggle; [done|]. intros s1 Hk1 Hm1 Hb1. wp_steps.
    apply kfree_merge_wp; auto; rewrite ?Hm1, ?Hb1; try done.
    + by apply flip_bit_inv.
    + by apply Hk1.
    + by replace (Z.to_nat (MAX_ORDER - order)) with 0%nat by lia.
    + lia.
  - apply kfree_merge_wp; auto. reflexivity.
Qed.
