(* ===== verification/BuddyInit.v ===== *)
(** * The buddy allocator: initialisation

    [__init_buddy] partitions the managed region into blocks and links them:
    from any memory content it establishes the invariant of BuddyInv with every
    page of the region free. *)

From S2P Require Import Prelude State Kmath Buddy FreeList BuddyInv.

(** ** Counting *)

Definition orders : list Z := seqZ 0 (MAX_ORDER + 1).

(** The pages in [counts k] blocks of each order [k] of a list of orders. *)
Fixpoint weight (ks : list Z) (counts : Z -> Z) : Z :=
  match ks with [] => 0 | k :: ks' => counts k * 2 ^ k + weight ks' counts end.

Lemma weight_upd ks counts k v :
  NoDup ks -> k ∈ ks -> weight ks (counts.[k <- v]) = weight ks counts + (v - counts k) * 2 ^ k.
Proof.
  induction ks as [|j ks IH]; intros Hnd Hk; [by apply elem_of_nil in Hk|].
  apply NoDup_cons in Hnd as [Hj Hnd]. simpl. destruct (decide (j = k)) as [->|Hjk].
  - rewrite upd_eq.
    assert (weight ks (counts.[k <- v]) = weight ks counts) as ->; [|lia].
    clear IH Hnd Hk. induction ks as [|i ks IH]; simpl; [done|].
    rewrite upd_ne by set_solver. rewrite IH by set_solver. done.
  - rewrite upd_ne by done. rewrite IH by set_solver. lia.
Qed.

Lemma land_aligned addr n : 0 <= n -> (2 ^ n | addr) -> Z.land addr (2 ^ n - 1) = 0.
Proof.
  intros Hn Hd. replace (2 ^ n - 1) with (Z.ones n) by (rewrite Z.ones_equiv; lia).
  rewrite Z.land_ones by done. apply Z.mod_divide; [pose proof (pow2_pos n Hn); lia|done].
Qed.

(** A page-aligned address with at least a page left has a fitting order. *)
Lemma fitting_order_spec turns order addr remaining :
  order = Z.of_nat turns - 1 -> order <= MAX_ORDER -> (0 < turns)%nat ->
  (PAGE_SIZE | addr) -> PAGE_SIZE <= remaining ->
  let o := fitting_order turns order addr remaining in
  0 <= o <= order /\ chunk_bytes o <= remaining.
Proof.
  revert order. induction turns as [|t IH]; intros order Ho Hm Ht Ha Hr; [lia|].
  cbn [fitting_order]. cbv zeta.
  destruct (Z.leb_spec (chunk_bytes order) remaining) as [Hle|Hgt]; simpl.
  - destruct (Z.eqb_spec (Z.land addr (chunk_bytes order - 1)) 0) as [E|E]; [lia|].
    destruct t as [|t].
    + exfalso. apply E. replace order with 0 by lia. rewrite chunk_bytes_pow by lia.
      apply (land_aligned addr 12); [lia|]. exact Ha.
    + destruct (IH (order - 1)) as [? ?]; try lia; try done.
  - destruct t as [|t].
    + replace order with 0 in Hgt by lia. rewrite chunk_bytes_pow in Hgt by lia.
      unfold PAGE_SIZE in *. lia.
    + destruct (IH (order - 1)) as [? ?]; try lia; try done.
Qed.

Lemma count_chunks_spec fuel addr r counts :
  (PAGE_SIZE | addr) -> 0 <= r <= Z.of_nat fuel -> 0 <= addr -> addr + r * PAGE_SIZE < 2 ^ 64 ->
  (forall k, 0 <= counts k) -> (forall k, counts k + r < 2 ^ 32) ->
  exists counts', count_chunks fuel 0 MAX_ORDER addr (r * PAGE_SIZE) counts = Some counts' /\
    (forall k, 0 <= counts' k < 2 ^ 32) /\ weight orders counts' = weight orders counts + r.
Proof.
  revert addr r counts. induction fuel as [|f IH]; intros addr r counts Ha Hr H0 Hend Hc Hb.
  - assert (r = 0) as -> by lia. exists counts. split; [done|]. split; [|lia].
    intros k. specialize (Hc k). specialize (Hb k). lia.
  - cbn [count_chunks]. destruct (Z.ltb_spec (r * PAGE_SIZE) PAGE_SIZE) as [Hlt|Hge].
    { assert (r = 0) as -> by (unfold PAGE_SIZE in *; lia). exists counts. split; [done|]. split; [|lia].
      intros k. specialize (Hc k). specialize (Hb k). lia. }
    destruct (fitting_order_spec (Z.to_nat (MAX_ORDER - 0 + 1)) MAX_ORDER addr (r * PAGE_SIZE))
      as [Ho Hcb]; try done; try (unfold MAX_ORDER; lia).
    set (o := fitting_order _ _ _ _) in *. destruct (Z.ltb_spec o 0); [lia|].
    rewrite chunk_bytes_pow in * by (unfold MAX_ORDER in *; lia).
    pose proof (pow2_max o Ho) as Hp.
    assert (2 ^ o <= r) by (unfold PAGE_SIZE in *; lia).
    unfold u64. rewrite !Z.mod_small by (unfold PAGE_SIZE in *; lia).
    replace (r * PAGE_SIZE - 2 ^ o * PAGE_SIZE) with ((r - 2 ^ o) * PAGE_SIZE) by lia.
    assert (u32 (counts o + 1) = counts o + 1) as ->.
    { apply Z.mod_small. specialize (Hc o). specialize (Hb o). lia. }
    destruct (IH (addr + 2 ^ o * PAGE_SIZE) (r - 2 ^ o) (counts.[o <- counts o + 1]))
      as (c' & -> & Hc' & Hw); try (unfold PAGE_SIZE in *; lia).
    + apply Z.divide_add_r; [done|]. apply Z.divide_factor_r.
    + intros k. unfold upd. pose proof (Hc k). pose proof (Hc o). destruct (_ =? _); lia.
    + intros k. unfold upd. pose proof (Hb k). destruct (Z.eqb_spec k o) as [->|]; lia.
    + exists c'. split_and!; [done|done|]. rewrite Hw, weight_upd; [lia|apply NoDup_seqZ|].
      apply elem_of_seqZ. lia.
Qed.

(** ** Linking *)

(** [t] consecutive blocks of order [k] from address [x]. *)
Definition blocks_at (k x t : Z) : list ptr := (fun j => x + j * (2 ^ k * PAGE_SIZE)) <$> seqZ 0 t.

Lemma blocks_at_cons k x t :
  0 <= t -> blocks_at k x (t + 1) = x :: blocks_at k (x + 2 ^ k * PAGE_SIZE) t.
Proof.
  intros Ht. unfold blocks_at. rewrite seqZ_cons by lia. rewrite fmap_cons. f_equal; [lia|].
  replace (Z.succ 0) with (1 + 0) by lia. replace (Z.pred (t + 1)) with t by lia.
  rewrite <- fmap_add_seqZ, <- list_fmap_compose. apply list_fmap_ext. intros i a _. simpl. lia.
Qed.

Lemma blocks_at_elem k x t a :
  a ∈ blocks_at k x t <-> exists j, 0 <= j < t /\ a = x + j * (2 ^ k * PAGE_SIZE).
Proof. unfold blocks_at. rewrite list_elem_of_fmap. setoid_rewrite elem_of_seqZ. naive_solver lia. Qed.

Lemma blocks_at_pages k x (t : nat) :
  0 <= k -> (blocks_at k x (Z.of_nat t) ≫= pages_of k) = page_range x (Z.of_nat t * 2 ^ k).
Proof.
  intros Hk. pose proof (pow2_pos k Hk). revert x. induction t as [|t IH]; intros x; [done|].
  rewrite Nat2Z.inj_succ. unfold Z.succ. rewrite blocks_at_cons by lia. rewrite bind_cons, IH.
  unfold pages_of. rewrite <- page_range_app by lia. f_equal. lia.
Qed.

Lemma blocks_at_aligned k x t :
  0 <= k -> (PAGE_SIZE | x) -> Forall page_aligned (blocks_at k x t).
Proof.
  intros Hk Hx. apply Forall_forall. intros a (j & _ & ->)%blocks_at_elem.
  apply Z.mod_divide; [done|]. apply Z.divide_add_r; [done|].
  rewrite Z.mul_assoc. apply Z.divide_factor_r.
Qed.

Lemma link_chunks_spec t i count order cur m m' cur' :
  0 <= order <= MAX_ORDER -> (PAGE_SIZE | cur) -> 0 <= i -> 0 < cur - i * (2 ^ order * PAGE_SIZE) ->
  cur + Z.of_nat t * (2 ^ order * PAGE_SIZE) <= 2 ^ 48 -> i + Z.of_nat t = count -> count < 2 ^ 32 ->
  link_chunks t i count order cur m = (m', cur') ->
  cur' = cur + Z.of_nat t * (2 ^ order * PAGE_SIZE) /\
  ((0 < t)%nat -> dseg m' (if i =? 0 then NULL else cur - 2 ^ order * PAGE_SIZE) cur
                    (blocks_at order cur (Z.of_nat t))) /\
  same_except (blocks_at order cur (Z.of_nat t)) m m'.
Proof.
  intros Ho. pose proof (pow2_max order Ho) as Hp. assert (Ho' : 0 <= order < 52) by (unfold MAX_ORDER in *; lia).
  revert i cur m. induction t as [|t IH]; intros i cur m Hd Hi Hpos Hend Hc Hc32 Hlink; cbn [link_chunks] in Hlink.
  { injection Hlink as <- <-. split_and!; [lia|lia|apply same_except_refl]. }
  rewrite chunk_bytes_pow in Hlink by done.
  set (sz := 2 ^ order * PAGE_SIZE) in *. assert (4096 <= sz <= 2 ^ 22) as Hsz by (unfold sz, PAGE_SIZE; lia).
  assert (0 <= i * sz /\ 0 <= Z.of_nat t * sz) as [? ?] by nia.
  rewrite Nat2Z.inj_succ in *. unfold Z.succ in *.
  unfold u64, u32 in Hlink.
  rewrite (Z.mod_small (cur + sz)), (Z.mod_small (count - 1)) in Hlink by lia.
  set (m1 := (m.[cur + off_next <- _]).[cur + off_prev <- _]) in Hlink.
  destruct (IH (i + 1) (cur + sz) m1) as (-> & Hseg & Hse); try done; try lia.
  { apply Z.divide_add_r; [done|]. apply Z.divide_factor_r. }
  rewrite blocks_at_cons by lia. fold sz.
  assert (Hal : Forall page_aligned (blocks_at order (cur + sz) (Z.of_nat t))).
  { apply blocks_at_aligned; [lia|]. apply Z.divide_add_r; [done|]. apply Z.divide_factor_r. }
  assert (Hax : page_aligned cur) by (by apply Z.mod_divide).
  assert (Hni : cur ∉ blocks_at order (cur + sz) (Z.of_nat t)).
  { intros (j & Hj & E)%blocks_at_elem. fold sz in E. nia. }
  destruct (not_link_word (blocks_at order (cur + sz) (Z.of_nat t)) cur) as [Hn1 Hn2]; [by constructor|done|].
  split_and!; [lia| |].
  - intros _. cbn [dseg]. split_and!; [done|unfold NULL; lia| |].
    + rewrite Hse by done. unfold m1. rewrite upd_eq.
      destruct (Z.eqb_spec i 0); [done|]. apply Z.mod_small. nia.
    + rewrite Hse by done. unfold m1. rewrite upd_ne, upd_eq by apply next_ne_prev.
      destruct t as [|t].
      * replace (i =? count - 1) with true by lia. done.
      * replace (i =? count - 1) with false by lia.
        replace (i + 1 =? 0) with false in Hseg by lia.
        replace (cur + sz - sz) with cur in Hseg by lia. apply Hseg. lia.
  - eapply same_except_trans; [|eapply same_except_mono; [|exact Hse]; set_solver].
    unfold m1. apply same_except_upd_prev; [set_solver|]. apply same_except_upd_next; [set_solver|].
    apply same_except_refl.
Qed.

(** The pages of the blocks of orders [0 .. order], and their number. *)
Definition low_orders (order : Z) : list Z := seqZ 0 (order + 1).

Lemma low_orders_snoc order : 0 <= order -> low_orders order = low_orders (order - 1) ++ [order].
Proof.
  intros. unfold low_orders. replace (order - 1 + 1) with order by lia.
  rewrite (seqZ_app 0 order 1) by lia. done.
Qed.

Lemma weight_app ks1 ks2 c : weight (ks1 ++ ks2) c = weight ks1 c + weight ks2 c.
Proof. induction ks1 as [|k ks1 IH]; simpl; [done|]. rewrite IH. lia. Qed.

Lemma weight_nonneg ks c : (forall k, k ∈ ks -> 0 <= k) -> (forall k, 0 <= c k) -> 0 <= weight ks c.
Proof.
  intros Hk Hc. induction ks as [|k ks IH]; simpl; [done|].
  pose proof (pow2_pos k (Hk k ltac:(left))). specialize (Hc k).
  assert (0 <= weight ks c) by (apply IH; set_solver). nia.
Qed.

(** What linking the orders [0 .. order] from address [cur] produces. *)
Record linked (order cur : Z) (counts : Z -> Z) (m m' : mem) (heads heads' : Z -> ptr)
    (L : Z -> list ptr) : Prop := {
  ln_seg : forall k, 0 <= k <= order -> dseg m' NULL (heads' k) (L k);
  ln_block : forall k x, 0 <= k <= order -> x ∈ L k ->
    (2 ^ k * PAGE_SIZE | x) /\ cur <= x /\
    x + 2 ^ k * PAGE_SIZE <= cur + weight (low_orders order) counts * PAGE_SIZE;
  ln_heads : forall k, order < k -> heads' k = heads k;
  ln_frame : mem_frame (page_range cur (weight (low_orders order) counts)) m m';
  ln_pages : (low_orders order ≫= fun k => L k ≫= pages_of k)
             ≡ₚ page_range cur (weight (low_orders order) counts);
}.

Lemma weight_low order counts :
  0 <= order -> weight (low_orders order) counts =
  weight (low_orders (order - 1)) counts + counts order * 2 ^ order.
Proof. intros. rewrite low_orders_snoc, weight_app by done. simpl. lia. Qed.

Lemma low_pages_upd order (L : Z -> list ptr) l :
  (low_orders (order - 1) ≫= fun k => (L.[order <- l]) k ≫= pages_of k)
  = low_orders (order - 1) ≫= fun k => L k ≫= pages_of k.
Proof.
  apply bind_ext_elem. intros k Hk%elem_of_seqZ. by rewrite upd_ne by lia.
Qed.

Lemma page_range_outside x y n a :
  (PAGE_SIZE | x) -> (PAGE_SIZE | y) -> page_of a = y -> y < x \/ x + n * PAGE_SIZE <= y ->
  page_of a ∉ page_range x n.
Proof.
  intros Hx Hy -> Hr (i & Hi & E)%page_range_elem. unfold PAGE_SIZE in *. nia.
Qed.

(** One order put in front of the lower ones. *)
Lemma linked_step order cur counts m m1 m' heads heads1 heads' L l :
  0 <= order <= MAX_ORDER -> (2 ^ order * PAGE_SIZE | cur) -> (forall k, 0 <= counts k) ->
  l = blocks_at order cur (counts order) ->
  same_except l m m1 -> dseg m1 NULL (heads1 order) l ->
  (forall k, k <> order -> heads1 k = heads k) ->
  linked (order - 1) (cur + counts order * (2 ^ order * PAGE_SIZE)) counts m1 m' heads1 heads' L ->
  linked order cur counts m m' heads heads' (L.[order <- l]).
Proof.
  intros Ho Hd Hc -> Hse Hseg Hh [H1 H2 H3 H4 H5].
  pose proof (pow2_max order Ho) as Hp. pose proof (Hc order) as Hco.
  assert (Hdp : (PAGE_SIZE | cur)) by (etrans; [apply Z.divide_factor_r|exact Hd]).
  assert (Hal := blocks_at_aligned order cur (counts order) ltac:(lia) Hdp).
  assert (Hw := weight_low order counts ltac:(lia)).
  assert (Hw0 : 0 <= weight (low_orders (order - 1)) counts).
  { apply weight_nonneg; [|done]. intros k Hk%elem_of_seqZ. lia. }
  set (l := blocks_at order cur (counts order)) in *. set (W := weight (low_orders (order - 1)) counts) in *.
  assert (Hrange : page_range cur (weight (low_orders order) counts) =
    page_range cur (counts order * 2 ^ order) ++
    page_range (cur + counts order * (2 ^ order * PAGE_SIZE)) W).
  { rewrite Hw, Z.add_comm. rewrite page_range_app by nia. do 2 f_equal. lia. }
  assert (Hl : forall x, x ∈ l -> cur <= x /\ x + 2 ^ order * PAGE_SIZE <= cur + counts order * (2 ^ order * PAGE_SIZE)).
  { intros x (j & Hj & ->)%blocks_at_elem. unfold PAGE_SIZE. nia. }
  split.
  - intros k Hk. destruct (decide (k = order)) as [->|Hne].
    + rewrite upd_eq, H3 by lia. eapply dseg_frame; [|exact Hseg].
      intros x Hx. rewrite Forall_forall in Hal. specialize (Hal x Hx) as Hax. specialize (Hl x Hx).
      apply Z.mod_divide in Hax as Hdx; [|done].
      split; apply H4; eapply page_range_outside; eauto using page_of_block.
      all: try (apply Z.divide_add_r; [done|rewrite Z.mul_assoc; apply Z.divide_factor_r]).
      all: left; unfold PAGE_SIZE in *; lia.
    + rewrite upd_ne by done. apply H1. lia.
  - intros k x Hk. destruct (decide (k = order)) as [->|Hne].
    + rewrite upd_eq. intros Hx. specialize (Hl x Hx) as Hlx. split_and!; [|lia|].
      * apply blocks_at_elem in Hx as (j & _ & ->). apply Z.divide_add_r; [done|]. apply Z.divide_factor_r.
      * rewrite Hw. unfold PAGE_SIZE in *. nia.
    + rewrite upd_ne by done. intros Hx. destruct (H2 k x ltac:(lia) Hx) as (? & ? & ?).
      split_and!; [done| |]; rewrite ?Hw; unfold PAGE_SIZE in *; nia.
  - intros k Hk. rewrite H3 by lia. apply Hh. lia.
  - rewrite Hrange. intros a Ha. rewrite H4 by set_solver. apply Hse.
    intros (x & Hx & E). apply Ha, elem_of_app. left. rewrite Forall_forall in Hal.
    rewrite (page_of_block x a (Hal x Hx) E). apply blocks_at_elem in Hx as (j & Hj & ->).
    apply page_range_elem. exists (j * 2 ^ order). split; [nia|lia].
  - rewrite Hrange. rewrite low_orders_snoc, bind_app, low_pages_upd, H5 by lia.
    rewrite bind_singleton, upd_eq. rewrite Permutation_app_comm. f_equiv.
    unfold l. rewrite <- (Z2Nat.id (counts order)) at 1 by done.
    rewrite blocks_at_pages by lia. by rewrite Z2Nat.id by done.
Qed.

Lemma link_orders_spec turns order counts cur m heads m' heads' :
  order = Z.of_nat turns - 1 -> order <= MAX_ORDER ->
  (0 <= order -> (2 ^ order * PAGE_SIZE | cur)) -> 0 < cur ->
  cur + weight (low_orders order) counts * PAGE_SIZE <= 2 ^ 48 ->
  (forall k, 0 <= counts k < 2 ^ 32) -> (forall k, 0 <= k <= order -> heads k = NULL) ->
  link_orders turns order counts cur m heads = (m', heads') ->
  exists L, linked order cur counts m m' heads heads' L.
Proof.
  revert order cur m heads. induction turns as [|t IH];
    intros order cur m heads Ho Hm Hd Hcur Hend Hc Hh Hlink; cbn [link_orders] in Hlink.
  { injection Hlink as <- <-. exists (fun _ => []). subst order.
    split; try done; simpl; intros; try lia. }
  assert (Ho2 : 0 <= order <= MAX_ORDER) by lia. specialize (Hd ltac:(lia)).
  assert (Hdp : (PAGE_SIZE | cur)) by (etrans; [apply Z.divide_factor_r|exact Hd]).
  pose proof (pow2_max order Ho2) as Hp. pose proof (Hc order) as Hco.
  rewrite weight_low in Hend by lia.
  assert (Hw0 : 0 <= weight (low_orders (order - 1)) counts).
  { apply weight_nonneg; [|apply Hc]. intros k Hk%elem_of_seqZ. lia. }
  assert (Hd' : forall c, 0 <= order - 1 -> (2 ^ (order - 1) * PAGE_SIZE | cur + c * (2 ^ order * PAGE_SIZE))).
  { intros c H. assert (2 ^ (order - 1) * PAGE_SIZE | 2 ^ order * PAGE_SIZE) by (apply pow2_divide; lia).
    apply Z.divide_add_r; [by etrans|]. by apply Z.divide_mul_r. }
  destruct (Z.eqb_spec (counts order) 0) as [E|E].
  - destruct (IH (order - 1) cur m heads) as [L HL]; try done; try lia.
    + intros H. specialize (Hd' 0 H). by rewrite Z.mul_0_l, Z.add_0_r in Hd'.
    + intros k Hk. apply Hh. lia.
    + eexists. eapply linked_step with (heads1 := heads); try done; [apply Hc|..].
      * rewrite E. simpl. apply Hh. lia.
      * rewrite E, Z.mul_0_l, Z.add_0_r. exact HL.
  - destruct (link_chunks (Z.to_nat (counts order)) 0 (counts order) order cur m) as [m1 cur1] eqn:Hl1.
    destruct (link_chunks_spec (Z.to_nat (counts order)) 0 (counts order) order cur m m1 cur1)
      as (-> & Hseg & Hse); try done; try lia.
    { rewrite Z2Nat.id by lia. unfold PAGE_SIZE in *. nia. }
    rewrite Z2Nat.id in * by lia.
    destruct (IH (order - 1) (cur + counts order * (2 ^ order * PAGE_SIZE)) m1 (heads.[order <- cur]))
      as [L HL]; try done; try lia.
    + apply Hd'.
    + unfold PAGE_SIZE. nia.
    + intros k Hk. rewrite upd_ne by lia. apply Hh. lia.
    + eexists. eapply linked_step with (heads1 := heads.[order <- cur]); try done; [apply Hc|..].
      * rewrite upd_eq. apply Hseg. lia.
      * intros k Hk. by rewrite upd_ne.
Qed.

(** ** The region *)

Lemma align_region_spec b sz base size :
  0 < b -> b + sz <= 2 ^ 48 -> 2 ^ 22 <= sz -> align_region MAX_ORDER b sz = (base, size) ->
  (2 ^ MAX_ORDER * PAGE_SIZE | base) /\ b <= base < b + 2 ^ 22 /\
  (PAGE_SIZE | size) /\ b + sz - PAGE_SIZE < base + size <= b + sz.
Proof.
  intros Hb He Hs. unfold align_region. rewrite chunk_bytes_pow by (unfold MAX_ORDER; lia).
  change (2 ^ MAX_ORDER * PAGE_SIZE) with (2 ^ 22).
  rewrite !land_low by lia. unfold u64. change (PAGE_SIZE - 1) with (2 ^ 12 - 1).
  pose proof (Z.mod_pos_bound b (2 ^ 22) ltac:(lia)) as Hm.
  rewrite (Z.mod_small (2 ^ 22 - b mod 2 ^ 22)) by lia.
  set (al := (2 ^ 22 - b mod 2 ^ 22) mod 2 ^ 22).
  assert (0 <= al < 2 ^ 22) as Hal by (apply Z.mod_pos_bound; lia).
  assert (Hdiv : (b + al) mod 2 ^ 22 = 0).
  { unfold al. rewrite Z.add_mod_idemp_r by lia.
    replace (b + (2 ^ 22 - b mod 2 ^ 22)) with (2 ^ 22 * (b / 2 ^ 22 + 1)).
    - rewrite Z.mul_comm. apply Z.mod_mul. lia.
    - pose proof (Z.div_mod b (2 ^ 22) ltac:(lia)). lia. }
  rewrite land_not64_low by (rewrite ?Z.mod_small by lia; lia).
  rewrite !Z.mod_small by lia. intros [= <- <-].
  pose proof (Z.mod_pos_bound (sz - al) (2 ^ 12) ltac:(lia)) as Hm2.
  change PAGE_SIZE with (2 ^ 12). split_and!; try lia.
  - apply Z.mod_divide; [lia|done].
  - exists ((sz - al) / 2 ^ 12). pose proof (Z.div_mod (sz - al) (2 ^ 12) ltac:(lia)). lia.
Qed.

Lemma fill_offsets_other turns k n offs j :
  j < k \/ k + Z.of_nat turns <= j -> fill_offsets turns k n offs j = offs j.
Proof.
  revert k offs. induction turns as [|t IH]; intros k offs Hj; [done|].
  cbn [fill_offsets]. rewrite IH by lia. by rewrite upd_ne by lia.
Qed.

(** ** No single pages in a region of whole eight-page blocks *)

Lemma fitting_order_ge turns order addr remaining :
  3 <= order -> order - Z.of_nat turns < 3 -> chunk_bytes 3 <= remaining -> (chunk_bytes 3 | addr) ->
  3 <= fitting_order turns order addr remaining.
Proof.
  intros Ho Ht Hr Ha. assert (Hfit : Z.land addr (chunk_bytes 3 - 1) = 0).
  { change (chunk_bytes 3) with (2 ^ 15) in *. by apply land_aligned. }
  revert order Ho Ht. induction turns as [|t IH]; intros order Ho Ht; [lia|].
  cbn [fitting_order]. cbv zeta. destruct (_ && _) eqn:E; [done|].
  destruct (decide (order = 3)) as [->|]; [|apply IH; lia].
  rewrite Hfit, Z.eqb_refl, andb_true_r in E. lia.
Qed.

Lemma count_chunks_singles fuel addr r counts counts' :
  (chunk_bytes 3 | addr) -> (8 | r) -> 0 <= addr -> 0 <= r -> addr + r * PAGE_SIZE < 2 ^ 64 ->
  count_chunks fuel 0 MAX_ORDER addr (r * PAGE_SIZE) counts = Some counts' -> counts' 0 = counts 0.
Proof.
  revert addr r counts. induction fuel as [|f IH]; intros addr r counts Ha Hr H0 Hr0 Hend; cbn [count_chunks].
  { destruct (_ <? _); [by intros [= <-]|done]. }
  destruct (Z.ltb_spec (r * PAGE_SIZE) PAGE_SIZE) as [Hlt|Hge]; [by intros [= <-]|].
  assert (8 <= r) by (destruct Hr as [q ->]; unfold PAGE_SIZE in *; lia).
  assert (Hdp : (PAGE_SIZE | addr)) by (etrans; [|exact Ha]; by exists 8).
  destruct (fitting_order_spec (Z.to_nat (MAX_ORDER - 0 + 1)) MAX_ORDER addr (r * PAGE_SIZE))
    as [Ho Hcb]; try done; try (unfold MAX_ORDER; lia).
  pose proof (fitting_order_ge (Z.to_nat (MAX_ORDER - 0 + 1)) MAX_ORDER addr (r * PAGE_SIZE)
    ltac:(done) ltac:(done) ltac:(unfold PAGE_SIZE in *; change (chunk_bytes 3) with 32768; lia) Ha) as H3.
  set (o := fitting_order _ _ _ _) in *. destruct (Z.ltb_spec o 0); [lia|].
  rewrite chunk_bytes_pow in * by (unfold MAX_ORDER in *; lia).
  assert (Hdo : (8 | 2 ^ o)).
  { exists (2 ^ (o - 3)). change 8 with (2 ^ 3). rewrite <- Z.pow_add_r by lia. f_equal. lia. }
  pose proof (pow2_max o Ho). unfold u64. rewrite !Z.mod_small by (unfold PAGE_SIZE in *; lia).
  replace (r * PAGE_SIZE - 2 ^ o * PAGE_SIZE) with ((r - 2 ^ o) * PAGE_SIZE) by lia. intros E.
  apply IH in E; try (unfold PAGE_SIZE in *; lia).
  - rewrite E. apply upd_ne. lia.
  - apply Z.divide_add_r; [done|]. change (2 ^ 3 * PAGE_SIZE) with (8 * PAGE_SIZE). by apply Z.mul_divide_mono_r.
  - by apply Z.divide_sub_r.
Qed.

Lemma link_orders_empty turns order counts cur m heads k :
  counts k = 0 -> (link_orders turns order counts cur m heads).2 k = heads k.
Proof.
  intros Hk. revert order cur m heads. induction turns as [|t IH]; intros order cur m heads; [done|].
  cbn [link_orders]. destruct (Z.eqb_spec (counts order) 0) as [E|E]; [apply IH|].
  destruct (link_chunks _ _ _ _ _ _) as [m1 cur1]. rewrite IH. apply upd_ne. congruence.
Qed.

Lemma init_wp kernel_end entries s b sz :
  (let '(b0, s0) := best_e820 (length entries) entries 0 0 in
   clamp_region kernel_end (MAX_ORDER + 1) b0 s0) = (b, sz) ->
  0 < b -> b + sz <= 2 ^ 48 -> 2 ^ 22 <= sz <= 2 ^ 43 ->
  wp (__init_buddy kernel_end entries) (fun _ s' => exists L,
    let base := bm_base_address (k_buddy s') in let size := bm_size (k_buddy s') in
    buddy_inv (k_mem s') (k_buddy s') L /\ lock_free s' buddy_lock /\
    b <= base < b + 2 ^ 22 /\ b + sz - PAGE_SIZE < base + size <= b + sz /\
    free_pages L ≡ₚ page_range base (size / PAGE_SIZE) /\
    mem_frame (page_range base (size / PAGE_SIZE)) (k_mem s) (k_mem s') /\
    bm_order_offsets (k_buddy s') =
      fill_offsets (Z.to_nat MAX_ORDER) 1 (size / PAGE_SIZE)
        ((bm_order_offsets (k_buddy s)).[0 <- 0]) /\
    bm_bitmap (k_buddy s') = fill (bm_bitmap (k_buddy s)) 0 (size / PAGE_SIZE / 8) 0 /\
    k_slab_caches s' = k_slab_caches s /\
    ((8 * PAGE_SIZE | size) -> L 0 = []) /\ (PAGE_SIZE | size)) s.
Proof.
  intros Hc Hb He Hs. unfold __init_buddy, spinlock_init. wp_steps.
  destruct (best_e820 (length entries) entries 0 0) as [b0 s0]. fold MAX_ORDER. rewrite Hc.
  destruct (align_region MAX_ORDER b sz) as [base size] eqn:Hal.
  apply align_region_spec in Hal as (Hd & Hbase & [n Hn] & Hend); try lia. subst size.
  rewrite Z.div_mul by done.
  assert (0 <= n <= 2 ^ 31) as Hn by (unfold PAGE_SIZE in *; lia).
  assert (Hdp : (PAGE_SIZE | base)) by (etrans; [apply Z.divide_factor_r|exact Hd]).
  destruct (count_chunks_spec (Z.to_nat n) base n (fun _ => 0)) as (counts & HC & Hrange & Hw);
    try done; try (intros; unfold PAGE_SIZE in *; lia).
  rewrite HC. unfold of_loop. wp_steps.
  change (weight orders (fun _ => 0)) with 0 in Hw. rewrite Z.add_0_l in Hw.
  match goal with |- context [link_orders ?a ?b ?c ?d ?e ?f] =>
    destruct (link_orders a b c d e f) as [m' heads'] eqn:Hl end.
  assert (Hz : counts 0 = 0 -> heads' 0 = NULL).
  { intros E. pose proof (link_orders_empty (Z.to_nat (MAX_ORDER + 1)) MAX_ORDER counts base (k_mem s)
      (fill (bm_free_lists (k_buddy s)) 0 (MAX_ORDER + 1) NULL) 0 E) as Hh.
    cbn [k_mem k_buddy set_lock] in Hl. rewrite Hl in Hh. cbn [snd] in Hh. rewrite Hh. apply fill_in. done. }
  eapply link_orders_spec in Hl as [L [H1 H2 H3 H4 H5]]; try done.
  2:{ lia. }
  2:{ change (low_orders MAX_ORDER) with orders. rewrite Hw. lia. }
  2:{ intros k Hk. apply fill_in. unfold MAX_ORDER in *. lia. }
  wp_steps. exists L. change (low_orders MAX_ORDER) with orders in *. rewrite Hw in *.
  cbn -[Z.mul Z.pow Z.to_nat Z.div fill]. rewrite !Z.div_mul by done.
  split_and!; try done; try lia.
  - split; cbn -[Z.mul Z.pow]; try done; try lia. rewrite H5. apply NoDup_page_range.
  - intros [q Hq]. pose proof (H1 0 ltac:(done)) as Hseg. rewrite Hz in Hseg; [by apply (dseg_head _ _ _ _ Hseg)|].
    eapply count_chunks_singles in HC; [exact HC|..]; try (unfold PAGE_SIZE in *; lia).
    + change (chunk_bytes 3) with (2 ^ 3 * PAGE_SIZE). etrans; [|exact Hd]. by apply pow2_divide.
    + exists q. unfold PAGE_SIZE in *. lia.
  - by exists n.
Qed.
