(* ===== verification/BuddyFresh.v ===== *)
(** * The buddy allocator: single pages on a fresh bitmap

    The bitmap is not right about every pair of buddies, but as long as a client has
    only allocated, and only blocks of one and of four pages, it is right about
    the pairs of single pages and says nothing about the pairs of two-page
    blocks.  That is enough for the first two releases of single pages to find
    the buddies the bitmap announces. *)

From S2P Require Import Prelude State Kmath Buddy FreeList BuddyInv BuddyOps BuddyInit.

(** ** Bits *)

Lemma read_bit_testbit md q : 0 <= q -> read_bit md q = Z.b2z (Z.testbit (bm_bitmap md (q / 8)) (q mod 8)).
Proof.
  intros Hq. unfold read_bit. change 1 with (Z.ones 1). rewrite Z.land_ones by lia. change (2 ^ 1) with 2.
  rewrite <- Z.bit0_mod, Z.shiftr_spec by lia. do 2 f_equal.
Qed.

Lemma read_flip md p q :
  0 <= p -> 0 <= q -> read_bit (flip_bit md p) q = if decide (p = q) then 1 - read_bit md q else read_bit md q.
Proof.
  intros Hp Hq. rewrite !read_bit_testbit by done. unfold flip_bit. cbn [bm_bitmap set_bitmap].
  pose proof (Z.mod_pos_bound p 8 ltac:(lia)). pose proof (Z.mod_pos_bound q 8 ltac:(lia)).
  destruct (decide (p / 8 = q / 8)) as [E|E].
  - rewrite <- E, upd_eq, Z.lxor_spec, Z.shiftl_spec by lia. destruct (decide (p = q)) as [->|Hne].
    + rewrite Z.sub_diag. change (Z.testbit 1 0) with true. by destruct (Z.testbit _ _).
    + assert (q mod 8 - p mod 8 <> 0) by (pose proof (Z.div_mod p 8 ltac:(lia)); pose proof (Z.div_mod q 8 ltac:(lia)); lia).
      replace (Z.testbit 1 (q mod 8 - p mod 8)) with false; [by rewrite xorb_false_r|].
      symmetry. destruct (Z.lt_trichotomy (q mod 8 - p mod 8) 0) as [|[|]]; [by apply Z.testbit_neg_r|done|].
      apply Z.bits_above_log2; [lia|]. change (Z.log2 1) with 0. lia.
  - rewrite upd_ne by congruence. rewrite decide_False by congruence. done.
Qed.

Lemma read_bit_cases md q : 0 <= q -> read_bit md q = 0 \/ read_bit md q = 1.
Proof. intros Hq. rewrite read_bit_testbit by done. destruct (Z.testbit _ _); auto. Qed.

(** ** Where the bits of the small orders lie *)

(** A region of whole eight-page blocks. *)
Record small_layout (md : buddy_metadata) : Prop := {
  sl_size : (8 * PAGE_SIZE | bm_size md);
  sl_bound : 0 <= bm_size md <= 2 ^ 43;
  sl_base : 0 <= bm_base_address md /\ bm_base_address md + bm_size md <= 2 ^ 48;
  sl_align : (8 * PAGE_SIZE | bm_base_address md);
  sl_offsets : let n := bm_size md / PAGE_SIZE in
    bm_order_offsets md 0 = 0 /\ bm_order_offsets md 1 = n / 2 /\ bm_order_offsets md 2 = n / 2 + n / 4;
}.

(** The pair a block of order [k] belongs to. *)
Definition pair_idx (md : buddy_metadata) (k x : Z) : Z := (x - bm_base_address md) / (2 ^ (k + 1) * PAGE_SIZE).

Section layout.
Context (md : buddy_metadata) (Hl : small_layout md).
Let n : Z := bm_size md / PAGE_SIZE.

Lemma size_pages : (8 | n) /\ bm_size md = n * PAGE_SIZE /\ 0 <= n <= 2 ^ 31.
Proof using Hl.
  destruct Hl as [[q Hq] Hb _ _ _]. unfold n. rewrite Hq. replace (q * (8 * PAGE_SIZE)) with (q * 8 * PAGE_SIZE) by lia.
  rewrite Z.div_mul by done. split_and!; [by exists q|done| |]; unfold PAGE_SIZE in *; lia.
Qed.

Lemma small_bit_pos k x :
  0 <= k <= 2 -> block_ok md k x ->
  bitmap_bit_pos md x k = bm_order_offsets md k + pair_idx md k x /\ 0 <= pair_idx md k x < n / 2 ^ (k + 1).
Proof using Hl.
  intros Hk (Hd & Hlo & Hhi). destruct size_pages as ([q Hq] & Hsz & Hn). destruct Hl as [_ Hb [Hb0 Hb1] Ha (O0 & O1 & O2)].
  fold n in O1, O2.
  assert ((2 ^ k * PAGE_SIZE | x - bm_base_address md)) as [i Hi].
  { apply Z.divide_sub_r; [done|]. etrans; [|exact Ha]. change 8 with (2 ^ 3). apply pow2_divide. lia. }
  assert (k = 0 \/ k = 1 \/ k = 2) as Hc by lia.
  assert (Hoff : 0 <= bm_order_offsets md k <= n) by (destruct_or! Hc; subst k; dlia).
  pose proof (pow2_pos k ltac:(lia)) as Hpk.
  unfold bitmap_bit_pos, pair_idx, u32, u64. rewrite (Z.mod_small (x - _)) by (unfold PAGE_SIZE in *; lia).
  rewrite Hi, !Z.shiftr_div_pow2 by lia.
  assert (E : i * (2 ^ k * PAGE_SIZE) / 2 ^ (12 + k) = i).
  { rewrite Z.pow_add_r by lia. change (2 ^ 12) with PAGE_SIZE. rewrite (Z.mul_comm PAGE_SIZE).
    apply Z.div_mul. destruct_or! Hc; subst k; done. }
  assert (Ep : i * (2 ^ k * PAGE_SIZE) / (2 ^ (k + 1) * PAGE_SIZE) = i / 2).
  { rewrite pow2_succ by lia. replace (2 * 2 ^ k * PAGE_SIZE) with (2 * (2 ^ k * PAGE_SIZE)) by ring.
    apply Z.div_mul_cancel_r; [lia|]. destruct_or! Hc; subst k; done. }
  rewrite E, Ep. change (2 ^ 1) with 2.
  assert (Hir : 0 <= i < n / 2 ^ k) by (destruct_or! Hc; subst k; unfold PAGE_SIZE in *; simpl in *; dlia).
  assert (Hpr : 0 <= i / 2 < n / 2 ^ (k + 1)) by (destruct_or! Hc; subst k; simpl in *; dlia).
  assert (n / 2 ^ k <= n) by (destruct_or! Hc; subst k; simpl; dlia).
  rewrite (Z.mod_small i) by lia. rewrite Z.mod_small by dlia. done.
Qed.

(** Bits of different orders are different, bits of one order are those of pairs. *)
Lemma small_bit_pos_eq k j x y :
  0 <= k <= 2 -> 0 <= j <= 2 -> block_ok md k x -> block_ok md j y ->
  bitmap_bit_pos md x k = bitmap_bit_pos md y j <-> k = j /\ pair_idx md k x = pair_idx md j y.
Proof using Hl.
  intros Hk Hj Hx Hy. destruct (small_bit_pos k x Hk Hx) as [-> Hpx], (small_bit_pos j y Hj Hy) as [-> Hpy].
  destruct size_pages as ([q Hq] & _). destruct Hl as [_ _ _ _ (O0 & O1 & O2)]. fold n in O1, O2.
  assert (k = 0 \/ k = 1 \/ k = 2) as Hc by lia. assert (j = 0 \/ j = 1 \/ j = 2) as Hc' by lia.
  destruct_or! Hc; destruct_or! Hc'; subst k j; rewrite ?O0, ?O1, ?O2; simpl in *; split; intros; try lia; dlia.
Qed.

Lemma small_bit_pos_nonneg k x : 0 <= k <= 2 -> block_ok md k x -> 0 <= bitmap_bit_pos md x k < n.
Proof using Hl.
  intros Hk Hx. destruct (small_bit_pos k x Hk Hx) as [-> Hp]. destruct size_pages as ([q Hq] & _ & Hn).
  destruct Hl as [_ _ _ _ (O0 & O1 & O2)]. fold n in O1, O2.
  assert (k = 0 \/ k = 1 \/ k = 2) as Hc by lia. destruct_or! Hc; subst k; rewrite ?O0, ?O1, ?O2; simpl in *; dlia.
Qed.
End layout.

(** ** Pairs of single pages *)

Lemma page_buddy md x :
  small_layout md -> block_ok md 0 x ->
  let b := buddy_of x 0 in
  block_ok md 0 b /\ b <> x /\ buddy_of b 0 = x /\ pair_idx md 0 b = pair_idx md 0 x.
Proof.
  intros [[q Hq] _ _ [r Hr] _] (Hd & Hlo & Hhi) b.
  assert (Hd' : (2 ^ 12 | x)) by exact Hd.
  assert (Hinv : buddy_of b 0 = x).
  { unfold b, buddy_of. by rewrite Z.lxor_assoc, Z.lxor_nilpotent, Z.lxor_0_r. }
  assert (Hb : b = x + 4096 /\ (8192 | x) \/ b = x - 4096 /\ (8192 | x - 4096)) by exact (lxor_buddy x 12 ltac:(lia) Hd').
  clearbody b. unfold block_ok, pair_idx. change (2 ^ 0 * PAGE_SIZE) with 4096 in *. change (2 ^ (0 + 1) * PAGE_SIZE) with 8192.
  change (8 * PAGE_SIZE) with 32768 in *. destruct Hd as [i Hi].
  destruct Hb as [[Eb [j Hj]]|[Eb [j Hj]]]; rewrite Eb in *; split_and!; try done; try lia.
  all: try (exists (i + 1); lia); try (exists (i - 1); lia); dlia.
Qed.

Lemma same_pair md x y :
  small_layout md -> block_ok md 0 x -> block_ok md 0 y -> pair_idx md 0 x = pair_idx md 0 y -> y = x \/ y = buddy_of x 0.
Proof.
  intros [_ _ _ [r Hr] _] (Hdx & _) (Hdy & _).
  assert (Hb : buddy_of x 0 = x + 4096 /\ (8192 | x) \/ buddy_of x 0 = x - 4096 /\ (8192 | x - 4096))
    by exact (lxor_buddy x 12 ltac:(lia) Hdx).
  unfold pair_idx. change (2 ^ (0 + 1) * PAGE_SIZE) with 8192. change (2 ^ 0 * PAGE_SIZE) with 4096 in *.
  change (8 * PAGE_SIZE) with 32768 in *. destruct Hdx as [i Hi], Hdy as [k Hk].
  intros E. destruct Hb as [[-> [j Hj]]|[-> [j Hj]]]; dlia.
Qed.

(** One page of the pair is free and the other is not. *)
Definition odd_pair (F : list Z) (x : Z) : Prop := ~ (x ∈ F <-> buddy_of x 0 ∈ F).

(** The bitmap is right about the pairs of single pages. *)
Definition pairs_right (md : buddy_metadata) (L : Z -> list ptr) : Prop :=
  forall x, block_ok md 0 x -> read_bit md (bitmap_bit_pos md x 0) = 1 <-> odd_pair (free_pages L) x.

(** The pairs of two-page blocks have their bits clear. *)
Definition quads_clear (md : buddy_metadata) : Prop :=
  forall x, block_ok md 1 x -> read_bit md (bitmap_bit_pos md x 1) = 0.

Definition same_shape (md md' : buddy_metadata) : Prop :=
  bm_base_address md' = bm_base_address md /\ bm_size md' = bm_size md /\ bm_order_offsets md' = bm_order_offsets md.

Lemma shape_block md md' k x : same_shape md md' -> block_ok md' k x <-> block_ok md k x.
Proof. intros (H1 & H2 & _). unfold block_ok. by rewrite H1, H2. Qed.
Lemma shape_pos md md' k x : same_shape md md' -> bitmap_bit_pos md' x k = bitmap_bit_pos md x k.
Proof. intros (H1 & _ & H3). unfold bitmap_bit_pos. by rewrite H1, H3. Qed.
Lemma shape_layout md md' : same_shape md md' -> small_layout md -> small_layout md'.
Proof. intros (H1 & H2 & H3) []. split; rewrite ?H1, ?H2, ?H3; done. Qed.

(** One page changes hands and the bit of its pair changes with it. *)
Lemma pairs_toggle md md' L L' x :
  small_layout md -> same_shape md md' -> pairs_right md L -> block_ok md 0 x ->
  (forall y, block_ok md 0 y -> let q := bitmap_bit_pos md y 0 in
     read_bit md' q = if decide (bitmap_bit_pos md x 0 = q) then 1 - read_bit md q else read_bit md q) ->
  (forall y, y <> x -> y ∈ free_pages L' <-> y ∈ free_pages L) -> (x ∈ free_pages L' <-> x ∉ free_pages L) ->
  pairs_right md' L'.
Proof.
  intros Hl Hs Hp Hx Hbits Hother Hself y Hy%(shape_block _ _ _ _ Hs). rewrite (shape_pos _ _ _ _ Hs), Hbits by done.
  specialize (Hp y Hy). destruct (page_buddy md x Hl Hx) as (Hbx & Hne & Hinv & Hpair).
  destruct (read_bit_cases md (bitmap_bit_pos md y 0)) as [E|E]; [by apply (small_bit_pos_nonneg md Hl)|..]; rewrite E in *.
  all: destruct (decide (bitmap_bit_pos md x 0 = bitmap_bit_pos md y 0)) as [Eq|Nq].
  1,3: apply (small_bit_pos_eq md Hl) in Eq as [_ Eq]; [|lia|lia|done|done];
    destruct (same_pair md x y Hl Hx Hy Eq) as [-> | ->]; unfold odd_pair in *; rewrite ?Hinv in *;
    rewrite (Hother (buddy_of x 0)) by done; destruct (decide (x ∈ free_pages L)), (decide (buddy_of x 0 ∈ free_pages L)); naive_solver lia.
  all: assert (y <> x) by congruence.
  all: assert (buddy_of y 0 <> x) by (intros Eb; apply Nq; apply (small_bit_pos_eq md Hl); [lia|lia|done|done|]; split; [done|];
         rewrite <- Eb; apply (page_buddy md y Hl Hy)).
  all: unfold odd_pair in *; rewrite (Hother y), (Hother (buddy_of y 0)) by done; naive_solver lia.
Qed.

(** ** Allocating *)

(** After allocations of one and four pages only. *)
Record fresh (md : buddy_metadata) (L : Z -> list ptr) : Prop := {
  fr_layout : small_layout md;
  fr_pairs : pairs_right md L;
  fr_quads : quads_clear md;
  fr_single : (length (L 0%Z) <= 1)%nat;
}.

Lemma free_block_ok m md L x : buddy_inv m md L -> x ∈ free_pages L -> block_ok md 0 x.
Proof.
  intros Hi (k & Hx & Hk%elem_of_seqZ)%list_elem_of_bind. apply list_elem_of_bind in Hx as (c & Hp & Hc).
  apply page_range_elem in Hp as (i & Hir & ->).
  destruct (bi_blocks _ _ _ Hi k c ltac:(lia) Hc) as (Hd & Hlo & Hhi). unfold block_ok. change (2 ^ 0) with 1.
  split; [|unfold PAGE_SIZE in *; nia]. rewrite Z.mul_1_l.
  apply Z.divide_add_r; [|apply Z.divide_factor_r]. etrans; [|exact Hd]. apply Z.divide_factor_r.
Qed.

(** A block of four pages holds whole pairs. *)
Lemma quad_pairs p x : (2 ^ 2 * PAGE_SIZE | p) -> (PAGE_SIZE | x) -> x ∈ pages_of 2 p <-> buddy_of x 0 ∈ pages_of 2 p.
Proof.
  intros [a Ha] Hx.
  assert (Hb : buddy_of x 0 = x + 4096 /\ (8192 | x) \/ buddy_of x 0 = x - 4096 /\ (8192 | x - 4096))
    by exact (lxor_buddy x 12 ltac:(lia) Hx).
  unfold pages_of. rewrite !page_range_elem. change (2 ^ 2) with 4. change (2 ^ 2 * PAGE_SIZE) with 16384 in *.
  unfold PAGE_SIZE in *. destruct Hx as [k Hk].
  destruct Hb as [[-> [j Hj]]|[-> [j Hj]]]; split; intros (i & Hi & E);
    (exists (i + 1) + exists (i - 1)); (split; lia) || (exfalso; lia).
Qed.

Lemma flip_shape h md pos : same_shape md (flip_bit (set_free_lists h md) pos).
Proof. done. Qed.

Lemma read_flip_lists h md p q :
  0 <= p -> 0 <= q ->
  read_bit (flip_bit (set_free_lists h md) p) q = if decide (p = q) then 1 - read_bit md q else read_bit md q.
Proof. apply (read_flip (set_free_lists h md)). Qed.

Lemma quads_clear_flip md md' k x :
  small_layout md -> same_shape md md' -> k = 0 \/ k = 2 -> block_ok md k x ->
  (forall q, 0 <= q -> q <> bitmap_bit_pos md x k -> read_bit md' q = read_bit md q) -> quads_clear md -> quads_clear md'.
Proof.
  intros Hl Hs Hk Hx Hbits Hq y Hy%(shape_block _ _ _ _ Hs). rewrite (shape_pos _ _ _ _ Hs).
  rewrite Hbits; [by apply Hq|by apply (small_bit_pos_nonneg md Hl)|].
  intros E. apply (small_bit_pos_eq md Hl) in E as [? _]; [lia|lia|lia|done|done].
Qed.

Lemma fresh_alloc order s L p s' L' :
  buddy_inv (k_mem s) (k_buddy s) L -> order = 0 \/ order = 2 -> fresh (k_buddy s) L ->
  allocated order s L p s' L' -> fresh (k_buddy s') L'.
Proof.
  intros Hi Ho [Hl Hp Hq Hs] [Hi' Hblk HP _ _ [h Eb] Hsing].
  pose proof (bi_nodup _ _ _ Hi) as Hnd. rewrite HP in Hnd. apply NoDup_app in Hnd as (_ & Hd & _).
  assert (Hsh : same_shape (k_buddy s) (k_buddy s')) by (rewrite Eb; apply flip_shape).
  assert (Hp0 : 0 <= bitmap_bit_pos (k_buddy s) p order) by (apply (small_bit_pos_nonneg _ Hl); [lia|done]).
  assert (Hbits : forall q, 0 <= q -> read_bit (k_buddy s') q =
    if decide (bitmap_bit_pos (k_buddy s) p order = q) then 1 - read_bit (k_buddy s) q else read_bit (k_buddy s) q).
  { intros q Hq0. rewrite Eb. by apply read_flip_lists. }
  split; [by eapply shape_layout| | |auto].
  - destruct Ho as [-> | ->].
    + apply (pairs_toggle (k_buddy s) (k_buddy s') L L' p); try done.
      * intros y Hy. cbv zeta. apply Hbits. by apply (small_bit_pos_nonneg _ Hl).
      * intros y Hy. rewrite HP, elem_of_app. change (pages_of 0 p) with [p + 0 * PAGE_SIZE]. rewrite list_elem_of_singleton. intuition lia.
      * assert (Hin : p ∈ pages_of 0 p) by (by apply pages_of_self). rewrite HP, elem_of_app. specialize (Hd p Hin). tauto.
    + intros y Hy%(shape_block _ _ _ _ Hsh). rewrite (shape_pos _ _ _ _ Hsh), Hbits by (by apply (small_bit_pos_nonneg _ Hl)).
      rewrite decide_False by (intros E; apply (small_bit_pos_eq _ Hl) in E as [? _]; [lia|lia|lia|done|done]).
      rewrite (Hp y Hy). unfold odd_pair. rewrite HP, !elem_of_app.
      assert (Hy' : (PAGE_SIZE | y)) by (destruct Hy as [Hy _]; exact Hy).
      pose proof (quad_pairs p y (proj1 Hblk) Hy') as Hquad. pose proof (Hd y) as Hd1. pose proof (Hd (buddy_of y 0)) as Hd2. tauto.
  - apply (quads_clear_flip (k_buddy s) (k_buddy s') order p); try done; [|auto..].
    intros q Hq0 Hne. rewrite Hbits by done. by rewrite decide_False.
Qed.

(** ** Releasing single pages *)

(** The bitmap is right enough for the release of a page: where a page waits alone,
    the pairs of two-page blocks have their bits clear. *)
Record settled (md : buddy_metadata) (L : Z -> list ptr) : Prop := {
  se_layout : small_layout md;
  se_pairs : pairs_right md L;
  se_quads : L 0 = [] \/ quads_clear md;
}.

Lemma fresh_settled md L : fresh md L -> settled md L.
Proof. intros []. split; auto. Qed.

(** A free page whose buddy is not free is a block of its own. *)
Lemma single_page m md L x :
  buddy_inv m md L -> small_layout md -> block_ok md 0 x -> x ∉ free_pages L -> buddy_of x 0 ∈ free_pages L -> buddy_of x 0 ∈ L 0.
Proof.
  intros Hi Hl Hx Hn (k & Hb & Hk%elem_of_seqZ)%list_elem_of_bind. apply list_elem_of_bind in Hb as (c & Hp & Hc).
  destruct (decide (k = 0)) as [->|Hk0].
  { change (pages_of 0 c) with [c + 0 * PAGE_SIZE] in Hp. apply list_elem_of_singleton in Hp. by replace (buddy_of x 0) with c by lia. }
  destruct Hn. apply (free_pages_elem k L c x ltac:(lia) Hc).
  destruct (bi_blocks _ _ _ Hi k c ltac:(lia) Hc) as ([a Ha] & _).
  destruct Hx as (Hdx & _).
  assert (Hb : buddy_of x 0 = x + 4096 /\ (8192 | x) \/ buddy_of x 0 = x - 4096 /\ (8192 | x - 4096))
    by exact (lxor_buddy x 12 ltac:(lia) Hdx).
  unfold pages_of in *. rewrite page_range_elem in *. destruct Hp as (i & Hi' & E). unfold PAGE_SIZE in *.
  replace k with (k - 1 + 1) in * by lia. rewrite pow2_succ in * by lia. pose proof (pow2_pos (k - 1) ltac:(lia)).
  set (w := 2 ^ (k - 1)) in *. assert (exists b, c = 8192 * b) as [b Ec] by (exists (a * w); lia).
  destruct Hb as [[Eb [j Hj]]|[Eb [j Hj]]]; rewrite Eb in E.
  - exists (i - 1). lia.
  - exists (i + 1). split; [|lia]. assert (i = 2 * (j - b)) by lia. lia.
Qed.

(** The bit of the two-page block the page merges into. *)
Lemma merged_pos md x :
  small_layout md -> block_ok md 0 x ->
  block_ok md 1 (Z.min x (buddy_of x 0)) /\ bitmap_bit_pos md x 0 <> bitmap_bit_pos md (Z.min x (buddy_of x 0)) 1.
Proof.
  intros Hl Hx. destruct (page_buddy md x Hl Hx) as (Hb & _). destruct (buddy_merge md 0 x ltac:(lia) Hx Hb) as [Hm _].
  split; [exact Hm|]. intros E. apply (small_bit_pos_eq md Hl) in E as [? _]; [lia|lia|lia|done|exact Hm].
Qed.

(** What a release announces: the bit of the pair says whether the buddy waits. *)
Lemma release_bit m md L x :
  buddy_inv m md L -> settled md L -> block_ok md 0 x -> x ∉ free_pages L ->
  let pos := bitmap_bit_pos md x 0 in
  (read_bit (flip_bit md pos) pos = 0 /\ buddy_of x 0 ∈ L 0 /\ quads_clear md) \/
  (read_bit (flip_bit md pos) pos = 1 /\ buddy_of x 0 ∉ free_pages L).
Proof.
  intros Hi [Hl Hp Hq] Hx Hn pos. assert (H0 : 0 <= pos) by (by apply (small_bit_pos_nonneg md Hl)).
  rewrite read_flip, decide_True by done. specialize (Hp x Hx). fold pos in Hp. unfold odd_pair in Hp.
  destruct (read_bit_cases md pos H0) as [E|E]; rewrite E in *; [right|left]; split; try lia.
  - destruct (decide (buddy_of x 0 ∈ free_pages L)); [|done]. exfalso. assert (0 = 1) by tauto. lia.
  - assert (Hb : buddy_of x 0 ∈ L 0).
    { apply (single_page m md L x Hi Hl Hx Hn). destruct (decide (buddy_of x 0 ∈ free_pages L)); tauto. }
    split; [done|]. destruct Hq as [Hq|Hq]; [|done]. rewrite Hq in Hb. by apply elem_of_nil in Hb.
Qed.

Lemma merged_bit md x :
  small_layout md -> block_ok md 0 x -> quads_clear md ->
  let md1 := flip_bit md (bitmap_bit_pos md x 0) in let q := bitmap_bit_pos md (Z.min x (buddy_of x 0)) 1 in
  read_bit (flip_bit md1 q) q = 1.
Proof.
  intros Hl Hx Hq md1 q. destruct (merged_pos md x Hl Hx) as [Hm Hne].
  assert (H0 : 0 <= bitmap_bit_pos md x 0) by (by apply (small_bit_pos_nonneg md Hl)).
  assert (H1 : 0 <= q) by (by apply (small_bit_pos_nonneg md Hl)).
  rewrite read_flip, decide_True by done. unfold md1. rewrite read_flip, decide_False by done. unfold q. rewrite Hq by done. lia.
Qed.

Lemma release_truthful m md L x t :
  buddy_inv m md L -> settled md L -> block_ok md 0 x -> x ∉ free_pages L -> coalesce_truthful t md L x 0.
Proof.
  intros Hi Hs Hx Hn. destruct t as [|[|t]]; [done|..]; cbn [coalesce_truthful]; cbv zeta;
    destruct (release_bit m md L x Hi Hs Hx Hn) as [(E & Hb & Hq)|(E & _)]; rewrite E; try done.
  intros _. split; [done|]. change (0 + 1) with 1.
  change (bitmap_bit_pos (flip_bit md ?p) ?y ?k) with (bitmap_bit_pos md y k).
  rewrite (merged_bit md x (se_layout _ _ Hs) Hx Hq). done.
Qed.

(** One release after allocations only leaves the bitmap right enough for another. *)
Lemma release_settled x s L s' L' :
  buddy_inv (k_mem s) (k_buddy s) L -> fresh (k_buddy s) L -> block_ok (k_buddy s) 0 x -> x ∉ free_pages L ->
  freed 0 x s L s' L' -> settled (k_buddy s') L'.
Proof.
  intros Hi Hf Hx Hn [Hi' HP _ _ Hm]. pose proof (fresh_settled _ _ Hf) as Hs. destruct Hf as [Hl Hp Hq Hsing].
  destruct (Hm ltac:(done)) as (h & md' & L1 & c & o' & Hc & Eb & EL). clear Hm. set (md := k_buddy s) in *.
  change (Z.to_nat (MAX_ORDER - 0)) with 10%nat in Hc.
  assert (H0 : 0 <= bitmap_bit_pos md x 0) by (by apply (small_bit_pos_nonneg md Hl)).
  destruct (merged_pos md x Hl Hx) as [Hbm Hne].
  assert (H1 : 0 <= bitmap_bit_pos md (Z.min x (buddy_of x 0)) 1) by (by apply (small_bit_pos_nonneg md Hl)).
  assert (Hmem : (forall y, y <> x -> y ∈ free_pages L' <-> y ∈ free_pages L) /\ (x ∈ free_pages L' <-> x ∉ free_pages L)).
  { change (pages_of 0 x) with [x + 0 * PAGE_SIZE] in HP. rewrite Z.mul_0_l, Z.add_0_r in HP.
    clear -HP Hn. split; [intros y Hy|]; rewrite HP, elem_of_app, list_elem_of_singleton; tauto. }
  cbn [coalesced] in Hc. cbv zeta in Hc.
  destruct (release_bit _ md L x Hi Hs Hx Hn) as [(E & Hb & _)|(E & _)]; rewrite E in Hc; cbn [Z.eqb] in Hc.
  - change (0 + 1) with 1 in Hc. change (bitmap_bit_pos (flip_bit md ?p) ?y ?k) with (bitmap_bit_pos md y k) in Hc.
    rewrite (merged_bit md x Hl Hx Hq) in Hc. cbn [Z.eqb] in Hc. injection Hc as <- <- <- <-.
    split; [rewrite Eb; by apply (shape_layout md)| |left].
    + apply (pairs_toggle md (k_buddy s') L L' x); try done; [by rewrite Eb| |apply Hmem|apply Hmem].
      intros y Hy. cbv zeta. assert (Hy0 : 0 <= bitmap_bit_pos md y 0) by (by apply (small_bit_pos_nonneg md Hl)).
      rewrite Eb. change (read_bit (set_free_lists ?h ?a) ?b) with (read_bit a b). rewrite !read_flip by done.
      rewrite (decide_False (P := bitmap_bit_pos md (Z.min _ _) 1 = _)); [done|].
      intros Ey. apply (small_bit_pos_eq md Hl) in Ey as [? _]; [lia|lia|lia|done|done].
    + rewrite EL, upd_ne, upd_eq by lia. destruct (L 0) as [|b [|b2 l]]; [done| |simpl in Hsing; lia].
      apply list_elem_of_singleton in Hb as <-. by rewrite filter_cons_False by tauto.
  - injection Hc as <- <- <- <-. split; [rewrite Eb; by apply (shape_layout md)| |right].
    + apply (pairs_toggle md (k_buddy s') L L' x); try done; [by rewrite Eb| |apply Hmem|apply Hmem].
      intros y Hy. cbv zeta. rewrite Eb. apply read_flip; [done|]. by apply (small_bit_pos_nonneg md Hl).
    + apply (quads_clear_flip md (k_buddy s') 0 x); try done; [by rewrite Eb|by left|].
      intros q Hq0 Hne'. rewrite Eb. change (read_bit (set_free_lists ?h ?a) ?b) with (read_bit a b).
      rewrite read_flip by done. by rewrite decide_False.
Qed.

Lemma kfree_page_wp x s L :
  buddy_inv (k_mem s) (k_buddy s) L -> lock_free s buddy_lock -> settled (k_buddy s) L ->
  block_ok (k_buddy s) 0 x -> x ∉ free_pages L ->
  wp (buddy_kfree x PAGE_SIZE) (fun _ s' => kframe s s' /\ exists L', freed 0 x s L s' L') s.
Proof.
  intros Hi Hl Hs Hx Hn. apply (kfree_wp PAGE_SIZE 0); try done.
  - split_and!; [lia|done|]. intros j Hj. lia.
  - change (pages_of 0 x) with [x + 0 * PAGE_SIZE]. rewrite Z.mul_0_l, Z.add_0_r. constructor; [done|by eapply bi_nodup].
  - by eapply release_truthful.
Qed.

(** ** After initialisation *)

Lemma all_free_region base size L x :
  free_pages L ≡ₚ page_range base (size / PAGE_SIZE) -> (8 * PAGE_SIZE | base) -> (8 * PAGE_SIZE | size) ->
  (PAGE_SIZE | x) -> base <= x -> x + PAGE_SIZE <= base + size -> x ∈ free_pages L.
Proof.
  intros HP [r Hr] [q Hq] [k Hk] H1 H2. rewrite HP. apply page_range_elem. exists ((x - base) / PAGE_SIZE).
  unfold PAGE_SIZE in *. split; dlia.
Qed.

Lemma init_fresh md L offs bits :
  0 < bm_base_address md -> (2 ^ MAX_ORDER * PAGE_SIZE | bm_base_address md) -> bm_base_address md + bm_size md <= 2 ^ 48 ->
  0 <= bm_size md <= 2 ^ 43 -> (8 * PAGE_SIZE | bm_size md) ->
  free_pages L ≡ₚ page_range (bm_base_address md) (bm_size md / PAGE_SIZE) ->
  bm_order_offsets md = fill_offsets (Z.to_nat MAX_ORDER) 1 (bm_size md / PAGE_SIZE) (offs.[0 <- 0]) ->
  bm_bitmap md = fill bits 0 (bm_size md / PAGE_SIZE / 8) 0 -> L 0 = [] -> fresh md L.
Proof.
  intros Hb0 Hba Hend Hsz Hd8 HP Eo Ebit HL0. set (n := bm_size md / PAGE_SIZE) in *.
  assert (Hn : 0 <= n <= 2 ^ 31) by (unfold n, PAGE_SIZE; dlia).
  assert (Hb8 : (8 * PAGE_SIZE | bm_base_address md)).
  { etrans; [|exact Hba]. change 8 with (2 ^ 3). by apply pow2_divide. }
  assert (Hl : small_layout md).
  { split; [done|done|lia|done|]. fold n. cbv zeta. rewrite Eo.
    set (o1 := (offs.[0 <- 0]).[1 <- u32 ((offs.[0 <- 0]) 0 + u32 (Z.shiftr n 1))]).
    change (fill_offsets (Z.to_nat MAX_ORDER) 1 n (offs.[0 <- 0]))
      with (fill_offsets 8 3 n (o1.[2 <- u32 (o1 1 + u32 (Z.shiftr n 2))])).
    rewrite !fill_offsets_other by lia. rewrite upd_eq, !(upd_ne o1) by lia. unfold o1. rewrite !upd_eq, !upd_ne, upd_eq by lia.
    rewrite !Z.shiftr_div_pow2 by lia. unfold u32. change (2 ^ 1) with 2. change (2 ^ 2) with 4.
    assert (H2 : 0 <= n / 2 <= 2 ^ 30) by dlia. assert (H4 : 0 <= n / 4 <= 2 ^ 29) by dlia.
    rewrite (Z.mod_small (n / 2)), (Z.mod_small (n / 4)), (Z.mod_small (0 + n / 2)), Z.mod_small by lia. done. }
  assert (Hbit : forall k x, 0 <= k <= 2 -> block_ok md k x -> read_bit md (bitmap_bit_pos md x k) = 0).
  { intros k x Hk Hx. pose proof (small_bit_pos_nonneg md Hl k x Hk Hx) as Hp. fold n in Hp.
    destruct (size_pages md Hl) as ([q Hq] & _). fold n in Hq. rewrite read_bit_testbit, Ebit by lia.
    rewrite fill_in by dlia. by rewrite Z.bits_0. }
  split; [done| |intros x Hx; by apply Hbit|rewrite HL0; simpl; lia].
  intros x Hx. rewrite (Hbit 0 x) by (done || lia). destruct (page_buddy md x Hl Hx) as (Hbx & _).
  assert (Hin : forall y, block_ok md 0 y -> y ∈ free_pages L).
  { intros y (D & Lo & Hi). change (2 ^ 0 * PAGE_SIZE) with PAGE_SIZE in *. eapply all_free_region; eauto. }
  split; [done|]. intros Hodd. destruct Hodd. split; intros _; by apply Hin.
Qed.

(** ** The client *)

(** A client that takes single pages and blocks of four from the region of [md0]. *)
Definition fresh_in (md0 md : buddy_metadata) (L : Z -> list ptr) : Prop :=
  fresh md L /\ bm_base_address md = bm_base_address md0 /\ bm_size md = bm_size md0.

Lemma fresh_in_free md0 m md L p :
  buddy_inv m md L -> fresh_in md0 md L -> p ∈ free_pages L -> block_ok md0 0 p.
Proof.
  intros Hi (_ & E1 & E2) Hp. pose proof (free_block_ok _ _ _ _ Hi Hp) as Hb. unfold block_ok in *. by rewrite <- E1, <- E2.
Qed.

Lemma fresh_in_alloc md0 order s L p s' L' :
  buddy_inv (k_mem s) (k_buddy s) L -> order = 0 \/ order = 2 -> fresh_in md0 (k_buddy s) L ->
  allocated order s L p s' L' -> fresh_in md0 (k_buddy s') L'.
Proof.
  intros Hi Ho (Hf & E1 & E2) Ha. split; [by eapply fresh_alloc|]. destruct (al_region _ _ _ _ _ _ Ha) as [-> ->]. done.
Qed.

Definition fresh_client (md0 : buddy_metadata) : AllocClient := {|
  ac_inv := fresh_in md0; ac_order o := o = 0 \/ o = 2; ac_frame p := block_ok md0 0 p;
  ac_page := or_introl eq_refl; ac_free := fresh_in_free md0; ac_alloc := fresh_in_alloc md0;
|}.
