(* ===== verification/BuddyTheorems.v ===== *)
(** * The buddy allocator: its theorems

    The contract of [buddy_kalloc], [buddy_kfree] and [__init_buddy] in terms
    of the free pages, the layout of the bitmap, and the runs on which the
    allocator leaves its contract. *)

From S2P Require Import Prelude State Kmath Buddy FreeList BuddyInv BuddyDemo BuddyOps BuddyInit.

(** ** Contracts *)

(** C1. For every size up to 2^63 [buddy_kalloc] returns.  With [order] the
    least order whose blocks hold the size, it returns NULL, leaving memory and
    metadata alone, only if no list at or above [order] has a block; otherwise
    it returns a block of [2^order] pages, aligned to its size and inside the
    region, whose pages were free and no longer are, every other page keeping
    its status; it writes to free pages only, and the lock and the interrupt
    flag are as before. *)
Theorem buddy_kalloc_correct size s L :
  buddy_inv (k_mem s) (k_buddy s) L -> lock_free s buddy_lock -> 0 <= size <= 2 ^ 63 ->
  exists p s' order, buddy_kalloc size s = Ret p s' /\ kframe s s' /\ least_order size order /\
    (p = NULL /\ k_mem s' = k_mem s /\ k_buddy s' = k_buddy s /\
       (forall k, order <= k <= MAX_ORDER -> L k = []) \/
     p <> NULL /\ order <= MAX_ORDER /\ exists L', allocated order s L p s' L').
Proof.
  intros Hi Hl Hs.
  destruct (wp_elim _ _ _ (kalloc_wp size s L Hi Hl (proj2 Hs))) as (p & s' & E & Hk & o & Ho & HR).
  exists p, s', o. auto.
Qed.

Lemma buddy_kalloc_correct_witness :
  exists p s' order, buddy_kalloc 5000 demo_state = Ret p s' /\ least_order 5000 order.
Proof.
  destruct (buddy_kalloc_correct 5000 demo_state demo_lists demo_inv eq_refl ltac:(lia))
    as (p & s' & o & E & _ & Ho & _). eauto.
Defined.

(** C16. [buddy_kfree] of an allocated block, on a bitmap that is right about the
    buddies it meets: it returns, the block's pages join the free pages, every
    other page keeps its status, the invariant is kept, and only the freed
    block and free pages are written. *)
Theorem buddy_kfree_correct size order chunk s L :
  buddy_inv (k_mem s) (k_buddy s) L -> lock_free s buddy_lock ->
  0 < size -> least_order size order -> order <= MAX_ORDER ->
  block_ok (k_buddy s) order chunk -> NoDup (pages_of order chunk ++ free_pages L) ->
  coalesce_truthful (Z.to_nat (MAX_ORDER - order)) (k_buddy s) L chunk order ->
  exists s' L', buddy_kfree chunk size s = Ret tt s' /\ kframe s s' /\ freed order chunk s L s' L'.
Proof.
  intros. destruct (wp_elim _ _ _ (kfree_wp size order chunk s L ltac:(done) ltac:(done) ltac:(done)
    ltac:(done) ltac:(done) ltac:(done) ltac:(done) ltac:(done))) as ([] & s' & E & Hk & L' & HF).
  exists s', L'. auto.
Qed.

Lemma buddy_kfree_correct_witness :
  exists s' L', buddy_kfree 0x400000 4096 demo_state = Ret tt s' /\
    freed 0 0x400000 demo_state demo_lists s' L'.
Proof.
  destruct (buddy_kfree_correct 4096 0 0x400000 demo_state demo_lists demo_inv eq_refl)
    as (s' & L' & E & _ & HF); try done.
  - split_and!; [lia|done|]. intros. lia.
  - split; [by exists 1024|done].
  - apply (bool_decide_unpack _). vm_compute. exact I.
  - cbn -[demo_lists]. split; [apply (bool_decide_unpack _); vm_compute; exact I|].
    vm_compute. intros [=].
  - eauto.
Defined.

(** ** Sequences *)

(** A client that asks for blocks of the given sizes and keeps them all. *)
Fixpoint kalloc_all (sizes : list Z) : cmd kstate (list (Z * ptr)) :=
  match sizes with
  | [] => ret []
  | size :: rest =>
      let! p := buddy_kalloc size in
      let! ps := kalloc_all rest in
      ret ((size, p) :: ps)
  end.

(** The pages of the blocks that were handed out. *)
Definition block_pages (b : Z * ptr) : list Z :=
  if b.2 =? NULL then [] else
  match order_of_size b.1 with Some o => pages_of o b.2 | None => [] end.

Lemma order_of_size_eq size o : size <= 2 ^ 63 -> least_order size o -> order_of_size size = Some o.
Proof.
  intros Hs Ho. destruct (order_of_size_least size Hs) as (o' & -> & _ & Ho').
  f_equal. by eapply least_order_unique.
Qed.

Lemma kalloc_all_spec sizes s L :
  buddy_inv (k_mem s) (k_buddy s) L -> lock_free s buddy_lock ->
  Forall (fun size => size <= 2 ^ 63) sizes ->
  wp (kalloc_all sizes) (fun ps s' => kframe s s' /\ exists L',
    buddy_inv (k_mem s') (k_buddy s') L' /\ ps.*1 = sizes /\
    free_pages L ≡ₚ (ps ≫= block_pages) ++ free_pages L') s.
Proof.
  revert s L. induction sizes as [|size rest IH]; intros s L Hi Hl Hs; cbn [kalloc_all].
  { wp_steps. split; [reflexivity|]. by exists L. }
  apply Forall_cons in Hs as [Hs Hrest]. wp_step.
  eapply wp_mono; [by apply (kalloc_wp size s L)|]. intros p s1 (Hk1 & o & Ho & HR). wp_step.
  assert (exists L1, buddy_inv (k_mem s1) (k_buddy s1) L1 /\
            free_pages L ≡ₚ block_pages (size, p) ++ free_pages L1) as (L1 & Hi1 & HP1).
  { unfold block_pages. simpl. rewrite (order_of_size_eq size o) by done.
    destruct HR as [(-> & -> & -> & _)|(Hp & _ & L1 & [])].
    - exists L. done.
    - exists L1. rewrite (proj2 (Z.eqb_neq p NULL)) by done. done. }
  eapply wp_mono; [apply (IH s1 L1); [done|by apply Hk1|done]|].
  intros ps s2 (Hk2 & L2 & Hi2 & Hps & HP2). wp_steps. split; [by etrans|]. exists L2.
  split_and!; [done|by rewrite fmap_cons, Hps|]. by rewrite bind_cons, HP1, HP2, app_assoc.
Qed.

(** Any sequence of allocations terminates, and the blocks it returns are
    pairwise disjoint sets of pages, all of them free before and none after. *)
Theorem buddy_kallocs_disjoint sizes s L :
  buddy_inv (k_mem s) (k_buddy s) L -> lock_free s buddy_lock ->
  Forall (fun size => size <= 2 ^ 63) sizes ->
  exists ps s' L', kalloc_all sizes s = Ret ps s' /\ kframe s s' /\
    buddy_inv (k_mem s') (k_buddy s') L' /\ ps.*1 = sizes /\
    NoDup (ps ≫= block_pages) /\ free_pages L ≡ₚ (ps ≫= block_pages) ++ free_pages L'.
Proof.
  intros Hi Hl Hs. destruct (wp_elim _ _ _ (kalloc_all_spec sizes s L Hi Hl Hs))
    as (ps & s' & E & Hk & L' & Hi' & Hps & HP).
  exists ps, s', L'. split_and!; try done.
  pose proof (bi_nodup _ _ _ Hi) as Hn. rewrite HP in Hn. by apply NoDup_app in Hn as (? & _).
Qed.

Lemma buddy_kallocs_disjoint_witness :
  exists ps s', kalloc_all [4096; 8192; 4096; 100] demo_state = Ret ps s' /\
    NoDup (ps ≫= block_pages).
Proof.
  destruct (buddy_kallocs_disjoint [4096; 8192; 4096; 100] demo_state demo_lists demo_inv eq_refl)
    as (ps & s' & L' & E & _ & _ & _ & Hn & _); [repeat constructor; lia|]. eauto.
Defined.

(** Blocks of the largest order survive a round trip whatever the bitmap
    says: allocating between 2 and 4 MB and freeing the block with the same size
    gives back exactly the free pages there were. *)
Theorem buddy_max_order_round_trip size s L :
  buddy_inv (k_mem s) (k_buddy s) L -> lock_free s buddy_lock ->
  2 ^ 21 < size <= 2 ^ 22 -> L MAX_ORDER <> [] ->
  exists p s1 s2 L2, buddy_kalloc size s = Ret p s1 /\ buddy_kfree p size s1 = Ret tt s2 /\
    p <> NULL /\ kframe s s2 /\ buddy_inv (k_mem s2) (k_buddy s2) L2 /\
    free_pages L2 ≡ₚ free_pages L.
Proof.
  intros Hi Hl Hs HL.
  destruct (wp_elim _ _ _ (kalloc_wp size s L Hi Hl ltac:(lia))) as (p & s1 & E & Hk & o & Ho & HR).
  assert (least_order size MAX_ORDER) as Hm.
  { unfold least_order, MAX_ORDER, PAGE_SIZE. split_and!; [lia|lia|]. intros j Hj.
    assert (2 ^ j <= 2 ^ 9) by (apply Z.pow_le_mono_r; lia). lia. }
  rewrite (least_order_unique _ _ _ Ho Hm) in HR. clear o Ho.
  destruct HR as [(_ & _ & _ & HR)|(Hp & _ & L' & [Hi' Hb HP _ [Hb1 Hb2]])].
  { destruct HL. apply HR. lia. }
  assert (Hb' : block_ok (k_buddy s1) MAX_ORDER p) by (unfold block_ok in *; by rewrite Hb1, Hb2).
  assert (Hnd : NoDup (pages_of MAX_ORDER p ++ free_pages L')).
  { rewrite <- HP. by eapply bi_nodup. }
  destruct (wp_elim _ _ _ (kfree_wp size MAX_ORDER p s1 L' Hi' (kf_locks _ _ Hk _ Hl) ltac:(lia) Hm
    ltac:(lia) Hb' Hnd I)) as ([] & s2 & E2 & Hk2 & L2 & [Hi2 HP2 _ _]).
  exists p, s1, s2, L2. split_and!; try done; [by etrans|]. by rewrite HP2, HP.
Qed.

Lemma buddy_max_order_round_trip_witness :
  exists p s1 s2, buddy_kalloc 0x300000 demo_state = Ret p s1 /\ buddy_kfree p 0x300000 s1 = Ret tt s2.
Proof.
  destruct (buddy_max_order_round_trip 0x300000 demo_state demo_lists demo_inv eq_refl)
    as (p & s1 & s2 & L2 & E1 & E2 & _); [lia|done|]. eauto.
Defined.

(** C37. The order search of [buddy_kalloc] ends on exactly the sizes up to 2^63;
    on a larger one it never does, as the shifted block size has wrapped to at
    most 2^63 for every value of the 8-bit counter. *)
Theorem buddy_kalloc_terminates_iff size s L :
  buddy_inv (k_mem s) (k_buddy s) L -> lock_free s buddy_lock -> 0 <= size ->
  (buddy_kalloc size s <> Diverge <-> size <= 2 ^ 63).
Proof.
  intros Hi Hl Hs. split.
  - intros Hd. destruct (decide (size <= 2 ^ 63)) as [|Hgt]; [done|]. destruct Hd.
    unfold buddy_kalloc, order_of_size. cbv [bind gets].
    by rewrite order_loop_diverges by lia.
  - intros Hle. destruct (wp_elim _ _ _ (kalloc_wp size s L Hi Hl Hle)) as (p & s1 & -> & _). done.
Qed.

Lemma buddy_kalloc_terminates_iff_witness :
  buddy_kalloc 4096 demo_state <> Diverge.
Proof.
  apply (buddy_kalloc_terminates_iff 4096 demo_state demo_lists demo_inv eq_refl); lia.
Defined.

(** ** Initialisation *)

(** The run of the memory map the region is cut from. *)
Definition chosen_region (kernel_end : ptr) (entries : list mmap_entry_0xe820) : Z * Z :=
  let '(b, s) := best_e820 (length entries) entries 0 0 in
  clamp_region kernel_end (MAX_ORDER + 1) b s.

(** C17. When the chosen run holds at least 4 MB of the 48-bit physical address
    space, [__init_buddy] returns with the invariant established and the lock
    free: the region starts at the first 4 MB boundary of the run and ends at
    its last page boundary, the free pages are exactly the region's pages, each
    once, and no memory outside them is written. *)
Theorem init_buddy_correct kernel_end entries s b sz :
  chosen_region kernel_end entries = (b, sz) ->
  0 < b -> b + sz <= 2 ^ 48 -> 2 ^ 22 <= sz <= 2 ^ 43 ->
  exists s' L, __init_buddy kernel_end entries s = Ret tt s' /\
    let base := bm_base_address (k_buddy s') in let size := bm_size (k_buddy s') in
    buddy_inv (k_mem s') (k_buddy s') L /\ lock_free s' buddy_lock /\
    b <= base < b + 2 ^ 22 /\ b + sz - PAGE_SIZE < base + size <= b + sz /\
    free_pages L ≡ₚ page_range base (size / PAGE_SIZE) /\
    mem_frame (page_range base (size / PAGE_SIZE)) (k_mem s) (k_mem s').
Proof.
  intros Hc H1 H2 H3.
  destruct (wp_elim _ _ _ (init_wp kernel_end entries s b sz Hc H1 H2 H3))
    as ([] & s' & E & L & Ha & Hb & Hd & He & Hf & Hg & _).
  exists s', L. auto 10.
Qed.

Lemma init_buddy_correct_witness :
  exists s' L, __init_buddy 0xffffffff80040000 [mk_mmap_entry 0x100000 0x1f00000 1 0] demo_state
    = Ret tt s' /\ buddy_inv (k_mem s') (k_buddy s') L.
Proof.
  destruct (init_buddy_correct 0xffffffff80040000 [mk_mmap_entry 0x100000 0x1f00000 1 0] demo_state
    0x100000 0x1f00000 eq_refl) as (s' & L & E & Hi & _); try lia. eauto.
Defined.

(** The step that should move the region above the kernel image and the
    first megabyte never does: [kernel_end] is an address of the higher half,
    above every physical address, so whatever run was chosen is kept, its part
    below 1 MB included. *)
Theorem clamp_region_never_moves kernel_end num_max_order b sz :
  0xffffffff80000000 <= kernel_end <= 0xffffffffc0000000 -> 0 <= num_max_order <= 256 ->
  0 <= b -> 0 <= sz -> b + sz <= 2 ^ 44 ->
  clamp_region kernel_end num_max_order b sz = (b, sz).
Proof.
  intros Hk Hn Hb Hs He. unfold clamp_region, PAGE_SIZE, sizeof_buddy_metadata, sizeof_pointer,
    ONE_MB_ADDRESS, u64.
  assert (0 <= sz / 0x1000 / 8 <= 2 ^ 29) as Hbm.
  { rewrite Z.div_div by lia. split; [apply Z.div_pos; lia|].
    apply Z.div_le_upper_bound; lia. }
  rewrite !(Z.mod_small (_ + _)) by lia.
  destruct (Z.gtb_spec (kernel_end + 78 + num_max_order * 8 + sz / 0x1000 / 8) 0x100000); [|lia].
  match goal with |- context [?x <? b + sz] => destruct (Z.ltb_spec x (b + sz)); [lia|] end.
  by rewrite andb_false_r.
Qed.

Lemma clamp_region_never_moves_witness :
  clamp_region 0xffffffff80040000 11 0 0x9fc00 = (0, 0x9fc00).
Proof. apply clamp_region_never_moves; lia. Defined.

(** ** The bitmap's layout *)


(** The bitmap of a region of [q] blocks of the largest order. *)
Section bitmap_layout.
Context (md : buddy_metadata) (offs : Z -> Z) (q : Z).
Hypothesis (Hq : 0 <= q <= 2 ^ 21) (Hsize : bm_size md = q * 2 ^ MAX_ORDER * PAGE_SIZE)
  (Hbase : (2 ^ MAX_ORDER * PAGE_SIZE | bm_base_address md)) (Hbase0 : 0 <= bm_base_address md)
  (Hend : bm_base_address md + bm_size md <= 2 ^ 48)
  (Ho0 : offs 0 = 0) (Hoffs : bm_order_offsets md = fill_offsets (Z.to_nat MAX_ORDER) 1 (bm_size md / PAGE_SIZE) offs).


End bitmap_layout.







(** In a region of 1025 pages the last page, alone in its pair, uses the bit of the
    first pair of two-page blocks. *)
Definition odd_md : buddy_metadata :=
  mk_buddy_metadata 0x400000 (1025 * PAGE_SIZE) 0 10 (fun _ => NULL) (fun _ => 0)
    (fill_offsets (Z.to_nat MAX_ORDER) 1 1025 (fun _ => 0)).
Example bitmap_bits_shared :
  block_ok odd_md 0 0x800000 /\ block_ok odd_md 1 0x400000 /\
  bitmap_bit_pos odd_md 0x800000 0 = bitmap_bit_pos odd_md 0x400000 1.
Proof. split_and!; [by split; [exists 2048|vm_compute; split; discriminate]|by split; [exists 512|vm_compute; split; discriminate]|done]. Qed.

(** ** Runs that leave the contract *)

Definition result {A} (d : A) (o : outcome kstate A) : A :=
  match o with Ret a _ => a | _ => d end.

Definition boot_demo (entries : list mmap_entry_0xe820) : cmd kstate unit :=
  __init_buddy 0xffffffff80040000 entries.

(** Five page-sized requests and releases of one caller, then a 16 KB one. *)
Definition page_client : cmd kstate (list ptr) :=
  let! a := buddy_kalloc 4096 in
  buddy_kfree a 4096;;
  let! b := buddy_kalloc 4096 in
  let! c := buddy_kalloc 4096 in
  let! d := buddy_kalloc 4096 in
  buddy_kfree c 4096;;
  buddy_kfree b 4096;;
  let! e := buddy_kalloc 16384 in
  ret [d; e].

(** C38. The allocator can hand out memory that is in use.  [buddy_kalloc]
    toggles the bitmap at the order it serves and not at the orders it splits
    through, so a later [buddy_kfree] reads a bit of 0 for a pair whose other
    half is allocated and merges it: after the run above, on a fresh 4 MB
    region, page [d] has not been freed and lies inside the 16 KB block [e]. *)
Theorem buddy_double_allocation :
  let de := result [] ((boot_demo [mk_mmap_entry 0x400000 0x400000 1 0];; page_client) demo_state) in
  de = [0x402000; 0x400000] /\ (nth 0 de NULL) ∈ pages_of 2 (nth 1 de NULL).
Proof.
  assert (E : result [] ((boot_demo [mk_mmap_entry 0x400000 0x400000 1 0];; page_client) demo_state)
              = [0x402000; 0x400000]) by (vm_compute; reflexivity).
  cbv zeta. rewrite E; clear E. split; [done|]. apply page_range_elem. exists 2. by split.
Qed.

(** In a region that is not a whole number of largest blocks the buddy of
    the last page can lie behind the region's end: in a region of 4 MB and one
    page, taking and releasing that page and then taking two pages returns, as
    the second, a page that is not part of the region. *)
Theorem buddy_tail_out_of_region :
  match (boot_demo [mk_mmap_entry 0x400000 0x401000 1 0];;
         let! a := buddy_kalloc 4096 in
         buddy_kfree a 4096;;
         let! b := buddy_kalloc 4096 in
         let! c := buddy_kalloc 4096 in
         ret (a, b, c)) demo_state with
  | Ret (a, b, c) s =>
      a = 0x800000 /\ b = 0x800000 /\ c = 0x801000 /\
      bm_base_address (k_buddy s) + bm_size (k_buddy s) = 0x801000
  | _ => False
  end.
Proof. vm_compute. done. Qed.
