(* ===== verification/Slab.v ===== *)
(** * The slab allocator of phys_kmalloc.c: definitions

    [kmem_cache] and [slab_descriptor] are objects of the shared memory: a
    cache lives in the kernel image, a descriptor at the head of the pages of
    its slab.  A field is the scalar at its offset.  [directmap_p2v] does not
    appear: the stored addresses are the keys of the memory. *)

From S2P Require Import Prelude State Kmath Buddy.

(** [slab_descriptor] *)
Definition off_inuse_num : Z := 0.
Definition off_free_list : Z := 8.
Definition off_cache : Z := 16.
Definition off_slab_lists_node : Z := 24.
Definition sizeof_slab_descriptor : Z := 40.

(** [kmem_cache] *)
Definition off_object_size : Z := 0.
Definition off_object_align : Z := 8.
Definition off_slab_order : Z := 12.
Definition off_objects_per_slab : Z := 16.
Definition off_free_slabs : Z := 24.
Definition off_partial_slabs : Z := 40.
Definition off_full_slabs : Z := 56.
Definition sizeof_kmem_cache : Z := 72.

(** [slab_list_node] *)
Definition node_next : Z := 0.
Definition node_prev : Z := 8.

Definition NUM_CACHES : Z := 8.
Definition MIN_SLAB_ALLOC_SIZE : Z := 16.
Definition MAX_SLAB_ALLOC_SIZE : Z := 2048.

(** C's conversion to [int]. *)
Definition s32 (x : Z) : Z := if u32 x <? 2 ^ 31 then u32 x else u32 x - 2 ^ 32.

(** ** Geometry of a slab *)

Definition first_object_offset (object_align : Z) : Z :=
  Z.land (u64 (sizeof_slab_descriptor + object_align - 1)) (u32 (Z.lnot (u32 (object_align - 1)))).

Definition calc_alignment (object_align : Z) : Z :=
  u64 (first_object_offset object_align - sizeof_slab_descriptor).

Definition calc_objects_per_slab (object_size object_align slab_order : Z) : Z :=
  let alignment := calc_alignment object_align in
  let total_bytes := s32 (shl64 PAGE_SIZE slab_order) in
  let rem := u64 (total_bytes - sizeof_slab_descriptor - alignment) in
  let objects_per_slab := rem / object_size in
  if objects_per_slab <? 8 then u64 (-1) else objects_per_slab.

(** The result is converted to the 32-bit field by the callers. *)
Definition calc_object_align (size : Z) : Z :=
  if size =? 0 then -1 else
  let largest_pow2 := Z.land size (u64 (- size)) in
  if largest_pow2 <? 16 then largest_pow2 else 16.

Definition calc_slab_order (size : Z) : option Z :=
  if size =? 0 then Some (u32 (-1)) else
  let min_size := u64 (size * 8 + sizeof_slab_descriptor + 16) in
  let pages_needed_size := align_up (u32 min_size) PAGE_SIZE in
  buddy_order pages_needed_size.

(** ** Caches *)

Definition init_list (node : ptr) : cmd kstate unit :=
  store (node + node_next) node;; store (node + node_prev) node.

Definition init_lists (cache : ptr) : cmd kstate unit :=
  init_list (cache + off_free_slabs);;
  init_list (cache + off_partial_slabs);;
  init_list (cache + off_full_slabs).

Definition kmem_cache_create (cache size : Z) : cmd kstate ptr :=
  store (cache + off_object_size) size;;
  let object_align := u32 (calc_object_align size) in
  store (cache + off_object_align) object_align;;
  if object_align =? u32 (-1) then ret NULL else
  let! slab_order := of_loop (calc_slab_order size) in
  if slab_order =? u32 (-1) then ret NULL else
  store (cache + off_slab_order) (u8 slab_order);;
  let objects_per_slab := calc_objects_per_slab size object_align (u8 slab_order) in
  if objects_per_slab =? u64 (-1) then ret NULL else
  store (cache + off_objects_per_slab) (u32 objects_per_slab);;
  init_lists cache;;
  ret cache.

(** The locked version: its two error returns do not release [slab_lock]. *)
Definition kmem_cache_create_sl (cache object_size : Z) : cmd kstate ptr :=
  spinlock_acquire slab_lock;;
  store (cache + off_object_size) object_size;;
  let object_align := u32 (calc_object_align object_size) in
  store (cache + off_object_align) object_align;;
  if object_align =? u32 (-1) then ret NULL else
  let! slab_order := of_loop (calc_slab_order object_size) in
  store (cache + off_slab_order) (u8 slab_order);;
  let objects_per_slab := calc_objects_per_slab object_size object_align (u8 slab_order) in
  if objects_per_slab =? u64 (-1) then ret NULL else
  store (cache + off_objects_per_slab) (u32 objects_per_slab);;
  init_lists cache;;
  spinlock_release slab_lock;;
  ret cache.

Definition size_to_index (size : Z) : option Z :=
  if size =? 0 then Some (u32 (-1)) else
  let clamped := if size <? MIN_SLAB_ALLOC_SIZE then MIN_SLAB_ALLOC_SIZE else size in
  let nearest_pow2 := round_up_pow2 (u32 clamped) in
  match klog2 nearest_pow2, klog2 MIN_SLAB_ALLOC_SIZE with
  | Some a, Some b => Some (u32 (a - b))
  | _, _ => None
  end.

(** [&slab_caches[index]] *)
Definition slab_cache (index : Z) : cmd kstate ptr :=
  gets (fun s => k_slab_caches s + index * sizeof_kmem_cache).

(** [for (int pow = 4; pow <= 11; pow++)] *)
Fixpoint init_caches (turns : nat) (pow : Z) : cmd kstate Z :=
  match turns with
  | O => ret STATUS_OK
  | S t =>
      let! index := of_loop (size_to_index (shl64 1 pow)) in
      let! cache := slab_cache index in
      let! curr := kmem_cache_create cache (shl64 1 pow) in
      if curr =? NULL then ret STATUS_ERROR else init_caches t (pow + 1)
  end.

Definition __init_slab : cmd kstate Z :=
  spinlock_init slab_lock;;
  init_caches 8 4.

(** ** Growing *)

(** [for (idx = 0; idx < objects_per_slab; idx++)]: chain the objects. *)
Fixpoint thread_objects (turns : nat) (idx count object_size : Z) (first : ptr) (m : mem) : mem :=
  match turns with
  | O => m
  | S t =>
      let object_addr := u64 (first + u64 (idx * object_size)) in
      let m := m.[object_addr <- if idx <? u32 (count - 1) then u64 (object_addr + object_size)
                                 else NULL] in
      thread_objects t (idx + 1) count object_size first m
  end.

(** Insert [node] behind the sentinel [head]. *)
Definition list_insert_front (head node : ptr) (m : mem) : mem :=
  let m := m.[node + node_next <- m (head + node_next)] in
  let m := m.[node + node_prev <- head] in
  let m := m.[m (head + node_next) + node_prev <- node] in
  m.[head + node_next <- node].

(** Take [node] out of the list it is in. *)
Definition list_remove (node : ptr) (m : mem) : mem :=
  let m := m.[m (node + node_prev) + node_next <- m (node + node_next)] in
  m.[m (node + node_next) + node_prev <- m (node + node_prev)].

Definition on_mem (f : mem -> mem) : cmd kstate unit := modify (fun s => set_mem (f (k_mem s)) s).

Definition kmem_cache_grow (cache : ptr) : cmd kstate Z :=
  let! slab_order := load (cache + off_slab_order) in
  let! descriptor := buddy_kalloc (chunk_bytes slab_order) in
  if descriptor =? NULL then ret STATUS_ERROR else
  store (descriptor + off_cache) cache;;
  store (descriptor + off_inuse_num) 0;;
  let! object_align := load (cache + off_object_align) in
  let new_slab_first_object := u64 (descriptor + first_object_offset object_align) in
  let! count := load (cache + off_objects_per_slab) in
  let! object_size := load (cache + off_object_size) in
  on_mem (thread_objects (Z.to_nat count) 0 count object_size new_slab_first_object);;
  store (descriptor + off_free_list) new_slab_first_object;;
  on_mem (list_insert_front (cache + off_free_slabs) (descriptor + off_slab_lists_node));;
  ret STATUS_OK.

(** ** Objects *)

(** The slab to take an object from: a partial one, a free one, or a new one;
    [None] when the cache cannot grow, with the lock released. *)
Definition select_slab (cache : ptr) : cmd kstate (option ptr) :=
  let! partial := load (cache + off_partial_slabs + node_next) in
  let! free := load (cache + off_free_slabs + node_next) in
  if negb (partial =? cache + off_partial_slabs) then ret (Some (partial - off_slab_lists_node))
  else if negb (free =? cache + off_free_slabs) then ret (Some (free - off_slab_lists_node))
  else
    spinlock_release slab_lock;;
    let! status := kmem_cache_grow cache in
    spinlock_acquire slab_lock;;
    if negb (status =? STATUS_OK) then spinlock_release slab_lock;; ret None else
    let! free := load (cache + off_free_slabs + node_next) in
    ret (Some (free - off_slab_lists_node)).

Definition move_slab (desc list : ptr) : cmd kstate unit :=
  on_mem (list_remove (desc + off_slab_lists_node));;
  on_mem (list_insert_front list (desc + off_slab_lists_node)).

Definition kmem_cache_kalloc (cache : ptr) : cmd kstate ptr :=
  spinlock_acquire slab_lock;;
  let! slab := select_slab cache in
  match slab with
  | None => ret NULL
  | Some desc =>
      let! ptr := load (desc + off_free_list) in
      if ptr =? NULL then spinlock_release slab_lock;; ret NULL else
      let! next := load ptr in
      store (desc + off_free_list) next;;
      let! n := load (desc + off_inuse_num) in
      store (desc + off_inuse_num) (u32 (n + 1));;
      let! inuse_num := load (desc + off_inuse_num) in
      let! objects_per_slab := load (cache + off_objects_per_slab) in
      (if inuse_num =? objects_per_slab then move_slab desc (cache + off_full_slabs)
       else if inuse_num =? 1 then move_slab desc (cache + off_partial_slabs)
       else ret tt);;
      spinlock_release slab_lock;;
      ret ptr
  end.

Definition kmem_cache_kfree (cache object : ptr) : cmd kstate unit :=
  spinlock_acquire slab_lock;;
  let! slab_order := load (cache + off_slab_order) in
  let slab_size := u32 (shl64 PAGE_SIZE slab_order) in
  let desc := Z.land object (not64 (u64 (slab_size - 1))) in
  let! n := load (desc + off_inuse_num) in
  store (desc + off_inuse_num) (u32 (n - 1));;
  let! inuse_num := load (desc + off_inuse_num) in
  let! objects_per_slab := load (cache + off_objects_per_slab) in
  (if inuse_num =? 0 then move_slab desc (cache + off_free_slabs)
   else if inuse_num =? u32 (objects_per_slab - 1) then move_slab desc (cache + off_partial_slabs)
   else ret tt);;
  let! head := load (desc + off_free_list) in
  store object head;;
  store (desc + off_free_list) object;;
  spinlock_release slab_lock.

Definition slab_kalloc (size : Z) : cmd kstate ptr :=
  if size >? MAX_SLAB_ALLOC_SIZE then ret NULL else
  let! index := of_loop (size_to_index size) in
  if index >=? NUM_CACHES then ret NULL else
  let! cache := slab_cache index in
  kmem_cache_kalloc cache.

Definition slab_kfree (object : ptr) (size : Z) : cmd kstate unit :=
  let! index := of_loop (size_to_index size) in
  if index >=? NUM_CACHES then ret tt else
  let! cache := slab_cache index in
  kmem_cache_kfree cache object.
