(* ===== verification/SlabTheorems.v ===== *)
(** * The slab allocator: caches, their geometry and their locks *)

From S2P Require Import Prelude State Kmath Buddy Slab.

(** ** The cache of a size *)

(** The smallest of the eight power-of-two caches that holds the size. *)
Lemma size_to_index_smallest size :
  0 < size < 2 ^ 32 ->
  exists i, size_to_index size = Some i /\ 0 <= i /\
    (size <= MAX_SLAB_ALLOC_SIZE ->
       i < NUM_CACHES /\ size <= 2 ^ (i + 4) /\ forall j, 0 <= j < i -> 2 ^ (j + 4) < size) /\
    (MAX_SLAB_ALLOC_SIZE < size -> NUM_CACHES <= i).
Proof.
  intros Hs. unfold size_to_index, MIN_SLAB_ALLOC_SIZE, MAX_SLAB_ALLOC_SIZE, NUM_CACHES.
  destruct (Z.eqb_spec size 0); [lia|].
  set (c := if size <? 16 then 16 else size).
  assert (Hc : 16 <= c < 2 ^ 32 /\ (size <= 16 -> c = 16) /\ (16 <= size -> c = size)).
  { unfold c. destruct (Z.ltb_spec size 16); lia. }
  clearbody c. rewrite (u32_small c) by lia.
  rewrite round_up_pow2_log2_up by lia.
  assert (Hl : 4 <= Z.log2_up c <= 32).
  { split; [change 4 with (Z.log2_up 16); apply Z.log2_up_le_mono; lia|].
    apply Z.log2_up_le_pow2; lia. }
  change (klog2 16) with (Some 4).
  destruct (decide (Z.log2_up c = 32)) as [E|E].
  - rewrite E. change (klog2 (u32 (2 ^ 32))) with (Some 0). eexists. split; [done|].
    split; [done|]. split; [|done]. intros Hle. exfalso.
    assert (Z.log2_up c <= 11) by (apply Z.log2_up_le_pow2; lia). lia.
  - assert (0 < 2 ^ Z.log2_up c < 2 ^ 32).
    { split; [apply Z.pow_pos_nonneg; lia|]. apply Z.pow_lt_mono_r; lia. }
    rewrite (u32_small (2 ^ _)), klog2_log2 by lia.
    rewrite Z.log2_pow2, u32_small by lia.
    eexists. split; [done|]. split; [lia|]. split.
    + intros Hle. assert (Z.log2_up c <= 11) by (apply Z.log2_up_le_pow2; lia).
      replace (Z.log2_up c - 4 + 4) with (Z.log2_up c) by lia. split; [lia|]. split.
      * assert (c <= 2 ^ Z.log2_up c) by (apply Z.log2_up_le_pow2; lia). lia.
      * intros j Hj. assert (2 ^ (j + 4) < c) by (apply Z.log2_up_lt_pow2; lia).
        destruct (decide (size <= 16)); [|lia].
        assert (c = 16) by lia. subst c. change (Z.log2_up 16) with 4 in Hj. lia.
    + intros Hgt. assert (11 < Z.log2_up c) by (apply Z.log2_up_lt_pow2; lia). lia.
Qed.

(** ** Geometry *)

(** The order, alignment and object count chosen for [size]. *)
Definition slab_fits (size o al n : Z) : bool :=
  (0 <=? o) && (o <=? 3) && (0 <? al) && (al <=? 16) && (8 <=? n) && (n <? 2 ^ 32) &&
  (sizeof_slab_descriptor <=? first_object_offset al) &&
  (first_object_offset al + n * size <=? 2 ^ o * PAGE_SIZE) &&
  (first_object_offset al mod al =? 0) && (size mod al =? 0).

Definition geometry (size : Z) : option (Z * Z * Z) :=
  match calc_slab_order size with
  | Some o => let al := u32 (calc_object_align size) in
              Some (o, al, calc_objects_per_slab size al (u8 o))
  | None => None
  end.

Definition geometry_ok (size : Z) : bool :=
  match geometry size with Some (o, al, n) => slab_fits size o al n | None => false end.

Lemma geometry_ok_all size : 1 <= size <= 2048 -> geometry_ok size = true.
Proof.
  intros Hs. assert (H : forallb geometry_ok (seqZ 1 2048) = true) by (vm_compute; reflexivity).
  rewrite forallb_forall in H. apply H. apply list_elem_of_In, elem_of_seqZ. lia.
Qed.

(** For every object size from 1 to 2048 the chosen slab holds at least eight
    objects: they start behind the descriptor, end inside the slab's pages, and
    all are aligned to the cache's alignment, a power of two of at most 16. *)
Theorem slab_geometry size :
  1 <= size <= 2048 ->
  exists o n, let al := u32 (calc_object_align size) in
    calc_slab_order size = Some o /\ calc_objects_per_slab size al (u8 o) = n /\
    0 <= o <= 3 /\ 8 <= n /\ 0 < al <= 16 /\
    forall i, 0 <= i < n ->
      let object := first_object_offset al + i * size in
      sizeof_slab_descriptor <= object /\ object + size <= 2 ^ o * PAGE_SIZE /\ object mod al = 0.
Proof.
  intros Hs. pose proof (geometry_ok_all size Hs) as Hg. unfold geometry_ok, geometry in Hg.
  destruct (calc_slab_order size) as [o|]; [|done]. exists o.
  set (al := u32 (calc_object_align size)) in *. set (n := calc_objects_per_slab _ _ _) in *.
  exists n. unfold slab_fits in Hg. rewrite !andb_true_iff in Hg.
  destruct Hg as [[[[[[[[[? ?] ?] ?] ?] ?] ?] ?] Ha%Z.eqb_eq] Hb%Z.eqb_eq].
  rewrite ?Z.leb_le, ?Z.ltb_lt in *. split_and!; try done; try lia.
  intros i Hi. cbv zeta. unfold sizeof_slab_descriptor in *. split_and!; [nia|nia|].
  apply Z.mod_divide in Ha, Hb; [|lia..]. apply Z.mod_divide; [lia|].
  apply Z.divide_add_r; [done|]. by apply Z.divide_mul_r.
Qed.

Lemma slab_geometry_witness :
  exists o n, calc_slab_order 512 = Some o /\ 8 <= n /\
    first_object_offset 16 + (n - 1) * 512 + 512 <= 2 ^ o * PAGE_SIZE.
Proof.
  destruct (slab_geometry 512 ltac:(lia)) as (o & n & E & _ & _ & Hn & _ & H).
  exists o, n. split; [done|]. split; [done|].
  apply (H (n - 1)). lia.
Defined.

(** ** Creating caches *)

(** A cache without slabs, ready to serve objects of [size] bytes. *)
Record cache_ready (m : mem) (cache size : Z) : Prop := {
  cr_size : m (cache + off_object_size) = size;
  cr_geometry : exists o al n, geometry size = Some (o, al, n) /\
    m (cache + off_slab_order) = o /\ m (cache + off_object_align) = al /\
    m (cache + off_objects_per_slab) = n;
  cr_lists : forall l, l = off_free_slabs \/ l = off_partial_slabs \/ l = off_full_slabs ->
    m (cache + l + node_next) = cache + l /\ m (cache + l + node_prev) = cache + l;
}.

(** Only the cache's own words are written. *)
Definition same_outside (a n : Z) (m m' : mem) : Prop :=
  forall x, x < a \/ a + n <= x -> m' x = m x.

Ltac slab_offsets := unfold off_object_size, off_object_align, off_slab_order, off_objects_per_slab,
  off_free_slabs, off_partial_slabs, off_full_slabs, node_next, node_prev, sizeof_kmem_cache in *.

Lemma geometry_fits size o al n :
  1 <= size <= 2048 -> geometry size = Some (o, al, n) ->
  0 <= o <= 3 /\ 0 < al <= 16 /\ 8 <= n < 2 ^ 32.
Proof.
  intros Hs E. pose proof (geometry_ok_all size Hs) as Hg. unfold geometry_ok in Hg. rewrite E in Hg.
  unfold slab_fits in Hg. rewrite !andb_true_iff, !Z.leb_le, !Z.ltb_lt in Hg. lia.
Qed.

(** The stores both creation routines make, in their order. *)
Definition created_mem (cache size o al n : Z) (m : mem) : mem :=
  let m := m.[cache + off_object_size <- size] in
  let m := m.[cache + off_object_align <- al] in
  let m := m.[cache + off_slab_order <- o] in
  let m := m.[cache + off_objects_per_slab <- n] in
  let m := m.[cache + off_free_slabs + node_next <- cache + off_free_slabs] in
  let m := m.[cache + off_free_slabs + node_prev <- cache + off_free_slabs] in
  let m := m.[cache + off_partial_slabs + node_next <- cache + off_partial_slabs] in
  let m := m.[cache + off_partial_slabs + node_prev <- cache + off_partial_slabs] in
  let m := m.[cache + off_full_slabs + node_next <- cache + off_full_slabs] in
  m.[cache + off_full_slabs + node_prev <- cache + off_full_slabs].

Lemma created_mem_ready cache size o al n m :
  geometry size = Some (o, al, n) ->
  cache_ready (created_mem cache size o al n m) cache size /\
  same_outside cache sizeof_kmem_cache m (created_mem cache size o al n m).
Proof.
  intros Hg. unfold created_mem, same_outside. split; [split|].
  - slab_offsets. upd_solve. done.
  - exists o, al, n. slab_offsets. split_and!; [done|by upd_solve..].
  - intros l Hl. slab_offsets. destruct Hl as [->|[->| ->]]; split; by upd_solve.
  - intros x Hx. slab_offsets. by upd_solve.
Qed.

Lemma create_wp cache size s (Q : ptr -> kstate -> Prop) :
  1 <= size <= 2048 ->
  (forall m', cache_ready m' cache size -> same_outside cache sizeof_kmem_cache (k_mem s) m' ->
     Q cache (set_mem m' s)) ->
  wp (kmem_cache_create cache size) Q s.
Proof.
  intros Hs HQ. pose proof (geometry_ok_all size Hs) as Hok. unfold geometry_ok in Hok.
  destruct (geometry size) as [[[o al] n]|] eqn:Hg; [|done].
  destruct (geometry_fits _ _ _ _ Hs Hg) as (Ho & Hal & Hn).
  pose proof Hg as Hg'. unfold geometry in Hg'.
  destruct (calc_slab_order size) as [o'|] eqn:Eo; [|done]. injection Hg' as -> Ea En.
  unfold kmem_cache_create. rewrite Ea, Eo. kwp.
  rewrite (proj2 (Z.eqb_neq al _)) by (change (u32 (-1)) with (2 ^ 32 - 1); lia).
  unfold of_loop. kwp.
  rewrite (proj2 (Z.eqb_neq o _)) by (change (u32 (-1)) with (2 ^ 32 - 1); lia). kwp.
  rewrite Ea in En. rewrite En, (u8_small o), (u32_small n) by lia.
  rewrite (proj2 (Z.eqb_neq n _)) by (change (u64 (-1)) with (2 ^ 64 - 1); lia).
  unfold init_lists, init_list. kwp.
  destruct (created_mem_ready cache size o al n (k_mem s) Hg) as [Hr Hf]. by apply HQ.
Qed.

(** The locked version does the same work inside its critical section. *)
Lemma create_sl_wp cache size s (Q : ptr -> kstate -> Prop) :
  1 <= size <= 2048 -> lock_free s slab_lock ->
  (forall s', kframe s s' -> k_buddy s' = k_buddy s -> cache_ready (k_mem s') cache size ->
     same_outside cache sizeof_kmem_cache (k_mem s) (k_mem s') -> Q cache s') ->
  wp (kmem_cache_create_sl cache size) Q s.
Proof.
  intros Hs Hfree HQ. pose proof (geometry_ok_all size Hs) as Hok. unfold geometry_ok in Hok.
  destruct (geometry size) as [[[o al] n]|] eqn:Hg; [|done].
  destruct (geometry_fits _ _ _ _ Hs Hg) as (Ho & Hal & Hn).
  pose proof Hg as Hg'. unfold geometry in Hg'.
  destruct (calc_slab_order size) as [o'|] eqn:Eo; [|done]. injection Hg' as -> Ea En.
  unfold kmem_cache_create_sl. rewrite Ea, Eo. apply wp_bind, wp_acquire; [done|].
  intros s1 Hheld Em Eb1. kwp.
  rewrite (proj2 (Z.eqb_neq al _)) by (change (u32 (-1)) with (2 ^ 32 - 1); lia).
  unfold of_loop. kwp.
  rewrite Ea in En. rewrite En, (u8_small o), (u32_small n) by lia.
  rewrite (proj2 (Z.eqb_neq n _)) by (change (u64 (-1)) with (2 ^ 64 - 1); lia).
  unfold init_lists, init_list. kwp. eapply wp_release; [repeat apply held_set_mem; exact Hheld|].
  intros s' Hk Em' Eb'. kwp. destruct (created_mem_ready cache size o al n (k_mem s1) Hg) as [Hr Hf].
  rewrite Em in Hf. apply HQ; [done|rewrite Eb'; exact Eb1|by rewrite Em'|]. rewrite Em'. cbn [k_mem set_mem]. rewrite Em. rewrite Em in *. done.
Qed.

Lemma cache_ready_frame m m' cache size a n :
  cache_ready m cache size -> same_outside a n m m' ->
  cache + sizeof_kmem_cache <= a \/ a + n <= cache -> cache_ready m' cache size.
Proof.
  intros [H1 H2 H3] Hf Hd. split.
  - rewrite Hf; [done|]. slab_offsets. lia.
  - destruct H2 as (o & al & k & E & Ho & Ha & Hk). exists o, al, k. slab_offsets.
    split_and!; [done|rewrite Hf by lia; done..].
  - intros l Hl. destruct (H3 l Hl). slab_offsets. rewrite !Hf by lia. done.
Qed.

Lemma init_caches_spec turns pow s :
  0 < k_slab_caches s -> 4 <= pow -> pow + Z.of_nat turns = 12 ->
  (forall i, 0 <= i < pow - 4 -> cache_ready (k_mem s) (k_slab_caches s + i * sizeof_kmem_cache) (2 ^ (i + 4))) ->
  wp (init_caches turns pow) (fun r s' => r = STATUS_OK /\ (exists m', s' = set_mem m' s) /\
    same_outside (k_slab_caches s) (NUM_CACHES * sizeof_kmem_cache) (k_mem s) (k_mem s') /\
    forall i, 0 <= i < NUM_CACHES ->
      cache_ready (k_mem s') (k_slab_caches s + i * sizeof_kmem_cache) (2 ^ (i + 4))) s.
Proof.
  revert pow s. induction turns as [|t IH]; intros pow s Hpos Hp Ht Hc; cbn [init_caches].
  { wp_steps. split; [done|]. split; [exists (k_mem s); by destruct s|]. split; [done|].
    intros i Hi. apply Hc. unfold NUM_CACHES in Hi. lia. }
  assert (Hpow : 1 <= 2 ^ pow <= 2048).
  { split; [pose proof (Z.pow_pos_nonneg 2 pow); lia|]. change 2048 with (2 ^ 11).
    apply Z.pow_le_mono_r; lia. }
  rewrite shl64_one by lia. wp_step.
  assert (size_to_index (2 ^ pow) = Some (pow - 4)) as ->.
  { assert (pow = 4 \/ pow = 5 \/ pow = 6 \/ pow = 7 \/ pow = 8 \/ pow = 9 \/ pow = 10 \/ pow = 11)
      as Hcase by lia. destruct_or! Hcase; subst pow; reflexivity. }
  unfold of_loop, slab_cache. wp_steps. apply create_wp; [done|]. intros m' Hr Hf.
  rewrite (proj2 (Z.eqb_neq _ NULL)) by (unfold NULL, sizeof_kmem_cache; lia).
  eapply wp_mono; [apply (IH (pow + 1) (set_mem m' s)); [done|lia..|]|].
  - intros i Hi. cbn [k_mem set_mem k_slab_caches]. destruct (decide (i = pow - 4)) as [->|].
    + replace (pow - 4 + 4) with pow by lia. exact Hr.
    + eapply cache_ready_frame; [apply Hc; lia|exact Hf|]. unfold sizeof_kmem_cache. lia.
  - cbn [k_mem set_mem k_slab_caches]. intros r s' (-> & [m2 ->] & Hf' & Hall).
    split; [done|]. split; [by exists m2|]. split; [|done].
    intros x Hx. rewrite Hf' by done. apply Hf. unfold NUM_CACHES, sizeof_kmem_cache in *. lia.
Qed.

Lemma init_slab_wp s :
  0 < k_slab_caches s ->
  wp __init_slab (fun r s' => r = STATUS_OK /\ lock_free s' slab_lock /\ k_buddy s' = k_buddy s /\
    (lock_free s buddy_lock -> lock_free s' buddy_lock) /\
    same_outside (k_slab_caches s) (NUM_CACHES * sizeof_kmem_cache) (k_mem s) (k_mem s') /\
    forall i, 0 <= i < NUM_CACHES ->
      cache_ready (k_mem s') (k_slab_caches s + i * sizeof_kmem_cache) (2 ^ (i + 4))) s.
Proof.
  intros Hpos. unfold __init_slab, spinlock_init. wp_steps.
  eapply wp_mono; [apply init_caches_spec; [done|lia..]|].
  intros r s' (-> & [m' ->] & Hf & Hall). done.
Qed.

(** [__init_slab] returns [STATUS_OK] with the lock free and all eight caches
    ready: cache [i] serves objects of [2^(i+4)] bytes with the geometry computed
    for that size and has three empty slab lists; no other memory is written. *)
Theorem init_slab_correct s :
  0 < k_slab_caches s ->
  exists s', __init_slab s = Ret STATUS_OK s' /\ lock_free s' slab_lock /\
    same_outside (k_slab_caches s) (NUM_CACHES * sizeof_kmem_cache) (k_mem s) (k_mem s') /\
    forall i, 0 <= i < NUM_CACHES ->
      cache_ready (k_mem s') (k_slab_caches s + i * sizeof_kmem_cache) (2 ^ (i + 4)).
Proof.
  intros Hpos. destruct (wp_elim _ _ _ (init_slab_wp s Hpos)) as (r & s' & E & -> & H1 & _ & _ & H2 & H3). eauto.
Qed.

Definition slab_demo : kstate :=
  mk_kstate (fun _ => 0) (mk_buddy_metadata 0 0 0 0 (fun _ => 0) (fun _ => 0) (fun _ => 0))
    (fun _ => mk_spinlock 0 0 0xffffffff 0) 0x202 0 0 [] 0xffffffff80030000.

Lemma init_slab_correct_witness :
  exists s', __init_slab slab_demo = Ret STATUS_OK s' /\
    k_mem s' (k_slab_caches slab_demo + 2 * sizeof_kmem_cache + off_object_size) = 2 ^ (2 + 4).
Proof.
  assert (Hi : 0 <= 2 < NUM_CACHES) by done.
  destruct (init_slab_correct slab_demo ltac:(done)) as (s' & E & _ & _ & H).
  exists s'. split; [exact E|]. exact (cr_size _ _ _ (H 2 Hi)).
Defined.

(** C39. An error return of [kmem_cache_create_sl] leaves [slab_lock] taken: after
    asking for a cache of zero-sized objects no allocation or release from any
    cache returns. *)
Theorem create_sl_error_keeps_lock cache s :
  lock_free s slab_lock -> 0 <= lk_ticket (k_locks s slab_lock) < 2 ^ 16 ->
  exists s', kmem_cache_create_sl cache 0 s = Ret NULL s' /\
    forall c object, kmem_cache_kalloc c s' = Diverge /\ kmem_cache_kfree c object s' = Diverge.
Proof.
  intros Hf Ht. unfold lock_free in Hf.
  unfold kmem_cache_create_sl, bind, spinlock_acquire. rewrite Hf, Z.eqb_refl.
  eexists. split; [reflexivity|]. intros c object.
  unfold kmem_cache_kalloc, kmem_cache_kfree, bind, spinlock_acquire. simpl.
  rewrite (proj2 (Z.eqb_neq _ _)); [done|]. unfold u16.
  destruct (decide (lk_ticket (k_locks s slab_lock) = 2 ^ 16 - 1)) as [->|]; [done|].
  rewrite Z.mod_small; lia.
Qed.

Lemma create_sl_error_keeps_lock_witness :
  exists s', kmem_cache_create_sl 0xffffffff80050000 0 slab_demo = Ret NULL s' /\
    kmem_cache_kalloc 0xffffffff80030000 s' = Diverge.
Proof.
  destruct (create_sl_error_keeps_lock 0xffffffff80050000 slab_demo ltac:(done) ltac:(done))
    as (s' & E & H). exists s'. split; [exact E|]. apply (H 0xffffffff80030000 0).
Defined.
