(* ===== verification/SlabRings.v ===== *)
(** * The slab lists of a cache

    A cache keeps its slabs in three circular doubly linked lists whose
    sentinels are fields of the cache.  What inserting behind a sentinel and
    taking a node out do to the three lists together. *)

From stdpp Require Import functions.
From S2P Require Import Prelude State Kmath Buddy FreeList Slab.

(** ** One list *)

(** From [a] over the nodes [l] to [b], linked both ways. *)
Fixpoint lseg (m : mem) (a : ptr) (l : list ptr) (b : ptr) : Prop :=
  match l with
  | [] => m (a + node_next) = b /\ m (b + node_prev) = a
  | x :: l' => m (a + node_next) = x /\ m (x + node_prev) = a /\ lseg m x l' b
  end.

(** Different nodes do not overlap. *)
Definition apart (l : list ptr) : Prop :=
  NoDup l /\ forall x y, x ∈ l -> y ∈ l -> x <> y -> x + 16 <= y \/ y + 16 <= x.

(** [m'] differs from [m] in link words of [l] only. *)
Definition only_links (l : list ptr) (m m' : mem) : Prop :=
  forall a, (forall x, x ∈ l -> a <> x + node_next /\ a <> x + node_prev) -> m' a = m a.

Lemma only_links_refl l m : only_links l m m.
Proof. by intros a _. Qed.
Lemma only_links_trans l m1 m2 m3 : only_links l m1 m2 -> only_links l m2 m3 -> only_links l m1 m3.
Proof. intros H1 H2 a Ha. rewrite H2 by done. by apply H1. Qed.
Lemma only_links_next l m m' x v : x ∈ l -> only_links l m m' -> only_links l m (m'.[x + node_next <- v]).
Proof. intros Hx H a Ha. rewrite upd_ne by (by apply Ha). by apply H. Qed.
Lemma only_links_prev l m m' x v : x ∈ l -> only_links l m m' -> only_links l m (m'.[x + node_prev <- v]).
Proof. intros Hx H a Ha. rewrite upd_ne by (by apply Ha). by apply H. Qed.
Lemma only_links_mono l l' m m' : (forall x, x ∈ l -> x ∈ l') -> only_links l m m' -> only_links l' m m'.
Proof. intros Hs H a Ha. apply H. intros x Hx. apply Ha. auto. Qed.

Create HintDb rings.
#[export] Hint Resolve only_links_refl only_links_next only_links_prev : rings.

Lemma apart_perm l l' : l ≡ₚ l' -> apart l -> apart l'.
Proof.
  intros HP [H1 H2]. split; [by rewrite <- HP|]. intros x y. rewrite <- HP. auto.
Qed.
#[export] Instance apart_proper : Proper ((≡ₚ) ==> iff) apart.
Proof. intros l l' HP. split; apply apart_perm; [done|by symmetry]. Qed.

Lemma apart_sub l l' : (forall x, x ∈ l' -> x ∈ l) -> NoDup l' -> apart l -> apart l'.
Proof. intros Hs Hnd [_ H]. split; [done|]. intros; apply H; auto. Qed.

(** Reading a link after storing one. *)
Section reads.
Context (L : list ptr) (HL : apart L).
Lemma next_next x y v (m : mem) : x ∈ L -> y ∈ L ->
  (m.[x + node_next <- v]) (y + node_next) = if decide (y = x) then v else m (y + node_next).
Proof using HL.
  intros Hx Hy. case_decide as E; [subst; apply upd_eq|]. apply upd_ne.
  destruct HL as [_ H]. specialize (H y x Hy Hx E). unfold node_next. lia.
Qed.
Lemma prev_prev x y v (m : mem) : x ∈ L -> y ∈ L ->
  (m.[x + node_prev <- v]) (y + node_prev) = if decide (y = x) then v else m (y + node_prev).
Proof using HL.
  intros Hx Hy. case_decide as E; [subst; apply upd_eq|]. apply upd_ne.
  destruct HL as [_ H]. specialize (H y x Hy Hx E). unfold node_prev. lia.
Qed.
Lemma next_prev x y v (m : mem) : x ∈ L -> y ∈ L -> (m.[x + node_prev <- v]) (y + node_next) = m (y + node_next).
Proof using HL.
  intros Hx Hy. apply upd_ne. destruct (decide (y = x)) as [->|E]; [unfold node_next, node_prev; lia|].
  destruct HL as [_ H]. specialize (H y x Hy Hx E). unfold node_next, node_prev. lia.
Qed.
Lemma prev_next x y v (m : mem) : x ∈ L -> y ∈ L -> (m.[x + node_next <- v]) (y + node_prev) = m (y + node_prev).
Proof using HL.
  intros Hx Hy. apply upd_ne. destruct (decide (y = x)) as [->|E]; [unfold node_next, node_prev; lia|].
  destruct HL as [_ H]. specialize (H y x Hy Hx E). unfold node_next, node_prev. lia.
Qed.
End reads.

Ltac links L HL :=
  repeat first [ rewrite (next_next L HL) by auto | rewrite (prev_prev L HL) by auto
               | rewrite (next_prev L HL) by auto | rewrite (prev_next L HL) by auto ].

Lemma lseg_app m a l1 x l2 b : lseg m a (l1 ++ x :: l2) b <-> lseg m a l1 x /\ lseg m x l2 b.
Proof. revert a. induction l1 as [|y l1 IH]; intros a; simpl; [naive_solver|]. rewrite IH. naive_solver. Qed.

Lemma lseg_same m m' a l b :
  (forall x, x ∈ a :: l -> m' (x + node_next) = m (x + node_next)) ->
  (forall x, x ∈ b :: l -> m' (x + node_prev) = m (x + node_prev)) -> lseg m a l b -> lseg m' a l b.
Proof.
  revert a. induction l as [|x l IH]; intros a Hn Hp; simpl.
  - rewrite (Hn a), (Hp b) by left. done.
  - rewrite (Hn a) by left. rewrite (Hp x) by (right; left). intros (H1 & H2 & H3). split_and!; [done..|].
    apply IH; [| |done]; intros y Hy; [apply Hn; by right|apply Hp]. set_solver.
Qed.

Lemma lseg_prev m a l b : lseg m a l b -> m (b + node_prev) = last_or a l.
Proof. revert a. induction l as [|x l IH]; intros a; simpl; [naive_solver|]. intros (_ & _ & H). auto. Qed.

Lemma last_or_elem a l : last_or a l ∈ a :: l.
Proof. revert a. induction l as [|x l IH]; intros a; simpl; [left|]. right. apply IH. Qed.

(** The segment ends somewhere else. *)
Lemma lseg_retarget m m' a l b c :
  NoDup (a :: l) -> lseg m a l b ->
  m' (last_or a l + node_next) = c -> m' (c + node_prev) = last_or a l ->
  (forall x, x ∈ a :: l -> x <> last_or a l -> m' (x + node_next) = m (x + node_next)) ->
  (forall x, x ∈ l -> m' (x + node_prev) = m (x + node_prev)) -> lseg m' a l c.
Proof.
  revert a. induction l as [|x l IH]; intros a Hnd; simpl; [naive_solver|].
  intros (H1 & H2 & H3) E1 E2 Hn Hp. apply NoDup_cons in Hnd as [Ha Hnd].
  rewrite (Hn a) by (first [left | intros E; apply Ha; rewrite E; apply last_or_elem]).
  rewrite (Hp x) by left. split_and!; [done..|].
  apply IH; [done|done|done|done| |]; intros y Hy; [intros Hne; apply Hn; [by right|done]|apply Hp; by right].
Qed.

Lemma insert_front_ring m h l x :
  apart (x :: h :: l) -> lseg m h l h ->
  lseg (list_insert_front h x m) h (x :: l) h /\ only_links (x :: h :: l) m (list_insert_front h x m).
Proof.
  intros HL Hs. set (L := x :: h :: l) in *. assert (Hx : x ∈ L) by left. assert (Hh : h ∈ L) by (right; left).
  assert (Hl : forall y, y ∈ l -> y ∈ L) by (intros; right; by right).
  pose proof HL as [[Hnx [Hnh Hnd]%NoDup_cons]%NoDup_cons _].
  assert (Hxh : x <> h) by set_solver. unfold list_insert_front. cbv zeta.
  set (f := m (h + node_next)).
  assert (Hf : f ∈ L) by (unfold f; destruct l; simpl in Hs; destruct Hs as (-> & _); set_solver).
  assert (f <> x).
  { intros E. apply Hnx. rewrite <- E. unfold f. destruct l; simpl in Hs; destruct Hs as (-> & _); set_solver. }
  assert (Ef : (m.[x + node_next <- f].[x + node_prev <- h]) (h + node_next) = f)
    by (links L HL; by rewrite decide_False).
  rewrite Ef. split; [|auto 6 with rings].
  set (m' := m.[x + node_next <- f].[x + node_prev <- h].[f + node_prev <- x].[h + node_next <- x]).
  assert (Hm1 : forall y, y ∈ L ->
    m' (y + node_next) = if decide (y = h) then x else if decide (y = x) then f else m (y + node_next))
    by (intros y Hy; unfold m'; by links L HL).
  assert (Hm2 : forall y, y ∈ L ->
    m' (y + node_prev) = if decide (y = f) then x else if decide (y = x) then h else m (y + node_prev))
    by (intros y Hy; unfold m'; by links L HL).
  clearbody m'. cbn [lseg].
  rewrite (Hm1 h), (Hm2 x), decide_True, decide_False, decide_True by done. split_and!; [done..|].
  destruct l as [|y l]; simpl in Hs; cbn [lseg].
  - assert (Efh : f = h) by apply Hs.
    rewrite (Hm1 x), (Hm2 h), decide_False, !decide_True by done. done.
  - assert (Efy : f = y) by apply Hs. destruct Hs as (_ & _ & Hs). rewrite Efy in *.
    rewrite (Hm1 x), (Hm2 y), decide_False, !decide_True by done. split_and!; [done..|].
    apply NoDup_cons in Hnd as [Hny Hnd]. clear Hx Hh Hf.
    eapply lseg_same; [| |exact Hs]; intros z Hz.
    + rewrite (Hm1 z), !decide_False by set_solver. done.
    + rewrite (Hm2 z), !decide_False by set_solver. done.
Qed.

Lemma remove_ring m h l1 x l2 :
  apart (h :: l1 ++ x :: l2) -> lseg m h (l1 ++ x :: l2) h ->
  lseg (list_remove x m) h (l1 ++ l2) h /\ only_links (h :: l1 ++ l2) m (list_remove x m).
Proof.
  intros HL Hs. set (L := h :: l1 ++ x :: l2) in *.
  assert (HP : L ≡ₚ x :: h :: l1 ++ l2) by (unfold L; solve_Permutation).
  assert (Hx : x ∈ L) by (rewrite HP; left).
  assert (Hin : forall y, y ∈ h :: l1 ++ l2 -> y ∈ L) by (intros; rewrite HP; by right).
  pose proof HL as [Hnd _]. rewrite HP in Hnd. apply NoDup_cons in Hnd as [Hnx Hnd].
  apply lseg_app in Hs as [H1 H2]. pose proof (lseg_prev _ _ _ _ H1) as Ep.
  set (p := last_or h l1) in *.
  assert (Hp : p ∈ h :: l1 ++ l2).
  { pose proof (last_or_elem h l1) as Hpe. fold p in Hpe. set_solver. }
  assert (Hpx : p <> x) by (intros E; by rewrite E in Hp). assert (HpL := Hin p Hp).
  unfold list_remove. cbv zeta. rewrite Ep. links L HL. rewrite !decide_False by done. rewrite Ep.
  set (n := m (x + node_next)).
  assert (Hn : n ∈ h :: l1 ++ l2) by (unfold n; destruct l2; simpl in H2; destruct H2 as (-> & _); set_solver).
  assert (HnL := Hin n Hn). assert (Hhp : NoDup (h :: l1)).
  { apply NoDup_cons in Hnd as [Hh Hnd]. apply NoDup_app in Hnd as (? & _). apply NoDup_cons. set_solver. }
  split; [|apply only_links_prev; [done|apply only_links_next; [done|auto with rings]]].
  set (m' := m.[p + node_next <- n].[n + node_prev <- p]).
  assert (Hm1 : forall y, y ∈ L -> m' (y + node_next) = if decide (y = p) then n else m (y + node_next))
    by (intros y Hy; unfold m'; by links L HL).
  assert (Hm2 : forall y, y ∈ L -> m' (y + node_prev) = if decide (y = n) then p else m (y + node_prev))
    by (intros y Hy; unfold m'; by links L HL).
  clearbody m'.
  assert (Hre : (forall y, y ∈ l1 -> y <> n) -> lseg m' h l1 n).
  { intros Hne. eapply lseg_retarget; [exact Hhp|exact H1| | | |].
    - by rewrite Hm1, decide_True.
    - by rewrite Hm2, decide_True.
    - intros y Hy Hyp. rewrite Hm1, decide_False; [done|done|apply Hin]. clear -Hy. set_solver.
    - intros y Hy. rewrite Hm2, decide_False; [done|by apply Hne|apply Hin]. clear -Hy. set_solver. }
  apply NoDup_cons in Hnd as [Hnh Hnd]. apply NoDup_app in Hnd as (Hnd1 & Hdj & Hnd2).
  destruct l2 as [|y l2]; simpl in H2.
  - assert (n = h) as En by apply H2. rewrite app_nil_r, En in *. apply Hre. set_solver.
  - assert (n = y) as En by apply H2. destruct H2 as (_ & _ & H2). apply lseg_app. rewrite En in *.
    split; [apply Hre; intros z Hz ->; apply (Hdj y Hz); left|]. apply NoDup_cons in Hnd2 as [Hny _].
    pose proof (last_or_elem h l1) as Hpe. fold p in Hpe.
    eapply lseg_same; [| |exact H2]; intros z Hz.
    + rewrite Hm1, decide_False; [done| |apply Hin; clear -Hz; set_solver].
      intros ->. apply elem_of_cons in Hpe as [E|Hpe]; [|by apply (Hdj p)].
      apply Hnh. rewrite <- E. apply elem_of_app. by right.
    + rewrite Hm2, decide_False; [done| |apply Hin; clear -Hz; set_solver].
      intros ->. apply elem_of_cons in Hz as [E|Hz]; [|done].
      apply Hnh. rewrite <- E. apply elem_of_app. right. left.
Qed.

(** ** The three lists of a cache *)

Inductive slab_class : Set := Free | Partial | Full.

#[export] Instance slab_class_eq_dec : EqDecision slab_class.
Proof. solve_decision. Defined.

Definition class_head (cache : ptr) (c : slab_class) : ptr :=
  cache + match c with Free => off_free_slabs | Partial => off_partial_slabs | Full => off_full_slabs end.

Definition slab_node (desc : ptr) : ptr := desc + off_slab_lists_node.

(** The sentinel of a list and the nodes on it. *)
Definition ring_nodes (cache : ptr) (R : slab_class -> list ptr) (c : slab_class) : list ptr :=
  class_head cache c :: (slab_node <$> R c).

Definition all_nodes (cache : ptr) (R : slab_class -> list ptr) : list ptr :=
  ring_nodes cache R Free ++ ring_nodes cache R Partial ++ ring_nodes cache R Full.

(** The slabs of a cache, whatever list they are on. *)
Definition slabs_of (R : slab_class -> list ptr) : list ptr := R Free ++ R Partial ++ R Full.

Record rings_ok (m : mem) (cache : ptr) (R : slab_class -> list ptr) : Prop := {
  ro_apart : apart (all_nodes cache R);
  ro_links : forall c, lseg m (class_head cache c) (slab_node <$> R c) (class_head cache c);
}.

Lemma ring_all cache R c x : x ∈ ring_nodes cache R c -> x ∈ all_nodes cache R.
Proof. unfold all_nodes. rewrite !elem_of_app. destruct c; auto. Qed.

Lemma slabs_of_class R c d : d ∈ R c -> d ∈ slabs_of R.
Proof. unfold slabs_of. rewrite !elem_of_app. destruct c; auto. Qed.

Lemma class_of_slab R d : d ∈ slabs_of R -> exists c, d ∈ R c.
Proof. unfold slabs_of. rewrite !elem_of_app. intros [?|[?|?]]; eauto. Qed.

Lemma all_nodes_slabs cache R :
  all_nodes cache R ≡ₚ (class_head cache <$> [Free; Partial; Full]) ++ (slab_node <$> slabs_of R).
Proof.
  unfold all_nodes, ring_nodes, slabs_of. rewrite !fmap_app. cbn [fmap list_fmap app].
  solve_Permutation.
Qed.

Lemma slabs_of_insert R c l : slabs_of (<[c:=l]> R) ≡ₚ l ++ slabs_of (<[c:=[]]> R).
Proof. unfold slabs_of, fn_insert. destruct c; simpl; solve_Permutation. Qed.

Lemma slabs_of_at R c : slabs_of R ≡ₚ R c ++ slabs_of (<[c:=[]]> R).
Proof. unfold slabs_of, fn_insert. destruct c; simpl; solve_Permutation. Qed.

Lemma slabs_of_take R c l1 d l2 :
  R c = l1 ++ d :: l2 -> slabs_of R ≡ₚ d :: slabs_of (<[c:=l1 ++ l2]> R).
Proof. intros E. rewrite (slabs_of_at R c), (slabs_of_insert R c (l1 ++ l2)), E. solve_Permutation. Qed.

Lemma slabs_of_put R c d : slabs_of (<[c:=d :: R c]> R) ≡ₚ d :: slabs_of R.
Proof. rewrite slabs_of_insert, (slabs_of_at R c). done. Qed.

Lemma all_nodes_cons cache R R' d :
  slabs_of R ≡ₚ d :: slabs_of R' -> all_nodes cache R ≡ₚ slab_node d :: all_nodes cache R'.
Proof. intros E. rewrite !all_nodes_slabs, E. cbn [fmap list_fmap]. solve_Permutation. Qed.

(** Nodes of different lists differ. *)
Lemma rings_disjoint m cache R c c' x :
  rings_ok m cache R -> c <> c' -> x ∈ ring_nodes cache R c -> x ∉ ring_nodes cache R c'.
Proof.
  intros [[Hnd _] _] Hne Hx Hx'. unfold all_nodes in Hnd.
  apply NoDup_app in Hnd as (_ & H1 & [_ [H2 _]]%NoDup_app).
  destruct c, c'; try done;
    first [ apply (H1 x); [assumption|apply elem_of_app; auto]
          | apply (H2 x); assumption ].
Qed.

Lemma ring_apart m cache R c : rings_ok m cache R -> apart (ring_nodes cache R c).
Proof.
  intros [HA _]. eapply apart_sub; [| |exact HA]; [apply ring_all|].
  destruct HA as [Hnd _]. unfold all_nodes in Hnd.
  apply NoDup_app in Hnd as (? & _ & [? [_ ?]]%NoDup_app). by destruct c.
Qed.

(** Links of nodes outside the changed ones are kept. *)
Lemma lseg_apart K m m' h l :
  apart (h :: l ++ K) -> only_links K m m' -> lseg m h l h -> lseg m' h l h.
Proof.
  intros HA Ho. pose proof HA as [[Hh [_ [Hd _]]%NoDup_app]%NoDup_cons HA2].
  assert (HK : forall x, x ∈ h :: l -> x ∉ K).
  { intros x [->|Hx]%elem_of_cons Hk; [apply Hh, elem_of_app; auto|by apply (Hd x)]. }
  assert (Hw : forall x o, x ∈ h :: l -> 0 <= o <= 8 -> o = node_next \/ o = node_prev -> m' (x + o) = m (x + o)).
  { intros x o Hx Hr _. apply Ho. intros y Hy.
    assert (x <> y) by (intros ->; by apply (HK y)).
    assert (Hin : x ∈ h :: l ++ K) by (rewrite app_comm_cons; apply elem_of_app; auto).
    assert (Hin' : y ∈ h :: l ++ K) by (rewrite app_comm_cons; apply elem_of_app; auto).
    specialize (HA2 x y Hin Hin' ltac:(done)). unfold node_next, node_prev. lia. }
  apply lseg_same; intros x Hx; apply Hw; auto; unfold node_next, node_prev; lia.
Qed.

Lemma rings_other m m' cache R c c' K :
  rings_ok m cache R -> c <> c' -> only_links K m m' ->
  (forall x, x ∈ K -> x ∈ ring_nodes cache R c) ->
  lseg m' (class_head cache c') (slab_node <$> R c') (class_head cache c').
Proof.
  intros Hr Hne Ho HK. pose proof (ro_links _ _ _ Hr c') as Hl.
  eapply (lseg_apart (ring_nodes cache R c)); [|eapply only_links_mono; eauto|exact Hl].
  eapply apart_sub; [| |apply (ro_apart _ _ _ Hr)].
  - intros x. change (x ∈ ring_nodes cache R c' ++ ring_nodes cache R c -> x ∈ all_nodes cache R).
    rewrite elem_of_app. intros [?|?]; by eapply ring_all.
  - change (NoDup (ring_nodes cache R c' ++ ring_nodes cache R c)). apply NoDup_app.
    split_and!; [apply (ring_apart _ _ _ c' Hr)| |apply (ring_apart _ _ _ c Hr)].
    intros x Hx. by eapply rings_disjoint; [..|exact Hx].
Qed.

(** Taking a slab off its list. *)
Lemma remove_rings m cache R c l1 d l2 :
  rings_ok m cache R -> R c = l1 ++ d :: l2 ->
  rings_ok (list_remove (slab_node d) m) cache (<[c:=l1 ++ l2]> R) /\
  only_links (all_nodes cache R) m (list_remove (slab_node d) m).
Proof.
  intros Hr E. pose proof (ro_links _ _ _ Hr c) as Hl. pose proof (ring_apart _ _ _ c Hr) as HA.
  unfold ring_nodes in HA. rewrite E, fmap_app, fmap_cons in Hl, HA.
  destruct (remove_ring _ _ _ _ _ HA Hl) as [H1 H2].
  assert (Hsub : forall x, x ∈ class_head cache c :: (slab_node <$> l1) ++ (slab_node <$> l2) ->
    x ∈ ring_nodes cache R c).
  { intros x. unfold ring_nodes. rewrite E, fmap_app, fmap_cons.
    rewrite !(elem_of_cons _ x), !elem_of_app, elem_of_cons. tauto. }
  split; [split|].
  - eapply apart_sub; [| |apply (ro_apart _ _ _ Hr)].
    + intros x Hx. rewrite (all_nodes_cons cache R _ d) by (by apply slabs_of_take). by right.
    + pose proof (ro_apart _ _ _ Hr) as [Hnd _].
      rewrite (all_nodes_cons cache R _ d) in Hnd by (by apply slabs_of_take). by apply NoDup_cons in Hnd as [_ ?].
  - intros c'. destruct (decide (c' = c)) as [->|Hne].
    + rewrite fn_lookup_insert, fmap_app. exact H1.
    + rewrite fn_lookup_insert_ne by done. eapply rings_other; eauto.
  - eapply only_links_mono; [|exact H2]. intros x Hx. eapply ring_all. by apply Hsub.
Qed.

(** Putting a slab at the front of a list. *)
Lemma insert_rings m cache R c d :
  rings_ok m cache R -> apart (slab_node d :: all_nodes cache R) ->
  rings_ok (list_insert_front (class_head cache c) (slab_node d) m) cache (<[c:=d :: R c]> R) /\
  only_links (slab_node d :: all_nodes cache R) m (list_insert_front (class_head cache c) (slab_node d) m).
Proof.
  intros Hr HA. pose proof (ro_links _ _ _ Hr c) as Hl.
  assert (HAc : apart (slab_node d :: ring_nodes cache R c)).
  { eapply apart_sub; [| |exact HA].
    - intros x. rewrite !(elem_of_cons _ x). intros [?|?]; [by left|right; by eapply ring_all].
    - pose proof HA as [[Hd _]%NoDup_cons _]. apply NoDup_cons.
      split; [intros Hx; apply Hd; by eapply ring_all|apply (ring_apart _ _ _ c Hr)]. }
  destruct (insert_front_ring _ _ _ _ HAc Hl) as [H1 H2].
  split; [split|].
  - by rewrite (all_nodes_cons cache _ R d) by apply slabs_of_put.
  - intros c'. destruct (decide (c' = c)) as [->|Hne].
    + rewrite fn_lookup_insert. exact H1.
    + rewrite fn_lookup_insert_ne by done.
      eapply (lseg_apart (slab_node d :: ring_nodes cache R c)); [|exact H2|apply (ro_links _ _ _ Hr)].
      eapply apart_sub; [| |exact HA].
      * intros x. change (x ∈ ring_nodes cache R c' ++ slab_node d :: ring_nodes cache R c ->
          x ∈ slab_node d :: all_nodes cache R).
        rewrite elem_of_app, !elem_of_cons. intros [?|[?|?]]; [right|by left|right]; by eapply ring_all.
      * change (NoDup (ring_nodes cache R c' ++ slab_node d :: ring_nodes cache R c)).
        apply NoDup_app. split_and!; [apply (ring_apart _ _ _ c' Hr)| |apply HAc].
        intros x Hx [->|Hx']%elem_of_cons; [|by eapply rings_disjoint; [..|exact Hx|exact Hx']].
        destruct HA as [[Hd _]%NoDup_cons _]. apply Hd. by eapply ring_all.
  - eapply only_links_mono; [|exact H2]. intros x. rewrite !elem_of_cons.
    intros [?|?]; [by left|right]. eapply (ring_all _ _ c). by apply elem_of_cons.
Qed.

(** Moving a slab from one list to another. *)
Lemma move_rings m cache R c c' l1 d l2 :
  rings_ok m cache R -> R c = l1 ++ d :: l2 -> c <> c' ->
  let m' := list_insert_front (class_head cache c') (slab_node d) (list_remove (slab_node d) m) in
  let R' := <[c':=d :: R c']> (<[c:=l1 ++ l2]> R) in
  rings_ok m' cache R' /\ only_links (all_nodes cache R) m m' /\ slabs_of R' ≡ₚ slabs_of R.
Proof.
  intros Hr E Hne. cbv zeta. destruct (remove_rings _ _ _ _ _ _ _ Hr E) as [H1 H2].
  pose proof (slabs_of_take _ _ _ _ _ E) as HP.
  pose proof (all_nodes_cons cache _ _ _ HP) as HN.
  destruct (insert_rings _ _ _ c' d H1) as [H3 H4]; [by rewrite <- HN; apply (ro_apart _ _ _ Hr)|].
  rewrite fn_lookup_insert_ne in H3 by done. split_and!; [exact H3| |].
  - eapply only_links_trans; [exact H2|]. eapply only_links_mono; [|exact H4]. intros x. by rewrite <- HN.
  - rewrite HP. pose proof (slabs_of_put (<[c:=l1 ++ l2]> R) c' d) as HQ.
    by rewrite fn_lookup_insert_ne in HQ by done.
Qed.
