(* ===== verification/PhysKmalloc.v ===== *)
(** * The physical allocator's front end

    The dispatch of phys_kmalloc.c ([phys_kmalloc], [phys_kfree], the zeroed
    page helpers and [__init_phys_kmalloc]) and the direct-map translation of
    include/mmu.h.  [FrameAllocator] is what the page-table code may rely on;
    the buddy allocator's theorems discharge it. *)

From S2P Require Import Prelude State Kmath Buddy FreeList BuddyInv BuddyDemo BuddyOps Slab.

(** ** The direct map *)

Definition PML4_KERNEL_HALF_BASE : Z := 0xFFFF800000000000.
Definition DIRECT_MAP_START : Z := 0xFFFF800000200000.
Definition DIRECT_MAP_END : Z := 0xFFFFBC0000200000.

Definition directmap_p2v (phys_map_offset : Z) (p : ptr) : ptr :=
  if p <? PML4_KERNEL_HALF_BASE then u64 (p + phys_map_offset) else p.

Definition is_direct_mapped_ptr (p : ptr) : bool :=
  (p >=? DIRECT_MAP_START) && (p <? DIRECT_MAP_END).

(** The key of the memory an address reaches: in the boot loader's identity map
    the address itself, afterwards a direct-map address reaches the physical
    address it was made from. *)
Definition reached (phys_map_offset : Z) (v : ptr) : Z :=
  if is_direct_mapped_ptr v then v - phys_map_offset else v.

(** The translation is right in both address spaces: while the offset is 0 and
    after it is [DIRECT_MAP_START], the translated pointer reaches the physical
    address it was made from, for every address the direct map covers; pointers
    of the kernel half pass through, and translating twice is translating once. *)
Theorem directmap_p2v_transparent off p :
  off = 0 \/ off = DIRECT_MAP_START ->
  (0 <= p < DIRECT_MAP_END - DIRECT_MAP_START -> reached off (directmap_p2v off p) = p) /\
  (PML4_KERNEL_HALF_BASE <= p -> directmap_p2v off p = p) /\
  (0 <= p < DIRECT_MAP_END - DIRECT_MAP_START ->
     off = DIRECT_MAP_START -> directmap_p2v off (directmap_p2v off p) = directmap_p2v off p).
Proof.
  unfold directmap_p2v, reached, is_direct_mapped_ptr, PML4_KERNEL_HALF_BASE, DIRECT_MAP_START,
    DIRECT_MAP_END. intros Hoff. split_and!.
  - intros Hp. destruct (Z.ltb_spec p 0xFFFF800000000000); [|lia].
    rewrite u64_small by (destruct Hoff; lia). rewrite Z.geb_leb.
    destruct Hoff as [-> | ->].
    + rewrite (proj2 (Z.leb_gt _ _)) by lia. simpl. lia.
    + rewrite (proj2 (Z.leb_le _ _)), (proj2 (Z.ltb_lt _ _)) by lia. simpl. lia.
  - intros Hp. by rewrite (proj2 (Z.ltb_ge _ _)) by lia.
  - intros Hp ->. rewrite (proj2 (Z.ltb_lt p _)) by lia. rewrite u64_small by lia.
    by rewrite (proj2 (Z.ltb_ge _ _)) by lia.
Qed.

Lemma directmap_p2v_transparent_witness :
  reached DIRECT_MAP_START (directmap_p2v DIRECT_MAP_START 0x123000) = 0x123000.
Proof. apply directmap_p2v_transparent; [by right|done]. Defined.

(** ** Dispatch *)

Inductive alloc_flag : Set := BUDDY_ALLOC | SLAB_ALLOC | CHOOSE_ALLOC.

Definition __init_phys_kmalloc (kernel_end : ptr) (entries : list mmap_entry_0xe820) :
    cmd kstate unit :=
  __init_buddy kernel_end entries;;
  let! status := __init_slab in
  if negb (status =? STATUS_OK) then panic "ALLOCATOR INITIALISATION FAILURE, CANNOT BOOT KERNEL"
  else ret tt.

Definition phys_kmalloc (size : Z) (flg : alloc_flag) : cmd kstate ptr :=
  match flg with
  | BUDDY_ALLOC => buddy_kalloc size
  | SLAB_ALLOC => slab_kalloc size
  | CHOOSE_ALLOC => if size <=? MAX_SLAB_ALLOC_SIZE then slab_kalloc size else buddy_kalloc size
  end.

Definition phys_kfree (p : ptr) (size : Z) (flg : alloc_flag) : cmd kstate unit :=
  match flg with
  | BUDDY_ALLOC => buddy_kfree p size
  | SLAB_ALLOC => slab_kfree p size
  | CHOOSE_ALLOC => if size <=? MAX_SLAB_ALLOC_SIZE then slab_kfree p size else buddy_kfree p size
  end.

(** [memset(directmap_p2v(p), 0, PAGE_SIZE)], in either of its two spellings. *)
Definition memset_pg (p : ptr) : cmd kstate unit := on_mem (fun m => fill m p PAGE_SIZE 0).

Definition get_zeroed_phys_page : cmd kstate ptr :=
  let! p := buddy_kalloc PAGE_SIZE in
  if p =? NULL then ret NULL else
  memset_pg p;;
  ret p.

Definition free_phys_page (page : ptr) : cmd kstate unit :=
  if page =? NULL then ret tt else buddy_kfree page PAGE_SIZE.

(** ** What the page-table code relies on *)

(** A frame: a page-aligned, non-null physical address. *)
Definition frame_ok (p : ptr) : Prop := page_aligned p /\ 0 < p < 2 ^ 48.

(** [owns s F]: in state [s] the free frames are [F], each once.  A request
    gives a frame of [F] away, or reports that there is none; memory outside
    [F] is kept, and so is everything the state frame [kframe] covers.  What
    happens to memory outside [F] does not concern the allocator. *)
Class FrameAllocator (alloc : cmd kstate ptr) (owns : kstate -> list Z -> Prop) : Prop := {
  frame_owned s F : owns s F -> NoDup F /\ Forall frame_ok F;
  frame_alloc s F : owns s F ->
    wp alloc (fun p s' => kframe s s' /\ mem_frame F (k_mem s) (k_mem s') /\
      (p = NULL /\ F = [] /\ owns s' F \/
       p <> NULL /\ exists F', F ≡ₚ p :: F' /\ owns s' F')) s;
  frame_perm s F F' : F ≡ₚ F' -> owns s F -> owns s F';
  frame_local s F m : owns s F -> (forall a, page_of a ∈ F -> m a = k_mem s a) ->
    owns (set_mem m s) F;
  frame_invlpg s F a : owns s F -> owns (add_invlpg a s) F;
}.

Definition buddy_owns {client : AllocClient} (s : kstate) (F : list Z) : Prop :=
  exists L, buddy_inv (k_mem s) (k_buddy s) L /\ lock_free s buddy_lock /\ F ≡ₚ free_pages L /\ ac_inv (k_buddy s) L.

Lemma pages_of_0 p : pages_of 0 p = [p].
Proof. unfold pages_of, page_range. simpl. f_equal. lia. Qed.

Lemma least_order_page o : least_order 4096 o -> o = 0.
Proof.
  intros (Ho & _ & Hlt). destruct (decide (o = 0)) as [|Hne]; [done|].
  specialize (Hlt 0 ltac:(lia)). unfold PAGE_SIZE in Hlt. lia.
Qed.

Lemma free_page_frame m md L p : buddy_inv m md L -> p ∈ free_pages L -> frame_ok p.
Proof.
  intros Hi (k & Hx & Hk%elem_of_seqZ)%list_elem_of_bind.
  apply list_elem_of_bind in Hx as (x & Hp & Hx).
  apply page_range_elem in Hp as (i & Hir & ->).
  assert (Hk' : 0 <= k <= MAX_ORDER) by lia.
  pose proof (bi_blocks _ _ _ Hi k x Hk' Hx) as Hb.
  destruct (block_ok_range md k x m L Hi ltac:(lia) Hb) as [H0 H1].
  pose proof (block_aligned md k x ltac:(lia) Hb) as Ha. unfold page_aligned, frame_ok in *.
  split; [|unfold PAGE_SIZE in *; lia].
  unfold page_aligned. rewrite Z.add_mod, Z.mod_mul, Ha by done. done.
Qed.

Lemma free_pages_nil L : (forall k, 0 <= k <= MAX_ORDER -> L k = []) -> free_pages L = [].
Proof.
  intros H. rewrite (free_pages_ext L (fun _ => [])) by done. reflexivity.
Qed.

(** The link words of the free blocks lie in free pages. *)
Lemma dseg_local m m' md L k :
  buddy_inv m md L -> 0 <= k <= MAX_ORDER -> (forall a, page_of a ∈ free_pages L -> m' a = m a) ->
  dseg m' NULL (bm_free_lists md k) (L k).
Proof.
  intros Hi Hk Hm. eapply dseg_frame; [|by apply (bi_links _ _ _ Hi)]. intros x Hx.
  pose proof (inv_list_aligned _ _ _ Hi k Hk) as Ha. rewrite Forall_forall in Ha.
  assert (Hin : x ∈ free_pages L).
  { eapply free_pages_elem; [exact Hk|exact Hx|]. apply pages_of_self. lia. }
  split; apply Hm; rewrite (page_of_block x); auto.
Qed.

Lemma buddy_inv_local m m' md L :
  buddy_inv m md L -> (forall a, page_of a ∈ free_pages L -> m' a = m a) -> buddy_inv m' md L.
Proof.
  intros Hi Hm. pose proof (fun k Hk => dseg_local m m' md L k Hi Hk Hm) as Hd.
  destruct Hi. by split.
Qed.

#[export] Instance buddy_frame_allocator {client : AllocClient} : FrameAllocator (phys_kmalloc 4096 BUDDY_ALLOC) buddy_owns.
Proof.
  split.
  - intros s F (L & Hi & _ & HF & _). split.
    + rewrite HF. by eapply bi_nodup.
    + rewrite HF. apply Forall_forall. intros p. by eapply free_page_frame.
  - intros s F (L & Hi & Hl & HF & Hcl). cbn [phys_kmalloc].
    eapply wp_mono; [by apply (kalloc_wp 4096 s L)|]. intros p s' (Hk & o & Ho%least_order_page & HR).
    subst o. split; [done|].
    destruct HR as [(-> & Hm & Hb & HR)|(Hp & _ & L' & Hall)].
    + split; [rewrite Hm; apply mem_frame_refl|]. left. split; [done|].
      split; [rewrite (free_pages_nil L HR) in HF; by apply Permutation_nil_r in HF|].
      exists L. rewrite Hm, Hb. split_and!; try done. by apply Hk.
    + pose proof (ac_alloc 0 s L p s' L' Hi ac_page Hcl Hall) as Hcl'. destruct Hall as [Hi' _ HP Hf _ _ _].
      split; [eapply mem_frame_mono; [|exact Hf]; intros a; by rewrite HF|].
      right. split; [done|]. exists (free_pages L'). rewrite pages_of_0 in HP. split.
      * by rewrite HF, HP.
      * exists L'. split_and!; try done. by apply Hk.
  - intros s F F' HP (L & Hi & Hl & HF & Hcl). exists L. split_and!; try done. by rewrite <- HP.
  - intros s F m (L & Hi & Hl & HF & Hcl) Hm. exists L. split_and!; try done. simpl.
    eapply buddy_inv_local; [exact Hi|]. intros a Ha. apply Hm. by rewrite HF.
  - intros s F a (L & Hi & Hl & HF & Hcl). by exists L.
Qed.

(** [get_zeroed_phys_page] returns a frame that was free and no longer is, all
    of whose words are zero, and keeps every other word of memory in use; it
    returns NULL only when no frame is free. *)
Theorem get_zeroed_phys_page_correct s F :
  buddy_owns s F ->
  exists p s', get_zeroed_phys_page s = Ret p s' /\ kframe s s' /\
    (p = NULL /\ F = [] \/
     p <> NULL /\ exists F', F ≡ₚ p :: F' /\ buddy_owns s' F' /\
       (forall a, p <= a < p + PAGE_SIZE -> k_mem s' a = 0) /\
       mem_frame F (k_mem s) (k_mem s')).
Proof.
  intros Ho. destruct (frame_owned _ _ Ho) as [Hnd Hok].
  assert (H : wp get_zeroed_phys_page (fun p s' => kframe s s' /\
    (p = NULL /\ F = [] \/
     p <> NULL /\ exists F', F ≡ₚ p :: F' /\ buddy_owns s' F' /\
       (forall a, p <= a < p + PAGE_SIZE -> k_mem s' a = 0) /\
       mem_frame F (k_mem s) (k_mem s'))) s).
  { unfold get_zeroed_phys_page. wp_step.
    eapply wp_mono; [apply (frame_alloc _ _ Ho)|]. intros p s1 (Hk & Hf & HR).
    destruct HR as [(-> & -> & _)|(Hp & F' & HP & Ho')].
    { rewrite Z.eqb_refl. wp_steps. split; [done|]. by left. }
    rewrite (proj2 (Z.eqb_neq p NULL)) by done. unfold memset_pg, on_mem. wp_steps.
    split; [by apply kframe_set_mem|]. right. split; [done|]. exists F'. split; [done|].
    assert (Hpf : frame_ok p) by (rewrite HP in Hok; by inversion Hok).
    rewrite HP in Hnd. apply NoDup_cons in Hnd as [Hn _].
    assert (Hpage : forall a, p <= a < p + PAGE_SIZE -> page_of a = p).
    { intros a Ha. destruct Hpf as [Hal _]. unfold page_of, page_aligned, PAGE_SIZE in *. dlia. }
    split_and!.
    - apply frame_local; [done|]. intros a Ha. apply fill_out.
      destruct (decide (p <= a < p + PAGE_SIZE)) as [Hin|]; [|lia].
      rewrite (Hpage a Hin) in Ha. done.
    - intros a Ha. simpl. by apply fill_in.
    - intros a Ha. simpl. rewrite fill_out; [by apply Hf|].
      destruct (decide (p <= a < p + PAGE_SIZE)) as [Hin|]; [|lia].
      destruct Ha. rewrite (Hpage a Hin), HP. left. }
  destruct (wp_elim _ _ _ H) as (p & s' & E & Hk & HR). eauto.
Qed.

Lemma demo_owns : buddy_owns demo_state (free_pages demo_lists).
Proof. exists demo_lists. split_and!; [exact demo_inv|done|done|done]. Qed.

Lemma get_zeroed_phys_page_correct_witness :
  exists p s', get_zeroed_phys_page demo_state = Ret p s'.
Proof.
  destruct (get_zeroed_phys_page_correct demo_state _ demo_owns) as (p & s' & E & _). eauto.
Defined.
