(* ===== verification/SlabObjects.v ===== *)
(** * Objects of a slab cache

    The invariant of a cache with its slabs: which objects are free, on which
    list a slab is, how the free objects are chained.  Allocating takes exactly
    one object off the free ones, releasing puts it back; neither writes into
    an object in use. *)

From stdpp Require Import functions.
From S2P Require Import Prelude State Kmath Buddy FreeList BuddyInv BuddyDemo BuddyOps Slab SlabTheorems SlabRings PhysKmalloc.

(** ** Chains of free objects *)

Fixpoint chain (m : mem) (p : ptr) (l : list ptr) : Prop :=
  match l with [] => p = NULL | x :: l' => p = x /\ chain m (m x) l' end.

Lemma chain_same m m' p l : (forall x, x ∈ l -> m' x = m x) -> chain m p l -> chain m' p l.
Proof.
  revert p. induction l as [|x l IH]; intros p H; simpl; [done|]. intros [-> Hc]. split; [done|].
  rewrite H by left. apply IH; [|done]. intros y Hy. apply H. by right.
Qed.

(** The objects [idx .. count - 1] of a slab whose first object is [first]. *)
Definition objects_from (first size idx count : Z) : list ptr :=
  (fun i => first + i * size) <$> seqZ idx (count - idx).

Lemma objects_from_elem first size idx count x :
  x ∈ objects_from first size idx count <-> exists i, idx <= i < count /\ x = first + i * size.
Proof.
  unfold objects_from. rewrite list_elem_of_fmap. setoid_rewrite elem_of_seqZ. naive_solver lia.
Qed.

Lemma objects_from_nodup first size idx count : 0 < size -> NoDup (objects_from first size idx count).
Proof. intros. apply NoDup_fmap_2; [|apply NoDup_seqZ]. intros i j. nia. Qed.

Lemma objects_from_cons first size idx count :
  idx < count ->
  objects_from first size idx count = first + idx * size :: objects_from first size (idx + 1) count.
Proof.
  intros. unfold objects_from. rewrite seqZ_cons by lia. rewrite fmap_cons. do 3 f_equal; lia.
Qed.

Lemma objects_from_length first size count :
  0 <= count -> Z.of_nat (length (objects_from first size 0 count)) = count.
Proof. intros. unfold objects_from. rewrite length_fmap, length_seqZ. lia. Qed.

Lemma thread_objects_spec turns idx count size first m :
  0 < size -> 0 <= idx -> 0 < count < 2 ^ 32 -> idx + Z.of_nat turns = count ->
  0 <= first -> first + count * size < 2 ^ 64 ->
  let m' := thread_objects turns idx count size first m in
  chain m' (if idx <? count then first + idx * size else NULL) (objects_from first size idx count) /\
  (forall a, a ∉ objects_from first size idx count -> m' a = m a).
Proof.
  intros Hs Hi Hc Ht Hf Hb. cbv zeta. revert idx m Hi Ht. induction turns as [|t IH]; intros idx m Hi Ht.
  { assert (idx = count) as -> by lia. rewrite Z.ltb_irrefl.
    unfold objects_from. rewrite Z.sub_diag. split; [done|]. done. }
  cbn [thread_objects]. rewrite (u64_small (idx * size)), (u64_small (first + idx * size)) by nia.
  rewrite (u32_small (count - 1)), (u64_small (_ + size)) by nia.
  set (v := if idx <? count - 1 then _ else _).
  destruct (IH (idx + 1) (m.[first + idx * size <- v]) ltac:(lia) ltac:(lia)) as [H1 H2].
  set (m' := thread_objects _ _ _ _ _ _) in *. clearbody m'.
  assert (Hne : first + idx * size ∉ objects_from first size (idx + 1) count).
  { intros (i & ? & E)%objects_from_elem. nia. }
  rewrite objects_from_cons by lia. rewrite (proj2 (Z.ltb_lt idx count)) by lia. split.
  - split; [done|]. rewrite H2, upd_eq by done. unfold v.
    destruct (Z.ltb_spec idx (count - 1)), (Z.ltb_spec (idx + 1) count); try lia; [|exact H1].
    replace (first + idx * size + size) with (first + (idx + 1) * size) by lia. exact H1.
  - intros a [Ha Ha']%not_elem_of_cons. rewrite H2 by done. by apply upd_ne.
Qed.

(** ** Slabs *)

Lemma geometry_room size o al n :
  1 <= size <= 2048 -> geometry size = Some (o, al, n) ->
  sizeof_slab_descriptor <= first_object_offset al /\
  first_object_offset al + n * size <= 2 ^ o * PAGE_SIZE.
Proof.
  intros Hs E. pose proof (geometry_ok_all size Hs) as Hg. unfold geometry_ok in Hg. rewrite E in Hg.
  unfold slab_fits in Hg. rewrite !andb_true_iff, !Z.leb_le in Hg. tauto.
Qed.

(** A slab of a class has this many of its [n] objects free. *)
Definition class_count (n : Z) (c : slab_class) (k : Z) : Prop :=
  match c with Free => k = n | Partial => 0 < k < n | Full => k = 0 end.

(** Where a slab may lie: aligned to its size, below the kernel's half. *)
Definition slab_place (o d : Z) : Prop :=
  0 < d /\ (2 ^ o * PAGE_SIZE | d) /\ d + 2 ^ o * PAGE_SIZE <= 2 ^ 48.

Section cache.
Context (cache size o al n : Z).

Definition slab_objects (d : ptr) : list ptr := objects_from (d + first_object_offset al) size 0 n.

(** A slab on the list of class [c] with the free objects [free]. *)
Record slab_ok (m : mem) (c : slab_class) (d : ptr) (free : list ptr) : Prop := {
  so_place : slab_place o d;
  so_cache : m (d + off_cache) = cache;
  so_inuse : m (d + off_inuse_num) = n - Z.of_nat (length free);
  so_chain : chain m (m (d + off_free_list)) free;
  so_objects : forall x, x ∈ free -> x ∈ slab_objects d;
  so_nodup : NoDup free;
  so_class : class_count n c (Z.of_nat (length free));
}.

Record cache_fields (m : mem) : Prop := {
  cf_size : m (cache + off_object_size) = size;
  cf_align : m (cache + off_object_align) = al;
  cf_order : m (cache + off_slab_order) = o;
  cf_count : m (cache + off_objects_per_slab) = n;
}.

(** The lists [R] of slabs and the free objects [fl] of each. *)
Record cache_inv (m : mem) (R : slab_class -> list ptr) (fl : ptr -> list ptr) : Prop := {
  ci_fields : cache_fields m;
  ci_rings : rings_ok m cache R;
  ci_slabs : forall c d, d ∈ R c -> slab_ok m c d (fl d);
}.

Definition free_objects (R : slab_class -> list ptr) (fl : ptr -> list ptr) : list ptr := slabs_of R ≫= fl.

(** The bookkeeping words: the cache and the descriptors of its slabs. *)
Definition meta_word (S : list ptr) (a : Z) : Prop :=
  cache <= a < cache + sizeof_kmem_cache \/ exists d, d ∈ S /\ d <= a < d + sizeof_slab_descriptor.

Context (Hg : geometry size = Some (o, al, n)) (Hsize : 8 <= size <= 2048).

Lemma geo : 0 <= o <= 3 /\ 0 < al <= 16 /\ 8 <= n < 2 ^ 32 /\ 40 <= first_object_offset al /\
  first_object_offset al + n * size <= 2 ^ o * PAGE_SIZE /\ 1 <= 2 ^ o <= 8.
Proof using Hg Hsize.
  destruct (geometry_fits size o al n ltac:(lia) Hg) as (Ho & Ha & Hn).
  destruct (geometry_room size o al n ltac:(lia) Hg) as (H1 & H2). unfold sizeof_slab_descriptor in H1.
  pose proof (pow2_pos o). split_and!; try lia. change 8 with (2 ^ 3). apply Z.pow_le_mono_r; lia.
Qed.

Lemma slab_object_bounds d x : x ∈ slab_objects d -> d + 40 <= x /\ x + size <= d + 2 ^ o * PAGE_SIZE.
Proof using Hg Hsize.
  intros (i & Hi & ->)%objects_from_elem. pose proof geo. nia.
Qed.

(** Different slabs do not overlap. *)
Lemma slabs_apart d d' :
  slab_place o d -> slab_place o d' -> d <> d' ->
  d + 2 ^ o * PAGE_SIZE <= d' \/ d' + 2 ^ o * PAGE_SIZE <= d.
Proof using Hg Hsize.
  intros (_ & [q ->] & _) (_ & [q' ->] & _) Hne. pose proof geo.
  set (B := 2 ^ o * PAGE_SIZE) in *. assert (0 < B) by (unfold B, PAGE_SIZE; lia). clearbody B.
  assert (q < q' \/ q' < q) as [Hq|Hq] by (destruct (Z.lt_total q q') as [?|[->|?]]; auto; done); [left|right]; nia.
Qed.

(** ** What writes leave alone *)

Context (Hcache : 2 ^ 48 <= cache).

Lemma slab_ok_same m m' c d free :
  (forall a, d <= a < d + off_slab_lists_node \/ a ∈ free -> m' a = m a) ->
  slab_ok m c d free -> slab_ok m' c d free.
Proof.
  intros Hw [H1 H2 H3 H4 H5 H6 H7]. unfold off_slab_lists_node, off_cache, off_inuse_num, off_free_list in *.
  split; unfold off_cache, off_inuse_num, off_free_list; try done; rewrite ?Hw by lia; try done.
  eapply chain_same; [|exact H4]. auto.
Qed.

Lemma place_head d : slab_place o d -> forall c, d + 40 <= class_head cache c.
Proof using Hg Hsize Hcache.
  intros (_ & _ & Hd) c. pose proof geo. unfold class_head, PAGE_SIZE in *.
  destruct c; unfold off_free_slabs, off_partial_slabs, off_full_slabs; lia.
Qed.

(** Words of a slab that are no link words keep their value when links change. *)
Lemma links_avoid S R m m' d a :
  (forall x, x ∈ S -> slab_place o x) -> slabs_of R ⊆ S ->
  only_links (all_nodes cache R) m m' -> slab_place o d ->
  d <= a < d + off_slab_lists_node \/ d + 40 <= a < d + 2 ^ o * PAGE_SIZE -> m' a = m a.
Proof using Hg Hsize Hcache.
  intros HS HR Ho Hd Ha. apply Ho. intros x Hx. rewrite all_nodes_slabs in Hx.
  pose proof geo. pose proof (place_head d Hd) as Hh.
  assert (d + 2 ^ o * PAGE_SIZE <= 2 ^ 48) by apply Hd.
  unfold node_next, node_prev, off_slab_lists_node, PAGE_SIZE in *.
  apply elem_of_app in Hx as [(c & -> & _)%list_elem_of_fmap|(y & -> & Hy)%list_elem_of_fmap].
  - unfold class_head, off_free_slabs, off_partial_slabs, off_full_slabs. destruct c; lia.
  - apply HR, HS in Hy. unfold slab_node, off_slab_lists_node.
    destruct (decide (y = d)) as [->|Hne]; [lia|].
    pose proof (slabs_apart _ _ Hy Hd Hne). unfold PAGE_SIZE in *. lia.
Qed.
Lemma links_meta R m m' a :
  only_links (all_nodes cache R) m m' -> ~ meta_word (slabs_of R) a -> m' a = m a.
Proof.
  clear Hg Hsize Hcache. intros Ho Ha. apply Ho. intros x Hx.
  rewrite all_nodes_slabs in Hx. unfold meta_word in Ha.
  apply elem_of_app in Hx as [(k & -> & _)%list_elem_of_fmap|(y & -> & Hy)%list_elem_of_fmap].
  - assert (~ (cache <= a < cache + sizeof_kmem_cache)) by tauto. slab_offsets.
    unfold class_head. slab_offsets. destruct k; lia.
  - assert (~ (y <= a < y + sizeof_slab_descriptor)) by (intros ?; apply Ha; eauto).
    unfold slab_node, off_slab_lists_node, sizeof_slab_descriptor, node_next, node_prev in *. lia.
Qed.

Lemma links_fields R m m' :
  (forall x, x ∈ slabs_of R -> slab_place o x) -> only_links (all_nodes cache R) m m' ->
  cache_fields m -> cache_fields m'.
Proof using Hg Hsize Hcache.
  intros Hpl Ho [F1 F2 F3 F4]. pose proof geo.
  assert (Hf : forall k, 0 <= k < 24 -> m' (cache + k) = m (cache + k)).
  { intros k Hk. apply Ho. intros x Hx. rewrite all_nodes_slabs in Hx.
    apply elem_of_app in Hx as [(q & -> & _)%list_elem_of_fmap|(y & -> & Hy)%list_elem_of_fmap].
    - unfold class_head. slab_offsets. destruct q; lia.
    - destruct (Hpl y Hy) as (_ & _ & ?).
      unfold slab_node, off_slab_lists_node, node_next, node_prev, PAGE_SIZE in *. lia. }
  split; rewrite Hf by (slab_offsets; lia); done.
Qed.

(** A word of slab [d] that is no link of the slab lists. *)
Definition own_word (d a : Z) : Prop :=
  d <= a < d + off_slab_lists_node \/ d + sizeof_slab_descriptor <= a < d + 2 ^ o * PAGE_SIZE.

(** The invariant apart from the contents of slab [d]. *)
Record cache_but (d : ptr) (m : mem) (R : slab_class -> list ptr) (fl : ptr -> list ptr) : Prop := {
  cb_fields : cache_fields m;
  cb_rings : rings_ok m cache R;
  cb_place : forall x, x ∈ slabs_of R -> slab_place o x;
  cb_slabs : forall c x, x ∈ R c -> x <> d -> slab_ok m c x (fl x);
}.

Lemma cache_inv_but d m R fl : cache_inv m R fl -> cache_but d m R fl.
Proof.
  intros [H1 H2 H3]. split; auto. intros x [c Hx]%class_of_slab. apply (H3 c x Hx).
Qed.

Lemma own_free d (free : list ptr) a :
  (forall x, x ∈ free -> x ∈ slab_objects d) ->
  d <= a < d + off_slab_lists_node \/ a ∈ free -> own_word d a.
Proof using Hg Hsize.
  clear Hcache. intros Hf [Ha|Ha]; [by left|right]. apply Hf, slab_object_bounds in Ha.
  unfold sizeof_slab_descriptor. lia.
Qed.

(** A slab is on one list only, and its two words are its own. *)
Lemma cache_but_close d c free m R fl :
  cache_but d m R fl -> d ∈ R c -> slab_ok m c d free -> cache_inv m R (fl.[d <- free]).
Proof.
  intros [H1 H2 H3 H4] Hd Hs. split; [done..|]. intros c' x Hx.
  destruct (decide (x = d)) as [->|Hne]; [|rewrite upd_ne by done; auto].
  rewrite upd_eq. destruct (decide (c' = c)) as [->|Hc]; [done|]. exfalso.
  eapply (rings_disjoint m cache R c' c (slab_node d)); [done|done| |];
    right; apply list_elem_of_fmap; eauto.
Qed.

Lemma cache_but_own d m m' R fl :
  (forall a, ~ own_word d a -> m' a = m a) -> slab_place o d ->
  cache_but d m R fl -> cache_but d m' R fl.
Proof using Hg Hsize Hcache.
  intros Hw Hd [[F1 F2 F3 F4] [A1 A2] H3 H4]. pose proof geo as Hgeo. pose proof Hd as (_ & _ & Hd48).
  assert (Hout : forall a, a < d \/ d + 2 ^ o * PAGE_SIZE <= a -> m' a = m a).
  { intros a Ha. apply Hw. unfold own_word, off_slab_lists_node, sizeof_slab_descriptor, PAGE_SIZE in *. lia. }
  assert (Hnode : forall x k, x ∈ all_nodes cache R -> 0 <= k < 16 -> m' (x + k) = m (x + k)).
  { intros x k Hx Hk. rewrite all_nodes_slabs in Hx.
    apply elem_of_app in Hx as [(c & -> & _)%list_elem_of_fmap|(y & -> & Hy)%list_elem_of_fmap].
    - apply Hout. right. unfold class_head, off_free_slabs, off_partial_slabs, off_full_slabs. destruct c; lia.
    - destruct (decide (y = d)) as [->|Hne].
      + apply Hw. unfold own_word, slab_node, off_slab_lists_node, sizeof_slab_descriptor. lia.
      + apply Hout. pose proof (slabs_apart _ _ (H3 y Hy) Hd Hne).
        unfold slab_node, off_slab_lists_node, PAGE_SIZE in *. lia. }
  split; [split| |done|].
  1-4: rewrite Hout by (slab_offsets; lia); done.
  - split; [done|]. intros c. eapply lseg_same; [| |apply A2]; intros x Hx; apply Hnode;
      try (unfold node_next, node_prev; lia); by eapply ring_all.
  - intros c x Hx Hne. eapply slab_ok_same; [|by apply H4]. intros a Ha. apply Hout.
    assert (Hx' := H3 x (slabs_of_class _ _ _ Hx)). pose proof (slabs_apart _ _ Hx' Hd Hne).
    apply (own_free x) in Ha; [|by apply (H4 c x)].
    unfold own_word, sizeof_slab_descriptor, off_slab_lists_node, PAGE_SIZE in *. lia.
Qed.

(** Moving slab [d] to another list. *)
Lemma cache_but_move d c c' l1 l2 m R fl :
  cache_but d m R fl -> R c = l1 ++ d :: l2 -> c <> c' ->
  let m' := list_insert_front (class_head cache c') (slab_node d) (list_remove (slab_node d) m) in
  let R' := <[c':=d :: R c']> (<[c:=l1 ++ l2]> R) in
  cache_but d m' R' fl /\ slabs_of R' ≡ₚ slabs_of R /\
  (forall a, own_word d a -> m' a = m a) /\
  (forall a, ~ meta_word (slabs_of R) a -> m' a = m a).
Proof using Hg Hsize Hcache.
  intros [HF Hr H3 H4] E Hne m' R'.
  destruct (move_rings _ _ _ _ _ _ _ _ Hr E Hne) as (Hr' & Ho & HP). fold m' R' in Hr', Ho, HP.
  assert (Hin : d ∈ slabs_of R).
  { apply (slabs_of_class R c). rewrite E. apply elem_of_app. right. left. }
  assert (Hav : forall x a, x ∈ slabs_of R -> own_word x a -> m' a = m a).
  { intros x a Hx Ha. eapply (links_avoid (slabs_of R)); [exact H3|done|exact Ho|by apply H3|exact Ha]. }
  split_and!; [|done|intros; by eapply Hav|intros; by eapply links_meta].
  split; [by eapply links_fields|done|intros x; rewrite HP; apply H3|].
  intros k x Hx Hxd.
  assert (Hx' : x ∈ R k).
  { unfold R' in Hx. destruct (decide (c' = k)) as [->|Hk].
    - rewrite fn_lookup_insert in Hx. by apply elem_of_cons in Hx as [?|?].
    - rewrite fn_lookup_insert_ne in Hx by done. destruct (decide (c = k)) as [->|Hk'].
      + rewrite fn_lookup_insert in Hx. rewrite E. clear -Hx. set_solver.
      + by rewrite fn_lookup_insert_ne in Hx. }
  eapply slab_ok_same; [|by apply H4]. intros a Ha.
  apply (own_free x) in Ha; [|by apply (H4 k x)].
  eapply Hav; [|exact Ha]. by eapply slabs_of_class.
Qed.
(** ** Taking an object *)

(** The part of [kmem_cache_kalloc] behind the choice of a slab. *)
Definition take_from (desc : ptr) : cmd kstate ptr :=
  let! ptr := load (desc + off_free_list) in
  if ptr =? NULL then spinlock_release slab_lock;; ret NULL else
  let! next := load ptr in
  store (desc + off_free_list) next;;
  let! n := load (desc + off_inuse_num) in
  store (desc + off_inuse_num) (u32 (n + 1));;
  let! inuse_num := load (desc + off_inuse_num) in
  let! objects_per_slab := load (cache + off_objects_per_slab) in
  (if inuse_num =? objects_per_slab then move_slab desc (cache + off_full_slabs)
   else if inuse_num =? 1 then move_slab desc (cache + off_partial_slabs)
   else ret tt);;
  spinlock_release slab_lock;;
  ret ptr.

(** The slab after its first free object was taken off the chain. *)
Lemma taken_ok m m1 m2 c c' d p l :
  m1 = m.[d + off_free_list <- m p].[d + off_inuse_num <- n - Z.of_nat (length l)] ->
  (forall a, own_word d a -> m2 a = m1 a) -> slab_ok m c d (p :: l) ->
  class_count n c' (Z.of_nat (length l)) -> slab_ok m2 c' d l.
Proof using Hg Hsize.
  clear Hcache. intros -> Hown [H1 H2 H3 H4 H5 H6 H7] Hc. pose proof geo.
  assert (Hobj : forall x, x ∈ p :: l -> d + 40 <= x /\ own_word d x).
  { intros x Hx. split; [by apply H5, slab_object_bounds in Hx as [? _]|]. eapply own_free; [exact H5|by right]. }
  assert (Hfld : forall k, 0 <= k < 24 -> own_word d (d + k)) by (left; unfold off_slab_lists_node; lia).
  destruct H4 as [Ep H4]. apply NoDup_cons in H6 as [Hp H6].
  unfold off_cache, off_inuse_num, off_free_list in *.
  split; try done; unfold off_cache, off_inuse_num, off_free_list; rewrite ?Hown by auto with lia.
  - by upd_solve.
  - by upd_solve.
  - upd_solve. eapply chain_same; [|exact H4]. intros x Hx.
    destruct (Hobj x) as [Hx1 Hx2]; [by right|]. rewrite Hown by done. by upd_solve.
  - intros x Hx. apply H5. by right.
Qed.

Lemma take_from_wp s0 s R fl c d p l :
  held slab_lock s0 s -> cache_inv (k_mem s) R fl -> d ∈ R c -> fl d = p :: l ->
  wp (take_from d) (fun r s' => r = p /\ kframe s0 s' /\ k_buddy s' = k_buddy s /\
    (exists R', slabs_of R' ≡ₚ slabs_of R /\ cache_inv (k_mem s') R' (fl.[d <- l])) /\
    (forall a, ~ meta_word (slabs_of R) a -> k_mem s' a = k_mem s a)) s.
Proof using Hg Hsize Hcache.
  intros Hh Hi Hd Efl. pose proof geo as Hgeo. set (m := k_mem s) in *.
  pose proof (ci_slabs _ _ _ Hi c d Hd) as Hs. rewrite Efl in Hs.
  pose proof Hs as [Hpl _ Hin Hch Hob _ Hcl]. destruct Hch as [Ep _].
  assert (Hp : d + 40 <= p) by (apply (slab_object_bounds d p), Hob; left).
  assert (0 < d) by apply Hpl. cbn [length] in Hin, Hcl.
  assert (Hc0 : m (cache + off_objects_per_slab) = n) by apply Hi.
  assert (Hd48 : d + 40 <= 2 ^ 48) by (destruct Hpl as (_ & _ & ?); unfold PAGE_SIZE in *; lia).
  pose proof (list_elem_of_split _ _ Hd) as (l1 & l2 & ER).
  set (m1 := m.[d + off_free_list <- m p].[d + off_inuse_num <- n - Z.of_nat (length l)]).
  assert (Hb1 : cache_but d m1 R fl).
  { eapply cache_but_own; [|exact Hpl|apply cache_inv_but; exact Hi]. intros a Ha. unfold m1.
    unfold own_word, off_slab_lists_node, off_inuse_num, off_free_list in *. by upd_solve. }
  assert (Hm1 : forall a, ~ meta_word (slabs_of R) a -> m1 a = m a).
  { intros a Ha. assert (~ (d <= a < d + 40)).
    { intros ?. apply Ha. right. exists d. split; [by eapply slabs_of_class|done]. }
    unfold m1, off_inuse_num, off_free_list. by upd_solve. }
  unfold take_from. kwp. fold m. rewrite Ep, (proj2 (Z.eqb_neq p NULL)) by (unfold NULL; lia). kwp.
  cbn [k_mem set_mem]. fold m.
  assert ((m.[d + off_free_list <- m p]) (d + off_inuse_num) = n - Z.of_nat (S (length l))) as ->.
  { unfold off_inuse_num, off_free_list in *. by upd_solve. }
  rewrite (u32_small (_ + 1)) by (destruct c; cbn [class_count] in Hcl; lia).
  replace (n - Z.of_nat (S (length l)) + 1) with (n - Z.of_nat (length l)) by lia. fold m1.
  assert (m1 (d + off_inuse_num) = n - Z.of_nat (length l)) as -> by apply upd_eq.
  assert (m1 (cache + off_objects_per_slab) = n) as ->.
  { rewrite <- Hc0. unfold m1. slab_offsets. unfold off_inuse_num, off_free_list. by upd_solve. }
  assert (Hfin : forall m2 R' c', cache_but d m2 R' fl -> slabs_of R' ≡ₚ slabs_of R -> d ∈ R' c' ->
    (forall a, own_word d a -> m2 a = m1 a) -> (forall a, ~ meta_word (slabs_of R) a -> m2 a = m1 a) ->
    class_count n c' (Z.of_nat (length l)) ->
    wp (spinlock_release slab_lock;; ret p) (fun r s' => r = p /\ kframe s0 s' /\ k_buddy s' = k_buddy s /\
      (exists R', slabs_of R' ≡ₚ slabs_of R /\ cache_inv (k_mem s') R' (fl.[d <- l])) /\
      (forall a, ~ meta_word (slabs_of R) a -> k_mem s' a = m a)) (set_mem m2 s)).
  { intros m2 R' c' H1 H2 H3 H4 H5 H6. wp_step. eapply wp_release; [by apply held_set_mem|].
    intros s' Hk Em Eb. wp_steps. cbn [k_mem set_mem] in Em. rewrite Em. split_and!; [done..| |].
    - exists R'. split; [done|]. eapply cache_but_close; [exact H1|exact H3|].
      eapply taken_ok; [reflexivity|exact H4|exact Hs|exact H6].
    - intros a Ha. rewrite H5, Hm1 by done. done. }
  destruct (Z.eqb_spec (n - Z.of_nat (length l)) n) as [El|El].
  - assert (c = Partial) as -> by (destruct c; cbn [class_count] in Hcl; [lia|done|lia]).
    unfold move_slab, on_mem. wp_steps. cbn [k_mem set_mem].
    destruct (cache_but_move d Partial Full l1 l2 m1 R fl Hb1 ER ltac:(done)) as (H1 & H2 & H3 & H4).
    eapply (Hfin _ _ Full); [exact H1|exact H2| |exact H3|exact H4|simpl; lia]. rewrite fn_lookup_insert. left.
  - destruct (Z.eqb_spec (n - Z.of_nat (length l)) 1) as [El1|El1].
    + assert (c = Free) as -> by (destruct c; cbn [class_count] in Hcl; [done|lia|lia]).
      unfold move_slab, on_mem. wp_steps. cbn [k_mem set_mem].
      destruct (cache_but_move d Free Partial l1 l2 m1 R fl Hb1 ER ltac:(done)) as (H1 & H2 & H3 & H4).
      eapply (Hfin _ _ Partial); [exact H1|exact H2| |exact H3|exact H4|simpl; lia]. rewrite fn_lookup_insert. left.
    + wp_steps. eapply (Hfin m1 R Partial); try done; destruct c; cbn [class_count] in Hcl; try lia; [done|simpl; lia].
Qed.
(** ** Giving an object back *)

(** The descriptor is found by clearing the low bits of the object's address. *)
Lemma object_desc d x :
  slab_place o d -> x ∈ slab_objects d ->
  Z.land x (not64 (u64 (u32 (shl64 PAGE_SIZE o) - 1))) = d.
Proof using Hg Hsize.
  clear Hcache. intros (H0 & Hdiv & H48) Hx%slab_object_bounds. pose proof geo as Hgeo.
  assert (HB : shl64 PAGE_SIZE o = 2 ^ (12 + o)).
  { unfold shl64. rewrite Z.mod_small, Z.shiftl_mul_pow2 by lia. rewrite Z.pow_add_r by lia.
    unfold PAGE_SIZE. apply u64_small. lia. }
  assert (HB' : 2 ^ (12 + o) = 2 ^ o * PAGE_SIZE) by (rewrite Z.pow_add_r by lia; change PAGE_SIZE with (2 ^ 12); lia).
  unfold PAGE_SIZE in *. rewrite HB, u32_small, u64_small by lia. rewrite land_not64_low by lia.
  rewrite HB'. apply Z.mod_divide in Hdiv; [|lia].
  assert (x mod (2 ^ o * 4096) = x - d); [|lia].
  rewrite <- (Z.mod_small (x - d) (2 ^ o * 4096)) by lia. rewrite Zminus_mod, Hdiv, Z.sub_0_r, Z.mod_mod by lia. done.
Qed.

(** An object in use leaves room among the free ones. *)
Lemma in_use_room d x free :
  (forall y, y ∈ free -> y ∈ slab_objects d) -> NoDup free -> x ∈ slab_objects d -> x ∉ free ->
  Z.of_nat (length free) < n.
Proof using Hg Hsize.
  clear Hcache. intros Hf Hnd Hx Hn. pose proof geo. rewrite <- (objects_from_length (d + first_object_offset al) size n) by lia.
  enough (length (x :: free) <= length (slab_objects d))%nat as Hle by (unfold slab_objects in Hle; simpl in Hle; lia).
  apply submseteq_length, NoDup_submseteq; [by constructor|]. intros y [->|Hy]%elem_of_cons; auto.
Qed.

(** The slab after the object was put in front of the chain. *)
Lemma released_ok m m2 m3 c c' d x free :
  (forall a, own_word d a -> m2 a = (m.[d + off_inuse_num <- n - Z.of_nat (S (length free))]) a) ->
  m3 = m2.[x <- m2 (d + off_free_list)].[d + off_free_list <- x] ->
  slab_ok m c d free -> x ∈ slab_objects d -> x ∉ free ->
  class_count n c' (Z.of_nat (S (length free))) -> slab_ok m3 c' d (x :: free).
Proof using Hg Hsize.
  clear Hcache. intros Hown -> [H1 H2 H3 H4 H5 H6 H7] Hx Hn Hc. pose proof geo.
  assert (Hobj : forall y, y ∈ x :: free -> d + 40 <= y /\ own_word d y).
  { assert (Hf : forall y, y ∈ x :: free -> y ∈ slab_objects d) by (intros y [->|?]%elem_of_cons; auto).
    intros y Hy. split; [by apply Hf, slab_object_bounds in Hy as [? _]|]. eapply own_free; [exact Hf|by right]. }
  assert (Hfld : forall k, 0 <= k < 24 -> own_word d (d + k)) by (left; unfold off_slab_lists_node; lia).
  assert (Hx40 : d + 40 <= x) by (apply (Hobj x); left).
  unfold off_cache, off_inuse_num, off_free_list in *.
  split; unfold off_cache, off_inuse_num, off_free_list; try done.
  - upd_solve. rewrite Hown by auto with lia. by upd_solve.
  - upd_solve. rewrite Hown by auto with lia. by upd_solve.
  - upd_solve. split; [done|]. rewrite Hown by auto with lia. upd_solve.
    eapply chain_same; [|exact H4]. intros y Hy. assert (y <> x) by congruence.
    destruct (Hobj y) as [Hy1 Hy2]; [by right|]. upd_solve. rewrite Hown by done. by upd_solve.
  - intros y [->|Hy]%elem_of_cons; auto.
  - by constructor.
Qed.

Lemma kfree_object_wp s R fl c d x :
  lock_free s slab_lock -> cache_inv (k_mem s) R fl -> d ∈ R c -> x ∈ slab_objects d -> x ∉ fl d ->
  wp (kmem_cache_kfree cache x) (fun _ s' => kframe s s' /\ k_buddy s' = k_buddy s /\
    (exists R', slabs_of R' ≡ₚ slabs_of R /\ cache_inv (k_mem s') R' (fl.[d <- x :: fl d])) /\
    (forall a, ~ meta_word (slabs_of R) a -> a <> x -> k_mem s' a = k_mem s a)) s.
Proof using Hg Hsize Hcache.
  intros Hlk Hi Hd Hx Hn. pose proof geo as Hgeo. set (m := k_mem s) in *. set (free := fl d) in *.
  pose proof (ci_slabs _ _ _ Hi c d Hd) as Hs. fold free in Hs.
  pose proof Hs as [Hpl _ Hin _ Hob Hnd Hcl].
  pose proof (in_use_room d x free Hob Hnd Hx Hn) as Hroom.
  assert (Hc0 : m (cache + off_objects_per_slab) = n) by apply Hi.
  assert (Hc1 : m (cache + off_slab_order) = o) by apply Hi.
  assert (Hd48 : d + 40 <= 2 ^ 48) by (destruct Hpl as (_ & _ & ?); unfold PAGE_SIZE in *; lia).
  pose proof (list_elem_of_split _ _ Hd) as (l1 & l2 & ER).
  set (m1 := m.[d + off_inuse_num <- n - Z.of_nat (S (length free))]).
  assert (Hb1 : cache_but d m1 R fl).
  { eapply cache_but_own; [|exact Hpl|apply cache_inv_but; exact Hi]. intros a Ha. unfold m1.
    unfold own_word, off_slab_lists_node, off_inuse_num in *. by upd_solve. }
  assert (Hmeta : forall a, ~ meta_word (slabs_of R) a -> ~ (d <= a < d + 40)).
  { intros a Ha ?. apply Ha. right. exists d. split; [by eapply slabs_of_class|done]. }
  unfold kmem_cache_kfree. wp_step. apply wp_acquire; [done|]. intros s1 Hh1 Em1 Eb1. kwp.
  fold m in Em1. rewrite !Em1, !Hc1, !(object_desc d x Hpl Hx), Hin. cbn [k_mem set_mem].
  replace (n - Z.of_nat (length free) - 1) with (n - Z.of_nat (S (length free))) by lia.
  rewrite (u32_small (n - _)) by lia. rewrite ?Em1. fold m m1.
  assert (m1 (d + off_inuse_num) = n - Z.of_nat (S (length free))) as -> by apply upd_eq.
  assert (m1 (cache + off_objects_per_slab) = n) as ->.
  { rewrite <- Hc0. unfold m1. slab_offsets. unfold off_inuse_num. by upd_solve. }
  assert (Hfin : forall m2 R' c', cache_but d m2 R' fl -> slabs_of R' ≡ₚ slabs_of R -> d ∈ R' c' ->
    (forall a, own_word d a -> m2 a = m1 a) -> (forall a, ~ meta_word (slabs_of R) a -> m2 a = m1 a) ->
    class_count n c' (Z.of_nat (S (length free))) ->
    wp (let! head := load (d + off_free_list) in
        store x head;; store (d + off_free_list) x;; spinlock_release slab_lock)
      (fun _ s' => kframe s s' /\ k_buddy s' = k_buddy s /\
        (exists R', slabs_of R' ≡ₚ slabs_of R /\ cache_inv (k_mem s') R' (fl.[d <- x :: free])) /\
        (forall a, ~ meta_word (slabs_of R) a -> a <> x -> k_mem s' a = m a)) (set_mem m2 s1)).
  { intros m2 R' c' H1 H2 H3 H4 H5 H6. kwp. eapply wp_release; [by repeat apply held_set_mem|].
    intros s' Hk Em Eb. cbn [k_mem k_buddy set_mem] in Em, Eb. rewrite Em, Eb.
    split_and!; [done|done| |].
    - exists R'. split; [done|]. eapply cache_but_close; [|exact H3|].
      + eapply cache_but_own; [|exact Hpl|exact H1]. intros a Ha.
        assert (own_word d x) by (eapply (own_free d (slab_objects d)); auto).
        assert (a <> x) by congruence.
        unfold own_word, off_slab_lists_node, off_free_list in *. by upd_solve.
      + by eapply released_ok.
    - intros a Ha Hax. pose proof (Hmeta a Ha). unfold off_free_list. upd_solve. rewrite H5 by done.
      unfold m1, off_inuse_num. by upd_solve. }
  destruct (Z.eqb_spec (n - Z.of_nat (S (length free))) 0) as [El|El].
  - assert (c = Partial) as -> by (destruct c; cbn [class_count] in Hcl; [lia|done|lia]).
    unfold move_slab, on_mem. wp_step. wp_step. wp_step. wp_step. cbn [k_mem set_mem].
    destruct (cache_but_move d Partial Free l1 l2 m1 R fl Hb1 ER ltac:(done)) as (H1 & H2 & H3 & H4).
    eapply (Hfin _ _ Free); [exact H1|exact H2| |exact H3|exact H4|simpl; lia]. rewrite fn_lookup_insert. left.
  - rewrite (u32_small (n - 1)) by lia.
    destruct (Z.eqb_spec (n - Z.of_nat (S (length free))) (n - 1)) as [El1|El1].
    + assert (c = Full) as -> by (destruct c; cbn [class_count] in Hcl; [lia|lia|done]).
      unfold move_slab, on_mem. wp_step. wp_step. wp_step. wp_step. cbn [k_mem set_mem].
      destruct (cache_but_move d Full Partial l1 l2 m1 R fl Hb1 ER ltac:(done)) as (H1 & H2 & H3 & H4).
      eapply (Hfin _ _ Partial); [exact H1|exact H2| |exact H3|exact H4|simpl; lia]. rewrite fn_lookup_insert. left.
    + wp_step. wp_step. eapply (Hfin m1 R Partial); try done; destruct c; cbn [class_count] in Hcl; try lia; [done|simpl; lia].
Qed.
(** ** A new slab *)

Lemma slab_node_inj d d' : slab_node d = slab_node d' -> d = d'.
Proof. unfold slab_node. lia. Qed.

Lemma class_head_apart c c' :
  c <> c' -> class_head cache c + 16 <= class_head cache c' \/ class_head cache c' + 16 <= class_head cache c.
Proof.
  unfold class_head, off_free_slabs, off_partial_slabs, off_full_slabs. destruct c, c'; intros; (done || lia).
Qed.

(** Slabs in their places have nodes that do not overlap. *)
Lemma nodes_apart R :
  NoDup (slabs_of R) -> (forall x, x ∈ slabs_of R -> slab_place o x) -> apart (all_nodes cache R).
Proof using Hg Hsize Hcache.
  intros Hnd Hp. pose proof geo. rewrite all_nodes_slabs.
  assert (Hhead : forall x y, x ∈ class_head cache <$> [Free; Partial; Full] ->
    y ∈ slab_node <$> slabs_of R -> y + 16 <= x).
  { intros x y (c & -> & _)%list_elem_of_fmap (d & -> & Hd)%list_elem_of_fmap.
    pose proof (place_head d (Hp d Hd) c). unfold slab_node, off_slab_lists_node. lia. }
  split.
  - apply NoDup_app. split_and!.
    + apply NoDup_fmap_2_strong; [|repeat constructor; set_solver]. intros c c' _ _ E.
      destruct (decide (c = c')) as [|Hne]; [done|]. pose proof (class_head_apart c c' Hne). lia.
    + intros x Hx Hy. specialize (Hhead x x Hx Hy). lia.
    + by apply NoDup_fmap_2; [intros ? ?; apply slab_node_inj|].
  - intros x y Hx Hy Hne. apply elem_of_app in Hx as [Hx|Hx], Hy as [Hy|Hy]; auto.
    + apply list_elem_of_fmap in Hx as (c & -> & _), Hy as (c' & -> & _). apply class_head_apart. congruence.
    + apply list_elem_of_fmap in Hx as (d & -> & Hd), Hy as (d' & -> & Hd').
      pose proof (slabs_apart d d' (Hp _ Hd) (Hp _ Hd') ltac:(congruence)).
      unfold slab_node, PAGE_SIZE in *. lia.
Qed.

Lemma rings_nodup m R : rings_ok m cache R -> NoDup (slabs_of R).
Proof.
  intros [[Hnd _] _]. rewrite all_nodes_slabs in Hnd. apply NoDup_app in Hnd as (_ & _ & Hnd).
  by apply NoDup_fmap_1 in Hnd.
Qed.

(** The words the invariant of the cache depends on. *)
Definition cache_word (S : list ptr) (a : Z) : Prop :=
  cache <= a < cache + sizeof_kmem_cache \/ exists d, d ∈ S /\ d <= a < d + 2 ^ o * PAGE_SIZE.

Lemma cache_inv_same m m' R fl :
  (forall a, cache_word (slabs_of R) a -> m' a = m a) -> cache_inv m R fl -> cache_inv m' R fl.
Proof using Hg Hsize.
  clear Hcache. intros Hw [[F1 F2 F3 F4] [A1 A2] H3]. pose proof geo.
  assert (Hf : forall k, 0 <= k < 72 -> m' (cache + k) = m (cache + k)).
  { intros k Hk. apply Hw. left. unfold sizeof_kmem_cache. lia. }
  assert (Hn : forall c x k, x ∈ ring_nodes cache R c -> 0 <= k < 16 -> m' (x + k) = m (x + k)).
  { intros c x k [->|(d & -> & Hd)%list_elem_of_fmap]%elem_of_cons Hk.
    - unfold class_head. rewrite <- !Z.add_assoc. apply Hf. slab_offsets. destruct c; lia.
    - apply Hw. right. exists d. split; [by eapply slabs_of_class|].
      unfold slab_node, off_slab_lists_node, PAGE_SIZE in *. lia. }
  split; [split|split; [done|]|].
  1-4: rewrite Hf by (slab_offsets; lia); done.
  - intros c. eapply lseg_same; [| |apply A2]; intros x Hx; apply (Hn c); try done; unfold node_next, node_prev; lia.
  - intros c d Hd. eapply slab_ok_same; [|by apply H3]. intros a Ha. apply Hw. right. exists d.
    split; [by eapply slabs_of_class|]. apply (own_free d) in Ha; [|by apply (H3 c d)].
    unfold own_word, off_slab_lists_node, sizeof_slab_descriptor, PAGE_SIZE in *. lia.
Qed.

Lemma cache_inv_add m R fl d free :
  cache_inv m R fl -> slab_place o d -> d ∉ slabs_of R -> slab_ok m Free d free ->
  let m' := list_insert_front (class_head cache Free) (slab_node d) m in
  cache_inv m' (<[Free:=d :: R Free]> R) (fl.[d <- free]) /\
  (forall a, ~ meta_word (d :: slabs_of R) a -> m' a = m a).
Proof using Hg Hsize Hcache.
  intros Hi Hd Hnew Hs m'. pose proof geo. set (R' := <[Free:=d :: R Free]> R).
  assert (HP : slabs_of R' ≡ₚ d :: slabs_of R) by apply slabs_of_put.
  pose proof (cb_place _ _ _ _ (cache_inv_but d _ _ _ Hi)) as Hpl.
  assert (Hpl' : forall x, x ∈ slabs_of R' -> slab_place o x).
  { intros x. rewrite HP. intros [->|Hx]%elem_of_cons; auto. }
  assert (Hnd : NoDup (slabs_of R')).
  { rewrite HP. constructor; [done|]. eapply rings_nodup, (ci_rings _ _ _ Hi). }
  pose proof (nodes_apart R' Hnd Hpl') as HA.
  pose proof (all_nodes_cons cache _ _ _ HP) as HN.
  destruct (insert_rings m cache R Free d (ci_rings _ _ _ Hi)) as [Hr Ho]; [by rewrite <- HN|].
  fold m' in Hr, Ho. fold R' in Hr.
  assert (Ho' : only_links (all_nodes cache R') m m').
  { eapply only_links_mono; [|exact Ho]. intros x. by rewrite HN. }
  assert (Hav : forall x a, x ∈ slabs_of R' -> own_word x a -> m' a = m a).
  { intros x a Hx Ha. eapply (links_avoid (slabs_of R')); [exact Hpl'|done|exact Ho'|by apply Hpl'|exact Ha]. }
  split; [|intros a Ha; eapply links_meta; [exact Ho'|]; unfold meta_word in *; by setoid_rewrite HP].
  split; [eapply links_fields; [exact Hpl'|exact Ho'|apply Hi]|exact Hr|].
  - intros c x Hx. assert (Hx' := slabs_of_class _ _ _ Hx).
    assert (x = d /\ c = Free \/ x <> d /\ x ∈ R c) as [[-> ->]|[Hne HxR]].
    { unfold R' in Hx. destruct (decide (x = d)) as [->|Hne].
      - left. split; [done|]. destruct (decide (Free = c)) as [|Hc]; [done|].
        rewrite fn_lookup_insert_ne in Hx by done. exfalso. apply Hnew. by eapply slabs_of_class.
      - right. split; [done|]. destruct (decide (Free = c)) as [<-|Hc].
        + rewrite fn_lookup_insert in Hx. by apply elem_of_cons in Hx as [?|?].
        + by rewrite fn_lookup_insert_ne in Hx. }
    + rewrite upd_eq. eapply slab_ok_same; [|exact Hs]. intros a Ha.
      apply (own_free d) in Ha; [|apply Hs]. by eapply Hav.
    + rewrite upd_ne by done. eapply slab_ok_same; [|by apply (ci_slabs _ _ _ Hi)]. intros a Ha.
      apply (own_free x) in Ha; [|by apply (ci_slabs _ _ _ Hi c x HxR)]. by eapply Hav.
Qed.
(** ** The cache and the page allocator *)

Context {client : AllocClient}.

(** The cache holds its slabs, none of whose pages is free. *)
Record cache_owns (s : kstate) (L : Z -> list ptr) (R : slab_class -> list ptr)
    (fl : ptr -> list ptr) : Prop := {
  co_buddy : buddy_inv (k_mem s) (k_buddy s) L;
  co_cache : cache_inv (k_mem s) R fl;
  co_pages : forall d pg, d ∈ slabs_of R -> pg ∈ pages_of o d -> pg ∉ free_pages L;
  co_client : ac_inv (k_buddy s) L;
  co_order : ac_order o;
}.

Lemma slab_page d a : slab_place o d -> d <= a < d + 2 ^ o * PAGE_SIZE -> page_of a ∈ pages_of o d.
Proof using Hg Hsize.
  clear Hcache. intros (_ & [q Hq] & _) Ha. pose proof geo as Hgeo. apply page_range_elem.
  assert (Hd : d = (q * 2 ^ o) * PAGE_SIZE) by lia.
  exists (a / PAGE_SIZE - q * 2 ^ o). unfold page_of, PAGE_SIZE in *.
  set (e := q * 2 ^ o) in *. split; [|lia].
  split; [|apply Z.lt_sub_lt_add_r, Z.div_lt_upper_bound; lia].
  enough (e <= a / 4096) by lia. apply Z.div_le_lower_bound; lia.
Qed.

Lemma high_page m md L a : buddy_inv m md L -> 2 ^ 48 <= a -> page_of a ∉ free_pages L.
Proof.
  clear Hg Hsize Hcache. intros Hi Ha Hp. pose proof (free_page_frame _ _ _ _ Hi Hp) as [_ Hf].
  unfold page_of, PAGE_SIZE in *. dlia.
Qed.

Lemma cache_word_page s L R fl a :
  cache_owns s L R fl -> cache_word (slabs_of R) a -> page_of a ∉ free_pages L.
Proof using Hg Hsize Hcache.
  intros [Hb Hi Hp _ _] [Ha|(d & Hd & Ha)]; [eapply high_page; [exact Hb|lia]|].
  eapply Hp; [exact Hd|]. apply slab_page; [|done].
  exact (cb_place _ _ _ _ (cache_inv_but d _ _ _ Hi) d Hd).
Qed.

Lemma meta_cache_word S a : meta_word S a -> cache_word S a.
Proof using Hg Hsize.
  clear Hcache. pose proof geo. intros [?|(d & ? & ?)]; [by left|right]. exists d.
  unfold sizeof_slab_descriptor, PAGE_SIZE in *. split; [done|lia].
Qed.

(** Changes inside slabs leave the page allocator alone. *)
Lemma cache_owns_step s s' L R R' fl fl' :
  cache_owns s L R fl -> k_buddy s' = k_buddy s -> slabs_of R' ≡ₚ slabs_of R ->
  cache_inv (k_mem s') R' fl' ->
  (forall a, ~ cache_word (slabs_of R) a -> k_mem s' a = k_mem s a) -> cache_owns s' L R' fl'.
Proof using Hg Hsize Hcache.
  intros Ho Eb HP Hi Hm. split; [|done| |rewrite Eb; apply Ho|apply Ho].
  - rewrite Eb. eapply buddy_inv_local; [apply Ho|]. intros a Ha. apply Hm. intros Hw.
    by apply (cache_word_page _ _ _ _ _ Ho Hw).
  - intros d pg Hd. rewrite HP in Hd. by apply Ho.
Qed.

Lemma grow_order o' : least_order (chunk_bytes o) o' -> o' = o.
Proof using Hg Hsize.
  clear Hcache. pose proof geo. intros Hl. eapply least_order_unique; [exact Hl|].
  rewrite chunk_bytes_pow by lia. unfold least_order. split_and!; [lia|lia|]. intros j Hj.
  apply Z.mul_lt_mono_pos_r; [done|]. apply Z.pow_lt_mono_r; lia.
Qed.

(** The contents [kmem_cache_grow] writes into the pages of a new slab. *)
Lemma fresh_slab_ok m d :
  slab_place o d ->
  let first := d + first_object_offset al in
  let m1 := m.[d + off_cache <- cache].[d + off_inuse_num <- 0] in
  let m' := (thread_objects (Z.to_nat n) 0 n size first m1).[d + off_free_list <- first] in
  slab_ok m' Free d (slab_objects d) /\ (forall a, ~ own_word d a -> m' a = m a).
Proof using Hg Hsize.
  clear Hcache. intros Hd. cbv zeta. pose proof geo as Hgeo. pose proof Hd as (H0 & _ & H48).
  unfold PAGE_SIZE in *.
  set (first := d + first_object_offset al) in *.
  destruct (thread_objects_spec (Z.to_nat n) 0 n size first (m.[d + off_cache <- cache].[d + off_inuse_num <- 0]))
    as [H1 H2]; try (unfold first; lia).
  set (m2 := thread_objects _ _ _ _ _ _) in *. clearbody m2.
  rewrite (proj2 (Z.ltb_lt 0 n)) in H1 by lia. rewrite Z.mul_0_l, Z.add_0_r in H1.
  change (objects_from first size 0 n) with (slab_objects d) in *.
  assert (Hob : forall x, x ∈ slab_objects d -> d + 40 <= x) by (intros x Hx%slab_object_bounds; lia).
  assert (Hno : forall k, k < 40 -> d + k ∉ slab_objects d) by (intros k Hk Hx%Hob; lia).
  unfold off_cache, off_inuse_num, off_free_list in *. split.
  - split; unfold off_cache, off_inuse_num, off_free_list; try done.
    + upd_solve. rewrite H2 by (apply Hno; lia). by upd_solve.
    + upd_solve. rewrite H2 by (apply Hno; lia). upd_solve.
      unfold slab_objects. rewrite objects_from_length; lia.
    + upd_solve. eapply chain_same; [|exact H1]. intros x Hx%Hob. by upd_solve.
    + apply objects_from_nodup. lia.
    + simpl. unfold slab_objects. rewrite objects_from_length; lia.
  - intros a Ha. assert (~ (d <= a < d + 24)) by (unfold own_word, off_slab_lists_node in Ha; lia).
    upd_solve. rewrite H2; [by upd_solve|].
    intros Hx. apply Ha. eapply own_free; [|by right]; auto.
Qed.
Lemma cache_fields_page s L R fl k :
  cache_owns s L R fl -> 0 <= k < sizeof_kmem_cache -> page_of (cache + k) ∉ free_pages L.
Proof using Hg Hsize Hcache. intros Ho Hk. eapply cache_word_page; [exact Ho|]. left. lia. Qed.

Lemma grow_wp s L R fl :
  cache_owns s L R fl -> lock_free s buddy_lock ->
  wp (kmem_cache_grow cache) (fun r s' => kframe s s' /\
    (r = STATUS_ERROR /\ k_mem s' = k_mem s /\ k_buddy s' = k_buddy s /\
       (forall k, o <= k <= MAX_ORDER -> L k = []) \/
     r = STATUS_OK /\ exists d L', free_pages L ≡ₚ pages_of o d ++ free_pages L' /\ (d ∉ slabs_of R) /\
       cache_owns s' L' (<[Free := d :: R Free]> R) (fl.[d <- slab_objects d]) /\
       (forall a, page_of a ∉ free_pages L -> ~ meta_word (slabs_of R) a -> k_mem s' a = k_mem s a))) s.
Proof using Hg Hsize Hcache.
  intros Hown Hlk. pose proof Hown as [Hb Hi Hp Hcl Hco]. pose proof geo as Hgeo.
  destruct (ci_fields _ _ _ Hi) as [F1 F2 F3 F4].
  unfold kmem_cache_grow. kwp. rewrite F3.
  eapply wp_mono; [apply (kalloc_wp (chunk_bytes o) s L Hb Hlk); apply chunk_bytes_le; lia|].
  intros d s1 (Hk & o' & Ho%grow_order & HR). subst o'.
  destruct HR as [(-> & Em & Eb & HL)|(Hd & _ & L' & Hall)].
  2: pose proof (ac_alloc o s L d s1 L' Hb Hco Hcl Hall) as Hcl'; destruct Hall as [Hb1 Hblk HP Hf _ _ _].
  { rewrite Z.eqb_refl. kwp. split; [done|]. left. done. }
  rewrite (proj2 (Z.eqb_neq d NULL)) by done. kwp. cbn [k_mem set_mem].
  assert (Hpl : slab_place o d).
  { destruct (block_ok_range (k_buddy s) o d (k_mem s) L Hb ltac:(lia) Hblk) as [? ?]. split_and!; [lia|apply Hblk|lia]. }
  assert (Hpd : forall pg, pg ∈ pages_of o d -> pg ∈ free_pages L) by (intros; rewrite HP; apply elem_of_app; auto).
  assert (Hnew : d ∉ slabs_of R).
  { intros Hd'. eapply Hp; [exact Hd'|apply pages_of_self; lia|]. apply Hpd, pages_of_self. lia. }
  assert (Hi1 : cache_inv (k_mem s1) R fl).
  { eapply cache_inv_same; [|exact Hi]. intros a Ha. apply Hf. by eapply cache_word_page. }
  pose proof (ci_fields _ _ _ Hi1) as [G1 G2 G3 G4].
  assert (Hd48 : d + 40 <= 2 ^ 48) by (destruct Hpl as (_ & _ & ?); unfold PAGE_SIZE in *; lia).
  assert (Hc : forall k, 0 <= k < 72 ->
    ((k_mem s1).[d + off_cache <- cache].[d + off_inuse_num <- 0]) (cache + k) = k_mem s1 (cache + k)).
  { intros k Hk'. unfold off_cache, off_inuse_num. by upd_solve. }
  rewrite !Hc by (slab_offsets; lia). rewrite G1, G2, G4.
  assert (d + first_object_offset al < 2 ^ 64) by (unfold PAGE_SIZE in *; nia).
  rewrite u64_small by (destruct Hpl; lia).
  destruct (fresh_slab_ok (k_mem s1) d Hpl) as [Hs Hm]. unfold on_mem. kwp. cbn [k_mem k_buddy set_mem].
  set (m2 := _.[d + off_free_list <- _]) in *. clearbody m2.
  assert (Hi2 : cache_inv m2 R fl).
  { eapply cache_inv_same; [|exact Hi1]. intros a Ha. apply Hm. intros Hw.
    apply (cache_word_page _ _ _ _ _ Hown) in Ha. apply Ha, Hpd, slab_page; [done|].
    unfold own_word, off_slab_lists_node, sizeof_slab_descriptor, PAGE_SIZE in *. lia. }
  destruct (cache_inv_add m2 R fl d _ Hi2 Hpl Hnew Hs) as [Hi3 Hm3].
  split; [repeat apply kframe_set_mem; exact Hk|]. right. split; [done|]. exists d, L'.
  assert (Hslab : forall a, d <= a < d + 2 ^ o * PAGE_SIZE -> page_of a ∈ free_pages L)
    by (intros; by apply Hpd, slab_page).
  assert (Hm4 : forall a, ~ (d <= a < d + 2 ^ o * PAGE_SIZE) -> ~ meta_word (slabs_of R) a ->
    list_insert_front (class_head cache Free) (slab_node d) m2 a = k_mem s1 a).
  { intros a Ha1 Ha2. rewrite Hm3, Hm; [done| |].
    - unfold own_word, off_slab_lists_node, sizeof_slab_descriptor, PAGE_SIZE in *. lia.
    - unfold meta_word in *. intros [?|(x & [->|Hx]%elem_of_cons & ?)]; [auto| |eauto 6].
      unfold sizeof_slab_descriptor, PAGE_SIZE in *. lia. }
  split_and!; [done|done| |].
  - split; [|exact Hi3| |exact Hcl'|exact Hco].
    + eapply buddy_inv_local; [exact Hb1|]. intros a Ha.
      assert (HaL : page_of a ∈ free_pages L) by (rewrite HP; apply elem_of_app; auto).
      apply Hm4; [|by intros ?%meta_cache_word%(cache_word_page _ _ _ _ _ Hown)].
      intros Hr. pose proof (bi_nodup _ _ _ Hb) as Hnd. rewrite HP in Hnd.
      apply NoDup_app in Hnd as (_ & Hdis & _). apply (Hdis (page_of a)); [by apply slab_page|done].
    + intros x pg Hx Hpg Hfr. rewrite slabs_of_put in Hx.
      apply elem_of_cons in Hx as [->|Hx].
      * pose proof (bi_nodup _ _ _ Hb) as Hnd. rewrite HP in Hnd.
        apply NoDup_app in Hnd as (_ & Hdis & _). by apply (Hdis pg).
      * eapply Hp; [exact Hx|exact Hpg|]. rewrite HP. apply elem_of_app. by right.
  - intros a Ha1 Ha2. rewrite Hm4; [by apply Hf| |done]. intros Hr. by apply Ha1, Hslab.
Qed.
(** ** Choosing a slab *)

Lemma ring_first m R c :
  rings_ok m cache R ->
  match R c with
  | [] => m (class_head cache c + node_next) = class_head cache c
  | d :: _ => m (class_head cache c + node_next) = slab_node d /\ slab_node d <> class_head cache c
  end.
Proof.
  intros Hr. pose proof (ro_links _ _ _ Hr c) as Hl. pose proof (ring_apart _ _ _ c Hr) as [Hnd _].
  unfold ring_nodes in Hnd. destruct (R c) as [|d l]; simpl in Hl; [apply Hl|].
  split; [apply Hl|]. intros E. apply NoDup_cons in Hnd as [Hn _]. apply Hn. rewrite <- E. left.
Qed.

Lemma free_objects_take R fl d p l :
  NoDup (slabs_of R) -> d ∈ slabs_of R -> fl d = p :: l ->
  free_objects R fl ≡ₚ p :: (slabs_of R ≫= fl.[d <- l]).
Proof.
  intros Hnd Hd E. unfold free_objects. apply elem_of_Permutation in Hd as [S HP].
  rewrite HP in Hnd |- *. apply NoDup_cons in Hnd as [Hd _].
  rewrite !bind_cons, E, upd_eq. cbn [app]. f_equiv. f_equiv.
  rewrite (bind_ext_elem fl (fl.[d <- l]) S); [done|]. intros x Hx. rewrite upd_ne; [done|congruence].
Qed.

(** Without a partial or free slab no object is free. *)
Lemma no_free_objects m R fl :
  cache_inv m R fl -> R Partial = [] -> R Free = [] -> free_objects R fl = [].
Proof.
  intros Hi E1 E2. unfold free_objects, slabs_of. rewrite E1, E2. cbn [app].
  pose proof (ci_slabs _ _ _ Hi Full) as H. induction (R Full) as [|d l IH]; [done|].
  rewrite bind_cons, IH; [|intros x Hx; apply H; by right].
  pose proof (so_class _ _ _ _ (H d ltac:(left))) as Hc. simpl in Hc. destruct (fl d); [done|simpl in Hc; lia].
Qed.

(** What an allocation does to the cache. *)
Inductive taken (s : kstate) (L : Z -> list ptr) (R : slab_class -> list ptr) (fl : ptr -> list ptr)
    (p : ptr) (s' : kstate) : Prop :=
  | taken_free R' fl' :
      cache_owns s' L R' fl' -> slabs_of R' ≡ₚ slabs_of R ->
      free_objects R fl ≡ₚ p :: free_objects R' fl' -> p <> NULL ->
      (forall a, ~ meta_word (slabs_of R) a -> k_mem s' a = k_mem s a) -> taken s L R fl p s'
  | taken_new d L' R' fl' :
      cache_owns s' L' R' fl' -> slabs_of R' ≡ₚ d :: slabs_of R ->
      free_pages L ≡ₚ (pages_of o d ++ free_pages L') ->
      free_objects R fl = [] -> slab_objects d ≡ₚ p :: free_objects R' fl' -> p <> NULL ->
      (forall a, page_of a ∉ free_pages L -> ~ meta_word (slabs_of R) a -> k_mem s' a = k_mem s a) ->
      taken s L R fl p s'
  | taken_none :
      p = NULL -> free_objects R fl = [] -> (forall k, o <= k <= MAX_ORDER -> L k = []) ->
      cache_owns s' L R fl -> k_mem s' = k_mem s -> taken s L R fl p s'.

(** Taking from a slab of the right class. *)
Lemma take_slab_wp s0 s1 L R fl c d :
  held slab_lock s0 s1 -> cache_owns s1 L R fl -> d ∈ R c -> c <> Full ->
  wp (take_from d) (fun p s' => kframe s0 s' /\ p <> NULL /\ exists R' fl',
    cache_owns s' L R' fl' /\ slabs_of R' ≡ₚ slabs_of R /\
    free_objects R fl ≡ₚ p :: free_objects R' fl' /\
    (forall a, ~ meta_word (slabs_of R) a -> k_mem s' a = k_mem s1 a)) s1.
Proof using Hg Hsize Hcache.
  intros Hh Ho Hd Hc. pose proof (co_cache _ _ _ _ Ho) as Hi. pose proof (ci_slabs _ _ _ Hi c d Hd) as Hs.
  pose proof geo. destruct (fl d) as [|p l] eqn:E.
  { pose proof (so_class _ _ _ _ Hs) as Hcl. destruct c; simpl in Hcl; [lia|lia|done]. }
  eapply wp_mono; [by eapply take_from_wp|]. cbv beta.
  intros r s' (-> & Hk & Eb & (R' & HP & Hi') & Hm). split; [done|]. split.
  { assert (Hp : p ∈ slab_objects d) by (apply (so_objects _ _ _ _ Hs); left).
    apply slab_object_bounds in Hp. destruct (so_place _ _ _ _ Hs). unfold NULL. lia. }
  exists R', (fl.[d <- l]). split_and!; [|done| |done].
  - eapply cache_owns_step; [exact Ho|done|done|exact Hi'|].
    intros a Ha. apply Hm. intros Hw. by apply Ha, meta_cache_word.
  - rewrite (free_objects_take R fl d p l); [|eapply rings_nodup, Hi|by eapply slabs_of_class|done].
    unfold free_objects. by rewrite HP.
Qed.

Lemma kalloc_object_wp s L R fl :
  cache_owns s L R fl -> lock_free s slab_lock -> lock_free s buddy_lock ->
  wp (kmem_cache_kalloc cache) (fun p s' => kframe s s' /\ taken s L R fl p s') s.
Proof using Hg Hsize Hcache.
  intros Ho Hl1 Hl2. unfold kmem_cache_kalloc. wp_step. apply wp_acquire; [done|]. intros s1 Hh Em Eb.
  assert (Ho1 : cache_owns s1 L R fl) by (destruct Ho; split; by rewrite ?Em, ?Eb).
  pose proof (ci_rings _ _ _ (co_cache _ _ _ _ Ho1)) as Hr.
  pose proof (ring_first _ _ Partial Hr) as HRp. pose proof (ring_first _ _ Free Hr) as HRf.
  unfold class_head in HRp, HRf.
  assert (Hserve : forall c d, d ∈ R c -> c <> Full ->
    wp (take_from d) (fun p s' => kframe s s' /\ taken s L R fl p s') s1).
  { intros c d Hd Hc. eapply wp_mono; [by eapply take_slab_wp|]. cbv beta.
    intros p s' (Hk & Hp & R' & fl' & H1 & H2 & H3 & H4). split; [done|].
    eapply taken_free; [exact H1|done|done|done|]. intros a Ha. rewrite H4 by done. by rewrite Em. }
  unfold select_slab. kwp. destruct (R Partial) as [|d lp] eqn:EP.
  2:{ destruct HRp as [-> Hne]. rewrite (proj2 (Z.eqb_neq _ _) Hne). cbn [negb]. kwp.
      unfold slab_node. rewrite Z.add_simpl_r. eapply (Hserve Partial); [rewrite EP; left|done]. }
  rewrite HRp, Z.eqb_refl. cbn [negb]. destruct (R Free) as [|d lf] eqn:EF.
  2:{ destruct HRf as [-> Hne]. rewrite (proj2 (Z.eqb_neq _ _) Hne). cbn [negb]. kwp.
      unfold slab_node. rewrite Z.add_simpl_r. eapply (Hserve Free); [rewrite EF; left|done]. }
  rewrite HRf, Z.eqb_refl. cbn [negb]. wp_step. clear Hserve HRp HRf Hr.
  pose proof (no_free_objects _ _ _ (co_cache _ _ _ _ Ho1) EP EF) as Hnone.
  eapply wp_release; [exact Hh|]. intros s2 Hk2 Em2 Eb2. kwp.
  assert (Ho2 : cache_owns s2 L R fl) by (destruct Ho1; split; by rewrite ?Em2, ?Eb2).
  eapply wp_mono; [eapply grow_wp; [exact Ho2|by apply Hk2]|]. cbv beta. intros r s3 (Hk3 & HR).
  assert (Hl3 : lock_free s3 slab_lock) by (apply Hk3, Hk2, Hl1).
  kwp. apply wp_acquire; [done|]. intros s4 Hh4 Em4 Eb4.
  destruct HR as [(-> & Em3 & Eb3 & HL)|(-> & d & L' & HP & Hnew & Ho3 & Hm)].
  - change (negb (STATUS_ERROR =? STATUS_OK)) with true. cbn iota. kwp.
    eapply wp_release; [exact Hh4|]. intros s5 Hk5 Em5 Eb5. kwp.
    assert (E : k_mem s5 = k_mem s2) by congruence. assert (E' : k_buddy s5 = k_buddy s2) by congruence.
    split; [by repeat (etrans; [eassumption|])|]. eapply taken_none; [done|done|done| |congruence].
    destruct Ho2; split; by rewrite ?E, ?E'.
  - rewrite Z.eqb_refl. cbn [negb]. kwp.
    set (R1 := <[Free := d :: R Free]> R) in *. set (fl1 := fl.[d <- slab_objects d]) in *.
    assert (Ho4 : cache_owns s4 L' R1 fl1) by (destruct Ho3; split; by rewrite ?Em4, ?Eb4).
    pose proof (ring_first _ _ Free (ci_rings _ _ _ (co_cache _ _ _ _ Ho4))) as HRf.
    unfold R1 in HRf. rewrite fn_lookup_insert in HRf. unfold class_head in HRf. destruct HRf as [-> _].
    unfold slab_node. rewrite Z.add_simpl_r.
    eapply wp_mono; [eapply (take_slab_wp _ _ L' R1 fl1 Free); [exact Hh4|exact Ho4| |done]|].
    { unfold R1. rewrite fn_lookup_insert. left. }
    cbv beta. intros p s5 (Hk5 & Hp & R' & fl' & H1 & H2 & H3 & H4).
    assert (HS : slabs_of R1 ≡ₚ d :: slabs_of R) by apply slabs_of_put.
    split; [by repeat (etrans; [eassumption|])|].
    eapply (taken_new _ _ _ _ _ _ d L' R' fl'); [exact H1|by rewrite H2|done|done| |done|].
    + rewrite <- H3. unfold free_objects at 1. rewrite HS, bind_cons. unfold fl1 at 1. rewrite upd_eq.
      rewrite (bind_ext_elem fl1 fl); [|intros x Hx; unfold fl1; apply upd_ne; congruence].
      change (slab_objects d ≡ₚ slab_objects d ++ free_objects R fl). by rewrite Hnone, app_nil_r.
    + intros a Ha1 Ha2. rewrite H4, Em4, Hm, Em2, Em; [done|done|done|].
      intros [Hw|(x & Hx & Hw)]; [apply Ha2; by left|]. rewrite HS in Hx.
      apply elem_of_cons in Hx as [->|Hx]; [|apply Ha2; right; eauto].
      apply Ha1. rewrite HP. apply elem_of_app. left. apply slab_page.
      * apply (cb_place _ _ _ _ (cache_inv_but d _ _ _ (co_cache _ _ _ _ Ho4)) d). rewrite HS. left.
      * pose proof geo. unfold sizeof_slab_descriptor, PAGE_SIZE in *. lia.
Qed.
(** ** Objects in use *)

Definition all_objects (S : list ptr) : list ptr := S ≫= slab_objects.
Definition used_objects (R : slab_class -> list ptr) (fl : ptr -> list ptr) : list ptr :=
  filter (fun x => x ∉ free_objects R fl) (all_objects (slabs_of R)).

Lemma objects_disjoint d d' x y :
  slab_place o d -> slab_place o d' -> x ∈ slab_objects d -> y ∈ slab_objects d' -> x <> y ->
  x + size <= y \/ y + size <= x.
Proof using Hg Hsize.
  clear Hcache. intros Hd Hd' Hx Hy Hne. destruct (decide (d = d')) as [->|Hdd].
  - apply objects_from_elem in Hx as (i & _ & ->), Hy as (j & _ & ->).
    assert (i < j \/ j < i) as [?|?] by (assert (i <> j) by congruence; lia); [left|right]; nia.
  - apply slab_object_bounds in Hx, Hy. pose proof (slabs_apart d d' Hd Hd' Hdd). lia.
Qed.

Section contents.
Context (m : mem) (R : slab_class -> list ptr) (fl : ptr -> list ptr) (Hi : cache_inv m R fl).

Lemma inv_place d : d ∈ slabs_of R -> slab_place o d.
Proof using Hi. apply (cb_place _ _ _ _ (cache_inv_but d _ _ _ Hi)). Qed.

Lemma inv_free_sub d x : d ∈ slabs_of R -> x ∈ fl d -> x ∈ slab_objects d.
Proof using Hi. intros [c Hd]%class_of_slab. apply (ci_slabs _ _ _ Hi c d Hd). Qed.

Lemma slab_objects_owner d d' x :
  d ∈ slabs_of R -> d' ∈ slabs_of R -> x ∈ slab_objects d -> x ∈ slab_objects d' -> d = d'.
Proof using Hg Hsize Hi.
  clear Hcache. intros Hd Hd' Hx%slab_object_bounds Hx'%slab_object_bounds.
  destruct (decide (d = d')) as [|Hne]; [done|].
  pose proof (slabs_apart d d' (inv_place d Hd) (inv_place d' Hd') Hne). lia.
Qed.

Lemma NoDup_bind_owner (f : ptr -> list ptr) :
  (forall d, d ∈ slabs_of R -> NoDup (f d)) ->
  (forall d x, d ∈ slabs_of R -> x ∈ f d -> x ∈ slab_objects d) -> NoDup (slabs_of R ≫= f).
Proof using Hg Hsize Hi.
  clear Hcache. intros H1 H2. apply NoDup_bind; [|auto|eapply rings_nodup, Hi].
  intros d d' x Hd Hd' Hx Hx'. eapply slab_objects_owner; eauto.
Qed.

Lemma all_objects_nodup : NoDup (all_objects (slabs_of R)).
Proof using Hg Hsize Hi.
  clear Hcache. apply NoDup_bind_owner; [|done]. intros d _. apply objects_from_nodup. lia.
Qed.

Lemma free_objects_nodup : NoDup (free_objects R fl).
Proof using Hg Hsize Hi.
  clear Hcache. apply NoDup_bind_owner; [|intros; by eapply inv_free_sub].
  intros d [c Hd]%class_of_slab. apply (ci_slabs _ _ _ Hi c d Hd).
Qed.

Lemma free_objects_sub x : x ∈ free_objects R fl -> x ∈ all_objects (slabs_of R).
Proof using Hi.
  intros (d & Hx & Hd)%list_elem_of_bind. apply list_elem_of_bind. exists d.
  split; [by eapply inv_free_sub|done].
Qed.

Lemma used_elem x :
  x ∈ used_objects R fl <-> (exists d, d ∈ slabs_of R /\ x ∈ slab_objects d) /\ x ∉ free_objects R fl.
Proof using Type.
  unfold used_objects, all_objects. rewrite list_elem_of_filter, list_elem_of_bind.
  split; [intros [? (d & ? & ?)]|intros [(d & ? & ?) ?]]; eauto.
Qed.

(** The words of an object are neither bookkeeping nor free pages. *)
Lemma object_word d x a :
  d ∈ slabs_of R -> x ∈ slab_objects d -> x <= a < x + size -> ~ meta_word (slabs_of R) a.
Proof using Hg Hsize Hcache Hi.
  intros Hd Hx%slab_object_bounds Ha. pose proof geo. pose proof (inv_place d Hd) as Hpl.
  destruct Hpl as (? & ? & ?). intros [?|(y & Hy & ?)]; [lia|].
  unfold sizeof_slab_descriptor in *. destruct (decide (y = d)) as [->|Hne]; [lia|].
  pose proof (slabs_apart y d (inv_place y Hy) (inv_place d Hd) Hne). unfold PAGE_SIZE in *. lia.
Qed.
End contents.

(** The pages of the slabs. *)
Definition slab_pages (R : slab_class -> list ptr) : list Z := slabs_of R ≫= pages_of o.

(** The object an allocation hands out was not in use and overlaps none that
    is, and no word of an object in use changes; the pages of the page allocator
    and of the slabs are the same, taken together. *)
Lemma taken_used s L R fl p s' :
  cache_owns s L R fl -> taken s L R fl p s' ->
  (p = NULL \/ exists L' R' fl', cache_owns s' L' R' fl' /\ used_objects R' fl' ≡ₚ p :: used_objects R fl /\
     (forall u, u ∈ used_objects R fl -> u + size <= p \/ p + size <= u) /\
     free_pages L ++ slab_pages R ≡ₚ (free_pages L' ++ slab_pages R') /\
     (length (free_pages L) <= length (free_pages L') + Z.to_nat (2 ^ o))%nat) /\
  (forall u a, u ∈ used_objects R fl -> u <= a < u + size -> k_mem s' a = k_mem s a).
Proof using Hg Hsize Hcache.
  intros Ho Ht. pose proof (co_cache _ _ _ _ Ho) as Hi.
  assert (Hframe : forall u a, u ∈ used_objects R fl -> u <= a < u + size ->
    ~ meta_word (slabs_of R) a /\ page_of a ∉ free_pages L).
  { intros u a [(d & Hd & Hu) _]%used_elem Ha. split; [by eapply object_word|].
    eapply cache_word_page; [exact Ho|]. right. exists d. apply slab_object_bounds in Hu. split; [done|lia]. }
  assert (Hgen : forall L' R' fl', cache_owns s' L' R' fl' -> (forall d, d ∈ slabs_of R -> d ∈ slabs_of R') ->
    p ∈ all_objects (slabs_of R') -> p ∉ free_objects R' fl' ->
    (forall x, x <> p -> x ∈ all_objects (slabs_of R') -> x ∉ free_objects R' fl' -> x ∈ used_objects R fl) ->
    (forall x, x ∈ used_objects R fl -> x <> p /\ x ∉ free_objects R' fl') ->
    used_objects R' fl' ≡ₚ p :: used_objects R fl /\
    forall u, u ∈ used_objects R fl -> u + size <= p \/ p + size <= u).
  { intros L' R' fl' Ho' Hsub Hp Hpf H1 H2. pose proof (co_cache _ _ _ _ Ho') as Hi'. split.
    - apply NoDup_Permutation.
      + apply NoDup_filter. by eapply all_objects_nodup.
      + constructor; [by intros [? _]%H2|]. apply NoDup_filter. by eapply all_objects_nodup.
      + intros x. rewrite elem_of_cons. unfold used_objects at 1. rewrite list_elem_of_filter. split.
        * intros [Hx1 Hx2]. destruct (decide (x = p)); [by left|right; auto].
        * intros [->|Hx]; [done|]. split; [by apply H2|].
          apply used_elem in Hx as [(d & Hd & Hx) _]. apply list_elem_of_bind. exists d. auto.
    - intros u Hu. pose proof (H2 u Hu) as [Hne _]. apply used_elem in Hu as [(d & Hd & Hu) _].
      apply list_elem_of_bind in Hp as (d' & Hp & Hd').
      apply (objects_disjoint d d'); [exact (inv_place _ _ _ Hi d Hd)|exact (inv_place _ _ _ Hi' d' Hd')|done..]. }
  destruct Ht as [R' fl' Ho' HS HF Hp Hm|d L' R' fl' Ho' HS HP HN HF Hp Hm|Ep HN HL Ho' Em].
  - split; [right; exists L, R', fl'; split; [done|]|intros u a Hu Ha; by apply Hm, (Hframe u)].
    pose proof (free_objects_nodup _ _ _ Hi) as Hnd. rewrite HF in Hnd. apply NoDup_cons in Hnd as [Hpf _].
    assert (HA : forall x, x ∈ all_objects (slabs_of R') <-> x ∈ all_objects (slabs_of R))
      by (intros x; unfold all_objects; by rewrite HS).
    apply Logic.and_assoc. split; [|split; [unfold slab_pages; by rewrite HS|lia]].
    apply (Hgen L); [done|intros x; by rewrite HS| |done| |].
    + apply HA. eapply free_objects_sub; [exact Hi|]. rewrite HF. left.
    + intros x Hx1 Hx2%HA Hx3. unfold used_objects. rewrite list_elem_of_filter, HF, elem_of_cons. tauto.
    + intros x. unfold used_objects. rewrite list_elem_of_filter, HF, elem_of_cons. tauto.
  - split; [right; exists L', R', fl'; split; [done|]|intros u a Hu Ha; by apply Hm; apply (Hframe u)].
    assert (Hnd : NoDup (slab_objects d)) by (apply objects_from_nodup; lia).
    rewrite HF in Hnd. apply NoDup_cons in Hnd as [Hpf _].
    pose proof (co_cache _ _ _ _ Ho') as Hi'.
    assert (Hd : d ∈ slabs_of R') by (rewrite HS; left).
    assert (HdR : d ∉ slabs_of R).
    { pose proof (rings_nodup _ _ (ci_rings _ _ _ Hi')) as Hn. rewrite HS in Hn. by apply NoDup_cons in Hn as [? _]. }
    assert (Hob : forall x, x ∈ slab_objects d <-> x = p \/ x ∈ free_objects R' fl')
      by (intros x; by rewrite HF, elem_of_cons).
    assert (HA : forall x, x ∈ all_objects (slabs_of R') <-> x ∈ slab_objects d \/ x ∈ all_objects (slabs_of R))
      by (intros x; unfold all_objects; by rewrite HS, bind_cons, elem_of_app).
    apply Logic.and_assoc. split; [|split; [unfold slab_pages; rewrite HS, HP, bind_cons; solve_Permutation|]].
    2:{ rewrite HP, length_app. unfold pages_of, page_range. rewrite length_fmap, length_seqZ. lia. }
    apply (Hgen L'); [done|intros x Hx; rewrite HS; by right|apply HA; left; apply Hob; by left|done| |].
    + intros x Hx1 [Hx2|Hx2]%HA Hx3; [apply Hob in Hx2; tauto|].
      unfold used_objects. rewrite list_elem_of_filter, HN. split; [apply not_elem_of_nil|done].
    + intros x [(d' & Hd' & Hx) _]%used_elem.
      assert (Hxd : x ∉ slab_objects d).
      { intros Hx'. apply HdR. rewrite <- (slab_objects_owner _ _ _ Hi' d' d x); auto. rewrite HS. by right. }
      rewrite Hob in Hxd. tauto.
  - split; [by left|intros; by rewrite Em].
Qed.
(** An allocation writes the cache, and pages of the slabs and of the page
    allocator, nothing else. *)
Lemma taken_frame s L R fl p s' a :
  cache_owns s L R fl -> taken s L R fl p s' ->
  ~ (cache <= a < cache + sizeof_kmem_cache) -> page_of a ∉ free_pages L ++ slab_pages R ->
  k_mem s' a = k_mem s a.
Proof using Hg Hsize Hcache.
  intros Ho Ht Ha Hp. rewrite elem_of_app in Hp.
  assert (Hmeta : ~ meta_word (slabs_of R) a).
  { intros [?|(d & Hd & ?)]; [done|]. apply Hp. right. apply list_elem_of_bind. exists d. split; [|done].
    apply slab_page; [by eapply inv_place; [apply (co_cache _ _ _ _ Ho)|]|].
    pose proof geo. unfold sizeof_slab_descriptor, PAGE_SIZE in *. lia. }
  destruct Ht as [R' fl' _ _ _ _ Hm|d L' R' fl' _ _ _ _ _ _ Hm|_ _ _ _ Em]; [auto|apply Hm; tauto|by rewrite Em].
Qed.

(** Writes into objects in use leave the cache alone. *)
Definition object_writes (R : slab_class -> list ptr) (fl : ptr -> list ptr) (m m' : mem) : Prop :=
  forall a, (forall u, u ∈ used_objects R fl -> ~ u <= a < u + size) -> m' a = m a.

Lemma cache_owns_objects s L R fl m' :
  cache_owns s L R fl -> object_writes R fl (k_mem s) m' -> cache_owns (set_mem m' s) L R fl.
Proof using Hg Hsize Hcache.
  intros Ho Hw. pose proof Ho as [Hb Hi Hp Hcl Hco]. pose proof geo as Hgeo.
  assert (Hin : forall a, cache_word (slabs_of R) a -> (forall d x, d ∈ slabs_of R -> x ∈ slab_objects d ->
    x ∉ free_objects R fl -> ~ x <= a < x + size) -> m' a = k_mem s a).
  { intros a _ Ha. apply Hw. intros u [(d & Hd & Hu) Hf]%used_elem. eauto. }
  assert (Hown : forall d a, d ∈ slabs_of R -> d <= a < d + 40 -> m' a = k_mem s a).
  { intros d a Hd Ha. apply Hw. intros u [(d' & Hd' & Hu) _]%used_elem Hua.
    eapply (object_word (k_mem s) R fl Hi d' u a Hd' Hu Hua). right. exists d. split; [done|].
    unfold sizeof_slab_descriptor. lia. }
  assert (Hcw : forall k, 0 <= k < 72 -> m' (cache + k) = k_mem s (cache + k)).
  { intros k Hk. apply Hw. intros u [(d' & Hd' & Hu) _]%used_elem Hua.
    eapply (object_word (k_mem s) R fl Hi d' u _ Hd' Hu Hua). left. unfold sizeof_kmem_cache. lia. }
  split; cbn [k_mem k_buddy set_mem]; [| |done|done|done].
  - eapply buddy_inv_local; [exact Hb|]. intros a Ha. apply Hw. intros u [(d & Hd & Hu) _]%used_elem Hua.
    apply (cache_word_page _ _ _ _ a Ho) in Ha; [done|]. right. exists d. apply slab_object_bounds in Hu. split; [done|lia].
  - destruct Hi as [[F1 F2 F3 F4] [A1 A2] H3]. split; [split|split; [done|]|].
    1-4: rewrite Hcw by (slab_offsets; lia); done.
    + intros c. assert (Hn : forall x k, x ∈ ring_nodes cache R c -> 0 <= k < 16 -> m' (x + k) = k_mem s (x + k)).
      { intros x k [->|(d & -> & Hd)%list_elem_of_fmap]%elem_of_cons Hk.
        - unfold class_head. rewrite <- !Z.add_assoc. apply Hcw. slab_offsets. destruct c; lia.
        - apply (Hown d); [by eapply slabs_of_class|]. unfold slab_node, off_slab_lists_node. lia. }
      eapply lseg_same; [| |apply A2]; intros x Hx; apply Hn; try done; unfold node_next, node_prev; lia.
    + intros c d Hd. assert (HdS := slabs_of_class _ _ _ Hd). eapply slab_ok_same; [|by apply H3].
      intros a [Ha|Ha]; [apply (Hown d); [done|unfold off_slab_lists_node in Ha; lia]|].
      apply Hw. intros u [(d' & Hd' & Hu) Hf]%used_elem Hua.
      assert (Had : a ∈ slab_objects d) by (by apply (H3 c d Hd)).
      assert (u <> a).
      { intros ->. apply Hf. apply list_elem_of_bind. eauto. }
      destruct (objects_disjoint d' d u a); try done; [| |lia|lia];
        (eapply (inv_place (k_mem s) R fl); [by split|done]).
Qed.
End cache.
