(* ===== verification/SlabAlloc.v ===== *)
(** * The slab allocator: allocating and releasing objects

    The theorems about [kmem_cache_kalloc], [kmem_cache_kfree] and the size
    classes on top of them, for a cache that satisfies the invariant of
    SlabObjects, and for clients that run any sequence of both. *)

From stdpp Require Import functions.
From S2P Require Import Prelude State Kmath Buddy FreeList BuddyInv BuddyDemo BuddyOps Slab SlabTheorems SlabRings PhysKmalloc SlabObjects.

(** The geometry a cache of [size]-byte objects is given, and where it lies:
    in the kernel image, above every physical page. *)
Record cache_at (cache size o al n : Z) : Prop := {
  ca_geometry : geometry size = Some (o, al, n);
  ca_size : 8 <= size <= 2048;
  ca_high : 2 ^ 48 <= cache;
}.

(** A cache just created satisfies the invariant without slabs. *)
Lemma ready_cache_inv m cache size o al n fl :
  cache_at cache size o al n -> cache_ready m cache size -> cache_inv cache size o al n m (fun _ => []) fl.
Proof.
  intros [Hg Hs Hc] [H1 (o' & al' & n' & Hg' & Ho & Ha & Hn) H3]. rewrite Hg in Hg'. injection Hg' as <- <- <-.
  split; [by split|split|].
  - eapply (nodes_apart cache size o al n Hg Hs Hc); [constructor|]. intros x Hx. by apply elem_of_nil in Hx.
  - intros c. simpl. apply H3. unfold class_head. destruct c; auto.
  - intros c d Hd. by apply elem_of_nil in Hd.
Qed.

Lemma ready_cache_owns {client : AllocClient} s cache size o al n L :
  cache_at cache size o al n -> cache_ready (k_mem s) cache size -> buddy_inv (k_mem s) (k_buddy s) L ->
  ac_inv (k_buddy s) L -> ac_order o ->
  cache_owns cache size o al n s L (fun _ => []) (fun _ => []).
Proof.
  intros Ha Hr Hb Hcl Hco. split; [done|by apply ready_cache_inv| |done|done]. intros d pg Hd. by apply elem_of_nil in Hd.
Qed.

(** What a release does to the cache. *)
Definition released {client : AllocClient} (cache size o al n : Z) (s : kstate) (L : Z -> list ptr) (R : slab_class -> list ptr)
    (fl : ptr -> list ptr) (x : ptr) (s' : kstate) : Prop :=
  exists R' fl', cache_owns cache size o al n s' L R' fl' /\ slabs_of R' ≡ₚ slabs_of R /\
    free_objects R' fl' ≡ₚ x :: free_objects R fl /\
    (forall a, ~ meta_word cache (slabs_of R) a -> a <> x -> k_mem s' a = k_mem s a).

Section ops.
Context {client : AllocClient} (cache size o al n : Z) (Hat : cache_at cache size o al n).

Lemma kalloc_at s L R fl :
  cache_owns cache size o al n s L R fl -> lock_free s slab_lock -> lock_free s buddy_lock ->
  wp (kmem_cache_kalloc cache) (fun p s' => kframe s s' /\ taken cache size o al n s L R fl p s') s.
Proof using Hat. destruct Hat. intros. by apply kalloc_object_wp. Qed.

Lemma kfree_at s L R fl x :
  cache_owns cache size o al n s L R fl -> lock_free s slab_lock -> x ∈ used_objects size al n R fl ->
  wp (kmem_cache_kfree cache x) (fun _ s' => kframe s s' /\ released cache size o al n s L R fl x s') s.
Proof using Hat.
  destruct Hat as [Hg Hs Hc]. intros Ho Hl [(d & Hd & Hx) Hnf]%used_elem.
  assert (Hxd : x ∉ fl d).
  { intros Hx'. apply Hnf. apply list_elem_of_bind. eauto. }
  apply class_of_slab in Hd as Hdc. destruct Hdc as [c Hdc]. pose proof (co_cache _ _ _ _ _ _ _ _ _ Ho) as Hi.
  eapply wp_mono; [by eapply (kfree_object_wp cache size o al n Hg Hs Hc s R fl c d x)|].
  intros _ s' (Hk & Eb & (R' & HP & Hi') & Hm). split; [done|]. exists R', (fl.[d <- x :: fl d]).
  split_and!; [|done| |done].
  - eapply cache_owns_step; [exact Hg|exact Hs|exact Hc|exact Ho|done|done|done|].
    intros a Ha. apply Hm.
    + intros Hw. by apply Ha, (meta_cache_word cache size o al n Hg Hs).
    + intros ->. apply Ha. right. exists d. split; [done|].
      apply (slab_object_bounds size o al n Hg Hs) in Hx. lia.
  - rewrite (free_objects_take R' (fl.[d <- x :: fl d]) d x (fl d)).
    + f_equiv. unfold free_objects. rewrite HP.
      rewrite (bind_ext_elem (_.[d <- fl d]) fl); [done|]. intros y _. unfold upd. destruct (Z.eqb_spec y d); congruence.
    + rewrite HP. eapply rings_nodup, Hi.
    + by rewrite HP.
    + apply upd_eq.
Qed.

Lemma released_used s L R fl x s' :
  cache_owns cache size o al n s L R fl -> x ∈ used_objects size al n R fl ->
  released cache size o al n s L R fl x s' ->
  (exists R' fl', cache_owns cache size o al n s' L R' fl' /\
     used_objects size al n R fl ≡ₚ x :: used_objects size al n R' fl' /\ slabs_of R' ≡ₚ slabs_of R) /\
  (forall u a, u ∈ used_objects size al n R fl -> u <> x -> u <= a < u + size -> k_mem s' a = k_mem s a).
Proof using Hat.
  destruct Hat as [Hg Hs Hc]. intros Ho Hx (R' & fl' & Ho' & HS & HF & Hm).
  pose proof (co_cache _ _ _ _ _ _ _ _ _ Ho) as Hi. pose proof (co_cache _ _ _ _ _ _ _ _ _ Ho') as Hi'.
  pose proof Hx as [(d & Hd & Hxd) Hxf]%used_elem. split.
  - exists R', fl'. split; [done|]. split; [|done]. apply NoDup_Permutation.
    + apply NoDup_filter. by eapply all_objects_nodup.
    + constructor; [|apply NoDup_filter; by eapply all_objects_nodup].
      intros [_ Hn]%used_elem. apply Hn. rewrite HF. left.
    + intros y. rewrite elem_of_cons. unfold used_objects, all_objects.
      rewrite !list_elem_of_filter, HF, HS, elem_of_cons.
      split; [intros [? ?]; destruct (decide (y = x)); tauto|]. intros [->|?]; [|tauto].
      split; [done|]. apply list_elem_of_bind. eauto.
  - intros u a Hu Hne Ha. pose proof Hu as [(d' & Hd' & Hu') _]%used_elem.
    apply Hm; [by eapply (object_word cache size o al n Hg Hs Hc)|].
    destruct (objects_disjoint size o al n Hg Hs d d' x u); [..|lia|lia]; try done.
    + exact (inv_place _ _ _ _ _ _ _ _ Hi d Hd).
    + exact (inv_place _ _ _ _ _ _ _ _ Hi d' Hd').
Qed.
End ops.

(** C7. [kmem_cache_kalloc] returns: a free object of a slab, taking exactly that
    object off the free ones and writing nothing but the words of the cache and
    of the slab descriptors; or, when no object is free, the first object of a
    new slab whose pages come from the page allocator; or NULL, when in addition
    no block of the slab's order or above is left, with memory unchanged.  The
    invariant of the cache and of the page allocator holds after, both locks
    are free again and the interrupt flag is as before. *)
Theorem kmem_cache_kalloc_correct cache size o al n s L R fl :
  cache_at cache size o al n -> cache_owns cache size o al n s L R fl ->
  lock_free s slab_lock -> lock_free s buddy_lock ->
  exists p s', kmem_cache_kalloc cache s = Ret p s' /\ kframe s s' /\ taken cache size o al n s L R fl p s'.
Proof. intros Ha Ho H1 H2. exact (wp_elim _ _ _ (kalloc_at _ _ _ _ _ Ha s L R fl Ho H1 H2)). Qed.

(** C20. [kmem_cache_kfree] of an object in use finds its slab from the address
    alone and puts exactly that object back among the free ones; it writes
    nothing but bookkeeping words and the first word of the object. *)
Theorem kmem_cache_kfree_correct cache size o al n s L R fl x :
  cache_at cache size o al n -> cache_owns cache size o al n s L R fl ->
  lock_free s slab_lock -> x ∈ used_objects size al n R fl ->
  exists s', kmem_cache_kfree cache x s = Ret tt s' /\ kframe s s' /\ released cache size o al n s L R fl x s'.
Proof.
  intros Ha Ho H1 Hx. destruct (wp_elim _ _ _ (kfree_at _ _ _ _ _ Ha s L R fl x Ho H1 Hx)) as ([] & s' & H). eauto.
Qed.

(** ** Clients *)

(** A client of one cache: it asks for objects and gives back objects it
    holds, naming them by position. *)
Inductive client_op : Set := Alloc | Release (k : nat).

Definition client_step (cache : ptr) (op : client_op) (held : list ptr) : cmd kstate (list ptr) :=
  match op with
  | Alloc => let! p := kmem_cache_kalloc cache in ret (if p =? NULL then held else p :: held)
  | Release k =>
      match held !! k with
      | Some x => kmem_cache_kfree cache x;; ret (delete k held)
      | None => ret held
      end
  end.

Fixpoint client_run (cache : ptr) (ops : list client_op) (held : list ptr) : cmd kstate (list ptr) :=
  match ops with
  | [] => ret held
  | op :: ops => let! held := client_step cache op held in client_run cache ops held
  end.

(** The objects held are the objects in use. *)
Definition client_inv (cache size o al n : Z) (s : kstate) (held : list ptr) : Prop :=
  lock_free s slab_lock /\ lock_free s buddy_lock /\
  exists L R fl, cache_owns cache size o al n s L R fl /\ held ≡ₚ used_objects size al n R fl.

Section client.
Context (cache size o al n : Z) (Hat : cache_at cache size o al n).

Lemma client_step_spec op held s :
  client_inv cache size o al n s held ->
  wp (client_step cache op held) (fun held' s' => kframe s s' /\ client_inv cache size o al n s' held' /\
    forall x a, x ∈ held -> x ∈ held' -> x <= a < x + size -> k_mem s' a = k_mem s a) s.
Proof using Hat.
  intros (H1 & H2 & L & R & fl & Ho & HP). pose proof Hat as [Hg Hs Hc]. destruct op as [|k]; cbn [client_step].
  - wp_step. eapply wp_mono; [by eapply kalloc_at|]. cbv beta. intros p s' [Hk Ht]. wp_step.
    destruct (taken_used cache size o al n Hg Hs Hc s L R fl p s' Ho Ht) as [Hu Hm].
    split; [done|]. split.
    + split_and!; [by apply Hk|by apply Hk|]. destruct (Z.eqb_spec p NULL) as [->|Hp].
      * exists L, R, fl. split; [|done]. destruct Ht; try done.
      * destruct Hu as [?|(L' & R' & fl' & Ho' & HU & _)]; [done|]. exists L', R', fl'. split; [done|]. by rewrite HU, HP.
    + intros x a Hx _ Ha. apply (Hm x); [by rewrite <- HP|done].
  - destruct (held !! k) as [x|] eqn:E.
    + assert (Hx : x ∈ used_objects size al n R fl) by (rewrite <- HP; by eapply list_elem_of_lookup_2).
      wp_step. eapply wp_mono; [by eapply kfree_at|]. cbv beta. intros _ s' [Hk Hrel]. wp_step.
      destruct (released_used _ _ _ _ _ Hat s L R fl x s' Ho Hx Hrel) as [(R' & fl' & Ho' & HU & _) Hm].
      assert (HD : held ≡ₚ x :: delete k held) by by apply delete_Permutation.
      assert (Hnd : NoDup held).
      { rewrite HP. apply NoDup_filter.
        exact (all_objects_nodup cache size o al n Hg Hs _ _ _ (co_cache _ _ _ _ _ _ _ _ _ Ho)). }
      split; [done|]. split.
      * split_and!; [by apply Hk|by apply Hk|]. exists L, R', fl'. split; [done|].
        apply (Permutation_cons_inv (a := x)). by rewrite <- HD, <- HU.
      * intros y a Hy Hy' Ha. apply (Hm y); [by rewrite <- HP| |done].
        intros ->. rewrite HD in Hnd. by apply NoDup_cons in Hnd as [? _].
    + wp_step. split; [reflexivity|]. split; [|done]. split_and!; [done|done|]. by exists L, R, fl.
Qed.
End client.

Definition overlap_free (size : Z) (held : list ptr) : Prop :=
  NoDup held /\ forall x y, x ∈ held -> y ∈ held -> x <> y -> x + size <= y \/ y + size <= x.

Lemma client_inv_overlap_free cache size o al n s held :
  cache_at cache size o al n -> client_inv cache size o al n s held -> overlap_free size held.
Proof.
  intros [Hg Hs Hc] (_ & _ & L & R & fl & Ho & HP). pose proof (co_cache _ _ _ _ _ _ _ _ _ Ho) as Hi. split.
  - rewrite HP. apply NoDup_filter. exact (all_objects_nodup cache size o al n Hg Hs _ _ _ Hi).
  - intros x y. rewrite HP. intros [(d & Hd & Hx) _]%used_elem [(d' & Hd' & Hy) _]%used_elem Hne.
    apply (objects_disjoint size o al n Hg Hs d d'); try done; by apply (inv_place _ _ _ _ _ _ _ _ Hi).
Qed.

(** C6. Whatever a client of a cache asks for, in whatever order: every call
    returns, the objects it holds at the end are the objects in use and do not
    overlap, and the locks and the interrupt flag are as before. *)
Theorem slab_client_safe cache size o al n ops held s :
  cache_at cache size o al n -> client_inv cache size o al n s held ->
  exists held' s', client_run cache ops held s = Ret held' s' /\ kframe s s' /\
    client_inv cache size o al n s' held' /\ overlap_free size held'.
Proof.
  intros Ha Hinv. assert (H : wp (client_run cache ops held)
    (fun held' s' => kframe s s' /\ client_inv cache size o al n s' held') s).
  { revert held s Hinv. induction ops as [|op ops IH]; intros held s Hinv; cbn [client_run]; wp_step; [done|].
    eapply wp_mono; [by eapply client_step_spec|]. cbv beta. intros held1 s1 (Hk & Hinv1 & _).
    eapply wp_mono; [by apply IH|]. intros held2 s2 [Hk2 Hinv2]. split; [by etrans|done]. }
  destruct (wp_elim _ _ _ H) as (held' & s' & E & Hk & Hi). exists held', s'.
  eauto using client_inv_overlap_free.
Qed.

(** Between two calls of a client, and across any one call, the words of an
    object it holds before and after are untouched: the allocator never writes
    into an object in use. *)
Theorem slab_client_contents cache size o al n op held s :
  cache_at cache size o al n -> client_inv cache size o al n s held ->
  exists held' s', client_step cache op held s = Ret held' s' /\
    forall x a, x ∈ held -> x ∈ held' -> x <= a < x + size -> k_mem s' a = k_mem s a.
Proof.
  intros Ha Hinv. destruct (wp_elim _ _ _ (client_step_spec _ _ _ _ _ Ha op held s Hinv)) as (h & s' & E & _ & _ & H).
  eauto.
Qed.

(** Allocating an object and giving it back returns the cache to the same
    objects in use. *)
Theorem slab_round_trip cache size o al n s L R fl :
  cache_at cache size o al n -> cache_owns cache size o al n s L R fl ->
  lock_free s slab_lock -> lock_free s buddy_lock ->
  exists p s1, kmem_cache_kalloc cache s = Ret p s1 /\
    (p <> NULL -> exists s2 L' R' fl', kmem_cache_kfree cache p s1 = Ret tt s2 /\
       cache_owns cache size o al n s2 L' R' fl' /\
       used_objects size al n R' fl' ≡ₚ used_objects size al n R fl).
Proof.
  intros Ha Ho H1 H2. pose proof Ha as [Hg Hs Hc].
  destruct (wp_elim _ _ _ (kalloc_at _ _ _ _ _ Ha s L R fl Ho H1 H2)) as (p & s1 & E & Hk & Ht).
  exists p, s1. split; [done|]. intros Hp.
  destruct (taken_used cache size o al n Hg Hs Hc s L R fl p s1 Ho Ht) as [[?|(L1 & R1 & fl1 & Ho1 & HU & _)] _]; [done|].
  assert (Hx : p ∈ used_objects size al n R1 fl1) by (rewrite HU; left).
  destruct (wp_elim _ _ _ (kfree_at _ _ _ _ _ Ha s1 L1 R1 fl1 p Ho1 ltac:(by apply Hk) Hx)) as ([] & s2 & E2 & _ & Hrel).
  destruct (released_used _ _ _ _ _ Ha s1 L1 R1 fl1 p s2 Ho1 Hx Hrel) as [(R2 & fl2 & Ho2 & HU2 & _) _].
  exists s2, L1, R2, fl2. split_and!; [done|done|]. rewrite HU in HU2. by apply Permutation_cons_inv in HU2.
Qed.

(** ** Size classes *)

(** A request of 1 to 2048 bytes is served by the smallest of the eight
    caches whose objects are large enough, and given back to the same cache;
    [slab_kalloc] of zero or more than 2048 bytes returns NULL and
    [slab_kfree] with such a size (below 2^32) does nothing, the state unchanged. *)
Theorem slab_size_classes req x s :
  0 <= req < 2 ^ 32 ->
  if (0 <? req) && (req <=? MAX_SLAB_ALLOC_SIZE) then
    exists i, let cache := k_slab_caches s + i * sizeof_kmem_cache in
      0 <= i < NUM_CACHES /\ req <= 2 ^ (i + 4) /\ (forall j, 0 <= j < i -> 2 ^ (j + 4) < req) /\
      slab_kalloc req s = kmem_cache_kalloc cache s /\ slab_kfree x req s = kmem_cache_kfree cache x s
  else slab_kalloc req s = Ret NULL s /\ slab_kfree x req s = Ret tt s.
Proof.
  intros Hr. destruct (Z.ltb_spec 0 req) as [Hpos|Hz]; cbn [andb].
  - destruct (size_to_index_smallest req ltac:(lia)) as (i & E & Hi & Hin & Hout).
    destruct (Z.leb_spec req MAX_SLAB_ALLOC_SIZE) as [Hle|Hgt].
    + destruct (Hin Hle) as (H8 & Hfit & Hmin). exists i. cbv zeta. split_and!; try done.
      * unfold slab_kalloc, slab_cache, bind, gets. rewrite E. destruct (Z.gtb_spec req MAX_SLAB_ALLOC_SIZE); [lia|].
        cbn [of_loop ret]. destruct (Z.geb_spec i NUM_CACHES); [lia|done].
      * unfold slab_kfree, slab_cache, bind, gets. rewrite E. cbn [of_loop ret].
        destruct (Z.geb_spec i NUM_CACHES); [lia|done].
    + specialize (Hout Hgt). split.
      * unfold slab_kalloc. destruct (Z.gtb_spec req MAX_SLAB_ALLOC_SIZE); [done|lia].
      * unfold slab_kfree, bind. rewrite E. cbn [of_loop ret]. destruct (Z.geb_spec i NUM_CACHES); [done|lia].
  - assert (req = 0) as -> by lia. done.
Qed.

(** ** A cache in a concrete state *)

Definition demo_cache : ptr := 0xffffffff80030000 + 2 * sizeof_kmem_cache.
Definition cache_demo : kstate :=
  set_mem (created_mem demo_cache 64 0 16 63 (k_mem demo_state)) demo_state.

Lemma demo_cache_at : cache_at demo_cache 64 0 16 63.
Proof. split; [vm_compute; reflexivity|lia|done]. Qed.

Lemma demo_cache_owns : cache_owns demo_cache 64 0 16 63 cache_demo demo_lists (fun _ => []) (fun _ => []).
Proof.
  destruct (created_mem_ready demo_cache 64 0 16 63 (k_mem demo_state) ltac:(vm_compute; reflexivity)) as [Hr Hf].
  apply ready_cache_owns; [exact demo_cache_at|exact Hr| |done|done].
  eapply buddy_inv_local; [exact demo_inv|]. intros a Ha. apply Hf.
  destruct (decide (a < demo_cache)); [by left|]. exfalso.
  eapply (high_page _ _ _ a demo_inv); [|exact Ha]. unfold demo_cache, sizeof_kmem_cache in *. lia.
Qed.

Lemma demo_client_inv : client_inv demo_cache 64 0 16 63 cache_demo [].
Proof. split_and!; [done|done|]. exists demo_lists, (fun _ => []), (fun _ => []). split; [exact demo_cache_owns|done]. Qed.

Lemma kmem_cache_kalloc_correct_witness :
  exists p s', kmem_cache_kalloc demo_cache cache_demo = Ret p s' /\ kframe cache_demo s' /\
    taken demo_cache 64 0 16 63 cache_demo demo_lists (fun _ => []) (fun _ => []) p s'.
Proof.
  exact (kmem_cache_kalloc_correct _ _ _ _ _ _ _ _ _ demo_cache_at demo_cache_owns eq_refl eq_refl).
Defined.

Lemma slab_client_safe_witness :
  exists held' s', client_run demo_cache [Alloc; Alloc; Release 1; Alloc; Alloc] [] cache_demo = Ret held' s' /\
    overlap_free 64 held'.
Proof.
  destruct (slab_client_safe demo_cache 64 0 16 63 [Alloc; Alloc; Release 1; Alloc; Alloc] [] cache_demo
    demo_cache_at demo_client_inv) as (h & s' & E & _ & _ & H). exists h, s'. split; [exact E|exact H].
Defined.

(** The run of the example: the released object is handed out again. *)
Example client_run_demo :
  match client_run demo_cache [Alloc; Alloc; Release 1; Alloc; Alloc] [] cache_demo with
  | Ret held _ => held = [0x4010b0; 0x401030; 0x401070] | _ => False end.
Proof. vm_compute. reflexivity. Qed.

Lemma slab_client_contents_witness :
  exists held' s', client_step demo_cache Alloc [] cache_demo = Ret held' s' /\
    forall x a, x ∈ [] -> x ∈ held' -> x <= a < x + 64 -> k_mem s' a = k_mem cache_demo a.
Proof. exact (slab_client_contents demo_cache 64 0 16 63 Alloc [] cache_demo demo_cache_at demo_client_inv). Defined.

Lemma slab_round_trip_witness :
  exists p s1, kmem_cache_kalloc demo_cache cache_demo = Ret p s1 /\ (p = NULL \/ exists s2,
    kmem_cache_kfree demo_cache p s1 = Ret tt s2).
Proof.
  destruct (slab_round_trip demo_cache 64 0 16 63 cache_demo demo_lists _ _ demo_cache_at demo_cache_owns
    eq_refl eq_refl) as (p & s1 & E & H). exists p, s1. split; [exact E|].
  destruct (decide (p = NULL)) as [Hp|Hp]; [left; exact Hp|right].
  destruct (H Hp) as (s2 & _ & _ & _ & E2 & _). exists s2. exact E2.
Defined.

Lemma slab_size_classes_witness :
  exists i, slab_kalloc 100 slab_demo = kmem_cache_kalloc (k_slab_caches slab_demo + i * sizeof_kmem_cache) slab_demo /\
    100 <= 2 ^ (i + 4).
Proof.
  destruct (slab_size_classes 100 NULL slab_demo ltac:(lia)) as (i & _ & H & _ & E & _).
  exists i. split; [exact E|exact H].
Defined.

(** After one allocation the first object of the new slab is in use. *)
Lemma demo_used :
  exists s1 L R fl, kmem_cache_kalloc demo_cache cache_demo = Ret 0x401030 s1 /\ kframe cache_demo s1 /\
    cache_owns demo_cache 64 0 16 63 s1 L R fl /\ 0x401030 ∈ used_objects 64 16 63 R fl.
Proof.
  destruct (wp_elim _ _ _ (kalloc_at _ _ _ _ _ demo_cache_at _ _ _ _ demo_cache_owns eq_refl eq_refl))
    as (p & s1 & E & Hk & Ht).
  assert (Ep : match kmem_cache_kalloc demo_cache cache_demo with Ret q _ => q | _ => NULL end = 0x401030)
    by (vm_compute; reflexivity).
  rewrite E in Ep. subst p. pose proof demo_cache_at as [Hg Hs Hc].
  destruct (taken_used demo_cache 64 0 16 63 Hg Hs Hc _ _ _ _ _ _ demo_cache_owns Ht)
    as [[?|(L & R & fl & Ho & HU & _)] _]; [done|].
  exists s1, L, R, fl. split; [exact E|]. split; [exact Hk|]. split; [exact Ho|]. rewrite HU. left.
Qed.

Lemma kmem_cache_kfree_correct_witness :
  exists s1 s2, kmem_cache_kalloc demo_cache cache_demo = Ret 0x401030 s1 /\
    kmem_cache_kfree demo_cache 0x401030 s1 = Ret tt s2.
Proof.
  destruct demo_used as (s1 & L & R & fl & E & Hk & Ho & Hx).
  destruct (kmem_cache_kfree_correct demo_cache 64 0 16 63 s1 L R fl 0x401030 demo_cache_at Ho
    (kf_locks _ _ Hk slab_lock eq_refl) Hx) as (s2 & E2 & _). exists s1, s2. split; [exact E|exact E2].
Defined.
