(* ===== verification/Mapped.v ===== *)
(** * mapped_phys_kmalloc.c

    The layer that hands out direct-map pointers.  Its memory accesses go
    through virtual addresses; [reached] gives the physical word behind one. *)

From S2P Require Import Prelude State Kmath Buddy FreeList BuddyInv BuddyDemo BuddyOps Slab PhysKmalloc.

(** [(void* )((uint64_t)p + phys_map_offset)] for a pointer that is not NULL. *)
Definition to_mapped (p : ptr) : cmd kstate ptr :=
  if p =? NULL then ret NULL else gets (fun s => u64 (p + phys_map_offset s)).

(** Run [free] on the physical address behind a direct-map pointer; [false] for
    any other pointer. *)
Definition of_mapped (p : ptr) (free : ptr -> cmd kstate unit) : cmd kstate bool :=
  if is_direct_mapped_ptr p then
    let! off := gets phys_map_offset in
    free (u64 (p - off));;
    ret true
  else ret false.

Definition mapped_phys_kmalloc (size : Z) (flg : alloc_flag) : cmd kstate ptr :=
  let! p := phys_kmalloc size flg in to_mapped p.
Definition mapped_phys_kfree (p : ptr) (size : Z) (flg : alloc_flag) : cmd kstate bool :=
  of_mapped p (fun q => phys_kfree q size flg).

Definition mapped_kmem_cache_kalloc (cache : ptr) : cmd kstate ptr :=
  let! object := kmem_cache_kalloc cache in to_mapped object.
Definition mapped_kmem_cache_kfree (cache object : ptr) : cmd kstate bool :=
  of_mapped object (kmem_cache_kfree cache).

Definition mapped_buddy_kalloc (size : Z) : cmd kstate ptr :=
  let! chunk := buddy_kalloc size in to_mapped chunk.
Definition mapped_buddy_kfree (chunk : ptr) (size : Z) : cmd kstate bool :=
  of_mapped chunk (fun q => buddy_kfree q size).

(** [for (i = 0; i < PAGE_SIZE / sizeof(uint64_t); i++) page[i] = 0;] *)
Fixpoint zero_page (turns : nat) (page : ptr) (i : Z) : cmd kstate unit :=
  match turns with
  | O => ret tt
  | S t =>
      modify (fun s => set_mem (k_mem s).[reached (phys_map_offset s) (u64 (page + 8 * i)) <- 0] s);;
      zero_page t page (i + 1)
  end.

Definition get_page : cmd kstate ptr :=
  let! page := get_zeroed_phys_page in to_mapped page.

(** The pointer of [get_page] is direct-mapped already, and is moved again. *)
Definition get_zeroed_page : cmd kstate ptr :=
  let! page := get_page in
  if page =? NULL then ret NULL else
  zero_page (Z.to_nat (PAGE_SIZE / 8)) page 0;;
  gets (fun s => u64 (page + phys_map_offset s)).

Definition free_page (page : ptr) : cmd kstate bool := of_mapped page free_phys_page.

(** ** The translation and its inverse *)

Lemma direct_mapped_shift p :
  0 <= p < DIRECT_MAP_END - DIRECT_MAP_START ->
  u64 (p + DIRECT_MAP_START) = p + DIRECT_MAP_START /\
  is_direct_mapped_ptr (p + DIRECT_MAP_START) = true /\
  u64 (p + DIRECT_MAP_START - DIRECT_MAP_START) = p.
Proof.
  unfold is_direct_mapped_ptr, DIRECT_MAP_START, DIRECT_MAP_END. intros Hp.
  rewrite !u64_small by lia. rewrite Z.geb_leb, (proj2 (Z.leb_le _ _)), (proj2 (Z.ltb_lt _ _)) by lia.
  split_and!; [done|done|lia].
Qed.

(** Freeing what the mapped layer handed out frees what the physical layer
    handed out: after the switch to the direct map, a pointer returned by
    [mapped_phys_kmalloc] for a physical block below the map's size is passed
    back by [mapped_phys_kfree] as exactly that block, with the same size and
    strategy, and the call reports success. *)
Theorem mapped_kfree_inverts size flg s p s1 s2 :
  phys_kmalloc size flg s = Ret p s1 -> phys_map_offset s1 = DIRECT_MAP_START ->
  phys_map_offset s2 = DIRECT_MAP_START -> 0 < p < DIRECT_MAP_END - DIRECT_MAP_START ->
  exists v, mapped_phys_kmalloc size flg s = Ret v s1 /\ reached DIRECT_MAP_START v = p /\
    mapped_phys_kfree v size flg s2 = (phys_kfree p size flg;; ret true) s2.
Proof.
  intros E H1 H2 Hp. destruct (direct_mapped_shift p ltac:(lia)) as (E1 & E2 & E3).
  exists (p + DIRECT_MAP_START). unfold mapped_phys_kmalloc, mapped_phys_kfree, to_mapped, of_mapped.
  unfold bind at 1. rewrite E, (proj2 (Z.eqb_neq p NULL)) by (unfold NULL; lia).
  unfold gets, reached. rewrite H1, E1, E2. split_and!; [done|lia|].
  unfold bind. by rewrite H2, E3.
Qed.

Definition mapped_demo : kstate :=
  mk_kstate (fun _ => 0) demo_md (fun _ => mk_spinlock 0 0 0xffffffff 0) 0x202 0 DIRECT_MAP_START []
    0xffffffff80030000.

Lemma mapped_kfree_inverts_witness :
  exists v s1, mapped_phys_kmalloc 4096 BUDDY_ALLOC mapped_demo = Ret v s1 /\
    reached DIRECT_MAP_START v = 0x401000.
Proof.
  assert (Hrange : 0 < 0x401000 < DIRECT_MAP_END - DIRECT_MAP_START) by done.
  assert (Hc : match phys_kmalloc 4096 BUDDY_ALLOC mapped_demo with
               | Ret p s1 => p = 0x401000 /\ phys_map_offset s1 = DIRECT_MAP_START
               | _ => False end) by (vm_compute; done).
  destruct (phys_kmalloc 4096 BUDDY_ALLOC mapped_demo) as [p s1| |] eqn:E; [|destruct Hc..].
  destruct Hc as [-> Ho].
  destruct (mapped_kfree_inverts 4096 BUDDY_ALLOC mapped_demo 0x401000 s1 mapped_demo E Ho
      eq_refl Hrange) as (v & Ev & Hr & _). exists v, s1. exact (conj Ev Hr).
Defined.

(** Before the switch the offset is 0 and the pointers handed out are physical
    addresses, which are not in the direct map: releasing one through this layer
    reports failure and releases nothing. *)
Theorem mapped_kfree_before_switch p size flg s :
  0 <= p < DIRECT_MAP_START ->
  mapped_phys_kfree p size flg s = Ret false s /\ mapped_buddy_kfree p size s = Ret false s /\
  free_page p s = Ret false s.
Proof.
  intros Hp. unfold mapped_phys_kfree, mapped_buddy_kfree, free_page, of_mapped, is_direct_mapped_ptr.
  rewrite Z.geb_leb, (proj2 (Z.leb_gt _ _)) by lia. done.
Qed.

Lemma mapped_kfree_before_switch_witness :
  mapped_phys_kfree 0x401000 4096 BUDDY_ALLOC demo_state = Ret false demo_state.
Proof. apply (mapped_kfree_before_switch 0x401000 4096 BUDDY_ALLOC demo_state). done. Defined.

(** ** The zeroed page *)

Lemma zero_page_frame turns page i s :
  exists m, zero_page turns page i s = Ret tt (set_mem m s).
Proof.
  revert i s. induction turns as [|t IH]; intros i s; cbn [zero_page].
  - exists (k_mem s). by destruct s.
  - unfold bind at 1, modify. destruct (IH (i + 1) (set_mem
      (k_mem s).[reached (phys_map_offset s) (u64 (page + 8 * i)) <- 0] s)) as [m ->].
    by exists m.
Qed.

(** After the switch [get_zeroed_page] adds the direct map's offset twice: the
    pointer it returns for a frame below the map's size lies outside the direct
    map, so [free_page] refuses it and the frame is lost. *)
Theorem get_zeroed_page_leaks s p s1 :
  get_zeroed_phys_page s = Ret p s1 -> phys_map_offset s1 = DIRECT_MAP_START ->
  0 < p < DIRECT_MAP_END - DIRECT_MAP_START ->
  exists v s2, get_zeroed_page s = Ret v s2 /\ v <> NULL /\
    is_direct_mapped_ptr v = false /\ free_page v s2 = Ret false s2.
Proof.
  intros E Ho Hp. destruct (direct_mapped_shift p ltac:(lia)) as (E1 & _).
  unfold get_zeroed_page, get_page, to_mapped. unfold bind at 1 2. rewrite E.
  rewrite (proj2 (Z.eqb_neq p NULL)) by (unfold NULL; lia). unfold gets at 1. rewrite Ho, E1.
  rewrite (proj2 (Z.eqb_neq _ NULL)) by (unfold NULL, DIRECT_MAP_START in *; lia).
  unfold bind at 1. destruct (zero_page_frame (Z.to_nat (PAGE_SIZE / 8)) (p + DIRECT_MAP_START) 0 s1)
    as [m ->].
  assert (Hv : u64 (p + DIRECT_MAP_START + DIRECT_MAP_START) = p + 2 * DIRECT_MAP_START - 2 ^ 64).
  { unfold u64, DIRECT_MAP_START, DIRECT_MAP_END in *. symmetry.
    apply Z.mod_unique_pos with 1; lia. }
  assert (Hf : is_direct_mapped_ptr (p + 2 * DIRECT_MAP_START - 2 ^ 64) = false).
  { unfold is_direct_mapped_ptr, DIRECT_MAP_START, DIRECT_MAP_END in *.
    rewrite Z.geb_leb, (proj2 (Z.leb_gt _ _)) by lia. done. }
  eexists _, _. split; [unfold gets; cbn [phys_map_offset set_mem]; rewrite Ho, Hv; reflexivity|].
  split; [unfold NULL, DIRECT_MAP_START; lia|]. split; [done|].
  unfold free_page, of_mapped. by rewrite Hf.
Qed.

Lemma get_zeroed_page_leaks_witness :
  exists v s2, get_zeroed_page mapped_demo = Ret v s2 /\ free_page v s2 = Ret false s2.
Proof.
  assert (Hrange : 0 < 0x401000 < DIRECT_MAP_END - DIRECT_MAP_START) by done.
  assert (Hc : match get_zeroed_phys_page mapped_demo with
               | Ret p s1 => p = 0x401000 /\ phys_map_offset s1 = DIRECT_MAP_START
               | _ => False end) by (vm_compute; done).
  destruct (get_zeroed_phys_page mapped_demo) as [p s1| |] eqn:E; [|destruct Hc..].
  destruct Hc as [-> Ho].
  destruct (get_zeroed_page_leaks mapped_demo 0x401000 s1 E Ho Hrange)
      as (v & s2 & Ev & _ & _ & Hf). exists v, s2. exact (conj Ev Hf).
Defined.
