(* ===== verification/Mmu.v ===== *)
(** * mmu.c: definitions

    Page-table entries, the walk from PML4 to PT, and the routines that map and
    unmap 4 KB and 2 MB pages.  Tables are frames of physical memory: entry [i]
    of table [t] is the word at [t + 8 * i]. *)

From S2P Require Import Prelude State Kmath Buddy Slab PhysKmalloc.

Definition PTE_PRESENT : Z := 0x1.
Definition PTE_WRITABLE : Z := 0x2.
Definition PTE_HUGE_PAGE : Z := 0x80.
Definition PTE_ADDR_MASK : Z := 0x000FFFFFFFFFF000.

Definition VIRT_TO_PML4_IDX (virt : Z) : Z := Z.land (Z.shiftr virt 39) 0x1FF.
Definition VIRT_TO_PDPT_IDX (virt : Z) : Z := Z.land (Z.shiftr virt 30) 0x1FF.
Definition VIRT_TO_PD_IDX (virt : Z) : Z := Z.land (Z.shiftr virt 21) 0x1FF.
Definition VIRT_TO_PT_IDX (virt : Z) : Z := Z.land (Z.shiftr virt 12) 0x1FF.

Definition has_flag (pte flag : Z) : bool := negb (Z.land pte flag =? 0).

(** [pml4t + pml4t_idx] as an address. *)
Definition entry (table idx : Z) : ptr := table + 8 * idx.

(** [for (i = 0; i < 512; i++) if (page_directory[i] != 0) return false;] *)
Fixpoint is_empty (turns : nat) (m : mem) (table i : Z) : bool :=
  match turns with
  | O => true
  | S t => if negb (m (entry table i) =? 0) then false else is_empty t m table (i + 1)
  end.

Definition table_is_empty (table : ptr) : cmd kstate bool :=
  gets (fun s => is_empty 512 (k_mem s) table 0).

Definition invlpg (addr : Z) : cmd kstate unit := modify (add_invlpg addr).

(** The table a slot points to, allocated and cleared if there is none. *)
Definition wire_table (slot : ptr) (msg : string) : cmd kstate ptr :=
  let! e := load slot in
  (if has_flag e PTE_PRESENT then ret tt else
   let! new := phys_kmalloc 4096 BUDDY_ALLOC in
   if new =? NULL then panic msg else
   memset_pg new;;
   store slot (Z.lor (Z.lor new PTE_PRESENT) PTE_WRITABLE));;
  let! e := load slot in
  ret (Z.land e PTE_ADDR_MASK).

Definition no_pdpt : string := "Failed to allocate 4KiB page for PDPT".
Definition no_pd : string := "Failed to allocate 4KiB page for PD".
Definition no_pt : string := "Failed to allocate 4KiB page for PT".

(** ** Mapping *)

Definition map_huge_page (pml4t paddr vaddr flags : Z) : cmd kstate unit :=
  if negb (has_flag flags PTE_HUGE_PAGE) then
    panic "INCORRECTLY MAPPED PAGE WITH MAP HUGE PAGE FUNCTION"
  else
  let! pdpt := wire_table (entry pml4t (VIRT_TO_PML4_IDX vaddr)) no_pdpt in
  let! pd := wire_table (entry pdpt (VIRT_TO_PDPT_IDX vaddr)) no_pd in
  store (entry pd (VIRT_TO_PD_IDX vaddr)) (Z.lor paddr flags).

(** The [return] behind the huge-page test is not part of the [if]: nothing
    below it is reached. *)
Definition map_page (pml4t paddr vaddr flags : Z) : cmd kstate unit :=
  (if has_flag flags PTE_HUGE_PAGE then map_huge_page pml4t paddr vaddr flags else ret tt);;
  ret tt.

(** [~0ULL], an index no entry has. *)
Definition NO_IDX : Z := u64 (-1).

(** The huge-page loop of [map_pages]; [c4], [c3], [pdpt], [pd] are the cached
    indices and tables of the previous turn. *)
Fixpoint map_huge_loop (turns : nat) (pml4t cur_paddr cur_vaddr flags c4 c3 pdpt pd : Z) :
    cmd kstate unit :=
  match turns with
  | O => ret tt
  | S t =>
      let new4 := VIRT_TO_PML4_IDX cur_vaddr in
      let new3 := VIRT_TO_PDPT_IDX cur_vaddr in
      let! pdpt := (if new4 =? c4 then ret pdpt else wire_table (entry pml4t new4) no_pdpt) in
      let c3 := if new4 =? c4 then c3 else NO_IDX in
      let! pd := (if new3 =? c3 then ret pd else wire_table (entry pdpt new3) no_pd) in
      store (entry pd (VIRT_TO_PD_IDX cur_vaddr)) (Z.lor cur_paddr flags);;
      map_huge_loop t pml4t (u64 (cur_paddr + HUGE_PAGE_SIZE)) (u64 (cur_vaddr + HUGE_PAGE_SIZE))
        flags new4 new3 pdpt pd
  end.

Fixpoint map_small_loop (turns : nat) (pml4t cur_paddr cur_vaddr flags c4 c3 c2 pdpt pd pt : Z) :
    cmd kstate unit :=
  match turns with
  | O => ret tt
  | S t =>
      let new4 := VIRT_TO_PML4_IDX cur_vaddr in
      let new3 := VIRT_TO_PDPT_IDX cur_vaddr in
      let new2 := VIRT_TO_PD_IDX cur_vaddr in
      let! pdpt := (if new4 =? c4 then ret pdpt else wire_table (entry pml4t new4) no_pdpt) in
      let c3 := if new4 =? c4 then c3 else NO_IDX in
      let! pd := (if new3 =? c3 then ret pd else wire_table (entry pdpt new3) no_pd) in
      let c2 := if new3 =? c3 then c2 else NO_IDX in
      let! pt := (if new2 =? c2 then ret pt else wire_table (entry pd new2) no_pt) in
      store (entry pt (VIRT_TO_PT_IDX cur_vaddr)) (Z.lor cur_paddr flags);;
      map_small_loop t pml4t (u64 (cur_paddr + PAGE_SIZE)) (u64 (cur_vaddr + PAGE_SIZE))
        flags new4 new3 new2 pdpt pd pt
  end.

Definition map_pages (pml4t paddr vaddr flags num_pages : Z) : cmd kstate unit :=
  if num_pages =? 0 then ret tt else
  if has_flag flags PTE_HUGE_PAGE then
    map_huge_loop (Z.to_nat num_pages) pml4t paddr vaddr flags NO_IDX NO_IDX NULL NULL
  else
    map_small_loop (Z.to_nat num_pages) pml4t (Z.land paddr (not64 (PAGE_SIZE - 1))) vaddr flags
      NO_IDX NO_IDX NO_IDX NULL NULL NULL.

(** ** Unmapping *)

(** If [table] has become empty, clear the slot that points to it, give its
    frame back and go on with the table the slot is in. *)
Definition drop_if_empty (table slot : ptr) (k : cmd kstate unit) : cmd kstate unit :=
  let! empty := table_is_empty table in
  if empty then
    store slot 0;;
    phys_kfree table PAGE_SIZE BUDDY_ALLOC;;
    k
  else ret tt.

(** One 4 KB page: the body of [unmap_page] and of the loop of [unmap_pages],
    which differ in the two messages. *)
Definition unmap_small (pml4t aligned_paddr vaddr : Z) (msg_huge msg_wrong : string) : cmd kstate unit :=
  let slot4 := entry pml4t (VIRT_TO_PML4_IDX vaddr) in
  let! e4 := load slot4 in
  if negb (has_flag e4 PTE_PRESENT) then ret tt else
  let pdpt := Z.land e4 PTE_ADDR_MASK in
  let slot3 := entry pdpt (VIRT_TO_PDPT_IDX vaddr) in
  let! e3 := load slot3 in
  if negb (has_flag e3 PTE_PRESENT) then ret tt else
  let pd := Z.land e3 PTE_ADDR_MASK in
  let slot2 := entry pd (VIRT_TO_PD_IDX vaddr) in
  let! e2 := load slot2 in
  if negb (has_flag e2 PTE_PRESENT) then ret tt else
  if has_flag e2 PTE_HUGE_PAGE then panic msg_huge else
  let pt := Z.land e2 PTE_ADDR_MASK in
  let slot1 := entry pt (VIRT_TO_PT_IDX vaddr) in
  let! e1 := load slot1 in
  if negb (has_flag e1 PTE_PRESENT) then ret tt else
  if negb (Z.land e1 PTE_ADDR_MASK =? aligned_paddr) then panic msg_wrong else
  store slot1 0;;
  invlpg vaddr;;
  drop_if_empty pt slot2 (drop_if_empty pd slot3 (drop_if_empty pdpt slot4 (ret tt))).

Definition unmap_huge (pml4t aligned_paddr vaddr : Z) (msg_small msg_wrong : string) : cmd kstate unit :=
  let slot4 := entry pml4t (VIRT_TO_PML4_IDX vaddr) in
  let! e4 := load slot4 in
  if negb (has_flag e4 PTE_PRESENT) then ret tt else
  let pdpt := Z.land e4 PTE_ADDR_MASK in
  let slot3 := entry pdpt (VIRT_TO_PDPT_IDX vaddr) in
  let! e3 := load slot3 in
  if negb (has_flag e3 PTE_PRESENT) then ret tt else
  let pd := Z.land e3 PTE_ADDR_MASK in
  let slot2 := entry pd (VIRT_TO_PD_IDX vaddr) in
  let! e2 := load slot2 in
  if negb (has_flag e2 PTE_PRESENT) then ret tt else
  if negb (has_flag e2 PTE_HUGE_PAGE) then panic msg_small else
  if negb (Z.land e2 PTE_ADDR_MASK =? aligned_paddr) then panic msg_wrong else
  store slot2 0;;
  invlpg vaddr;;
  drop_if_empty pd slot3 (drop_if_empty pdpt slot4 (ret tt)).

Definition unmap_page (pml4t paddr vaddr : Z) : cmd kstate unit :=
  unmap_small pml4t (Z.land paddr (not64 (PAGE_SIZE - 1))) vaddr
    "UNMAPPED HUGE PAGE WITH REGULAR UNMAP_PAGE FUNCTION" "TRIED TO UNMAP WRONG PAGE".

Definition unmap_huge_page (pml4t paddr vaddr : Z) : cmd kstate unit :=
  unmap_huge pml4t (Z.land paddr (not64 (HUGE_PAGE_SIZE - 1))) vaddr
    "TRIED TO UNMAP A REGULAR PAGE WITH UNMAP_HUGE_PAGE FUNCTION" "TRIED TO UNMAP WRONG HUGE PAGE".

(** [for (i = 0; i < num_pages; i++)] with [step] the size of a page. *)
Fixpoint unmap_loop (turns : nat) (step i paddr vaddr : Z) (one : Z -> Z -> cmd kstate unit) :
    cmd kstate unit :=
  match turns with
  | O => ret tt
  | S t =>
      one (u64 (paddr + u64 (i * step))) (u64 (vaddr + u64 (i * step)));;
      unmap_loop t step (i + 1) paddr vaddr one
  end.

Definition unmap_pages (pml4t paddr vaddr flags num_pages : Z) : cmd kstate unit :=
  if num_pages <=? 0 then ret tt else
  if has_flag flags PTE_HUGE_PAGE then
    unmap_loop (Z.to_nat num_pages) HUGE_PAGE_SIZE 0 (Z.land paddr (not64 (HUGE_PAGE_SIZE - 1))) vaddr
      (fun p v => unmap_huge pml4t p v "TRIED TO UNMAP A REGULAR PAGE WITH INCORRECT FLAGS ARGUMENT"
                    "TRIED TO UNMAP WRONG HUGE PAGES")
  else
    unmap_loop (Z.to_nat num_pages) PAGE_SIZE 0 (Z.land paddr (not64 (PAGE_SIZE - 1))) vaddr
      (fun p v => unmap_small pml4t p v "TRIED TO UNMAP HUGE PAGE WITH REGULAR PAGE FLAGS IN UNMAP_PAGES"
                    "TRIED TO UNMAP WRONG PAGES").
