(* ===== verification/MmuInv.v ===== *)
(** * Page tables: paths, the invariant and the views

    A table is named by the path of indices that leads to it from the root.
    The invariant says that distinct paths lead to distinct frames, none of
    them free.  The views of the tree are the 4 KB and the 2 MB entries as
    functions of path and index. *)

From S2P Require Import Prelude State Kmath Buddy FreeList BuddyInv Slab PhysKmalloc Mmu.

(** An entry that points to a table of the next level. *)
Definition is_link (e : Z) : bool := has_flag e PTE_PRESENT && negb (has_flag e PTE_HUGE_PAGE).

Fixpoint tbl (m : mem) (t : ptr) (path : list Z) : option ptr :=
  match path with
  | [] => Some t
  | i :: rest =>
      let e := m (entry t i) in
      if is_link e then tbl m (Z.land e PTE_ADDR_MASK) rest else None
  end.

Definition idx_ok (i : Z) : Prop := 0 <= i < 512.
Definition path_ok (p : list Z) : Prop := Forall idx_ok p /\ (length p <= 3)%nat.

(** The entry at the end of a path; 0 where there is no table. *)
Definition leaf (m : mem) (root : ptr) (q : list Z) (j : Z) : Z :=
  match tbl m root q with Some t => m (entry t j) | None => 0 end.

(** The entry if it maps a huge page. *)
Definition huge_leaf (m : mem) (root : ptr) (q : list Z) (j : Z) : Z :=
  let e := leaf m root q j in
  if has_flag e PTE_PRESENT && has_flag e PTE_HUGE_PAGE then e else 0.

Record pt_inv (m : mem) (root : ptr) (F : list Z) : Prop := {
  pi_frame : forall p t, path_ok p -> tbl m root p = Some t -> frame_ok t /\ t ∉ F;
  pi_inj : forall p q t, path_ok p -> path_ok q ->
    tbl m root p = Some t -> tbl m root q = Some t -> p = q;
  pi_nogiant : forall p t i, path_ok p -> (length p <= 1)%nat -> idx_ok i ->
    tbl m root p = Some t -> has_flag (m (entry t i)) PTE_PRESENT = true ->
    has_flag (m (entry t i)) PTE_HUGE_PAGE = false;
}.

(** ** Paths *)

Lemma tbl_snoc m t p i :
  tbl m t (p ++ [i]) =
  match tbl m t p with
  | Some u => if is_link (m (entry u i)) then Some (Z.land (m (entry u i)) PTE_ADDR_MASK) else None
  | None => None
  end.
Proof.
  revert t. induction p as [|j p IH]; intros t; simpl; [done|]. by destruct (is_link _).
Qed.

Lemma path_ok_snoc p i : path_ok (p ++ [i]) -> path_ok p /\ idx_ok i /\ (length p < 3)%nat.
Proof.
  intros [Ha Hl]. rewrite length_app in Hl. simpl in Hl. apply Forall_app in Ha as [Ha Hi].
  split; [split; [done|lia]|]. split; [by inversion Hi|lia].
Qed.

Lemma path_ok_snoc_2 p i : path_ok p -> idx_ok i -> (length p < 3)%nat -> path_ok (p ++ [i]).
Proof.
  intros [Ha Hl] Hi Hlt. split; [apply Forall_app; auto|]. rewrite length_app. simpl. lia.
Qed.

Lemma path_ok_nil : path_ok [].
Proof. split; [constructor|simpl; lia]. Qed.

Lemma entry_page t i : frame_ok t -> idx_ok i -> page_of (entry t i) = t.
Proof.
  unfold frame_ok, page_aligned, idx_ok, page_of, entry, PAGE_SIZE. intros [Ha _] Hi. dlia.
Qed.

Lemma entry_inj t u i j :
  frame_ok t -> frame_ok u -> idx_ok i -> idx_ok j -> entry t i = entry u j -> t = u /\ i = j.
Proof.
  intros Ht Hu Hi Hj E. assert (t = u) as ->.
  { rewrite <- (entry_page t i), <- (entry_page u j) by done. by rewrite E. }
  unfold entry in E. split; [done|lia].
Qed.

(** ** Flags of the entries the code writes *)

Lemma land_frame_low p f : page_aligned p -> 0 <= f < PAGE_SIZE -> Z.land p f = 0.
Proof.
  unfold page_aligned, PAGE_SIZE. intros Hp Hf. apply Z.bits_inj'. intros n Hn.
  rewrite Z.land_spec, Z.bits_0. destruct (decide (n < 12)).
  - rewrite <- (Z.mod_pow2_bits_low p 12 n) by lia. change (2 ^ 12) with 0x1000. rewrite Hp.
    by rewrite Z.bits_0.
  - destruct (Z.eqb_spec f 0) as [->|]; [by rewrite Z.bits_0, andb_false_r|].
    rewrite (Z.bits_above_log2 f n), andb_false_r; [done|lia|].
    apply Z.log2_lt_pow2; [lia|]. assert (2 ^ 12 <= 2 ^ n) by (apply Z.pow_le_mono_r; lia). lia.
Qed.

Lemma land_frame_mask p : frame_ok p -> Z.land p PTE_ADDR_MASK = p.
Proof.
  intros [Ha Hp]. change PTE_ADDR_MASK with (Z.lxor (Z.ones 52) (Z.ones 12)).
  apply Z.bits_inj'. intros n Hn. rewrite Z.land_spec, Z.lxor_spec, !Z.testbit_ones_nonneg by lia.
  destruct (decide (n < 12)).
  - rewrite <- (Z.mod_pow2_bits_low p 12 n) by lia. change (2 ^ 12) with PAGE_SIZE. rewrite Ha.
    by rewrite Z.bits_0.
  - destruct (decide (n < 52)).
    + rewrite (proj2 (Z.ltb_lt n 52)), (proj2 (Z.ltb_ge n 12)) by lia. simpl. by rewrite andb_true_r.
    + rewrite (Z.bits_above_log2 p n); [done|lia|]. apply Z.log2_lt_pow2; [lia|].
      assert (2 ^ 48 <= 2 ^ n) by (apply Z.pow_le_mono_r; lia). lia.
Qed.

Definition table_entry (p : ptr) : Z := Z.lor (Z.lor p PTE_PRESENT) PTE_WRITABLE.

Lemma table_entry_link p :
  frame_ok p -> is_link (table_entry p) = true /\ Z.land (table_entry p) PTE_ADDR_MASK = p /\
    has_flag (table_entry p) PTE_PRESENT = true /\ has_flag (table_entry p) PTE_HUGE_PAGE = false.
Proof.
  intros Hp. pose proof (proj1 Hp) as Ha.
  assert (E : forall f, Z.land (table_entry p) f = Z.lor (Z.land p f) (Z.land 3 f)).
  { intros f. unfold table_entry. rewrite <- Z.lor_assoc. change (Z.lor PTE_PRESENT PTE_WRITABLE) with 3.
    apply Z.land_lor_distr_l. }
  assert (H1 : has_flag (table_entry p) PTE_PRESENT = true).
  { unfold has_flag. rewrite E, land_frame_low by done. done. }
  assert (H2 : has_flag (table_entry p) PTE_HUGE_PAGE = false).
  { unfold has_flag. rewrite E, land_frame_low by done. done. }
  unfold is_link. rewrite H1, H2, E, land_frame_mask by done.
  split_and!; try done. apply Z.lor_0_r.
Qed.

Lemma is_link_0 : is_link 0 = false.
Proof. done. Qed.

(** ** Memory changes and the tree *)

(** Writing outside the tables: the tree is the same. *)
Lemma tbl_frame m m' root F q :
  pt_inv m root F -> mem_frame F m m' -> path_ok q -> tbl m' root q = tbl m root q.
Proof.
  intros Hi Hf. induction q as [|i q IH] using rev_ind; intros Hq; [done|].
  apply path_ok_snoc in Hq as (Hq & Hidx & _). rewrite !tbl_snoc, IH by done.
  destruct (tbl m root q) as [u|] eqn:E; [|done].
  destruct (pi_frame _ _ _ Hi q u Hq E) as [Hu Hn].
  rewrite (Hf (entry u i)); [done|]. by rewrite entry_page.
Qed.

Lemma entry_frame m m' root F q t j :
  pt_inv m root F -> mem_frame F m m' -> path_ok q -> idx_ok j -> tbl m root q = Some t ->
  m' (entry t j) = m (entry t j).
Proof.
  intros Hi Hf Hq Hj E. destruct (pi_frame _ _ _ Hi q t Hq E) as [Ht Hn].
  apply Hf. by rewrite entry_page.
Qed.

Lemma leaf_frame m m' root F q j :
  pt_inv m root F -> mem_frame F m m' -> path_ok q -> idx_ok j -> leaf m' root q j = leaf m root q j.
Proof.
  intros Hi Hf Hq Hj. unfold leaf. rewrite (tbl_frame m m' root F) by done.
  destruct (tbl m root q) as [t|] eqn:E; [|done]. by eapply entry_frame.
Qed.

Lemma pt_inv_frame m m' root F F' :
  pt_inv m root F -> mem_frame F m m' -> F' ⊆ F -> pt_inv m' root F'.
Proof.
  intros Hi Hf Hs. split.
  - intros p t Hp. rewrite (tbl_frame m m' root F) by done. intros E.
    destruct (pi_frame _ _ _ Hi p t Hp E). set_solver.
  - intros p q t Hp Hq. rewrite !(tbl_frame m m' root F) by done. by apply (pi_inj _ _ _ Hi).
  - intros p t i Hp Hl Hidx. rewrite (tbl_frame m m' root F) by done. intros E.
    rewrite (entry_frame m m' root F p t i Hi Hf Hp Hidx E). by apply (pi_nogiant _ _ _ Hi p).
Qed.

(** Writing entry [i0] of the table at [p0]. *)
Section set_entry.
Context (m : mem) (root : ptr) (F : list Z) (Hi : pt_inv m root F).
Context (p0 : list Z) (t0 i0 e : Z).
Hypothesis (Hp0 : path_ok p0) (Hi0 : idx_ok i0) (Ht0 : tbl m root p0 = Some t0).
Let m' : mem := m.[entry t0 i0 <- e].

Lemma set_entry_same : m' (entry t0 i0) = e.
Proof. apply upd_eq. Qed.

Lemma set_entry_other q t j :
  path_ok q -> idx_ok j -> tbl m root q = Some t -> ~ (q = p0 /\ j = i0) ->
  m' (entry t j) = m (entry t j).
Proof using Hi Hp0 Hi0 Ht0.
  intros Hq Hj E Hne. apply upd_ne. intros Heq.
  destruct (entry_inj t t0 j i0) as [-> ->]; try done.
  - apply (pi_frame _ _ _ Hi q t Hq E).
  - apply (pi_frame _ _ _ Hi p0 t0 Hp0 Ht0).
  - apply Hne. split; [|done]. by eapply pi_inj.
Qed.

Lemma set_entry_tbl q :
  path_ok q -> ~ (p0 ++ [i0]) `prefix_of` q -> tbl m' root q = tbl m root q.
Proof using Hi Hp0 Hi0 Ht0.
  induction q as [|i q IH] using rev_ind; intros Hq Hpre; [done|].
  apply path_ok_snoc in Hq as (Hq & Hidx & _). rewrite !tbl_snoc, IH; [|done|].
  2:{ intros H. apply Hpre. by apply prefix_app_r. }
  destruct (tbl m root q) as [u|] eqn:E; [|done].
  rewrite (set_entry_other q u i); try done. intros [-> ->]. by apply Hpre.
Qed.

Lemma set_entry_at : 
  tbl m' root (p0 ++ [i0]) = if is_link e then Some (Z.land e PTE_ADDR_MASK) else None.
Proof using Hi Hp0 Hi0 Ht0.
  rewrite tbl_snoc, set_entry_tbl; [by rewrite Ht0, set_entry_same|done|].
  intros H%prefix_length. rewrite length_app in H. simpl in H. lia.
Qed.

Lemma tbl_app mm t p q : tbl mm t (p ++ q) = match tbl mm t p with Some u => tbl mm u q | None => None end.
Proof using Type.
  revert t. induction p as [|i p IH]; intros t; simpl; [done|]. by destruct (is_link _).
Qed.

(** An entry of a page table, or one that was no link and is none now, leaves
    the tree as it is. *)
Hypothesis (Hnl : length p0 = 3%nat \/ is_link e = false /\ is_link (m (entry t0 i0)) = false).

Lemma set_entry_nolink q : path_ok q -> tbl m' root q = tbl m root q.
Proof using Hi Hp0 Hi0 Ht0 Hnl.
  intros Hq. destruct (decide ((p0 ++ [i0]) `prefix_of` q)) as [Hpre|]; [|by apply set_entry_tbl].
  destruct Hnl as [Hl|[He Hold]].
  { apply prefix_length in Hpre. rewrite length_app in Hpre. simpl in Hpre. destruct Hq. lia. }
  destruct Hpre as [r ->]. rewrite !(tbl_app _ root (p0 ++ [i0]) r), set_entry_at, He, tbl_snoc, Ht0, Hold. done.
Qed.

Lemma set_entry_leaf q j :
  path_ok q -> idx_ok j ->
  leaf m' root q j = if decide (q = p0 /\ j = i0) then e else leaf m root q j.
Proof using Hi Hp0 Hi0 Ht0 Hnl.
  intros Hq Hj. unfold leaf. rewrite set_entry_nolink by done.
  destruct (decide (q = p0 /\ j = i0)) as [[-> ->]|Hne].
  - rewrite Ht0. apply set_entry_same.
  - destruct (tbl m root q) as [t|] eqn:E; [|done]. by eapply set_entry_other.
Qed.

Lemma set_entry_inv :
  ((length p0 <= 1)%nat -> has_flag e PTE_PRESENT = false) -> pt_inv m' root F.
Proof using Hi Hp0 Hi0 Ht0 Hnl.
  intros Hg. split.
  - intros p t Hp. rewrite set_entry_nolink by done. by apply (pi_frame _ _ _ Hi).
  - intros p q t Hp Hq. rewrite !set_entry_nolink by done. by apply (pi_inj _ _ _ Hi).
  - intros p t i Hp Hl Hidx. rewrite set_entry_nolink by done. intros E.
    destruct (decide (p = p0 /\ i = i0)) as [[-> ->]|Hne].
    + rewrite Ht0 in E. injection E as <-. rewrite set_entry_same, Hg by done. done.
    + rewrite (set_entry_other p) by done. by apply (pi_nogiant _ _ _ Hi p).
Qed.
End set_entry.

(** Hanging the cleared frame [x] into the free entry [i0] of table [p0]. *)
Section link_entry.
Context (m : mem) (root : ptr) (F F' : list Z) (Hi : pt_inv m root F).
Context (p0 : list Z) (t0 i0 x : Z).
Hypothesis (Hp0 : path_ok p0) (Hi0 : idx_ok i0) (Ht0 : tbl m root p0 = Some t0)
  (Hl0 : (length p0 < 3)%nat) (Hold : has_flag (m (entry t0 i0)) PTE_PRESENT = false)
  (Hx : frame_ok x) (HxF : x ∈ F) (Hzero : forall j, idx_ok j -> m (entry x j) = 0)
  (HF' : F' ⊆ F) (HxF' : x ∉ F').
Let m' : mem := m.[entry t0 i0 <- table_entry x].

Lemma old_nolink : is_link (m (entry t0 i0)) = false.
Proof using Hold. unfold is_link. by rewrite Hold. Qed.

Lemma new_zero j : idx_ok j -> m' (entry x j) = 0.
Proof using Hi Hp0 Hi0 Ht0 Hx HxF Hzero.
  intros Hj. unfold m'. rewrite upd_ne; [by apply Hzero|]. intros E.
  destruct (pi_frame _ _ _ Hi p0 t0 Hp0 Ht0) as [Hf Hn].
  destruct (entry_inj x t0 j i0 Hx Hf Hj Hi0 E) as [Ex _]. apply Hn. by rewrite <- Ex.
Qed.

Lemma link_entry_tbl q :
  path_ok q -> tbl m' root q = if decide (q = p0 ++ [i0]) then Some x else tbl m root q.
Proof using Hi Hp0 Hi0 Ht0 Hl0 Hold Hx HxF Hzero.
  intros Hq. destruct (table_entry_link x Hx) as (H1 & H2 & _).
  assert (Hat : tbl m' root (p0 ++ [i0]) = Some x).
  { unfold m'. rewrite (set_entry_at m root F) by done. by rewrite H1, H2. }
  destruct (decide (q = p0 ++ [i0])) as [->|Hne]; [done|].
  destruct (decide ((p0 ++ [i0]) `prefix_of` q)) as [[r ->]|Hpre].
  - destruct r as [|j r]; [by rewrite app_nil_r in Hne|].
    rewrite !(tbl_app _ root (p0 ++ [i0])), Hat, tbl_snoc, Ht0, old_nolink. simpl.
    rewrite new_zero; [done|]. destruct Hq as [Hq _]. by apply Forall_app in Hq as [_ [? _]%Forall_cons].
  - by apply (set_entry_tbl m root F Hi p0 t0 i0 _ Hp0 Hi0 Ht0 q Hq).
Qed.

Lemma link_entry_leaf q j :
  path_ok q -> idx_ok j ->
  leaf m' root q j = if decide (q = p0 /\ j = i0) then table_entry x else leaf m root q j.
Proof using Hi Hp0 Hi0 Ht0 Hl0 Hold Hx HxF Hzero.
  intros Hq Hj. unfold leaf. rewrite link_entry_tbl by done.
  destruct (decide (q = p0 ++ [i0])) as [->|Hne].
  - rewrite decide_False by (intros [E _]; apply (f_equal length) in E;
      rewrite length_app in E; simpl in E; lia).
    rewrite tbl_snoc, Ht0, old_nolink. by apply new_zero.
  - destruct (decide (q = p0 /\ j = i0)) as [[-> ->]|Hne2].
    + rewrite Ht0. apply upd_eq.
    + destruct (tbl m root q) as [t|] eqn:E; [|done].
      by apply (set_entry_other m root F Hi p0 t0 i0 _ Hp0 Hi0 Ht0 q).
Qed.

Lemma link_entry_huge_leaf q j :
  path_ok q -> idx_ok j -> huge_leaf m' root q j = huge_leaf m root q j.
Proof using Hi Hp0 Hi0 Ht0 Hl0 Hold Hx HxF Hzero.
  intros Hq Hj. unfold huge_leaf. rewrite link_entry_leaf by done.
  destruct (decide (q = p0 /\ j = i0)) as [[-> ->]|]; [|done].
  destruct (table_entry_link x Hx) as (_ & _ & -> & ->). unfold leaf. by rewrite Ht0, Hold.
Qed.

Lemma link_entry_fresh q : path_ok q -> tbl m root q <> Some x.
Proof using Hi HxF. intros Hq E. by destruct (pi_frame _ _ _ Hi q x Hq E). Qed.

Lemma link_entry_inv : pt_inv m' root F'.
Proof using Hi Hp0 Hi0 Ht0 Hl0 Hold Hx HxF Hzero HF' HxF'.
  split.
  - intros p t Hp. rewrite link_entry_tbl by done. destruct (decide _) as [->|].
    + intros [= <-]. done.
    + intros E. destruct (pi_frame _ _ _ Hi p t Hp E). set_solver.
  - intros p q t Hp Hq. rewrite !link_entry_tbl by done.
    destruct (decide (p = _)) as [->|], (decide (q = _)) as [->|]; try done.
    + intros [= <-] E. by apply link_entry_fresh in E.
    + intros E [= <-]. by apply link_entry_fresh in E.
    + by apply (pi_inj _ _ _ Hi).
  - intros p t i Hp Hl Hidx. rewrite link_entry_tbl by done. destruct (decide _) as [->|].
    + intros [= <-]. by rewrite new_zero.
    + intros E. destruct (decide (p = p0 /\ i = i0)) as [[-> ->]|Hne].
      * rewrite Ht0 in E. injection E as <-. unfold m'. rewrite upd_eq.
        by destruct (table_entry_link x Hx) as (_ & _ & _ & ->).
      * unfold m'. rewrite (set_entry_other m root F Hi p0 t0 i0 _ Hp0 Hi0 Ht0 p) by done.
        by apply (pi_nogiant _ _ _ Hi p).
Qed.
End link_entry.

(** ** The tree across a mapping step *)

(** The tables of [m] are still there in [m'] with the same huge pages; new
    tables are frames of [F], of which [F'] are left; memory that is neither a
    frame of [F] nor a table is the same. *)
Record extended (root : ptr) (F : list Z) (m : mem) (F' : list Z) (m' : mem) : Prop := {
  ex_tbl : forall q t, path_ok q -> tbl m root q = Some t -> tbl m' root q = Some t;
  ex_frames : F' ⊆ F;
  ex_tables : forall q t, path_ok q -> tbl m' root q = Some t -> tbl m root q = Some t \/ t ∈ F;
  ex_memory : forall a, page_of a ∉ F ->
    (forall q, path_ok q -> tbl m root q <> Some (page_of a)) -> m' a = m a;
}.

(** Every entry of a table deeper than [n] is the same; every huge page is. *)
Definition same_below (root : ptr) (n : nat) (m m' : mem) : Prop :=
  forall q j, path_ok q -> (n < length q)%nat -> idx_ok j -> leaf m' root q j = leaf m root q j.
Definition same_huge (root : ptr) (m m' : mem) : Prop :=
  forall q j, path_ok q -> length q = 2%nat -> idx_ok j -> huge_leaf m' root q j = huge_leaf m root q j.

(** Of the entries of the tables on level [n] and below, only entry [i] of the
    table at [p] may differ. *)
Definition same_but (root : ptr) (p : list Z) (i : Z) (m m' : mem) : Prop :=
  forall q j, path_ok q -> (length p <= length q)%nat -> idx_ok j -> ~ (q = p /\ j = i) ->
  leaf m' root q j = leaf m root q j.

#[export] Instance same_below_preorder root n : PreOrder (same_below root n).
Proof.
  split; [done|]. intros m1 m2 m3 H1 H2 q j Hq Hl Hj. rewrite H2 by done. by apply H1.
Qed.
#[export] Instance same_huge_preorder root : PreOrder (same_huge root).
Proof.
  split; [done|]. intros m1 m2 m3 H1 H2 q j Hq Hl Hj. rewrite H2 by done. by apply H1.
Qed.

Lemma same_below_mono root n n' m m' :
  (n <= n')%nat -> same_below root n m m' -> same_below root n' m m'.
Proof. intros Hn H q j Hq Hl Hj. apply H; [done|lia|done]. Qed.

Lemma same_but_below root p i m m' : same_but root p i m m' -> same_below root (length p) m m'.
Proof. intros H q j Hq Hl Hj. apply H; [done|lia|done|]. intros [-> _]. lia. Qed.
Lemma same_but_refl root p i m : same_but root p i m m.
Proof. done. Qed.

Lemma extended_refl root F m : extended root F m F m.
Proof. split; try done. by left. Qed.

Lemma extended_trans root F1 m1 F2 m2 F3 m3 :
  extended root F1 m1 F2 m2 -> extended root F2 m2 F3 m3 -> extended root F1 m1 F3 m3.
Proof.
  intros [A1 B1 C1 D1] [A2 B2 C2 D2]. split.
  - eauto.
  - set_solver.
  - intros q t Hq E. destruct (C2 q t Hq E) as [Et|Hin]; [auto|right; set_solver].
  - intros a Ha Ht. rewrite D2.
    + by apply D1.
    + set_solver.
    + intros q Hq E. destruct (C1 q _ Hq E) as [Et|Hin]; [by eapply Ht|done].
Qed.

(** A free frame that was cleared and hung into the tree. *)
Lemma link_entry_extended m0 m root F F' p0 t0 i0 x :
  pt_inv m0 root F -> mem_frame F m0 m -> path_ok p0 -> idx_ok i0 -> tbl m0 root p0 = Some t0 ->
  (length p0 < 3)%nat -> has_flag (m0 (entry t0 i0)) PTE_PRESENT = false ->
  frame_ok x -> x ∈ F -> (forall j, idx_ok j -> m (entry x j) = 0) -> F' ⊆ F -> x ∉ F' ->
  let m' := m.[entry t0 i0 <- table_entry x] in
  pt_inv m' root F' /\ extended root F m0 F' m' /\ same_but root p0 i0 m0 m' /\ same_huge root m0 m' /\
  tbl m' root (p0 ++ [i0]) = Some x.
Proof.
  intros Hi0 Hf Hp0 Hidx Ht0 Hl0 Hold Hx HxF Hz HF' HxF' m'.
  pose proof (pt_inv_frame m0 m root F F Hi0 Hf (reflexivity F)) as Hi.
  assert (Ht0m : tbl m root p0 = Some t0) by (by rewrite (tbl_frame m0 m root F)).
  rewrite <- (entry_frame m0 m root F p0 t0 i0) in Hold by done.
  assert (Htbl := link_entry_tbl m root F Hi p0 t0 i0 x Hp0 Hidx Ht0m Hl0 Hold Hx HxF Hz).
  split_and!.
  - by apply (link_entry_inv m root F F' Hi p0 t0 i0 x).
  - split.
    + intros q t Hq E. unfold m'. rewrite Htbl by done. rewrite <- (tbl_frame m0 m root F) in E by done.
      destruct (decide _) as [->|]; [|done].
      rewrite tbl_snoc, Ht0m, (old_nolink m t0 i0) in E by done. done.
    + done.
    + intros q t Hq. unfold m'. rewrite Htbl by done.
      destruct (decide _) as [->|]; [intros [= <-]; by right|].
      rewrite (tbl_frame m0 m root F) by done. by left.
    + intros a Ha Hnt. unfold m'. rewrite upd_ne; [by apply Hf|]. intros ->.
      destruct (pi_frame _ _ _ Hi p0 t0 Hp0 Ht0m) as [Hft Hn]. rewrite entry_page in Hnt by done.
      by apply (Hnt p0).
  - intros q j Hq Hlq Hj Hne. unfold m'. rewrite (link_entry_leaf m root F Hi p0 t0 i0 x) by done.
    rewrite decide_False by done. by apply (leaf_frame m0 m root F).
  - intros q j Hq _ Hj. unfold m'. rewrite (link_entry_huge_leaf m root F Hi p0 t0 i0 x) by done.
    unfold huge_leaf. by rewrite (leaf_frame m0 m root F).
  - unfold m'. rewrite Htbl by (by apply path_ok_snoc_2). by rewrite decide_True.
Qed.

(** Writing an entry that is a leaf and was one. *)
Lemma set_leaf_extended m root F p0 t0 i0 e :
  pt_inv m root F -> path_ok p0 -> idx_ok i0 -> tbl m root p0 = Some t0 -> (2 <= length p0)%nat ->
  length p0 = 3%nat \/ is_link e = false /\ is_link (m (entry t0 i0)) = false ->
  let m' := m.[entry t0 i0 <- e] in
  pt_inv m' root F /\ extended root F m F m' /\
  forall q j, path_ok q -> idx_ok j ->
    leaf m' root q j = if decide (q = p0 /\ j = i0) then e else leaf m root q j.
Proof.
  intros Hi Hp0 Hi0 Ht0 Hl Hnl m'.
  assert (Htbl := set_entry_nolink m root F Hi p0 t0 i0 e Hp0 Hi0 Ht0 Hnl).
  split; [|split].
  - apply (set_entry_inv m root F Hi p0 t0 i0 e); auto. lia.
  - split; [by intros q t Hq; rewrite Htbl|done|intros q t Hq; rewrite Htbl by done; by left|].
    intros a _ Hnt. apply upd_ne. intros ->.
    destruct (pi_frame _ _ _ Hi p0 t0 Hp0 Ht0) as [Hft _]. rewrite entry_page in Hnt by done.
    by apply (Hnt p0).
  - intros q j Hq Hj. by apply (set_entry_leaf m root F Hi p0 t0 i0 e).
Qed.
