(* ===== verification/MmuOps.v ===== *)
(** * Mapping pages

    [map_pages] and [map_huge_page] against the views of MmuInv, with any frame
    allocator that satisfies [FrameAllocator]. *)

From S2P Require Import Prelude State Kmath Buddy FreeList BuddyInv Slab PhysKmalloc Mmu MmuInv.

(** ** Where an address is mapped *)

Definition pd_path (v : Z) : list Z := [VIRT_TO_PML4_IDX v; VIRT_TO_PDPT_IDX v].
Definition pt_path (v : Z) : list Z := pd_path v ++ [VIRT_TO_PD_IDX v].

Lemma idx_land x : idx_ok (Z.land x 0x1FF).
Proof.
  unfold idx_ok. change 0x1FF with (Z.ones 9). rewrite Z.land_ones by lia.
  apply (Z.mod_pos_bound x (2 ^ 9)). lia.
Qed.

Lemma pd_path_ok v : path_ok (pd_path v).
Proof. split; [repeat constructor; apply idx_land|simpl; lia]. Qed.
Lemma pt_path_ok v : path_ok (pt_path v).
Proof. apply path_ok_snoc_2; [apply pd_path_ok|apply idx_land|simpl; lia]. Qed.
#[local] Hint Resolve pd_path_ok pt_path_ok path_ok_nil : core.
#[local] Hint Extern 1 (idx_ok _) => apply idx_land : core.

(** The reference: page by page, a 4 KB entry is set and no other changes. *)
Fixpoint map_view (turns : nat) (pa va flags : Z) (V : list Z -> Z -> Z) : list Z -> Z -> Z :=
  match turns with
  | O => V
  | S t =>
      map_view t (u64 (pa + PAGE_SIZE)) (u64 (va + PAGE_SIZE)) flags
        (fun q j => if decide (q = pt_path va /\ j = VIRT_TO_PT_IDX va) then Z.lor pa flags else V q j)
  end.

Fixpoint map_huge_view (turns : nat) (pa va flags : Z) (V : list Z -> Z -> Z) : list Z -> Z -> Z :=
  match turns with
  | O => V
  | S t =>
      map_huge_view t (u64 (pa + HUGE_PAGE_SIZE)) (u64 (va + HUGE_PAGE_SIZE)) flags
        (fun q j => if decide (q = pd_path va /\ j = VIRT_TO_PD_IDX va) then Z.lor pa flags else V q j)
  end.

Lemma map_view_ext turns pa va flags V V' q j :
  V q j = V' q j -> map_view turns pa va flags V q j = map_view turns pa va flags V' q j.
Proof.
  revert pa va V V'. induction turns as [|t IH]; intros pa va V V' E; simpl; [done|].
  apply IH. by destruct (decide _).
Qed.

Lemma map_huge_view_ext turns pa va flags V V' q j :
  V q j = V' q j -> map_huge_view turns pa va flags V q j = map_huge_view turns pa va flags V' q j.
Proof.
  revert pa va V V'. induction turns as [|t IH]; intros pa va V V' E; simpl; [done|].
  apply IH. by destruct (decide _).
Qed.

Lemma idx_not_none i : idx_ok i -> i <> NO_IDX.
Proof. unfold idx_ok, NO_IDX. change (u64 (-1)) with (2 ^ 64 - 1). lia. Qed.

Lemma u64_step x n k : u64 (u64 (x + n) + k) = u64 (x + n + k).
Proof. unfold u64. apply Z.add_mod_idemp_l. lia. Qed.

Section mapping.
Context {owns : kstate -> list Z -> Prop} `{!FrameAllocator (phys_kmalloc 4096 BUDDY_ALLOC) owns}.
Context (root : ptr).

(** The state between two steps: a tree, and the frames it may still take. *)
Record tables (s : kstate) (F : list Z) : Prop := {
  ta_inv : pt_inv (k_mem s) root F;
  ta_owns : owns s F;
}.

(** From [s] to [s'] at most [n] frames were hung into the tree. *)
Definition after (s : kstate) (F : list Z) (n : nat) (s' : kstate) (F' : list Z) : Prop :=
  kframe s s' /\ tables s' F' /\ extended root F (k_mem s) F' (k_mem s') /\
  (length F <= length F' + n)%nat.

Lemma after_refl s F n : tables s F -> after s F n s F.
Proof using Type. intros. split_and!; [reflexivity|done|apply extended_refl|lia]. Qed.

Lemma after_trans s1 F1 n1 s2 F2 n2 s3 F3 :
  after s1 F1 n1 s2 F2 -> after s2 F2 n2 s3 F3 -> after s1 F1 (n1 + n2) s3 F3.
Proof using Type.
  intros (K1 & _ & W1 & L1) (K2 & T2 & W2 & L2).
  split_and!; [by etrans|done|by eapply extended_trans|lia].
Qed.

(** The state in which a fresh frame [x] was cleared. *)
Lemma cleared_frame s F x s1 F1 :
  owns s F -> F ≡ₚ x :: F1 -> mem_frame F (k_mem s) (k_mem s1) -> owns s1 F1 ->
  let m := fill (k_mem s1) x PAGE_SIZE 0 in
  frame_ok x /\ (x ∉ F1) /\ mem_frame F (k_mem s) m /\ owns (set_mem m s1) F1 /\
  (forall j, idx_ok j -> m (entry x j) = 0).
Proof using FrameAllocator0.
  intros Ho HP Hf Ho1 m. destruct (frame_owned s F Ho) as [Hnd Hok]. rewrite HP in Hnd, Hok.
  apply NoDup_cons in Hnd as [Hx _]. apply Forall_cons in Hok as [Hfx _].
  assert (Hpage : forall a, x <= a < x + PAGE_SIZE -> page_of a = x).
  { intros a Ha. destruct Hfx as [Hal _]. unfold page_of, page_aligned, PAGE_SIZE in *. dlia. }
  split_and!; try done.
  - intros a Ha. unfold m. rewrite fill_out; [by apply Hf|].
    destruct (decide (x <= a < x + PAGE_SIZE)) as [Hin|]; [|lia].
    destruct Ha. rewrite (Hpage a Hin), HP. left.
  - apply frame_local; [done|]. intros a Ha. unfold m. apply fill_out.
    destruct (decide (x <= a < x + PAGE_SIZE)) as [Hin|]; [|lia].
    rewrite (Hpage a Hin) in Ha. done.
  - intros j Hj. unfold m. apply fill_in. unfold entry, PAGE_SIZE, idx_ok in *. lia.
Qed.

(** Writing an entry of a table is no concern of the allocator. *)
Lemma owns_entry s F p0 t0 i0 e :
  tables s F -> path_ok p0 -> tbl (k_mem s) root p0 = Some t0 -> idx_ok i0 ->
  owns (set_mem (k_mem s).[entry t0 i0 <- e] s) F.
Proof using FrameAllocator0.
  intros [Hi Ho] Hp0 Ht0 Hi0. apply frame_local; [done|]. intros a Ha. apply upd_ne. intros ->.
  destruct (pi_frame _ _ _ Hi p0 t0 Hp0 Ht0) as [Hft Hn]. by rewrite entry_page in Ha.
Qed.

Lemma wire_spec p0 t0 i0 msg s F :
  tables s F -> path_ok p0 -> idx_ok i0 -> (length p0 < 3)%nat -> tbl (k_mem s) root p0 = Some t0 ->
  (has_flag (k_mem s (entry t0 i0)) PTE_PRESENT = true ->
   has_flag (k_mem s (entry t0 i0)) PTE_HUGE_PAGE = false) ->
  wpe (wire_table (entry t0 i0) msg) (fun t s' => exists F',
    after s F 1 s' F' /\ same_but root p0 i0 (k_mem s) (k_mem s') /\
    same_huge root (k_mem s) (k_mem s') /\ tbl (k_mem s') root (p0 ++ [i0]) = Some t)
    (fun msg' => msg' = msg /\ F = []) s.
Proof using FrameAllocator0.
  intros Ht Hp0 Hi0 Hl0 Ht0 Hnh. unfold wire_table. apply wpe_bind, wpe_wp, wp_load. apply wpe_bind.
  destruct (has_flag (k_mem s (entry t0 i0)) PTE_PRESENT) eqn:Hpr.
  { apply wpe_wp. kwp. apply wpe_wp. kwp. exists F. split_and!; try done; [by apply after_refl|].
    rewrite tbl_snoc, Ht0. unfold is_link. by rewrite Hpr, Hnh. }
  apply wpe_bind, wpe_wp. eapply wp_mono; [apply (frame_alloc s F), Ht|].
  intros x s1 (Hk & Hf & [(-> & -> & _)|(Hx & F1 & HP & Ho1)]); [by rewrite Z.eqb_refl|].
  rewrite (proj2 (Z.eqb_neq x NULL)) by done. apply wpe_wp. unfold memset_pg, on_mem. kwp.
  apply wpe_wp. kwp. cbn [k_mem set_mem]. rewrite upd_eq. fold (table_entry x).
  destruct (cleared_frame s F x s1 F1 (ta_owns _ _ Ht) HP Hf Ho1) as (Hfx & HxF1 & Hfm & Hom & Hz).
  set (m := fill (k_mem s1) x PAGE_SIZE 0) in *.
  assert (HxF : x ∈ F) by (rewrite HP; left).
  assert (HF1 : F1 ⊆ F) by (intros a Ha; rewrite HP; by right).
  destruct (link_entry_extended (k_mem s) m root F F1 p0 t0 i0 x) as (HI & HE & HL & HH & HT);
    auto; [apply Ht|].
  destruct (table_entry_link x Hfx) as (_ & -> & _).
  exists F1. unfold after. split_and!; try done.
  - by repeat apply kframe_set_mem.
  - split; [done|].
    assert (Hin : pt_inv m root F1) by (by eapply pt_inv_frame; [apply Ht|exact Hfm|]).
    apply (owns_entry (set_mem m s1) F1 p0 t0 i0 (table_entry x)); auto; [by split|].
    cbn [k_mem set_mem]. rewrite (tbl_frame (k_mem s) m root F); auto. apply Ht.
  - rewrite HP. simpl. lia.
Qed.

(** One lookup with the cached table of the previous turn. *)
Lemma cached_spec p0 t0 new c t_c msg s F :
  tables s F -> path_ok p0 -> idx_ok new -> (length p0 < 3)%nat -> tbl (k_mem s) root p0 = Some t0 ->
  (length p0 = 2%nat -> huge_leaf (k_mem s) root p0 new = 0) ->
  (new = c -> tbl (k_mem s) root (p0 ++ [new]) = Some t_c) ->
  wpe (if new =? c then ret t_c else wire_table (entry t0 new) msg) (fun t s' => exists F',
    after s F 1 s' F' /\ same_but root p0 new (k_mem s) (k_mem s') /\
    same_huge root (k_mem s) (k_mem s') /\ tbl (k_mem s') root (p0 ++ [new]) = Some t)
    (fun msg' => msg' = msg /\ F = []) s.
Proof using FrameAllocator0.
  intros Ht Hp0 Hn Hl0 Ht0 Hh Hc. destruct (Z.eqb_spec new c) as [E|E].
  - apply wpe_wp, wp_ret. exists F. split_and!; try done; [by apply after_refl|auto].
  - apply wire_spec; auto. intros Hpr. destruct (decide (length p0 = 2%nat)) as [H2|H2].
    + specialize (Hh H2). unfold huge_leaf, leaf in Hh. rewrite Ht0, Hpr in Hh.
      destruct (has_flag _ PTE_HUGE_PAGE); [|done]. simpl in Hh. by rewrite Hh in Hpr.
    + apply (pi_nogiant _ _ _ (ta_inv _ _ Ht) p0); auto. lia.
Qed.

(** The tables remembered from the previous turn, if there was one. *)
Definition cache_ok (m : mem) (c4 c3 c2 pdpt pd pt : Z) : Prop :=
  c4 = NO_IDX /\ c3 = NO_IDX /\ c2 = NO_IDX \/
  tbl m root [c4] = Some pdpt /\ tbl m root [c4; c3] = Some pd /\ tbl m root [c4; c3; c2] = Some pt.

(** The message a failed allocation stops with. *)
Definition no_frame (msg : string) : Prop := msg = no_pdpt \/ msg = no_pd \/ msg = no_pt.

(** The lookups of one turn: they end at the tables of [va]. *)
Lemma lookups_spec {A} va c4 c3 c2 pdpt pd pt s F (k : Z -> Z -> Z -> cmd kstate A) Q (P : string -> Prop) :
  let n4 := VIRT_TO_PML4_IDX va in let n3 := VIRT_TO_PDPT_IDX va in let n2 := VIRT_TO_PD_IDX va in
  tables s F -> cache_ok (k_mem s) c4 c3 c2 pdpt pd pt -> huge_leaf (k_mem s) root [n4; n3] n2 = 0 ->
  (forall s' F' pdpt pd pt, after s F 3 s' F' -> same_but root (pd_path va) n2 (k_mem s) (k_mem s') ->
     same_huge root (k_mem s) (k_mem s') -> cache_ok (k_mem s') n4 n3 n2 pdpt pd pt ->
     tbl (k_mem s') root (pt_path va) = Some pt -> wpe (k pdpt pd pt) Q P s') ->
  (forall msg, no_frame msg -> (length F < 3)%nat -> P msg) ->
  wpe (let! pdpt := (if n4 =? c4 then ret pdpt else wire_table (entry root n4) no_pdpt) in
       let c3 := if n4 =? c4 then c3 else NO_IDX in
       let! pd := (if n3 =? c3 then ret pd else wire_table (entry pdpt n3) no_pd) in
       let c2 := if n3 =? c3 then c2 else NO_IDX in
       let! pt := (if n2 =? c2 then ret pt else wire_table (entry pd n2) no_pt) in
       k pdpt pd pt) Q P s.
Proof using FrameAllocator0.
  intros n4 n3 n2 Ht Hc Hh Hk HP.
  assert (Hi4 : idx_ok n4) by apply idx_land. assert (Hi3 : idx_ok n3) by apply idx_land.
  assert (Hi2 : idx_ok n2) by apply idx_land.
  assert (P4 : path_ok [n4]) by (apply (path_ok_snoc_2 []); auto; simpl; lia).
  assert (P3 : path_ok [n4; n3]) by (apply (path_ok_snoc_2 [n4]); auto; simpl; lia).
  apply wpe_bind. eapply wpe_mono; [apply (cached_spec [] root n4 c4 pdpt no_pdpt s F Ht path_ok_nil Hi4 ltac:(simpl; lia) eq_refl)| |].
  { done. }
  { intros E. destruct Hc as [(-> & _)|(H & _)]; [by apply idx_not_none in E|]. by rewrite E. }
  2:{ intros msg [-> ->]. apply HP; [by left|simpl; lia]. }
  intros pdpt1 s1 (F1 & A1 & L1 & G1 & T1). cbv beta zeta. cbn [app] in T1.
  apply wpe_bind. eapply wpe_mono; [eapply (cached_spec [n4] pdpt1 n3 _ pd no_pd s1 F1 (proj1 (proj2 A1)) P4 Hi3
    ltac:(simpl; lia) T1)| |].
  { done. }
  { intros E. destruct (Z.eqb_spec n4 c4) as [E4|]; [|by apply idx_not_none in E].
    destruct Hc as [(_ & H & _)|(_ & H & _)]; [rewrite H in E; by apply idx_not_none in E|].
    destruct A1 as (_ & _ & Ex & _). apply (ex_tbl _ _ _ _ _ Ex); [done|]. by rewrite E, E4. }
  2:{ intros msg [-> ->]. destruct A1 as (_ & _ & _ & Hl). apply HP; [right; by left|simpl in *; lia]. }
  intros pd1 s2 (F2 & A2 & L2 & G2 & T2). cbv beta. cbn [app] in T2.
  pose proof (after_trans _ _ _ _ _ _ _ _ A1 A2) as A12.
  assert (Hm : forall q t, path_ok q -> tbl (k_mem s) root q = Some t -> tbl (k_mem s2) root q = Some t).
  { destruct A12 as (_ & _ & Ex & _). apply Ex. }
  apply wpe_bind. eapply wpe_mono; [eapply (cached_spec [n4; n3] pd1 n2 _ pt no_pt s2 F2 (proj1 (proj2 A2)) P3 Hi2
    ltac:(simpl; lia) T2)| |].
  { intros _. rewrite G2, G1 by done. done. }
  { intros E. destruct (Z.eqb_spec n4 c4) as [E4|].
    2:{ rewrite (proj2 (Z.eqb_neq n3 NO_IDX)) in E by (by apply idx_not_none). by apply idx_not_none in E. }
    destruct (Z.eqb_spec n3 c3) as [E3|]; [|by apply idx_not_none in E].
    destruct Hc as [(_ & _ & H)|(_ & _ & H)]; [rewrite H in E; by apply idx_not_none in E|].
    apply Hm; [apply (pt_path_ok va)|]. cbn [app]. by rewrite E, E3, E4. }
  2:{ intros msg [-> ->]. destruct A12 as (_ & _ & _ & Hl). apply HP; [right; by right|simpl in *; lia]. }
  intros pt1 s3 (F3 & A3 & L3 & G3 & T3). cbn [app] in T3.
  pose proof (after_trans _ _ _ _ _ _ _ _ A12 A3) as A123.
  apply (Hk s3 F3); [exact A123| |by repeat (etrans; eauto)| |exact T3].
  { intros q j Hq Hlq Hj Hne. cbn [pd_path length] in Hlq. rewrite L3 by done.
    rewrite L2, L1; try done; try (simpl; lia); intros [-> _]; simpl in Hlq; lia. }
  right. destruct A3 as (_ & _ & Ex & _), A2 as (_ & _ & Ex2 & _).
  split_and!; [by apply Ex, Ex2|by apply Ex|done].
Qed.

(** ** The 4 KB loop *)

Lemma map_small_spec turns pa va flags c4 c3 c2 pdpt pd pt s F :
  tables s F -> cache_ok (k_mem s) c4 c3 c2 pdpt pd pt ->
  (forall i, 0 <= i < Z.of_nat turns -> let v := u64 (va + i * PAGE_SIZE) in
     huge_leaf (k_mem s) root (pd_path v) (VIRT_TO_PD_IDX v) = 0) ->
  0 <= va < 2 ^ 64 ->
  wpe (map_small_loop turns root pa va flags c4 c3 c2 pdpt pd pt) (fun _ s' => exists F',
    after s F (3 * turns) s' F' /\ same_huge root (k_mem s) (k_mem s') /\
    (forall q j, path_ok q -> length q = 2%nat -> idx_ok j ->
       (forall i, 0 <= i < Z.of_nat turns -> let v := u64 (va + i * PAGE_SIZE) in
          ~ (q = pd_path v /\ j = VIRT_TO_PD_IDX v)) -> leaf (k_mem s') root q j = leaf (k_mem s) root q j) /\
    (forall q j, path_ok q -> length q = 3%nat -> idx_ok j ->
       leaf (k_mem s') root q j = map_view turns pa va flags (leaf (k_mem s) root) q j))
    (fun msg => no_frame msg /\ (length F < 3 * turns)%nat) s.
Proof using FrameAllocator0.
  revert pa va c4 c3 c2 pdpt pd pt s F.
  induction turns as [|t IH]; intros pa va c4 c3 c2 pdpt pd pt s F Ht Hc Hh Hva;
    cbn [map_small_loop].
  { apply wpe_wp, wp_ret. exists F. split_and!; try done. by apply after_refl. }
  apply lookups_spec with F; auto.
  { specialize (Hh 0 ltac:(lia)). cbv zeta in Hh. by rewrite Z.mul_0_l, Z.add_0_r, u64_small in Hh. }
  2:{ intros msg Hm Hl. split; [done|lia]. }
  intros s1 F1 pdpt1 pd1 pt1 A1 L1 G1 C1 T1. pose proof A1 as (Hk1 & Ht1 & Ex1 & Hl1).
  apply wpe_bind, wpe_wp, wp_store.
  destruct (set_leaf_extended (k_mem s1) root F1 (pt_path va) pt1 (VIRT_TO_PT_IDX va) (Z.lor pa flags)
    (ta_inv _ _ Ht1) (pt_path_ok va) (idx_land _) T1 ltac:(simpl; lia) (or_introl eq_refl))
    as (HI & HE & HL).
  set (s2 := set_mem _ s1).
  assert (G2 : same_huge root (k_mem s1) (k_mem s2)).
  { intros q j Hq Hlq Hj. unfold huge_leaf. rewrite HL by done. rewrite decide_False; [done|].
    intros [-> _]. done. }
  assert (A2 : after s1 F1 0 s2 F1).
  { split_and!; [by apply kframe_set_mem, kframe_refl| |done|lia].
    split; [done|]. apply (owns_entry s1 F1 (pt_path va)); auto. }
  eapply wpe_mono; [apply (IH _ _ _ _ _ _ _ _ s2 F1)| |].
  - apply A2.
  - right. destruct C1 as [(E & _)|(H1 & H2 & H3)].
    { by destruct (idx_not_none _ (idx_land _) E). }
    assert (path_ok [VIRT_TO_PML4_IDX va]) by (apply (path_ok_snoc_2 []); auto; simpl; lia).
    split_and!; apply HE; auto; [apply (pd_path_ok va)|apply (pt_path_ok va)].
  - intros i Hi v. unfold v. rewrite u64_step.
    specialize (Hh (i + 1) ltac:(lia)). cbv zeta in Hh.
    replace (va + (i + 1) * PAGE_SIZE) with (va + PAGE_SIZE + i * PAGE_SIZE) in Hh by lia.
    rewrite G2, G1 by (auto; try apply idx_land). exact Hh.
  - apply Z.mod_pos_bound. lia.
  - intros _ s3 (F3 & A3 & G3 & D3 & V3). exists F3.
    pose proof (after_trans _ _ _ _ _ _ _ _ (after_trans _ _ _ _ _ _ _ _ A1 A2) A3) as A.
    replace (3 * S t)%nat with (3 + 0 + 3 * t)%nat by lia. split_and!; [exact A|by repeat (etrans; eauto)| |].
    + intros q j Hq Hlq Hj Hne. rewrite D3, HL; try done.
      * rewrite decide_False by (intros [-> _]; done). apply L1; [done|simpl; lia|done|].
        specialize (Hne 0 ltac:(lia)). cbv zeta in Hne. by rewrite Z.mul_0_l, Z.add_0_r, u64_small in Hne.
      * intros i Hi. cbv zeta. rewrite u64_step. specialize (Hne (i + 1) ltac:(lia)). cbv zeta in Hne.
        by replace (va + (i + 1) * PAGE_SIZE) with (va + PAGE_SIZE + i * PAGE_SIZE) in Hne by lia.
    + intros q j Hq Hlq Hj. rewrite V3 by done. cbn [map_view]. apply map_view_ext.
      rewrite HL by done. destruct (decide _); [done|]. apply L1; [done|simpl; lia|done|]. intros [-> _]. done.
  - intros msg [Hm Hl]. split; [done|lia].
Qed.

(** ** The 2 MB loop *)

Lemma huge_entry_nolink pa flags : has_flag flags PTE_HUGE_PAGE = true -> is_link (Z.lor pa flags) = false.
Proof using Type.
  unfold is_link, has_flag. intros H. rewrite !Z.land_lor_distr_l.
  destruct (Z.eqb_spec (Z.land flags PTE_HUGE_PAGE) 0) as [|Hne]; [done|].
  rewrite (proj2 (Z.eqb_neq (Z.lor _ (Z.land flags PTE_HUGE_PAGE)) 0)); [simpl; by rewrite andb_false_r|].
  intros E%Z.lor_eq_0_iff. tauto.
Qed.

(** The lookups of a huge page: PDPT and PD. *)
Lemma huge_lookups_spec {A} va c4 c3 pdpt pd s F (k : Z -> Z -> cmd kstate A) Q (P : string -> Prop) :
  let n4 := VIRT_TO_PML4_IDX va in let n3 := VIRT_TO_PDPT_IDX va in
  tables s F ->
  c4 = NO_IDX /\ c3 = NO_IDX \/
    tbl (k_mem s) root [c4] = Some pdpt /\ tbl (k_mem s) root [c4; c3] = Some pd ->
  (forall s' F' pdpt pd, after s F 2 s' F' -> same_below root 1 (k_mem s) (k_mem s') ->
     tbl (k_mem s') root [n4] = Some pdpt -> tbl (k_mem s') root (pd_path va) = Some pd ->
     wpe (k pdpt pd) Q P s') ->
  (forall msg, no_frame msg -> (length F < 2)%nat -> P msg) ->
  wpe (let! pdpt := (if n4 =? c4 then ret pdpt else wire_table (entry root n4) no_pdpt) in
       let c3 := if n4 =? c4 then c3 else NO_IDX in
       let! pd := (if n3 =? c3 then ret pd else wire_table (entry pdpt n3) no_pd) in
       k pdpt pd) Q P s.
Proof using FrameAllocator0.
  intros n4 n3 Ht Hc Hk HP.
  assert (Hi4 : idx_ok n4) by apply idx_land. assert (Hi3 : idx_ok n3) by apply idx_land.
  assert (P4 : path_ok [n4]) by (apply (path_ok_snoc_2 []); auto; simpl; lia).
  apply wpe_bind. eapply wpe_mono; [apply (cached_spec [] root n4 c4 pdpt no_pdpt s F Ht path_ok_nil Hi4 ltac:(simpl; lia) eq_refl)| |].
  { done. }
  { intros E. destruct Hc as [(-> & _)|(H & _)]; [by apply idx_not_none in E|]. by rewrite E. }
  2:{ intros msg [-> ->]. apply HP; [by left|simpl; lia]. }
  intros pdpt1 s1 (F1 & A1 & L1 & G1 & T1). cbv beta zeta. cbn [app] in T1.
  apply wpe_bind. eapply wpe_mono; [eapply (cached_spec [n4] pdpt1 n3 _ pd no_pd s1 F1 (proj1 (proj2 A1)) P4 Hi3
    ltac:(simpl; lia) T1)| |].
  { done. }
  { intros E. destruct (Z.eqb_spec n4 c4) as [E4|]; [|by apply idx_not_none in E].
    destruct Hc as [(_ & H)|(_ & H)]; [rewrite H in E; by apply idx_not_none in E|].
    destruct A1 as (_ & _ & Ex & _). apply (ex_tbl _ _ _ _ _ Ex); [apply (pd_path_ok va)|].
    cbn [app]. by rewrite E, E4. }
  2:{ intros msg [-> ->]. destruct A1 as (_ & _ & _ & Hl). apply HP; [right; by left|simpl in *; lia]. }
  intros pd1 s2 (F2 & A2 & L2 & G2 & T2). cbn [app] in T2.
  apply (Hk s2 F2); [exact (after_trans _ _ _ _ _ _ _ _ A1 A2)| | |exact T2].
  - etrans; [|exact (same_but_below _ _ _ _ _ L2)].
    eapply same_below_mono; [|exact (same_but_below _ _ _ _ _ L1)]. simpl; lia.
  - destruct A2 as (_ & _ & Ex & _). by apply Ex.
Qed.

(** No page table hangs where the huge page goes. *)
Definition no_table_at (m : mem) (v : Z) : Prop := is_link (leaf m root (pd_path v) (VIRT_TO_PD_IDX v)) = false.

Lemma set_huge_spec s F va pd e :
  tables s F -> tbl (k_mem s) root (pd_path va) = Some pd -> no_table_at (k_mem s) va ->
  is_link e = false ->
  let s' := set_mem (k_mem s).[entry pd (VIRT_TO_PD_IDX va) <- e] s in
  after s F 0 s' F /\
  forall q j, path_ok q -> idx_ok j -> leaf (k_mem s') root q j =
    if decide (q = pd_path va /\ j = VIRT_TO_PD_IDX va) then e else leaf (k_mem s) root q j.
Proof using FrameAllocator0.
  intros Ht T1 Hn He s'. unfold no_table_at, leaf in Hn. rewrite T1 in Hn.
  destruct (set_leaf_extended (k_mem s) root F (pd_path va) pd (VIRT_TO_PD_IDX va) e
    (ta_inv _ _ Ht) (pd_path_ok va) (idx_land _) T1 ltac:(simpl; lia) (or_intror (conj He Hn)))
    as (HI & HE & HL).
  split; [|exact HL]. split_and!; [by apply kframe_set_mem, kframe_refl| |done|lia].
  split; [done|]. apply (owns_entry s F (pd_path va)); auto.
Qed.

Lemma map_huge_spec turns pa va flags c4 c3 pdpt pd s F :
  tables s F -> has_flag flags PTE_HUGE_PAGE = true ->
  c4 = NO_IDX /\ c3 = NO_IDX \/
    tbl (k_mem s) root [c4] = Some pdpt /\ tbl (k_mem s) root [c4; c3] = Some pd ->
  (forall i, 0 <= i < Z.of_nat turns -> no_table_at (k_mem s) (u64 (va + i * HUGE_PAGE_SIZE))) ->
  0 <= va < 2 ^ 64 ->
  wpe (map_huge_loop turns root pa va flags c4 c3 pdpt pd) (fun _ s' => exists F',
    after s F (2 * turns) s' F' /\
    (forall q j, path_ok q -> (1 < length q)%nat -> idx_ok j ->
       leaf (k_mem s') root q j = map_huge_view turns pa va flags (leaf (k_mem s) root) q j))
    (fun msg => no_frame msg /\ (length F < 2 * turns)%nat) s.
Proof using FrameAllocator0.
  intros Ht Hfl. revert pa va c4 c3 pdpt pd s F Ht.
  induction turns as [|t IH]; intros pa va c4 c3 pdpt pd s F Ht Hc Hn Hva; cbn [map_huge_loop].
  { apply wpe_wp, wp_ret. exists F. split_and!; try done. by apply after_refl. }
  apply huge_lookups_spec with F; auto.
  2:{ intros msg Hm Hl. split; [done|lia]. }
  intros s1 F1 pdpt1 pd1 A1 L1 T4 T1. pose proof A1 as (Hk1 & Ht1 & Ex1 & Hl1).
  apply wpe_bind, wpe_wp, wp_store.
  assert (Hkeep : forall v, no_table_at (k_mem s) v -> no_table_at (k_mem s1) v).
  { intros v. unfold no_table_at. by rewrite L1 by (auto; simpl; lia). }
  destruct (set_huge_spec s1 F1 va pd1 (Z.lor pa flags)) as [A2 HL]; auto.
  { apply Hkeep. specialize (Hn 0 ltac:(lia)). by rewrite Z.mul_0_l, Z.add_0_r, u64_small in Hn. }
  { by apply huge_entry_nolink. }
  set (s2 := set_mem _ s1) in *.
  eapply wpe_mono; [apply (IH _ _ _ _ _ _ s2 F1)| |].
  - apply A2.
  - right. destruct A2 as (_ & _ & HE & _).
    assert (path_ok [VIRT_TO_PML4_IDX va]) by (apply (path_ok_snoc_2 []); auto; simpl; lia).
    split; apply HE; auto. apply (pd_path_ok va).
  - intros i Hi. rewrite u64_step. specialize (Hn (i + 1) ltac:(lia)).
    replace (va + (i + 1) * HUGE_PAGE_SIZE) with (va + HUGE_PAGE_SIZE + i * HUGE_PAGE_SIZE) in Hn by lia.
    apply Hkeep in Hn. unfold no_table_at. rewrite HL by auto.
    destruct (decide _); [by apply huge_entry_nolink|done].
  - apply Z.mod_pos_bound. lia.
  - intros _ s3 (F3 & A3 & V3). exists F3.
    pose proof (after_trans _ _ _ _ _ _ _ _ (after_trans _ _ _ _ _ _ _ _ A1 A2) A3) as A.
    replace (2 * S t)%nat with (2 + 0 + 2 * t)%nat by lia. split; [exact A|].
    intros q j Hq Hlq Hj. rewrite V3 by done. cbn [map_huge_view]. apply map_huge_view_ext.
    rewrite HL by done. destruct (decide _); [done|]. by apply L1.
  - intros msg [Hm Hl]. split; [done|lia].
Qed.
End mapping.
