(* ===== verification/MmuTheorems.v ===== *)
(** * Page tables: the theorems

    What [map_page], [map_huge_page], [map_pages] and the unmapping routines do
    to the 4 KB and 2 MB entries seen from an address. *)

From S2P Require Import Prelude State Kmath Buddy FreeList BuddyInv BuddyDemo BuddyOps Slab PhysKmalloc Mmu MmuInv MmuOps.

(** The entries that translate address [v]. *)
Definition pte (m : mem) (root v : Z) : Z := leaf m root (pt_path v) (VIRT_TO_PT_IDX v).
Definition pde (m : mem) (root v : Z) : Z := leaf m root (pd_path v) (VIRT_TO_PD_IDX v).

(** Virtual page numbers, of 4 KB and of 2 MB pages. *)
Definition vpn (v : Z) : Z := (v / 2 ^ 12) mod 2 ^ 36.
Definition huge_vpn (v : Z) : Z := (v / 2 ^ 21) mod 2 ^ 27.

(** ** Addresses and indices *)

Lemma idx_mod v n : 0 <= n -> Z.land (Z.shiftr v n) 0x1FF = (v / 2 ^ n) mod 512.
Proof.
  intros Hn. change 0x1FF with (Z.ones 9). by rewrite Z.land_ones, Z.shiftr_div_pow2 by lia.
Qed.

Lemma idx_split v n : 0 <= n -> v / 2 ^ n = 512 * (v / 2 ^ (n + 9)) + (v / 2 ^ n) mod 512.
Proof.
  intros Hn. rewrite Z.pow_add_r, <- Z.div_div by (try apply Z.pow_nonzero; lia).
  change (2 ^ 9) with 512. apply Z.div_mod. lia.
Qed.

Lemma huge_loc_vpn v w :
  pd_path v = pd_path w /\ VIRT_TO_PD_IDX v = VIRT_TO_PD_IDX w <-> huge_vpn v = huge_vpn w.
Proof.
  unfold pd_path, huge_vpn, VIRT_TO_PML4_IDX, VIRT_TO_PDPT_IDX, VIRT_TO_PD_IDX. rewrite !idx_mod by lia.
  pose proof (idx_split v 21 ltac:(lia)) as V1. pose proof (idx_split v 30 ltac:(lia)) as V2.
  pose proof (idx_split w 21 ltac:(lia)) as W1. pose proof (idx_split w 30 ltac:(lia)) as W2.
  change (21 + 9) with 30 in *. change (30 + 9) with 39 in *. 
  set (a := v / 2 ^ 21) in *. set (b := v / 2 ^ 30) in *. set (c := v / 2 ^ 39) in *.
  set (a' := w / 2 ^ 21) in *. set (b' := w / 2 ^ 30) in *. set (c' := w / 2 ^ 39) in *.
  change (2 ^ 27) with 134217728. clearbody a b c a' b' c'. split.
  - intros [[= E1 E2] E3]. dlia.
  - intros E. assert (c mod 512 = c' mod 512 /\ b mod 512 = b' mod 512 /\ a mod 512 = a' mod 512)
      as (-> & -> & ->) by (split_and!; dlia). done.
Qed.

Lemma loc_vpn v w :
  pt_path v = pt_path w /\ VIRT_TO_PT_IDX v = VIRT_TO_PT_IDX w <-> vpn v = vpn w.
Proof.
  assert (H : vpn v = vpn w <-> huge_vpn v = huge_vpn w /\ VIRT_TO_PT_IDX v = VIRT_TO_PT_IDX w).
  { unfold vpn, huge_vpn, VIRT_TO_PT_IDX. rewrite !idx_mod by lia.
    pose proof (idx_split v 12 ltac:(lia)) as V1. pose proof (idx_split w 12 ltac:(lia)) as W1.
    change (12 + 9) with 21 in *.
    set (a := v / 2 ^ 12) in *. set (b := v / 2 ^ 21) in *.
    set (a' := w / 2 ^ 12) in *. set (b' := w / 2 ^ 21) in *.
    change (2 ^ 27) with 134217728. change (2 ^ 36) with 68719476736. clearbody a b a' b'.
    split; [intros E; split; dlia|intros [E1 E2]; dlia]. }
  rewrite H, <- huge_loc_vpn. unfold pt_path. split.
  - intros [[E1 E2]%app_inj_tail E3]. done.
  - intros [[-> ->] ->]. done.
Qed.

Lemma vpn_step va i : vpn (u64 (va + i * PAGE_SIZE)) = (va / 2 ^ 12 + i) mod 2 ^ 36.
Proof.
  unfold vpn, u64, PAGE_SIZE. change (2 ^ 12) with 4096. change (2 ^ 36) with 68719476736.
  change (2 ^ 64) with 18446744073709551616. dlia.
Qed.

Lemma huge_vpn_step va i : huge_vpn (u64 (va + i * HUGE_PAGE_SIZE)) = (va / 2 ^ 21 + i) mod 2 ^ 27.
Proof.
  unfold huge_vpn, u64, HUGE_PAGE_SIZE. change (2 ^ 21) with 2097152. change (2 ^ 27) with 134217728.
  change (2 ^ 64) with 18446744073709551616. dlia.
Qed.

(** ** The reference maps *)

Lemma map_view_other turns pa va flags V v :
  (forall i, 0 <= i < Z.of_nat turns -> vpn v <> vpn (u64 (va + i * PAGE_SIZE))) ->
  0 <= va < 2 ^ 64 ->
  map_view turns pa va flags V (pt_path v) (VIRT_TO_PT_IDX v) = V (pt_path v) (VIRT_TO_PT_IDX v).
Proof.
  revert pa va V. induction turns as [|t IH]; intros pa va V Hne Hva; [done|]. cbn [map_view].
  rewrite IH; [|intros i Hi|apply Z.mod_pos_bound; lia].
  - rewrite decide_False; [done|]. rewrite loc_vpn. specialize (Hne 0 ltac:(lia)).
    by rewrite Z.mul_0_l, Z.add_0_r, u64_small in Hne.
  - rewrite u64_step. specialize (Hne (i + 1) ltac:(lia)).
    by replace (va + PAGE_SIZE + i * PAGE_SIZE) with (va + (i + 1) * PAGE_SIZE) by lia.
Qed.

Lemma map_view_at turns pa va flags V i :
  0 <= i < Z.of_nat turns -> Z.of_nat turns <= 2 ^ 36 -> 0 <= va < 2 ^ 64 -> 0 <= pa < 2 ^ 64 ->
  let v := u64 (va + i * PAGE_SIZE) in
  map_view turns pa va flags V (pt_path v) (VIRT_TO_PT_IDX v) = Z.lor (u64 (pa + i * PAGE_SIZE)) flags.
Proof.
  revert pa va V i. induction turns as [|t IH]; intros pa va V i Hi Ht Hva Hpa v; [lia|].
  cbn [map_view]. destruct (decide (i = 0)) as [->|].
  - unfold v. rewrite !Z.mul_0_l, !Z.add_0_r, (u64_small va), (u64_small pa) by done.
    rewrite map_view_other; [by rewrite decide_True| |apply Z.mod_pos_bound; lia].
    intros j Hj. rewrite u64_step.
    replace (va + PAGE_SIZE + j * PAGE_SIZE) with (va + (j + 1) * PAGE_SIZE) by lia.
    rewrite <- (u64_small va) at 1 by done. rewrite <- (Z.add_0_r va) at 1. rewrite <- (Z.mul_0_l PAGE_SIZE).
    rewrite !vpn_step. change (2 ^ 36) with 68719476736 in *. set (n := va / 2 ^ 12). clearbody n. dlia.
  - specialize (IH (u64 (pa + PAGE_SIZE)) (u64 (va + PAGE_SIZE))
      (fun q j => if decide (q = pt_path va /\ j = VIRT_TO_PT_IDX va) then Z.lor pa flags else V q j)
      (i - 1) ltac:(lia) ltac:(lia) ltac:(apply Z.mod_pos_bound; lia) ltac:(apply Z.mod_pos_bound; lia)).
    cbv zeta in IH. rewrite !u64_step in IH.
    replace (va + PAGE_SIZE + (i - 1) * PAGE_SIZE) with (va + i * PAGE_SIZE) in IH by lia.
    replace (pa + PAGE_SIZE + (i - 1) * PAGE_SIZE) with (pa + i * PAGE_SIZE) in IH by lia.
    exact IH.
Qed.

Lemma map_huge_view_other turns pa va flags V v :
  (forall i, 0 <= i < Z.of_nat turns -> huge_vpn v <> huge_vpn (u64 (va + i * HUGE_PAGE_SIZE))) ->
  0 <= va < 2 ^ 64 ->
  map_huge_view turns pa va flags V (pd_path v) (VIRT_TO_PD_IDX v) = V (pd_path v) (VIRT_TO_PD_IDX v).
Proof.
  revert pa va V. induction turns as [|t IH]; intros pa va V Hne Hva; [done|]. cbn [map_huge_view].
  rewrite IH; [|intros i Hi|apply Z.mod_pos_bound; lia].
  - rewrite decide_False; [done|]. rewrite huge_loc_vpn. specialize (Hne 0 ltac:(lia)).
    by rewrite Z.mul_0_l, Z.add_0_r, u64_small in Hne.
  - rewrite u64_step. specialize (Hne (i + 1) ltac:(lia)).
    by replace (va + HUGE_PAGE_SIZE + i * HUGE_PAGE_SIZE) with (va + (i + 1) * HUGE_PAGE_SIZE) by lia.
Qed.

(** Entries of page tables are none of the huge loop's business. *)
Lemma map_huge_view_deep turns pa va flags V q j :
  length q = 3%nat -> map_huge_view turns pa va flags V q j = V q j.
Proof.
  intros Hq. revert pa va V. induction turns as [|t IH]; intros pa va V; [done|]. cbn [map_huge_view].
  rewrite IH, decide_False; [done|]. intros [-> _]. done.
Qed.

Lemma map_huge_view_at turns pa va flags V i :
  0 <= i < Z.of_nat turns -> Z.of_nat turns <= 2 ^ 27 -> 0 <= va < 2 ^ 64 -> 0 <= pa < 2 ^ 64 ->
  let v := u64 (va + i * HUGE_PAGE_SIZE) in
  map_huge_view turns pa va flags V (pd_path v) (VIRT_TO_PD_IDX v) =
    Z.lor (u64 (pa + i * HUGE_PAGE_SIZE)) flags.
Proof.
  revert pa va V i. induction turns as [|t IH]; intros pa va V i Hi Ht Hva Hpa v; [lia|].
  cbn [map_huge_view]. destruct (decide (i = 0)) as [->|].
  - unfold v. rewrite !Z.mul_0_l, !Z.add_0_r, (u64_small va), (u64_small pa) by done.
    rewrite map_huge_view_other; [by rewrite decide_True| |apply Z.mod_pos_bound; lia].
    intros j Hj. rewrite u64_step.
    replace (va + HUGE_PAGE_SIZE + j * HUGE_PAGE_SIZE) with (va + (j + 1) * HUGE_PAGE_SIZE) by lia.
    rewrite <- (u64_small va) at 1 by done. rewrite <- (Z.add_0_r va) at 1.
    rewrite <- (Z.mul_0_l HUGE_PAGE_SIZE).
    rewrite !huge_vpn_step. change (2 ^ 27) with 134217728 in *. set (n := va / 2 ^ 21). clearbody n. dlia.
  - specialize (IH (u64 (pa + HUGE_PAGE_SIZE)) (u64 (va + HUGE_PAGE_SIZE))
      (fun q j => if decide (q = pd_path va /\ j = VIRT_TO_PD_IDX va) then Z.lor pa flags else V q j)
      (i - 1) ltac:(lia) ltac:(lia) ltac:(apply Z.mod_pos_bound; lia) ltac:(apply Z.mod_pos_bound; lia)).
    cbv zeta in IH. rewrite !u64_step in IH.
    replace (va + HUGE_PAGE_SIZE + (i - 1) * HUGE_PAGE_SIZE) with (va + i * HUGE_PAGE_SIZE) in IH by lia.
    replace (pa + HUGE_PAGE_SIZE + (i - 1) * HUGE_PAGE_SIZE) with (pa + i * HUGE_PAGE_SIZE) in IH by lia.
    exact IH.
Qed.

(** ** Mapping *)

Section theorems.
Context {owns : kstate -> list Z -> Prop} `{!FrameAllocator (phys_kmalloc 4096 BUDDY_ALLOC) owns}.
Context (root : ptr).

Lemma map_pages_wpe pa va flags n s F :
  tables (owns := owns) root s F -> has_flag flags PTE_HUGE_PAGE = false ->
  0 <= n <= 2 ^ 36 -> 0 <= va < 2 ^ 64 -> 0 <= pa < 2 ^ 64 ->
  (forall i, 0 <= i < n -> let v := u64 (va + i * PAGE_SIZE) in
     huge_leaf (k_mem s) root (pd_path v) (VIRT_TO_PD_IDX v) = 0) ->
  wpe (map_pages root pa va flags n) (fun _ s' => exists F',
    after (owns := owns) root s F (3 * Z.to_nat n) s' F' /\
    (forall v, (forall i, 0 <= i < n -> huge_vpn v <> huge_vpn (u64 (va + i * PAGE_SIZE))) ->
       pde (k_mem s') root v = pde (k_mem s) root v) /\
    same_huge root (k_mem s) (k_mem s') /\
    (forall i, 0 <= i < n -> pte (k_mem s') root (u64 (va + i * PAGE_SIZE)) =
       Z.lor (u64 (pa - pa mod PAGE_SIZE + i * PAGE_SIZE)) flags) /\
    (forall v, (forall i, 0 <= i < n -> vpn v <> vpn (u64 (va + i * PAGE_SIZE))) ->
       pte (k_mem s') root v = pte (k_mem s) root v))
    (fun msg => no_frame msg /\ (length F < 3 * Z.to_nat n)%nat) s.
Proof using FrameAllocator0.
  intros Ht Hfl Hn Hva Hpa Hh. unfold map_pages. destruct (Z.eqb_spec n 0) as [->|Hn0].
  { apply wpe_wp, wp_ret. exists F. split_and!; try done; [by apply after_refl|lia]. }
  rewrite Hfl. eapply wpe_mono; [apply (map_small_spec root _ _ _ _ _ _ _ _ _ _ s F); auto| |done].
  { by left. }
  { intros i Hi. apply Hh. lia. }
  intros _ s' (F' & HA & HH & HD & HV). exists F'. split_and!; [exact HA| |exact HH| |].
  - intros v Hv. unfold pde. apply HD; [apply pd_path_ok|done|apply idx_land|]. intros i Hi. cbv zeta.
    rewrite huge_loc_vpn. apply Hv. lia.
  - intros i Hi. unfold pte. rewrite HV by (apply pt_path_ok || apply idx_land || done).
    change (PAGE_SIZE - 1) with (2 ^ 12 - 1). rewrite land_not64_low by lia.
    change (2 ^ 12) with PAGE_SIZE. apply map_view_at; try lia.
    pose proof (Z.mod_pos_bound pa PAGE_SIZE ltac:(done)). pose proof (Z.mod_le pa PAGE_SIZE). 
    unfold PAGE_SIZE in *. lia.
  - intros v Hv. unfold pte. rewrite HV by (apply pt_path_ok || apply idx_land || done).
    apply map_view_other; [|done]. intros i Hi. apply Hv. lia.
Qed.

Lemma map_huge_pages_wpe pa va flags n s F :
  tables (owns := owns) root s F -> has_flag flags PTE_HUGE_PAGE = true ->
  0 <= n <= 2 ^ 27 -> 0 <= va < 2 ^ 64 -> 0 <= pa < 2 ^ 64 ->
  (forall i, 0 <= i < n -> no_table_at root (k_mem s) (u64 (va + i * HUGE_PAGE_SIZE))) ->
  wpe (map_pages root pa va flags n) (fun _ s' => exists F',
    after (owns := owns) root s F (2 * Z.to_nat n) s' F' /\
    (forall v, pte (k_mem s') root v = pte (k_mem s) root v) /\
    (forall i, 0 <= i < n -> pde (k_mem s') root (u64 (va + i * HUGE_PAGE_SIZE)) =
       Z.lor (u64 (pa + i * HUGE_PAGE_SIZE)) flags) /\
    (forall v, (forall i, 0 <= i < n -> huge_vpn v <> huge_vpn (u64 (va + i * HUGE_PAGE_SIZE))) ->
       pde (k_mem s') root v = pde (k_mem s) root v))
    (fun msg => no_frame msg /\ (length F < 2 * Z.to_nat n)%nat) s.
Proof using FrameAllocator0.
  intros Ht Hfl Hn Hva Hpa Hh. unfold map_pages. destruct (Z.eqb_spec n 0) as [->|Hn0].
  { apply wpe_wp, wp_ret. exists F. split_and!; try done; [by apply after_refl|lia]. }
  rewrite Hfl. eapply wpe_mono; [apply (map_huge_spec root _ _ _ _ _ _ _ _ s F); auto| |done].
  { intros i Hi. apply Hh. lia. }
  intros _ s' (F' & HA & HV). exists F'. split_and!; [exact HA| | |].
  - intros v. unfold pte. rewrite HV by (apply pt_path_ok || apply idx_land || (simpl; lia)).
    by rewrite map_huge_view_deep.
  - intros i Hi. unfold pde. rewrite HV by (apply pd_path_ok || apply idx_land || (simpl; lia)).
    apply map_huge_view_at; lia.
  - intros v Hv. unfold pde. rewrite HV by (apply pd_path_ok || apply idx_land || (simpl; lia)).
    apply map_huge_view_other; [|done]. intros i Hi. apply Hv. lia.
Qed.

(** C2. [map_pages] of [n] 4 KB pages over a range without huge pages either
    returns with page [i] of the range mapped to frame [i] of the physical range
    with the given flags, every other 4 KB entry, every 2 MB entry and all memory
    that is neither a free frame nor a table unchanged, the tree a tree of
    distinct frames none of which is free, and the locks and flags as before; or
    it stops in PANIC because a table frame was needed and none was free, which
    does not happen with three free frames for each page.  The cached tables of
    the loop make no difference to a walk from the root for each page. *)
Theorem map_pages_correct pa va flags n s F :
  tables (owns := owns) root s F -> has_flag flags PTE_HUGE_PAGE = false ->
  0 <= n <= 2 ^ 36 -> 0 <= va < 2 ^ 64 -> 0 <= pa < 2 ^ 64 ->
  (forall i, 0 <= i < n -> let v := u64 (va + i * PAGE_SIZE) in
     huge_leaf (k_mem s) root (pd_path v) (VIRT_TO_PD_IDX v) = 0) ->
  (exists s' F', map_pages root pa va flags n s = Ret tt s' /\
     kframe s s' /\ tables (owns := owns) root s' F' /\ extended root F (k_mem s) F' (k_mem s') /\
     same_huge root (k_mem s) (k_mem s') /\
     (forall i, 0 <= i < n -> pte (k_mem s') root (u64 (va + i * PAGE_SIZE)) =
        Z.lor (u64 (pa - pa mod PAGE_SIZE + i * PAGE_SIZE)) flags) /\
     (forall v, (forall i, 0 <= i < n -> vpn v <> vpn (u64 (va + i * PAGE_SIZE))) ->
        pte (k_mem s') root v = pte (k_mem s) root v)) \/
  (exists msg, map_pages root pa va flags n s = Panic msg /\ no_frame msg /\
     (length F < 3 * Z.to_nat n)%nat).
Proof using FrameAllocator0.
  intros Ht Hfl Hn Hva Hpa Hh.
  destruct (wpe_elim _ _ _ _ (map_pages_wpe pa va flags n s F Ht Hfl Hn Hva Hpa Hh))
    as [([] & s' & E & F' & (Hk & Ht' & Hx & _) & _ & HR)|(msg & E & HR)].
  - left. exists s', F'. auto.
  - right. eauto.
Qed.

(** C22. [map_pages] of [n] 2 MB pages, over a range under which no page table
    hangs: entry [i] of the range gets frame [i] and the flags, every other 2 MB
    entry and every 4 KB entry are unchanged, or the call stops in PANIC for want
    of a table frame, which does not happen with two free frames for each page. *)
Theorem map_huge_pages_correct pa va flags n s F :
  tables (owns := owns) root s F -> has_flag flags PTE_HUGE_PAGE = true ->
  0 <= n <= 2 ^ 27 -> 0 <= va < 2 ^ 64 -> 0 <= pa < 2 ^ 64 ->
  (forall i, 0 <= i < n -> no_table_at root (k_mem s) (u64 (va + i * HUGE_PAGE_SIZE))) ->
  (exists s' F', map_pages root pa va flags n s = Ret tt s' /\
     kframe s s' /\ tables (owns := owns) root s' F' /\ extended root F (k_mem s) F' (k_mem s') /\
     (forall v, pte (k_mem s') root v = pte (k_mem s) root v) /\
     (forall i, 0 <= i < n -> pde (k_mem s') root (u64 (va + i * HUGE_PAGE_SIZE)) =
        Z.lor (u64 (pa + i * HUGE_PAGE_SIZE)) flags) /\
     (forall v, (forall i, 0 <= i < n -> huge_vpn v <> huge_vpn (u64 (va + i * HUGE_PAGE_SIZE))) ->
        pde (k_mem s') root v = pde (k_mem s) root v)) \/
  (exists msg, map_pages root pa va flags n s = Panic msg /\ no_frame msg /\
     (length F < 2 * Z.to_nat n)%nat).
Proof using FrameAllocator0.
  intros Ht Hfl Hn Hva Hpa Hh.
  destruct (wpe_elim _ _ _ _ (map_huge_pages_wpe pa va flags n s F Ht Hfl Hn Hva Hpa Hh))
    as [([] & s' & E & F' & (Hk & Ht' & Hx & _) & HR)|(msg & E & HR)].
  - left. exists s', F'. auto.
  - right. eauto.
Qed.
End theorems.

(** ** A concrete tree: the empty one, rooted at the page the demo has in use *)

Lemma demo_tbl p t : tbl (k_mem demo_state) 0x400000 p = Some t -> p = [] /\ t = 0x400000.
Proof. destruct p as [|i p]; [by intros [= <-]|done]. Qed.

Lemma demo_tables : tables (owns := buddy_owns) 0x400000 demo_state (free_pages demo_lists).
Proof.
  split; [|exact demo_owns]. split.
  - intros p t Hp [-> ->]%demo_tbl. split; [done|].
    apply (bool_decide_unpack _). vm_compute. exact I.
  - intros p q t _ _ [-> _]%demo_tbl [-> _]%demo_tbl. done.
  - intros p t i _ _ _ _. done.
Qed.

Lemma map_pages_correct_witness :
  exists s', map_pages 0x400000 0x123456 0xffff800000200000 3 2 demo_state = Ret tt s' /\
    pte (k_mem s') 0x400000 (u64 (0xffff800000200000 + 1 * PAGE_SIZE)) = 0x124003.
Proof.
  destruct (map_pages_correct (owns := buddy_owns) 0x400000 0x123456 0xffff800000200000 3 2 demo_state
    (free_pages demo_lists) demo_tables eq_refl ltac:(done) ltac:(done) ltac:(done) ltac:(done))
    as [(s' & F' & E & _ & _ & _ & _ & H & _)|(msg & _ & _ & H)].
  - exists s'. split; [exact E|]. apply (H 1). lia.
  - exfalso. revert H. apply Nat.le_ngt. apply (bool_decide_unpack _). vm_compute. exact I.
Defined.

Lemma map_huge_pages_correct_witness :
  exists s', map_pages 0x400000 0x200000 0xffff800000200000 0x83 2 demo_state = Ret tt s' /\
    pde (k_mem s') 0x400000 (u64 (0xffff800000200000 + 1 * HUGE_PAGE_SIZE)) = 0x400083.
Proof.
  destruct (map_huge_pages_correct (owns := buddy_owns) 0x400000 0x200000 0xffff800000200000 0x83 2
    demo_state (free_pages demo_lists) demo_tables eq_refl ltac:(done) ltac:(done) ltac:(done) ltac:(done))
    as [(s' & F' & E & _ & _ & _ & _ & H & _)|(msg & _ & _ & H)].
  - exists s'. split; [exact E|]. apply (H 1). lia.
  - exfalso. revert H. apply Nat.le_ngt. apply (bool_decide_unpack _). vm_compute. exact I.
Defined.

(** [map_page] maps no 4 KB page: without the huge-page flag it returns at once
    and changes nothing, whatever the tables hold, so no page table is built and
    the address stays unmapped. *)
Theorem map_page_maps_nothing root paddr vaddr flags s :
  has_flag flags PTE_HUGE_PAGE = false -> map_page root paddr vaddr flags s = Ret tt s.
Proof. unfold map_page. by intros ->. Qed.

Lemma map_page_maps_nothing_witness :
  map_page 0x400000 0x123000 0xffff800000200000 3 demo_state = Ret tt demo_state.
Proof. apply map_page_maps_nothing. done. Defined.

(** [map_huge_page] is [map_pages] of one huge page, and with the wrong flags
    it stops in PANIC without touching the tables. *)
Theorem map_huge_page_is_map_pages root paddr vaddr flags s :
  (has_flag flags PTE_HUGE_PAGE = true ->
     map_huge_page root paddr vaddr flags s = map_pages root paddr vaddr flags 1 s) /\
  (has_flag flags PTE_HUGE_PAGE = false ->
     map_huge_page root paddr vaddr flags s =
       Panic "INCORRECTLY MAPPED PAGE WITH MAP HUGE PAGE FUNCTION").
Proof.
  unfold map_huge_page, map_pages. split; intros Hf; rewrite Hf; [|done].
  change (1 =? 0) with false. change (Z.to_nat 1) with 1%nat. cbn [negb map_huge_loop].
  rewrite (proj2 (Z.eqb_neq (VIRT_TO_PML4_IDX vaddr) NO_IDX)) by (apply idx_not_none, idx_land).
  rewrite (proj2 (Z.eqb_neq (VIRT_TO_PDPT_IDX vaddr) NO_IDX)) by (apply idx_not_none, idx_land).
  unfold bind. destruct (wire_table _ no_pdpt s) as [pdpt s1| |]; [|done..].
  destruct (wire_table _ no_pd s1) as [pd s2| |]; done.
Qed.

Lemma map_huge_page_is_map_pages_witness :
  map_huge_page 0x400000 0x200000 0xffff800000200000 0x83 demo_state =
  map_pages 0x400000 0x200000 0xffff800000200000 0x83 1 demo_state.
Proof. apply map_huge_page_is_map_pages. reflexivity. Defined.

(** ** Unmapping *)

Lemma is_empty_spec turns m t i :
  is_empty turns m t i = true <-> forall j, i <= j < i + Z.of_nat turns -> m (entry t j) = 0.
Proof.
  revert i. induction turns as [|n IH]; intros i; cbn [is_empty].
  { split; [intros; lia|done]. }
  destruct (Z.eqb_spec (m (entry t i)) 0) as [E|E]; cbn [negb].
  - rewrite IH. split; intros H j Hj; [|apply H; lia].
    destruct (decide (j = i)) as [->|]; [done|apply H; lia].
  - split; [done|]. intros H. destruct E. apply H. lia.
Qed.

(** What the walk of [unmap_page] sees. *)
Inductive unmap_case : Type :=
  | NotMapped
  | IsHuge
  | WrongFrame
  | Mapped (pt : ptr).

Definition classify (m : mem) (root paddr vaddr : Z) : unmap_case :=
  let e2 := pde m root vaddr in
  if has_flag e2 PTE_PRESENT && has_flag e2 PTE_HUGE_PAGE then IsHuge else
  let e1 := pte m root vaddr in
  if negb (has_flag e1 PTE_PRESENT) then NotMapped else
  if Z.land e1 PTE_ADDR_MASK =? paddr then
    match tbl m root (pt_path vaddr) with Some pt => Mapped pt | None => NotMapped end
  else WrongFrame.

(** One step of a walk above the directories. *)
Lemma walk_step m root F p t i :
  pt_inv m root F -> path_ok p -> (length p <= 1)%nat -> idx_ok i -> tbl m root p = Some t ->
  tbl m root (p ++ [i]) =
    if has_flag (m (entry t i)) PTE_PRESENT then Some (Z.land (m (entry t i)) PTE_ADDR_MASK) else None.
Proof.
  intros Ht Hp Hl Hi E. rewrite tbl_snoc, E. unfold is_link.
  destruct (has_flag _ PTE_PRESENT) eqn:Hpr; [|done]. by rewrite (pi_nogiant _ _ _ Ht p t i).
Qed.

Section unmapping.
Context {owns : kstate -> list Z -> Prop} `{!FrameAllocator (phys_kmalloc 4096 BUDDY_ALLOC) owns}.
Context (root : ptr).

(** The walk, up to the store: the outcome by case. *)
Lemma unmap_small_walk s F paddr vaddr mh mw :
  tables (owns := owns) root s F ->
  unmap_small root paddr vaddr mh mw s =
  match classify (k_mem s) root paddr vaddr with
  | NotMapped => Ret tt s
  | IsHuge => Panic mh
  | WrongFrame => Panic mw
  | Mapped pt =>
      match tbl (k_mem s) root [VIRT_TO_PML4_IDX vaddr], tbl (k_mem s) root (pd_path vaddr) with
      | Some pdpt, Some pd =>
          (store (entry pt (VIRT_TO_PT_IDX vaddr)) 0;;
           invlpg vaddr;;
           drop_if_empty pt (entry pd (VIRT_TO_PD_IDX vaddr))
             (drop_if_empty pd (entry pdpt (VIRT_TO_PDPT_IDX vaddr))
                (drop_if_empty pdpt (entry root (VIRT_TO_PML4_IDX vaddr)) (ret tt)))) s
      | _, _ => Ret tt s
      end
  end.
Proof using Type.
  intros Ht.
  assert (P4 : path_ok [VIRT_TO_PML4_IDX vaddr])
    by (apply (path_ok_snoc_2 []); [apply path_ok_nil|apply idx_land|simpl; lia]).
  pose proof (walk_step (k_mem s) root F [] root (VIRT_TO_PML4_IDX vaddr) (ta_inv _ _ _ Ht) path_ok_nil ltac:(simpl; lia)
    (idx_land _) eq_refl) as W4. cbn [app] in W4.
  unfold unmap_small, classify, pde, pte, leaf, pt_path, load, gets. unfold bind at 1.
  set (e4 := k_mem s (entry root (VIRT_TO_PML4_IDX vaddr))) in *.
  destruct (has_flag e4 PTE_PRESENT) eqn:H4; cbn [negb].
  2:{ assert (tbl (k_mem s) root (pd_path vaddr) = None) as E2.
      { unfold pd_path. change [?a; ?b] with ([a] ++ [b]). by rewrite tbl_snoc, W4. }
      rewrite tbl_snoc, E2. done. }
  pose proof (walk_step (k_mem s) root F [VIRT_TO_PML4_IDX vaddr] _ (VIRT_TO_PDPT_IDX vaddr) (ta_inv _ _ _ Ht) P4 ltac:(simpl; lia)
    (idx_land _) W4) as W3. cbn [app] in W3. fold (pd_path vaddr) in W3.
  unfold bind at 1. set (pdpt := Z.land e4 PTE_ADDR_MASK) in *.
  set (e3 := k_mem s (entry pdpt (VIRT_TO_PDPT_IDX vaddr))) in *.
  destruct (has_flag e3 PTE_PRESENT) eqn:H3; cbn [negb].
  2:{ rewrite tbl_snoc, W3. done. }
  unfold bind at 1. rewrite tbl_snoc, W3. set (pd := Z.land e3 PTE_ADDR_MASK) in *.
  set (e2 := k_mem s (entry pd (VIRT_TO_PD_IDX vaddr))) in *. unfold is_link.
  destruct (has_flag e2 PTE_PRESENT) eqn:H2; cbn [negb andb]; [|done].
  destruct (has_flag e2 PTE_HUGE_PAGE) eqn:Hh; cbn [negb]; [done|].
  unfold bind at 1. set (pt := Z.land e2 PTE_ADDR_MASK) in *.
  set (e1 := k_mem s (entry pt (VIRT_TO_PT_IDX vaddr))) in *.
  destruct (has_flag e1 PTE_PRESENT) eqn:H1; cbn [negb]; [|done].
  destruct (Z.land e1 PTE_ADDR_MASK =? paddr); cbn [negb]; [|done]. by rewrite W4.
Qed.

(** A mapped page whose table has another entry: one entry is cleared. *)
Lemma unmap_small_mapped s F paddr vaddr mh mw pt j :
  tables (owns := owns) root s F -> classify (k_mem s) root paddr vaddr = Mapped pt ->
  idx_ok j -> j <> VIRT_TO_PT_IDX vaddr -> leaf (k_mem s) root (pt_path vaddr) j <> 0 ->
  let m' := (k_mem s).[entry pt (VIRT_TO_PT_IDX vaddr) <- 0] in
  let s' := add_invlpg vaddr (set_mem m' s) in
  unmap_small root paddr vaddr mh mw s = Ret tt s' /\ tables (owns := owns) root s' F /\
  extended root F (k_mem s) F m' /\
  forall q i, path_ok q -> idx_ok i ->
    leaf m' root q i = if decide (q = pt_path vaddr /\ i = VIRT_TO_PT_IDX vaddr) then 0 else leaf (k_mem s) root q i.
Proof using FrameAllocator0.
  intros Ht Hc Hj Hne Hnz m' s'. rewrite (unmap_small_walk s F) by done. rewrite Hc. unfold classify in Hc.
  destruct (_ && _); [done|]. destruct (negb _); [done|]. destruct (_ =? _); [|done].
  destruct (tbl (k_mem s) root (pt_path vaddr)) as [pt'|] eqn:T; [|done]. injection Hc as ->.
  unfold leaf in Hnz. rewrite T in Hnz.
  pose proof T as T2. unfold pt_path in T2. rewrite tbl_snoc in T2.
  destruct (tbl (k_mem s) root (pd_path vaddr)) as [pd|] eqn:E3; [|done].
  pose proof E3 as T3. unfold pd_path in T3. change [?a; ?b] with ([a] ++ [b]) in T3. rewrite tbl_snoc in T3.
  destruct (tbl (k_mem s) root [VIRT_TO_PML4_IDX vaddr]) as [pdpt|] eqn:E4; [|done].
  destruct (set_leaf_extended (k_mem s) root F (pt_path vaddr) pt (VIRT_TO_PT_IDX vaddr) 0
    (ta_inv _ _ _ Ht) (pt_path_ok vaddr) (idx_land _) T ltac:(simpl; lia) (or_introl eq_refl))
    as (HI & HE & HL). fold m' in HI, HE, HL.
  assert (Hem : is_empty 512 m' pt 0 = false).
  { destruct (is_empty 512 m' pt 0) eqn:E; [|done]. apply is_empty_spec with (j := j) in E.
    - destruct Hnz. rewrite <- E. symmetry. apply upd_ne. unfold entry. lia.
    - unfold idx_ok in Hj. lia. }
  split_and!; [| |exact HE|exact HL].
  - unfold store, invlpg, drop_if_empty at 1, table_is_empty, modify, gets, bind.
    cbn [k_mem set_mem add_invlpg]. fold m'. rewrite Hem. done.
  - split; [exact HI|]. apply frame_invlpg.
    apply (owns_entry root s F (pt_path vaddr)); auto; [apply pt_path_ok|apply idx_land].
Qed.

(** [unmap_page] by case: an address that is not mapped is left alone; a huge
    page and a frame other than the given one stop in PANIC with nothing changed;
    a mapped page whose page table has another entry is unmapped and its TLB entry
    flushed, and no other 4 KB or 2 MB entry changes, nor the tables, nor the free
    frames. *)
Theorem unmap_page_correct s F paddr vaddr :
  tables (owns := owns) root s F ->
  match classify (k_mem s) root (Z.land paddr (not64 (PAGE_SIZE - 1))) vaddr with
  | NotMapped => unmap_page root paddr vaddr s = Ret tt s
  | IsHuge => unmap_page root paddr vaddr s = Panic "UNMAPPED HUGE PAGE WITH REGULAR UNMAP_PAGE FUNCTION"
  | WrongFrame => unmap_page root paddr vaddr s = Panic "TRIED TO UNMAP WRONG PAGE"
  | Mapped pt =>
      forall j, idx_ok j -> j <> VIRT_TO_PT_IDX vaddr -> leaf (k_mem s) root (pt_path vaddr) j <> 0 ->
      exists s', unmap_page root paddr vaddr s = Ret tt s' /\ tables (owns := owns) root s' F /\
        extended root F (k_mem s) F (k_mem s') /\ same_huge root (k_mem s) (k_mem s') /\
        pte (k_mem s') root vaddr = 0 /\
        (forall v, vpn v <> vpn vaddr -> pte (k_mem s') root v = pte (k_mem s) root v) /\
        k_invlpg s' = vaddr :: k_invlpg s
  end.
Proof using FrameAllocator0.
  intros Ht. set (pa := Z.land paddr _). unfold unmap_page. fold pa.
  destruct (classify (k_mem s) root pa vaddr) as [| | |pt] eqn:Hc.
  1-3: rewrite (unmap_small_walk s F), Hc by done; done.
  intros j Hj Hne Hnz. destruct (unmap_small_mapped s F pa vaddr
    "UNMAPPED HUGE PAGE WITH REGULAR UNMAP_PAGE FUNCTION" "TRIED TO UNMAP WRONG PAGE" pt j Ht Hc Hj Hne Hnz)
    as (E & HT & HE & HL). eexists. split; [exact E|]. cbn [k_mem set_mem add_invlpg k_invlpg].
  split_and!; [exact HT|exact HE| | | |done].
  - intros q i Hq Hlq Hi. unfold huge_leaf. rewrite HL by done. rewrite decide_False; [done|]. intros [-> _]. done.
  - unfold pte. rewrite HL by (apply pt_path_ok || apply idx_land). by rewrite decide_True.
  - intros v Hv. unfold pte.
    rewrite HL by (apply pt_path_ok || apply idx_land). by rewrite decide_False by (by rewrite loc_vpn).
Qed.
End unmapping.

(** A tree with two pages mapped at address 0: tables at [0x500000], [0x501000]
    and [0x502000], frames [0x123000] and [0x124000]. *)
Definition tree_mem : mem :=
  (fun _ => 0).[0x400000 <- 0x500003].[0x500000 <- 0x501003].[0x501000 <- 0x502003]
    .[0x502000 <- 0x123003].[0x502008 <- 0x124003].
Definition tree_state : kstate := set_mem tree_mem demo_state.

Lemma tree_entry t i :
  t ∈ [0x400000; 0x500000; 0x501000] -> idx_ok i -> tree_mem (entry t i) =
  if i =? 0 then (if t =? 0x400000 then 0x500003 else if t =? 0x500000 then 0x501003 else 0x502003) else 0.
Proof.
  unfold tree_mem, idx_ok, entry. intros Ht Hi.
  destruct (Z.eqb_spec i 0) as [->|Hne].
  - repeat (apply elem_of_cons in Ht as [->|Ht]); [reflexivity..|by apply elem_of_nil in Ht].
  - repeat (apply elem_of_cons in Ht as [->|Ht]); [by upd_solve..|by apply elem_of_nil in Ht].
Qed.

Lemma tree_tbl p t :
  path_ok p -> tbl tree_mem 0x400000 p = Some t ->
  (p, t) ∈ [([], 0x400000); ([0], 0x500000); ([0; 0], 0x501000); ([0; 0; 0], 0x502000)].
Proof.
  intros Hp. revert t. induction p as [|i p IH] using rev_ind; intros t; [intros [= <-]; left|].
  apply path_ok_snoc in Hp as (Hp & Hi & Hl). rewrite tbl_snoc.
  destruct (tbl tree_mem 0x400000 p) as [u|]; [|done]. specialize (IH Hp u eq_refl).
  rewrite !elem_of_cons in IH. destruct IH as [E|[E|[E|[E|[]%elem_of_nil]]]]; injection E as -> ->;
    [| | |simpl in Hl; lia]; rewrite tree_entry by (done || set_solver);
    destruct (Z.eqb_spec i 0) as [->|]; try done; intros [= <-]; set_solver.
Qed.

Lemma tree_free : Forall (fun x => x ∉ free_pages demo_lists) [0x400000; 0x500000; 0x501000; 0x502000].
Proof. apply (bool_decide_unpack _). vm_compute. exact I. Qed.

Lemma tree_tables : tables (owns := buddy_owns) 0x400000 tree_state (free_pages demo_lists).
Proof.
  pose proof tree_free as Hfree. rewrite Forall_forall in Hfree. split; [split|].
  - intros p t Hp Ht%tree_tbl; [|done]. rewrite !elem_of_cons in Ht.
    destruct Ht as [E|[E|[E|[E|[]%elem_of_nil]]]]; injection E as -> ->;
      (split; [done|apply Hfree; set_solver]).
  - intros p q t Hp Hq Ep%tree_tbl Eq%tree_tbl; [|done..]. rewrite !elem_of_cons in Ep, Eq.
    destruct Ep as [E|[E|[E|[E|[]%elem_of_nil]]]]; injection E as -> ->;
      destruct Eq as [E|[E|[E|[E|[]%elem_of_nil]]]]; by injection E as ->.
  - intros p t i Hp Hl Hi Ht%tree_tbl; [|done]. rewrite !elem_of_cons in Ht.
    destruct Ht as [E|[E|[E|[E|[]%elem_of_nil]]]]; injection E as -> ->; try (simpl in Hl; lia);
      cbn [k_mem tree_state set_mem]; rewrite tree_entry by (done || set_solver);
      by destruct (Z.eqb_spec i 0).
  - apply frame_local; [exact demo_owns|]. intros a Ha.
    assert (Hne : forall x, x ∈ [0x400000; 0x500000; 0x501000; 0x502000] -> page_of a <> x).
    { intros x Hx E. rewrite E in Ha. by apply (Hfree x). }
    assert (a <> 0x400000 /\ a <> 0x500000 /\ a <> 0x501000 /\ a <> 0x502000 /\ a <> 0x502008).
    { split_and!; intros ->; [apply (Hne 0x400000)|apply (Hne 0x500000)|apply (Hne 0x501000)|
        apply (Hne 0x502000)|apply (Hne 0x502000)]; try set_solver; reflexivity. }
    unfold tree_mem. by upd_solve.
Qed.

Lemma unmap_page_correct_witness :
  exists s', unmap_page 0x400000 0x123000 0 tree_state = Ret tt s' /\ pte (k_mem s') 0x400000 0 = 0 /\
    k_invlpg s' = [0].
Proof.
  assert (H1 : idx_ok 1) by done.
  assert (H2 : 1 <> VIRT_TO_PT_IDX 0) by done.
  assert (H3 : leaf tree_mem 0x400000 (pt_path 0) 1 <> 0) by done.
  assert (H4 : classify (k_mem tree_state) 0x400000 (Z.land 0x123000 (not64 (PAGE_SIZE - 1))) 0
               = Mapped 0x502000) by (vm_compute; reflexivity).
  pose proof (unmap_page_correct (owns := buddy_owns) 0x400000 tree_state (free_pages demo_lists)
    0x123000 0 tree_tables) as H. rewrite H4 in H.
  destruct (H 1 H1 H2 H3) as (s' & E & _ & _ & _ & H0 & _ & Hi).
  exists s'. exact (conj E (conj H0 Hi)).
Defined.
