(* ===== verification/RbTree.v ===== *)
(** * rb_tree.c: definitions

    Nodes are objects of the shared memory with four fields; [*root] is carried
    beside the memory.  [cmp] is the comparison the caller passes, which reads
    the keys around the nodes.  The loops take the number of turns they may
    make; the theorems say how many are enough. *)

From S2P Require Import Prelude State.

Definition RB_RED : Z := 0.
Definition RB_BLACK : Z := 1.

(** [struct rb_node] *)
Definition off_right : Z := 0.
Definition off_left : Z := 8.
Definition off_parent : Z := 16.
Definition off_color : Z := 24.
Definition sizeof_rb_node : Z := 32.

Definition right_of (m : mem) (x : ptr) : ptr := m (x + off_right).
Definition left_of (m : mem) (x : ptr) : ptr := m (x + off_left).
Definition parent_of (m : mem) (x : ptr) : ptr := m (x + off_parent).
Definition color_of (m : mem) (x : ptr) : Z := m (x + off_color).
Definition set_right (x v : Z) (m : mem) : mem := m.[x + off_right <- v].
Definition set_left (x v : Z) (m : mem) : mem := m.[x + off_left <- v].
Definition set_parent (x v : Z) (m : mem) : mem := m.[x + off_parent <- v].
Definition set_color (x v : Z) (m : mem) : mem := m.[x + off_color <- v].

(** The memory and the root pointer. *)
Abbreviation heap := (mem * ptr)%type.

Definition rb_rotate_left (h : heap) (node : ptr) : heap :=
  let '(m, root) := h in
  let tmp := right_of m node in
  let m := set_right node (left_of m tmp) m in
  let m := if negb (left_of m tmp =? NULL) then set_parent (right_of m node) node m else m in
  let m := set_parent tmp (parent_of m node) m in
  let '(m, root) :=
    if parent_of m node =? NULL then (m, tmp)
    else if node =? left_of m (parent_of m node) then (set_left (parent_of m node) tmp m, root)
    else (set_right (parent_of m node) tmp m, root) in
  let m := set_left tmp node m in
  (set_parent node tmp m, root).

Definition rb_rotate_right (h : heap) (node : ptr) : heap :=
  let '(m, root) := h in
  let tmp := left_of m node in
  let m := set_left node (right_of m tmp) m in
  let m := if negb (right_of m tmp =? NULL) then set_parent (left_of m node) node m else m in
  let m := set_parent tmp (parent_of m node) m in
  let '(m, root) :=
    if parent_of m node =? NULL then (m, tmp)
    else if node =? right_of m (parent_of m node) then (set_right (parent_of m node) tmp m, root)
    else (set_left (parent_of m node) tmp m, root) in
  let m := set_right tmp node m in
  (set_parent node tmp m, root).

Section with_cmp.
Context (cmp : mem -> ptr -> ptr -> Z).

(** [None]: the turns ran out. *)
Fixpoint find_loop (turns : nat) (m : mem) (key current : ptr) : option ptr :=
  if current =? NULL then Some NULL else
  match turns with
  | O => None
  | S t =>
      let result := cmp m key current in
      if result <? 0 then find_loop t m key (left_of m current)
      else if result >? 0 then find_loop t m key (right_of m current)
      else Some current
  end.

Definition rb_find_exact (turns : nat) (h : heap) (key : ptr) : option ptr :=
  find_loop turns h.1 key h.2.

(** The walk of [rb_insert]: the parent of the free place, or [Dup]. *)
Inductive place : Type := Place (parent : ptr) | Dup.

Fixpoint insert_loop (turns : nat) (m : mem) (node current parent : ptr) : option place :=
  if current =? NULL then Some (Place parent) else
  match turns with
  | O => None
  | S t =>
      let result := cmp m node current in
      if result <? 0 then insert_loop t m node (left_of m current) current
      else if result >? 0 then insert_loop t m node (right_of m current) current
      else Some Dup
  end.
End with_cmp.

Fixpoint minimum_loop (turns : nat) (m : mem) (node : ptr) : option ptr :=
  if left_of m node =? NULL then Some node else
  match turns with
  | O => None
  | S t => minimum_loop t m (left_of m node)
  end.
Definition rb_minimum (turns : nat) (m : mem) (node : ptr) : option ptr := minimum_loop turns m node.

Definition rb_transplant (h : heap) (node replacement : ptr) : heap :=
  let '(m, root) := h in
  let '(m, root) :=
    if parent_of m node =? NULL then (m, replacement)
    else if node =? left_of m (parent_of m node) then (set_left (parent_of m node) replacement m, root)
    else (set_right (parent_of m node) replacement m, root) in
  let m := if negb (replacement =? NULL) then set_parent replacement (parent_of m node) m else m in
  (m, root).

(** ** Insertion *)

(** One turn of the loop of [rb_insert_fixup], with [x] and its parent given:
    the new heap and the new [x]. *)
Definition insert_fixup_step (h : heap) (x : ptr) : heap * ptr :=
  let '(m, root) := h in
  let gp m x := parent_of m (parent_of m x) in
  if parent_of m x =? left_of m (gp m x) then
    let uncle := right_of m (gp m x) in
    if negb (uncle =? NULL) && (color_of m uncle =? RB_RED) then
      let m := set_color (parent_of m x) RB_BLACK m in
      let m := set_color uncle RB_BLACK m in
      let m := set_color (gp m x) RB_RED m in
      ((m, root), gp m x)
    else
      let '((m, root), x) :=
        if x =? right_of m (parent_of m x) then (rb_rotate_left (m, root) (parent_of m x), parent_of m x)
        else ((m, root), x) in
      let m := set_color (parent_of m x) RB_BLACK m in
      let m := set_color (gp m x) RB_RED m in
      (rb_rotate_right (m, root) (gp m x), x)
  else
    let uncle := left_of m (gp m x) in
    if negb (uncle =? NULL) && (color_of m uncle =? RB_RED) then
      let m := set_color (parent_of m x) RB_BLACK m in
      let m := set_color uncle RB_BLACK m in
      let m := set_color (gp m x) RB_RED m in
      ((m, root), gp m x)
    else
      let '((m, root), x) :=
        if x =? left_of m (parent_of m x) then (rb_rotate_right (m, root) (parent_of m x), parent_of m x)
        else ((m, root), x) in
      let m := set_color (parent_of m x) RB_BLACK m in
      let m := set_color (gp m x) RB_RED m in
      (rb_rotate_left (m, root) (gp m x), x).

Fixpoint insert_fixup_loop (turns : nat) (h : heap) (x : ptr) : option heap :=
  let m := h.1 in
  if negb (parent_of m x =? NULL) && (color_of m (parent_of m x) =? RB_RED) &&
     negb (parent_of m (parent_of m x) =? NULL) then
    match turns with
    | O => None
    | S t => let '(h', x') := insert_fixup_step h x in insert_fixup_loop t h' x'
    end
  else Some h.

Definition rb_insert_fixup (turns : nat) (h : heap) (x : ptr) : option heap :=
  match insert_fixup_loop turns h x with
  | Some (m, root) => Some (set_color root RB_BLACK m, root)
  | None => None
  end.

(** [rb_insert]: the node, or NULL for a duplicate. *)
Definition rb_insert (cmp : mem -> ptr -> ptr -> Z) (turns : nat) (h : heap) (node : ptr) :
    option (heap * ptr) :=
  let '(m, root) := h in
  let m := set_left node NULL m in
  let m := set_right node NULL m in
  match insert_loop cmp turns m node root NULL with
  | None => None
  | Some Dup => Some ((m, root), NULL)
  | Some (Place parent) =>
      if parent =? NULL then
        let m := set_parent node NULL m in
        Some ((set_color node RB_BLACK m, node), node)
      else
        let result := cmp m node parent in
        if result =? 0 then Some ((m, root), NULL) else
        let m := if result <? 0 then set_left parent node m else set_right parent node m in
        let m := set_parent node parent m in
        let m := set_color node RB_RED m in
        match rb_insert_fixup turns (m, root) node with
        | Some h' => Some (h', node)
        | None => None
        end
  end.

(** ** Deletion *)

Definition is_black (m : mem) (x : ptr) : bool := (x =? NULL) || (color_of m x =? RB_BLACK).

(** One turn of the loop of [rb_delete_fixup]: new heap, [x] and [x_parent]. *)
Definition delete_fixup_step (h : heap) (x x_parent : ptr) : heap * ptr * ptr :=
  let '(m, root) := h in
  if x =? left_of m x_parent then
    let sibling := right_of m x_parent in
    let '((m, root), sibling) :=
      if negb (sibling =? NULL) && (color_of m sibling =? RB_RED) then
        let m := set_color sibling RB_BLACK m in
        let m := set_color x_parent RB_RED m in
        let h := rb_rotate_left (m, root) x_parent in
        (h, right_of h.1 x_parent)
      else ((m, root), sibling) in
    if is_black m (left_of m sibling) && is_black m (right_of m sibling) then
      let m := set_color sibling RB_RED m in
      ((m, root), x_parent, parent_of m x_parent)
    else
      let '((m, root), sibling) :=
        if is_black m (right_of m sibling) then
          let m := if negb (left_of m sibling =? NULL) then set_color (left_of m sibling) RB_BLACK m else m in
          let m := set_color sibling RB_RED m in
          let h := rb_rotate_right (m, root) sibling in
          (h, right_of h.1 x_parent)
        else ((m, root), sibling) in
      let m := set_color sibling (color_of m x_parent) m in
      let m := set_color x_parent RB_BLACK m in
      let m := if negb (right_of m sibling =? NULL) then set_color (right_of m sibling) RB_BLACK m else m in
      let h := rb_rotate_left (m, root) x_parent in
      (h, h.2, x_parent)
  else
    let sibling := left_of m x_parent in
    let '((m, root), sibling) :=
      if negb (sibling =? NULL) && (color_of m sibling =? RB_RED) then
        let m := set_color sibling RB_BLACK m in
        let m := set_color x_parent RB_RED m in
        let h := rb_rotate_right (m, root) x_parent in
        (h, left_of h.1 x_parent)
      else ((m, root), sibling) in
    if is_black m (right_of m sibling) && is_black m (left_of m sibling) then
      let m := set_color sibling RB_RED m in
      ((m, root), x_parent, parent_of m x_parent)
    else
      let '((m, root), sibling) :=
        if is_black m (left_of m sibling) then
          let m := if negb (right_of m sibling =? NULL) then set_color (right_of m sibling) RB_BLACK m else m in
          let m := set_color sibling RB_RED m in
          let h := rb_rotate_left (m, root) sibling in
          (h, left_of h.1 x_parent)
        else ((m, root), sibling) in
      let m := set_color sibling (color_of m x_parent) m in
      let m := set_color x_parent RB_BLACK m in
      let m := if negb (left_of m sibling =? NULL) then set_color (left_of m sibling) RB_BLACK m else m in
      let h := rb_rotate_right (m, root) x_parent in
      (h, h.2, x_parent).

Fixpoint delete_fixup_loop (turns : nat) (h : heap) (x x_parent : ptr) : option (heap * ptr) :=
  if negb (x =? h.2) && is_black h.1 x then
    match turns with
    | O => None
    | S t => let '(h', x', xp') := delete_fixup_step h x x_parent in delete_fixup_loop t h' x' xp'
    end
  else Some (h, x).

Definition rb_delete_fixup (turns : nat) (h : heap) (x x_parent : ptr) : option heap :=
  match delete_fixup_loop turns h x x_parent with
  | Some ((m, root), x) => Some (if negb (x =? NULL) then set_color x RB_BLACK m else m, root)
  | None => None
  end.

(** The removal of [node] before the repair: heap, [x], [x_parent] and the
    colour that was removed. *)
Definition rb_unlink (turns : nat) (h : heap) (node : ptr) : option (heap * ptr * ptr * Z) :=
  let '(m, root) := h in
  if left_of m node =? NULL then
    Some (rb_transplant h node (right_of m node), right_of m node, parent_of m node, color_of m node)
  else if right_of m node =? NULL then
    Some (rb_transplant h node (left_of m node), left_of m node, parent_of m node, color_of m node)
  else
    match rb_minimum turns m (right_of m node) with
    | None => None
    | Some y =>
        let y_color := color_of m y in
        let x := right_of m y in
        let '((m, root), x_parent) :=
          if parent_of m y =? node then
            ((if negb (x =? NULL) then set_parent x y m else m, root), y)
          else
            let '(m, root) := rb_transplant (m, root) y (right_of m y) in
            let m := set_right y (right_of m node) m in
            let m := set_parent (right_of m y) y m in
            ((m, root), parent_of m y) in
        let '(m, root) := rb_transplant (m, root) node y in
        let m := set_left y (left_of m node) m in
        let m := set_parent (left_of m y) y m in
        Some ((set_color y (color_of m node) m, root), x, x_parent, y_color)
    end.

Definition rb_delete (cmp : mem -> ptr -> ptr -> Z) (turns : nat) (h : heap) (key : ptr) :
    option (heap * bool) :=
  match rb_find_exact cmp turns h key with
  | None => None
  | Some node =>
      if node =? NULL then Some (h, false) else
      match rb_unlink turns h node with
      | None => None
      | Some (h, x, x_parent, y_original_color) =>
          if y_original_color =? RB_BLACK then
            match rb_delete_fixup turns h x x_parent with
            | Some h => Some (h, true)
            | None => None
            end
          else Some (h, true)
      end
  end.

(** The nodes [rb_traverse_inorder] calls [callback] on, in order. *)
Fixpoint rb_traverse_inorder (depth : nat) (m : mem) (root : ptr) : option (list ptr) :=
  if root =? NULL then Some [] else
  match depth with
  | O => None
  | S d =>
      match rb_traverse_inorder d m (left_of m root), rb_traverse_inorder d m (right_of m root) with
      | Some l, Some r => Some (l ++ root :: r)
      | _, _ => None
      end
  end.

#[global] Arguments rb_rotate_left : simpl never.
#[global] Arguments rb_rotate_right : simpl never.
