(* ===== verification/RbRep.v ===== *)
(** * Red-black trees in memory

    The trees the code builds as an inductive type, when a memory holds one,
    and the same for a tree with a hole (a path of frames from the hole to the
    root); what the two rotations do to them. *)

From S2P Require Import Prelude State RbTree.

Inductive tree : Type :=
  | Leaf
  | Node (l : tree) (x : ptr) (c : Z) (r : tree).

#[export] Instance tree_eq_dec : EqDecision tree.
Proof. solve_decision. Defined.

Definition ptr_of (t : tree) : ptr := match t with Leaf => NULL | Node _ x _ _ => x end.

Fixpoint nodes (t : tree) : list ptr :=
  match t with Leaf => [] | Node l x _ r => nodes l ++ x :: nodes r end.

(** The fields of node [x] in memory. *)
Definition holds (m : mem) (x l r p c : Z) : Prop :=
  left_of m x = l /\ right_of m x = r /\ parent_of m x = p /\ color_of m x = c.

Fixpoint rep (m : mem) (par : ptr) (t : tree) : Prop :=
  match t with
  | Leaf => True
  | Node l x c r => holds m x (ptr_of l) (ptr_of r) par c /\ rep m x l /\ rep m x r
  end.

(** A step from a hole towards the root. *)
Inductive frame : Type :=
  | FL (y c : Z) (r : tree)      (* the hole is the left child of [y] *)
  | FR (l : tree) (y c : Z).     (* the hole is the right child of [y] *)
Abbreviation ctx := (list frame).

Definition frame_node (f : frame) : ptr := match f with FL y _ _ => y | FR _ y _ => y end.
Definition par (k : ctx) : ptr := match k with [] => NULL | f :: _ => frame_node f end.

Definition plug1 (f : frame) (t : tree) : tree :=
  match f with FL y c r => Node t y c r | FR l y c => Node l y c t end.
Fixpoint plug (k : ctx) (t : tree) : tree :=
  match k with [] => t | f :: k' => plug k' (plug1 f t) end.

Definition frame_nodes (f : frame) : list ptr :=
  match f with FL y _ r => y :: nodes r | FR l y _ => y :: nodes l end.
Definition ctx_nodes (k : ctx) : list ptr := k ≫= frame_nodes.

Definition rep_frame (m : mem) (f : frame) (p q : ptr) : Prop :=
  match f with
  | FL y c r => holds m y p (ptr_of r) q c /\ rep m y r
  | FR l y c => holds m y (ptr_of l) p q c /\ rep m y l
  end.
Fixpoint rep_ctx (m : mem) (k : ctx) (p : ptr) : Prop :=
  match k with
  | [] => True
  | f :: k' => rep_frame m f p (par k') /\ rep_ctx m k' (frame_node f)
  end.

Fixpoint ctx_root (k : ctx) (p : ptr) : ptr :=
  match k with [] => p | f :: k' => ctx_root k' (frame_node f) end.

(** Nodes are objects of their own: none is NULL and no two overlap. *)
Definition good (l : list ptr) : Prop :=
  NoDup l /\ (forall x, x ∈ l -> 0 < x) /\
  forall x y, x ∈ l -> y ∈ l -> x <> y -> x + sizeof_rb_node <= y \/ y + sizeof_rb_node <= x.

(** The heap holds tree [t] in the hole of [k]. *)
Record focus (h : heap) (k : ctx) (t : tree) : Prop := {
  fo_root : h.2 = ctx_root k (ptr_of t);
  fo_tree : rep h.1 (par k) t;
  fo_ctx : rep_ctx h.1 k (ptr_of t);
  fo_good : good (nodes t ++ ctx_nodes k);
}.

Definition heap_tree (h : heap) (t : tree) : Prop := focus h [] t.

(** Memory outside the nodes is the same. *)
Definition only_nodes (l : list ptr) (m m' : mem) : Prop :=
  forall a, (forall x, x ∈ l -> a < x \/ x + sizeof_rb_node <= a) -> m' a = m a.

Lemma only_nodes_trans l m1 m2 m3 : only_nodes l m1 m2 -> only_nodes l m2 m3 -> only_nodes l m1 m3.
Proof. intros H1 H2 a Ha. rewrite H2 by done. by apply H1. Qed.

(** ** Structure *)

Lemma good_perm l l' : l ≡ₚ l' -> good l -> good l'.
Proof.
  intros HP (H1 & H2 & H3). split; [by rewrite <- HP|]. split.
  - intros x. rewrite <- HP. auto.
  - intros x y. rewrite <- HP. auto.
Qed.

#[export] Instance good_proper : Proper ((≡ₚ) ==> iff) good.
Proof. intros l l' HP. split; apply good_perm; [done|by symmetry]. Qed.

Lemma nodes_plug1 f t : nodes (plug1 f t) ≡ₚ nodes t ++ frame_nodes f.
Proof. destruct f; simpl; solve_Permutation. Qed.

Lemma nodes_plug k t : nodes (plug k t) ≡ₚ nodes t ++ ctx_nodes k.
Proof.
  revert t. induction k as [|f k IH]; intros t; simpl.
  - by rewrite app_nil_r.
  - rewrite IH, nodes_plug1. by rewrite <- app_assoc.
Qed.

Lemma ptr_of_plug1 f t : ptr_of (plug1 f t) = frame_node f.
Proof. by destruct f. Qed.

Lemma rep_plug1 m f t q :
  rep m q (plug1 f t) <-> rep m (frame_node f) t /\ rep_frame m f (ptr_of t) q.
Proof. destruct f; simpl; naive_solver. Qed.

(** Moving the focus up or down by one frame. *)
Lemma focus_plug1 h f k t : focus h (f :: k) t <-> focus h k (plug1 f t).
Proof.
  assert (HP : nodes t ++ ctx_nodes (f :: k) ≡ₚ nodes (plug1 f t) ++ ctx_nodes k).
  { rewrite nodes_plug1. simpl. by rewrite app_assoc. }
  split; intros [H1 H2 H3 H4].
  - split; [by rewrite ptr_of_plug1|apply rep_plug1; destruct H3; done|rewrite ptr_of_plug1; apply H3|].
    by rewrite <- HP.
  - rewrite ptr_of_plug1 in *. apply rep_plug1 in H2 as [H2 H2']. split; [done|done|by split|].
    by rewrite HP.
Qed.

Lemma focus_plug h k t : focus h k t <-> heap_tree h (plug k t).
Proof. revert t. induction k as [|f k IH]; intros t; [done|]. simpl. by rewrite focus_plug1, IH. Qed.

(** ** Framing *)

Definition same_at (m m' : mem) (x : ptr) : Prop :=
  left_of m' x = left_of m x /\ right_of m' x = right_of m x /\
  parent_of m' x = parent_of m x /\ color_of m' x = color_of m x.

Lemma holds_same m m' x l r p c : same_at m m' x -> holds m x l r p c -> holds m' x l r p c.
Proof. unfold holds. intros (-> & -> & -> & ->). done. Qed.

Lemma rep_same m m' p t : (forall x, x ∈ nodes t -> same_at m m' x) -> rep m p t -> rep m' p t.
Proof.
  revert p. induction t as [|l IHl x c r IHr]; intros p Hs; simpl; [done|].
  intros (H1 & H2 & H3). split_and!.
  - eapply holds_same; [|done]. apply Hs. set_solver.
  - apply IHl; [|done]. intros. apply Hs. set_solver.
  - apply IHr; [|done]. intros. apply Hs. set_solver.
Qed.

Lemma rep_ctx_same m m' k p : (forall x, x ∈ ctx_nodes k -> same_at m m' x) -> rep_ctx m k p -> rep_ctx m' k p.
Proof.
  revert p. induction k as [|f k IH]; intros p Hs; simpl; [done|]. intros [H1 H2]. split.
  - destruct f; destruct H1 as [H1 H3]; (split; [eapply holds_same; [|done]|eapply rep_same; [|done]];
      [|intros z Hz]; apply Hs; set_solver).
  - apply IH; [|done]. intros. apply Hs. set_solver.
Qed.

(** ** Sides

    The code is written twice, once for each side; the proofs are not.  [sub d]
    is the right child for [d = true] and the left child for [d = false], and
    [mk d] builds a node whose last subtree is on side [d]. *)

Definition sub (d : bool) (m : mem) (x : ptr) : ptr := if d then right_of m x else left_of m x.
Definition set_sub (d : bool) (x v : Z) (m : mem) : mem := if d then set_right x v m else set_left x v m.
Definition mk (d : bool) (a : tree) (x c : Z) (b : tree) : tree := if d then Node a x c b else Node b x c a.
Definition fr (d : bool) (a : tree) (y c : Z) : frame := if d then FR a y c else FL y c a.
Definition side (f : frame) : bool := match f with FL _ _ _ => false | FR _ _ _ => true end.

(** [rb_rotate_left] is [rotate true], [rb_rotate_right] is [rotate false]. *)
Definition rotate (d : bool) (h : heap) (node : ptr) : heap :=
  let '(m, root) := h in
  let tmp := sub d m node in
  let m := set_sub d node (sub (negb d) m tmp) m in
  let m := if negb (sub (negb d) m tmp =? NULL) then set_parent (sub d m node) node m else m in
  let m := set_parent tmp (parent_of m node) m in
  let '(m, root) :=
    if parent_of m node =? NULL then (m, tmp)
    else if node =? sub (negb d) m (parent_of m node) then (set_sub (negb d) (parent_of m node) tmp m, root)
    else (set_sub d (parent_of m node) tmp m, root) in
  let m := set_sub (negb d) tmp node m in
  (set_parent node tmp m, root).

Lemma rotate_left_side h x : rb_rotate_left h x = rotate true h x.
Proof. reflexivity. Qed.
Lemma rotate_right_side h x : rb_rotate_right h x = rotate false h x.
Proof. reflexivity. Qed.

Lemma nodes_mk d a x c b : nodes (mk d a x c b) ≡ₚ x :: nodes a ++ nodes b.
Proof. destruct d; simpl; solve_Permutation. Qed.

Lemma rep_mk d m p a x c b :
  rep m p (mk d a x c b) <->
  sub (negb d) m x = ptr_of a /\ sub d m x = ptr_of b /\ parent_of m x = p /\ color_of m x = c /\
  rep m x a /\ rep m x b.
Proof. destruct d; unfold sub; simpl; unfold holds; naive_solver. Qed.

Lemma ptr_of_mk d a x c b : ptr_of (mk d a x c b) = x.
Proof. by destruct d. Qed.

Lemma plug1_fr d a y c t : plug1 (fr d a y c) t = mk d a y c t.
Proof. by destruct d. Qed.

Lemma frame_fr f : exists d a y c, f = fr d a y c.
Proof. destruct f as [y c r|l y c]; [by exists false, r, y, c|by exists true, l, y, c]. Qed.

Lemma same_at_sub m m' x :
  same_at m m' x <-> (forall d, sub d m' x = sub d m x) /\ parent_of m' x = parent_of m x /\
    color_of m' x = color_of m x.
Proof.
  unfold same_at, sub. split.
  - intros (H1 & H2 & H3 & H4). split_and!; [|done..]. by intros [].
  - intros (H1 & H2 & H3). split_and!; [apply (H1 false)|apply (H1 true)|done..].
Qed.

(** The root of a tree gets another parent. *)
Lemma rep_reparent m m' p p' t :
  rep m p t -> NoDup (nodes t) ->
  (forall x, x ∈ nodes t -> x <> ptr_of t -> same_at m m' x) ->
  (t <> Leaf -> (forall d, sub d m' (ptr_of t) = sub d m (ptr_of t)) /\
     color_of m' (ptr_of t) = color_of m (ptr_of t) /\ parent_of m' (ptr_of t) = p') ->
  rep m' p' t.
Proof.
  destruct t as [|l x c r]; [done|]. intros Hr Hnd Hs Hx.
  destruct (Hx ltac:(done)) as (E1 & E3 & E4). cbn [ptr_of] in *.
  change (Node l x c r) with (mk true l x c r) in *. apply rep_mk in Hr as (H1 & H2 & H3 & H4 & Hl & Hr).
  rewrite nodes_mk in Hnd. apply NoDup_cons in Hnd as [Hn _].
  apply rep_mk. rewrite !E1. split_and!; try congruence.
  - eapply rep_same; [|done]. intros y Hy. apply Hs; [rewrite nodes_mk|]; set_solver.
  - eapply rep_same; [|done]. intros y Hy. apply Hs; [rewrite nodes_mk|]; set_solver.
Qed.

(** The hole of a context gets another node. *)
Lemma rep_ctx_relink m m' k p p' :
  rep_ctx m k p -> NoDup (ctx_nodes k) ->
  (forall x, x ∈ ctx_nodes k -> x <> par k -> same_at m m' x) ->
  match k with
  | [] => True
  | f :: _ => sub (side f) m' (par k) = p' /\ sub (negb (side f)) m' (par k) = sub (negb (side f)) m (par k) /\
      parent_of m' (par k) = parent_of m (par k) /\ color_of m' (par k) = color_of m (par k)
  end -> rep_ctx m' k p'.
Proof.
  destruct k as [|f k]; simpl; [done|]. intros [Hf Hk] Hnd Hs (L1 & L2 & E1 & E2).
  apply NoDup_app in Hnd as (Hnf & Hd & _). split.
  - destruct f as [y c r|l y c]; simpl in *; destruct Hf as [(H1 & H2 & H3 & H4) Hr];
      apply NoDup_cons in Hnf as [Hy _];
      (split; [split_and!; congruence|eapply rep_same; [|done]; intros z Hz; apply Hs; set_solver]).
  - eapply rep_ctx_same; [|done]. intros x Hx. apply Hs; [set_solver|].
    intros ->. apply (Hd (frame_node f)); [|done]. destruct f; left.
Qed.

(** ** Reading fields after stores *)

Section fields.
Context (L : list ptr) (Hg : good L).

Lemma field_upd w z o o' v (m : mem) :
  w ∈ L -> z ∈ L -> o ∈ [0; 8; 16; 24] -> o' ∈ [0; 8; 16; 24] ->
  (m.[w + o <- v]) (z + o') = if decide (z = w /\ o' = o) then v else m (z + o').
Proof using Hg.
  intros Hw Hz Ho Ho'. destruct Hg as (_ & _ & Hd).
  destruct (decide (z = w /\ o' = o)) as [[-> ->]|Hne]; [apply upd_eq|]. apply upd_ne.
  assert (0 <= o <= 24 /\ 0 <= o' <= 24) by (rewrite !elem_of_cons, !elem_of_nil in *; lia).
  destruct (decide (z = w)) as [->|Hzw].
  - intros E. apply Hne. split; [done|lia].
  - specialize (Hd z w Hz Hw Hzw). unfold sizeof_rb_node in Hd. lia.
Qed.

Ltac fields := unfold sub, set_sub, left_of, right_of, parent_of, color_of, set_left, set_right,
  set_parent, set_color; rewrite ?field_upd by (done || set_solver);
  unfold off_left, off_right, off_parent, off_color; repeat case_decide; naive_solver.

Lemma sub_set_sub d e w v m z : w ∈ L -> z ∈ L ->
  sub d (set_sub e w v m) z = if decide (z = w /\ d = e) then v else sub d m z.
Proof using Hg. intros. destruct d, e; fields. Qed.
Lemma sub_set_parent d w v m z : w ∈ L -> z ∈ L -> sub d (set_parent w v m) z = sub d m z.
Proof using Hg. intros. destruct d; fields. Qed.
Lemma sub_set_color d w v m z : w ∈ L -> z ∈ L -> sub d (set_color w v m) z = sub d m z.
Proof using Hg. intros. destruct d; fields. Qed.
Lemma parent_set_sub e w v m z : w ∈ L -> z ∈ L -> parent_of (set_sub e w v m) z = parent_of m z.
Proof using Hg. intros. destruct e; fields. Qed.
Lemma parent_set_parent w v m z : w ∈ L -> z ∈ L ->
  parent_of (set_parent w v m) z = if decide (z = w) then v else parent_of m z.
Proof using Hg. intros. fields. Qed.
Lemma parent_set_color w v m z : w ∈ L -> z ∈ L -> parent_of (set_color w v m) z = parent_of m z.
Proof using Hg. intros. fields. Qed.
Lemma color_set_sub e w v m z : w ∈ L -> z ∈ L -> color_of (set_sub e w v m) z = color_of m z.
Proof using Hg. intros. destruct e; fields. Qed.
Lemma color_set_parent w v m z : w ∈ L -> z ∈ L -> color_of (set_parent w v m) z = color_of m z.
Proof using Hg. intros. fields. Qed.
Lemma color_set_color w v m z : w ∈ L -> z ∈ L ->
  color_of (set_color w v m) z = if decide (z = w) then v else color_of m z.
Proof using Hg. intros. fields. Qed.

Lemma only_nodes_refl m : only_nodes L m m.
Proof using Type. by intros a _. Qed.
Lemma only_set_sub e w v m m' : w ∈ L -> only_nodes L m m' -> only_nodes L m (set_sub e w v m').
Proof using Type.
  intros Hw H a Ha. specialize (Ha w Hw) as Hb. unfold sizeof_rb_node in Hb.
  destruct e; (unfold set_sub, set_left, set_right, off_left, off_right; rewrite upd_ne by lia; by apply H).
Qed.
Lemma only_set_parent w v m m' : w ∈ L -> only_nodes L m m' -> only_nodes L m (set_parent w v m').
Proof using Type.
  intros Hw H a Ha. specialize (Ha w Hw) as Hb. unfold sizeof_rb_node in Hb.
  unfold set_parent, off_parent. rewrite upd_ne by lia. by apply H.
Qed.
Lemma only_set_color w v m m' : w ∈ L -> only_nodes L m m' -> only_nodes L m (set_color w v m').
Proof using Type.
  intros Hw H a Ha. specialize (Ha w Hw) as Hb. unfold sizeof_rb_node in Hb.
  unfold set_color, off_color. rewrite upd_ne by lia. by apply H.
Qed.
End fields.

(** Read every field in the goal through the stores made so far; the nodes
    involved are known to be in [L]. *)
Ltac rd L Hg :=
  repeat first
  [ rewrite (sub_set_sub L Hg) by assumption | rewrite (sub_set_parent L Hg) by assumption
  | rewrite (sub_set_color L Hg) by assumption | rewrite (parent_set_sub L Hg) by assumption
  | rewrite (parent_set_parent L Hg) by assumption | rewrite (parent_set_color L Hg) by assumption
  | rewrite (color_set_sub L Hg) by assumption | rewrite (color_set_parent L Hg) by assumption
  | rewrite (color_set_color L Hg) by assumption ].

Create HintDb rb.
#[export] Hint Resolve only_nodes_refl only_set_sub only_set_parent only_set_color : rb.

Lemma par_elem k : k <> [] -> par k ∈ ctx_nodes k.
Proof. destruct k as [|[] k]; simpl; [done|set_solver..]. Qed.

Lemma ptr_of_elem t : t <> Leaf -> ptr_of t ∈ nodes t.
Proof. destruct t; simpl; [done|set_solver]. Qed.

Lemma good_pos l x : good l -> x ∈ l -> x <> NULL.
Proof. intros (_ & H & _) Hx. specialize (H x Hx). unfold NULL. lia. Qed.

Lemma ptr_of_null l t : good l -> nodes t ⊆ l -> (ptr_of t =? NULL) = match t with Leaf => true | _ => false end.
Proof.
  intros Hg Hs. destruct t as [|a x c b]; [done|]. simpl. apply Z.eqb_neq.
  apply (good_pos l); [done|]. apply Hs. simpl. set_solver.
Qed.

(** ** Rotations *)

(** The link from the context to the tree in its hole. *)
Definition relink (k : ctx) (p : ptr) (m : mem) : mem :=
  match k with [] => m | f :: _ => set_sub (side f) (frame_node f) p m end.
Definition reroot (k : ctx) (p root : ptr) : ptr := match k with [] => p | _ => root end.
Definition reparent (t : tree) (p : ptr) (m : mem) : mem :=
  match t with Leaf => m | _ => set_parent (ptr_of t) p m end.

Lemma rep_frame_side m f p q :
  rep_frame m f p q -> sub (side f) m (frame_node f) = p /\ parent_of m (frame_node f) = q /\
  exists sib, sub (negb (side f)) m (frame_node f) = ptr_of sib /\ frame_nodes f = frame_node f :: nodes sib.
Proof. destruct f as [y c r|l y c]; simpl; unfold holds; intros ((? & ? & ? & ?) & ?); eauto 10. Qed.

(** The branch of a rotation or a transplant that hangs [p] below the parent
    of [x]. *)
Lemma link_node d m k x p m' root :
  rep_ctx m k x -> good (x :: ctx_nodes k) -> parent_of m' x = par k ->
  (forall e, k <> [] -> sub e m' (par k) = sub e m (par k)) ->
  (if parent_of m' x =? NULL then (m', p)
   else if x =? sub (negb d) m' (parent_of m' x) then (set_sub (negb d) (parent_of m' x) p m', root)
   else (set_sub d (parent_of m' x) p m', root)) = (relink k p m', reroot k p root).
Proof.
  intros H3 H4 Hp Hs. rewrite Hp.
  destruct k as [|f k]; [done|]. cbn [par relink reroot].
  destruct H3 as [Hf _]. apply rep_frame_side in Hf as (E1 & E2 & sib & E3 & E4).
  assert (Hin : frame_node f ∈ ctx_nodes (f :: k)) by (apply (par_elem (f :: k)); done).
  rewrite (proj2 (Z.eqb_neq (frame_node f) NULL)) by (eapply good_pos; [exact H4|by right]).
  rewrite (Hs _ ltac:(done)). cbn [par].
  destruct (decide (side f = negb d)) as [E|E].
  - by rewrite <- E, E1, Z.eqb_refl.
  - assert (Hd : side f = d) by (destruct (side f), d; done). rewrite <- Hd, E3.
    rewrite (proj2 (Z.eqb_neq x (ptr_of sib))); [done|]. intros Eq.
    pose proof (good_pos _ x H4 ltac:(left)) as Hx.
    destruct H4 as (Hnd & _). apply NoDup_cons in Hnd as [Hnd _]. apply Hnd.
    simpl. rewrite E4. apply elem_of_app. left. right. rewrite Eq.
    apply ptr_of_elem. intros ->. by simpl in Eq.
Qed.

Lemma good_sublist L L' : (forall x, x ∈ L' -> x ∈ L) -> NoDup L' -> good L -> good L'.
Proof. intros Hs Hnd (_ & H2 & H3). split_and!; [done|intros; apply H2; auto|intros; apply H3; auto]. Qed.

Lemma focus_hole h k t :
  focus h k t -> t <> Leaf -> good (ptr_of t :: ctx_nodes k) /\ parent_of h.1 (ptr_of t) = par k.
Proof.
  intros [H1 H2 H3 H4] Ht. split; [|destruct t; [done|apply H2]].
  pose proof (ptr_of_elem t Ht) as Hin. eapply good_sublist; [| |exact H4].
  - intros x [->|Hx]%elem_of_cons; apply elem_of_app; auto.
  - destruct H4 as (Hnd & _). apply NoDup_app in Hnd as (_ & Hd & Hnd). apply NoDup_cons. split; [auto|done].
Qed.

Lemma link_branch d h k t x p m' :
  focus h k t -> x = ptr_of t -> t <> Leaf ->
  parent_of m' x = parent_of h.1 x ->
  (forall e, k <> [] -> sub e m' (par k) = sub e h.1 (par k)) ->
  (if parent_of m' x =? NULL then (m', p)
   else if x =? sub (negb d) m' (parent_of m' x) then (set_sub (negb d) (parent_of m' x) p m', h.2)
   else (set_sub d (parent_of m' x) p m', h.2)) = (relink k p m', reroot k p h.2).
Proof.
  intros Hf -> Ht Hp Hs. destruct (focus_hole _ _ _ Hf Ht) as [Hg Hpar].
  apply (link_node d h.1); [apply Hf|done|congruence|done].
Qed.

Lemma rotate_eq d k a x cx b y cy c m root :
  focus (m, root) k (mk d a x cx (mk d b y cy c)) ->
  rotate d (m, root) x =
  (set_parent x y (set_sub (negb d) y x (relink k y (set_parent y (par k)
     (reparent b x (set_sub d x (ptr_of b) m))))), reroot k y root).
Proof.
  intros Hf. pose proof Hf as [_ H2 _ Hg]. cbn [fst] in H2.
  set (L := nodes (mk d a x cx (mk d b y cy c)) ++ ctx_nodes k) in *.
  apply rep_mk in H2 as (E1 & E2 & E3 & E4 & Ha & H2). rewrite ptr_of_mk in E2.
  apply rep_mk in H2 as (F1 & F2 & F3 & F4 & Hb & Hc).
  assert (HL : L ≡ₚ x :: y :: nodes a ++ nodes b ++ nodes c ++ ctx_nodes k).
  { unfold L. rewrite !nodes_mk. solve_Permutation. }
  assert (Hx : x ∈ L) by (rewrite HL; set_solver). assert (Hy : y ∈ L) by (rewrite HL; set_solver).
  assert (Hxy : x <> y) by (destruct Hg as [Hnd _]; rewrite HL in Hnd; apply NoDup_cons in Hnd; set_solver).
  assert (HbL : nodes b ⊆ L) by (intros z Hz; rewrite HL; set_solver).
  unfold rotate. cbv zeta. rewrite E2, F1. rd L Hg.
  rewrite (decide_False (P := y = x /\ _)) by naive_solver. rewrite F1.
  rewrite (decide_True (P := x = x /\ d = d)) by done.
  assert (Hm2 : (if negb (ptr_of b =? NULL) then set_parent (ptr_of b) x (set_sub d x (ptr_of b) m)
                 else set_sub d x (ptr_of b) m) = reparent b x (set_sub d x (ptr_of b) m)).
  { rewrite (ptr_of_null L) by done. by destruct b. }
  rewrite Hm2. set (m2 := reparent b x (set_sub d x (ptr_of b) m)) in *.
  assert (Hm2p : parent_of m2 x = par k /\ forall e, k <> [] -> sub e m2 (par k) = sub e m (par k)).
  { assert (Hk : k <> [] -> par k ∈ L).
    { intros Hk. unfold L. apply elem_of_app. right. by apply par_elem. }
    assert (Hkx : k <> [] -> par k <> x).
    { intros Hne E. destruct Hg as [Hnd _]. rewrite HL in Hnd. apply NoDup_cons in Hnd as [Hn _].
      apply Hn. rewrite <- E. pose proof (par_elem k Hne). set_solver. }
    unfold m2, reparent. destruct b as [|b1 bx bc b2].
    - rd L Hg. split; [done|]. intros e Hke. specialize (Hk Hke). rd L Hg.
      rewrite decide_False; [done|]. intros [Hbad _]. by apply Hkx.
    - cbn [ptr_of]. assert (Hbx : bx ∈ L) by (apply HbL; simpl; set_solver).
      assert (Hbne : x <> bx).
      { intros ->. destruct Hg as [Hnd _]. rewrite HL in Hnd. apply NoDup_cons in Hnd. set_solver. }
      rd L Hg. rewrite decide_False by done. split; [done|]. intros e Hke. specialize (Hk Hke). rd L Hg.
      rewrite decide_False; [done|]. intros [Hbad _]. by apply Hkx. }
  destruct Hm2p as [Hm2p Hm2s]. rewrite Hm2p.
  set (m3 := set_parent y (par k) m2).
  assert (Hm3 : parent_of m3 x = parent_of m x /\ forall e, k <> [] -> sub e m3 (par k) = sub e m (par k)).
  { unfold m3. rd L Hg. rewrite decide_False by done. split; [congruence|].
    intros e Hk. assert (par k ∈ L) by (unfold L; apply elem_of_app; right; by apply par_elem).
    rd L Hg. by apply Hm2s. }
  assert (Hbr := link_branch d (m, root) k (mk d a x cx (mk d b y cy c)) x y m3 Hf
    ltac:(by rewrite ptr_of_mk) ltac:(by destruct d) (proj1 Hm3) (proj2 Hm3)).
  cbn [fst snd] in Hbr. rewrite (proj1 Hm3), E3 in Hbr.
  destruct (decide (x = y)); [done|]. by rewrite Hbr.
Qed.

Section link_fields.
Context (L : list ptr) (Hg : good L).

Lemma sub_relink e k p m z : ctx_nodes k ⊆ L -> z ∈ L ->
  sub e (relink k p m) z =
  match k with [] => sub e m z | f :: _ => if decide (z = frame_node f /\ e = side f) then p else sub e m z end.
Proof using Hg.
  destruct k as [|f k]; [done|]. intros Hk Hz. simpl. apply (sub_set_sub L Hg); [|done].
  apply Hk. apply (par_elem (f :: k)). done.
Qed.
Lemma parent_relink k p m z : ctx_nodes k ⊆ L -> z ∈ L -> parent_of (relink k p m) z = parent_of m z.
Proof using Hg.
  destruct k as [|f k]; [done|]. intros Hk Hz. simpl. apply (parent_set_sub L Hg); [|done].
  apply Hk. apply (par_elem (f :: k)). done.
Qed.
Lemma color_relink k p m z : ctx_nodes k ⊆ L -> z ∈ L -> color_of (relink k p m) z = color_of m z.
Proof using Hg.
  destruct k as [|f k]; [done|]. intros Hk Hz. simpl. apply (color_set_sub L Hg); [|done].
  apply Hk. apply (par_elem (f :: k)). done.
Qed.
Lemma sub_reparent e t p m z : nodes t ⊆ L -> z ∈ L -> sub e (reparent t p m) z = sub e m z.
Proof using Hg.
  destruct t as [|l x c r]; [done|]. intros Ht Hz. apply (sub_set_parent L Hg); [|done].
  apply Ht. simpl. set_solver.
Qed.
Lemma color_reparent t p m z : nodes t ⊆ L -> z ∈ L -> color_of (reparent t p m) z = color_of m z.
Proof using Hg.
  destruct t as [|l x c r]; [done|]. intros Ht Hz. apply (color_set_parent L Hg); [|done].
  apply Ht. simpl. set_solver.
Qed.
Lemma parent_reparent t p m z : nodes t ⊆ L -> z ∈ L ->
  parent_of (reparent t p m) z = if decide (z = ptr_of t) then p else parent_of m z.
Proof using Hg.
  destruct t as [|l x c r]; intros Ht Hz.
  - rewrite decide_False; [done|]. by apply (good_pos L).
  - apply (parent_set_parent L Hg); [|done]. apply Ht. simpl. set_solver.
Qed.
End link_fields.

Lemma only_relink L k p m m' : ctx_nodes k ⊆ L -> only_nodes L m m' -> only_nodes L m (relink k p m').
Proof.
  destruct k as [|f k]; [done|]. intros Hk H. apply (only_set_sub L); [|exact H].
  apply Hk, (par_elem (f :: k)). discriminate.
Qed.
Lemma only_reparent L t p m m' : nodes t ⊆ L -> only_nodes L m m' -> only_nodes L m (reparent t p m').
Proof.
  destruct t as [|l x c r]; [done|]. intros Ht H. apply (only_set_parent L); [|exact H]. apply Ht. simpl. set_solver.
Qed.

Ltac rdl L Hg :=
  repeat first
  [ progress (rd L Hg)
  | rewrite (sub_relink L Hg) by assumption | rewrite (parent_relink L Hg) by assumption
  | rewrite (color_relink L Hg) by assumption | rewrite (sub_reparent L Hg) by assumption
  | rewrite (color_reparent L Hg) by assumption | rewrite (parent_reparent L Hg) by assumption ].
#[export] Hint Resolve only_relink only_reparent : rb.

Lemma reroot_root k t p (h : heap) : h.2 = ctx_root k (ptr_of t) -> reroot k p h.2 = ctx_root k p.
Proof. destruct k; simpl; [done|]. by intros ->. Qed.

(** The parts of a rotation have no node in common. *)
Lemma parts_apart (x y : ptr) A B C K :
  NoDup (x :: y :: A ++ B ++ C ++ K) ->
  x <> y /\ (x ∉ B) /\ (y ∉ B) /\ (x ∉ K) /\ (y ∉ K) /\
  (forall z, z ∈ A -> z <> x /\ z <> y /\ (z ∉ B) /\ (z ∉ K)) /\
  (forall z, z ∈ B -> z <> x /\ z <> y /\ (z ∉ K)) /\
  (forall z, z ∈ C -> z <> x /\ z <> y /\ (z ∉ B) /\ (z ∉ K)) /\
  (forall z, z ∈ K -> z <> x /\ z <> y /\ (z ∉ B)) /\ NoDup B /\ NoDup K.
Proof.
  intros [Hx [Hy Hnd]%NoDup_cons]%NoDup_cons.
  apply NoDup_app in Hnd as (Hna & Hda & (Hnb & Hdb & (Hnc & Hdc & Hnk)%NoDup_app)%NoDup_app).
  rewrite !elem_of_cons, !elem_of_app in Hx. rewrite !elem_of_app in Hy.
  setoid_rewrite elem_of_app in Hda. setoid_rewrite elem_of_app in Hda. setoid_rewrite elem_of_app in Hdb.
  split_and!; try tauto; try (intros z Hz; specialize (Hda z); specialize (Hdb z); specialize (Hdc z);
    split_and!; try tauto; intros ->; tauto).
Qed.

Lemma rotate_focus d k a x cx b y cy c h :
  focus h k (mk d a x cx (mk d b y cy c)) ->
  focus (rotate d h x) k (mk d (mk d a x cx b) y cy c) /\
  only_nodes (nodes (mk d a x cx (mk d b y cy c)) ++ ctx_nodes k) h.1 (rotate d h x).1.
Proof.
  intros Hf. destruct h as [m root]. rewrite (rotate_eq d k a x cx b y cy c m root Hf).
  pose proof Hf as [H1 H2 H3 Hg]. cbn [fst snd] in *.
  set (L := nodes (mk d a x cx (mk d b y cy c)) ++ ctx_nodes k) in *.
  apply rep_mk in H2 as (E1 & E2 & E3 & E4 & Ha & H2). rewrite ptr_of_mk in *.
  apply rep_mk in H2 as (F1 & F2 & F3 & F4 & Hb & Hc).
  assert (HL : L ≡ₚ x :: y :: nodes a ++ nodes b ++ nodes c ++ ctx_nodes k).
  { unfold L. rewrite !nodes_mk. solve_Permutation. }
  assert (Hin : forall z, z = x \/ z = y \/ z ∈ nodes a \/ z ∈ nodes b \/ z ∈ nodes c \/ z ∈ ctx_nodes k -> z ∈ L).
  { intros z Hz. rewrite HL. rewrite !elem_of_cons, !elem_of_app. tauto. }
  destruct (parts_apart x y (nodes a) (nodes b) (nodes c) (ctx_nodes k))
    as (Hxy & HxB & HyB & HxK & HyK & HA & HB & HC & HK & HnB & HnK).
  { destruct Hg as [Hnd _]. by rewrite <- HL. }
  assert (Hx : x ∈ L) by auto. assert (Hy : y ∈ L) by auto.
  assert (HbL : nodes b ⊆ L) by (intros z Hz; auto 10).
  assert (HkL : ctx_nodes k ⊆ L) by (intros z Hz; auto 10).
  assert (Hpb : forall z, z ∉ nodes b -> z ∈ L -> z <> ptr_of b).
  { intros z Hz HzL ->. destruct b; [by apply (good_pos L) in HzL|]. apply Hz. simpl. set_solver. }
  assert (Hkz : forall z, z ∉ ctx_nodes k -> k <> [] -> z <> par k).
  { intros z Hz Hk ->. by apply Hz, par_elem. }
  assert (Hdd : d <> negb d) by (by destruct d).
  set (m' := set_parent x y _).
  assert (Honly : only_nodes L m m') by (unfold m'; auto 20 with rb).
  (* every child link and parent link of the new memory *)
  assert (Hsub : forall e z, z ∈ L -> sub e m' z =
    if decide (z = y /\ e = negb d) then x else
    if decide (k <> [] /\ z = par k /\ e = match k with [] => d | f :: _ => side f end) then y else
    if decide (z = x /\ e = d) then ptr_of b else sub e m z).
  { intros e z Hz. unfold m'. rdl L Hg. destruct (decide (z = y /\ e = negb d)); [done|].
    destruct k as [|f k']; [|cbn [par]]; repeat case_decide; destruct_and?; done || naive_solver. }
  assert (Hpar : forall z, z ∈ L -> parent_of m' z =
    if decide (z = x) then y else if decide (z = y) then par k else
    if decide (z = ptr_of b) then x else parent_of m z).
  { intros z Hz. unfold m'. by rdl L Hg. }
  assert (Hcol : forall z, z ∈ L -> color_of m' z = color_of m z) by (intros z Hz; unfold m'; by rdl L Hg).
  clearbody m'.
  assert (Hsame : forall z, z ∈ L -> z <> x -> z <> y -> z <> ptr_of b -> (k <> [] -> z <> par k) ->
    same_at m m' z).
  { intros z Hz Hzx Hzy Hzb Hzk. apply same_at_sub. split_and!; [|by rewrite Hpar, !decide_False|auto].
    intros e. rewrite Hsub by done. repeat case_decide; destruct_and?; done || tauto. }
  split; [|done]. split; cbn [fst snd].
  - rewrite ptr_of_mk. by apply (reroot_root k (mk d a x cx (mk d b y cy c)) y (m, root)); rewrite ptr_of_mk.
  - apply rep_mk. rewrite ptr_of_mk, !Hsub, Hpar, Hcol by done.
    assert (HKx := Hkz x HxK). assert (HKy := Hkz y HyK).
    split_and!; [by rewrite decide_True| | |done| |].
    + repeat case_decide; destruct_and?; congruence || tauto.
    + repeat case_decide; destruct_and?; congruence || tauto.
    + apply rep_mk. rewrite !Hsub, Hpar, Hcol by done. split_and!; [| |by rewrite decide_True|done| |].
      * repeat case_decide; destruct_and?; congruence || tauto.
      * repeat case_decide; destruct_and?; congruence || tauto.
      * eapply rep_same; [|exact Ha]. intros z Hz. destruct (HA z Hz) as (? & ? & ? & ?).
        apply Hsame; auto 10.
      * eapply rep_reparent; [exact Hb|done| |].
        -- intros z Hz Hzb. destruct (HB z Hz) as (? & ? & ?). apply Hsame; auto 10.
        -- intros Hbl. pose proof (ptr_of_elem b Hbl) as Hpe. destruct (HB _ Hpe) as (? & ? & Hbk).
           assert (Hbk' := Hkz _ Hbk). assert (ptr_of b ∈ L) by auto 10.
           rewrite Hpar, Hcol by done. split_and!; [|done|repeat case_decide; congruence].
           intros e. rewrite Hsub by done. repeat case_decide; destruct_and?; congruence || tauto.
    + eapply rep_same; [|exact Hc]. intros z Hz. destruct (HC z Hz) as (? & ? & ? & ?).
      apply Hsame; auto 10.
  - rewrite ptr_of_mk. eapply rep_ctx_relink; [exact H3|done| |].
    + intros z Hz Hzk. destruct (HK z Hz) as (? & ? & ?). apply Hsame; auto 10.
    + destruct k as [|f k']; [done|]. cbn [par] in *.
      assert (Hfk : frame_node f ∈ ctx_nodes (f :: k')) by (apply (par_elem (f :: k')); done).
      destruct (HK _ Hfk) as (? & ? & HfB). assert (frame_node f ∈ L) by auto 10.
      assert (frame_node f <> ptr_of b) by auto.
      assert (side f <> negb (side f)) by (by destruct (side f)).
      rewrite !Hsub, Hpar, Hcol by done.
      split_and!; repeat case_decide; destruct_and?; congruence || naive_solver.
  - rewrite !nodes_mk. eapply good_perm; [|exact Hg]. rewrite HL. solve_Permutation.
Qed.
