(* ===== verification/RbInsert.v ===== *)
(** * Red-black insertion: the code refines a function on trees

    [fixup] is the repair of [rb_insert_fixup] on trees with a hole; the loop
    on the heap computes it, turn by turn. *)

From S2P Require Import Prelude State RbTree RbRep.

(** ** Recolouring at the focus *)

Definition recolor (c : Z) (t : tree) : tree :=
  match t with Leaf => Leaf | Node l x _ r => Node l x c r end.
Definition root_color (t : tree) : Z := match t with Leaf => RB_BLACK | Node _ _ c _ => c end.

Lemma nodes_recolor c t : nodes (recolor c t) = nodes t.
Proof. by destruct t. Qed.
Lemma ptr_of_recolor c t : ptr_of (recolor c t) = ptr_of t.
Proof. by destruct t. Qed.
Lemma recolor_mk c d a x c0 b : recolor c (mk d a x c0 b) = mk d a x c b.
Proof. by destruct d. Qed.
Lemma root_color_mk d a x c b : root_color (mk d a x c b) = c.
Proof. by destruct d. Qed.

Lemma mk_negb d a x c b : mk (negb d) a x c b = mk d b x c a.
Proof. by destruct d. Qed.

Lemma recolor_focus h k t c :
  focus h k t -> t <> Leaf ->
  focus (set_color (ptr_of t) c h.1, h.2) k (recolor c t) /\
  only_nodes (nodes t ++ ctx_nodes k) h.1 (set_color (ptr_of t) c h.1).
Proof.
  intros [H1 H2 H3 Hg] Ht. destruct t as [|l x c0 r]; [done|]. clear Ht. cbn [ptr_of recolor].
  set (L := nodes (Node l x c0 r) ++ ctx_nodes k) in *.
  assert (HL : L ≡ₚ x :: nodes l ++ nodes r ++ ctx_nodes k) by (unfold L; simpl; solve_Permutation).
  assert (Hx : x ∈ L) by (rewrite HL; left).
  assert (Hnx : forall z, z ∈ nodes l ++ nodes r ++ ctx_nodes k -> z <> x /\ z ∈ L).
  { intros z Hz. split; [|rewrite HL; by right]. intros ->. destruct Hg as [Hnd _].
    rewrite HL in Hnd. by apply NoDup_cons in Hnd as [Hn _]. }
  assert (Hsame : forall z, z ∈ nodes l ++ nodes r ++ ctx_nodes k -> same_at h.1 (set_color x c h.1) z).
  { intros z Hz. destruct (Hnx z Hz) as [Hzx HzL]. apply same_at_sub.
    split_and!; [intros e; by rd L Hg|by rd L Hg|rd L Hg; by rewrite decide_False]. }
  split; [|auto with rb]. split; cbn [fst snd].
  - done.
  - change (Node l x ?c r) with (mk true l x c r) in *.
    apply rep_mk in H2 as (E1 & E2 & E3 & E4 & Hl & Hr). apply rep_mk. rd L Hg.
    split_and!; try done; [by rewrite decide_True|eapply rep_same; [|exact Hl]|eapply rep_same; [|exact Hr]];
      intros z Hz; apply Hsame; set_solver.
  - eapply rep_ctx_same; [|exact H3]. intros z Hz. apply Hsame. set_solver.
  - done.
Qed.

(** ** The repair on trees *)

Definition frame_color (f : frame) : Z := match f with FL _ c _ => c | FR _ _ c => c end.
Definition frame_sub (f : frame) : tree := match f with FL _ _ r => r | FR l _ _ => l end.

Lemma frame_eta f : f = fr (side f) (frame_sub f) (frame_node f) (frame_color f).
Proof. by destruct f. Qed.

(** The tree below the grandparent [g] once the uncle [u] is not red: [t] is on
    side [e] of its parent [p], which is on side [d] of [g]. *)
Definition rebuild (d e : bool) (u : tree) (g : ptr) (s : tree) (p : ptr) (t : tree) : tree :=
  if Bool.eqb e d then mk d (mk d u g RB_RED s) p RB_BLACK t
  else match t with
       | Leaf => Leaf
       | Node l x _ r =>
           let '(t1, t2) := if e then (l, r) else (r, l) in
           mk d (mk d u g RB_RED t2) x RB_BLACK (mk d t1 p RB_RED s)
       end.

Fixpoint fixup (k : ctx) (t : tree) : tree :=
  match k with
  | f1 :: (f2 :: k') =>
      if frame_color f1 =? RB_RED then
        if root_color (frame_sub f2) =? RB_RED then
          fixup k' (recolor RB_RED (plug1
            (fr (side f2) (recolor RB_BLACK (frame_sub f2)) (frame_node f2) RB_RED)
            (recolor RB_BLACK (plug1 f1 t))))
        else plug k' (rebuild (side f2) (side f1) (frame_sub f2) (frame_node f2)
                        (frame_sub f1) (frame_node f1) t)
      else plug k t
  | _ => plug k t
  end.

(** One turn, for a parent on side [d] of the grandparent. *)
Definition fix_step (d : bool) (h : heap) (x : ptr) : heap * ptr :=
  let '(m, root) := h in
  let gp m x := parent_of m (parent_of m x) in
  let uncle := sub (negb d) m (gp m x) in
  if negb (uncle =? NULL) && (color_of m uncle =? RB_RED) then
    let m := set_color (parent_of m x) RB_BLACK m in
    let m := set_color uncle RB_BLACK m in
    let m := set_color (gp m x) RB_RED m in
    ((m, root), gp m x)
  else
    let '((m, root), x) :=
      if x =? sub (negb d) m (parent_of m x) then (rotate (negb d) (m, root) (parent_of m x), parent_of m x)
      else ((m, root), x) in
    let m := set_color (parent_of m x) RB_BLACK m in
    let m := set_color (gp m x) RB_RED m in
    (rotate d (m, root) (gp m x), x).

Lemma insert_fixup_step_side h x :
  insert_fixup_step h x =
  fix_step (negb (parent_of h.1 x =? left_of h.1 (parent_of h.1 (parent_of h.1 x)))) h x.
Proof.
  destruct h as [m root]. unfold insert_fixup_step. cbn [fst].
  destruct (parent_of m x =? left_of m (parent_of m (parent_of m x))); reflexivity.
Qed.

(** ** Reading at the focus *)

Lemma focus_fr h e s p c k t : focus h (fr e s p c :: k) t <-> focus h k (mk e s p c t).
Proof. by rewrite focus_plug1, plug1_fr. Qed.

Lemma focus_root h k d a x c b :
  focus h k (mk d a x c b) ->
  sub (negb d) h.1 x = ptr_of a /\ sub d h.1 x = ptr_of b /\ parent_of h.1 x = par k /\
  color_of h.1 x = c /\ x <> NULL.
Proof.
  intros [_ H2 _ Hg]. apply rep_mk in H2 as (H1 & H2 & H3 & H4 & _). split_and!; try done.
  apply (good_pos _ x Hg). rewrite nodes_mk. set_solver.
Qed.

Lemma focus_color h k t : focus h k t -> t <> Leaf -> color_of h.1 (ptr_of t) = root_color t.
Proof. intros [_ H2 _ _] Ht. destruct t as [|l x c r]; [done|]. apply H2. Qed.

Lemma focus_parent h k t : focus h k t -> t <> Leaf -> parent_of h.1 (ptr_of t) = par k.
Proof. intros [_ H2 _ _] Ht. destruct t as [|l x c r]; [done|]. apply H2. Qed.

Lemma par_fr e s p c k : par (fr e s p c :: k) = p.
Proof. by destruct e. Qed.

Lemma focus_null h k t : focus h k t -> (ptr_of t =? NULL) = match t with Leaf => true | _ => false end.
Proof. intros [_ _ _ Hg]. apply (ptr_of_null _ _ Hg). set_solver. Qed.

(** The two children of a node are different unless both are missing. *)
Lemma focus_children h k d a x c b :
  focus h k (mk d a x c b) -> b <> Leaf -> ptr_of b <> ptr_of a.
Proof.
  intros [_ _ _ Hg] Hb E. pose proof Hg as (Hnd & Hpos & _). rewrite nodes_mk in Hnd.
  apply NoDup_app in Hnd as ([_ (_ & Hd & _)%NoDup_app]%NoDup_cons & _ & _).
  assert (Hpb := ptr_of_elem b Hb).
  destruct (decide (a = Leaf)) as [->|Ha].
  - simpl in E. specialize (Hpos (ptr_of b)). unfold NULL in E.
    specialize (Hpos ltac:(rewrite nodes_mk; set_solver)). lia.
  - apply (Hd (ptr_of a)); [by apply ptr_of_elem|by rewrite <- E].
Qed.

(** [h] and [h'] agree outside the nodes of [L]. *)
Abbreviation steps_in L h h' := (only_nodes L (fst h) (fst h')).

Lemma focus_nodes_perm k t k' t' :
  plug k t = plug k' t' -> nodes t ++ ctx_nodes k ≡ₚ nodes t' ++ ctx_nodes k'.
Proof. intros E. by rewrite <- !nodes_plug, E. Qed.

(** Recolouring the node at the root of the focus, stated with [mk]. *)
Lemma recolor_mk_focus h k d a x c b c' L :
  focus h k (mk d a x c b) -> L ≡ₚ nodes (mk d a x c b) ++ ctx_nodes k ->
  focus (set_color x c' h.1, h.2) k (mk d a x c' b) /\ only_nodes L h.1 (set_color x c' h.1).
Proof.
  intros Hf HL. destruct (recolor_focus h k _ c' Hf ltac:(by destruct d)) as [H1 H2].
  rewrite recolor_mk, ptr_of_mk in *. split; [done|]. intros y Hy. apply H2. intros z Hz. apply Hy.
  by rewrite HL.
Qed.

Section step.
Context (k : ctx) (d e : bool) (s u t : tree) (p g cg : Z).
Let L : list ptr := nodes (mk d u g cg (mk e s p RB_RED t)) ++ ctx_nodes k.

(** A red uncle: parent and uncle turn black, the grandparent red. *)
Lemma step_red_uncle h :
  focus h k (mk d u g cg (mk e s p RB_RED t)) -> t <> Leaf -> root_color u = RB_RED ->
  exists h', fix_step d h (ptr_of t) = (h', g) /\
    focus h' k (mk d (recolor RB_BLACK u) g RB_RED (mk e s p RB_BLACK t)) /\ steps_in L h h'.
Proof using Type.
  intros Hf Ht Hu. destruct h as [m root].
  assert (Hul : u <> Leaf) by (intros ->; by simpl in Hu).
  pose proof (focus_root _ _ _ _ _ _ _ Hf) as (G1 & G2 & G3 & G4 & G5). rewrite ptr_of_mk in G2. cbn [fst] in *.
  pose proof (proj2 (focus_fr _ _ _ _ _ _ _) Hf) as Hp.
  pose proof (focus_root _ _ _ _ _ _ _ Hp) as (P1 & P2 & P3 & P4 & P5). rewrite par_fr in P3. cbn [fst] in *.
  pose proof (proj2 (focus_fr _ _ _ _ _ _ _) Hp) as Hx.
  pose proof (focus_parent _ _ _ Hx Ht) as X1. rewrite par_fr in X1. cbn [fst] in *.
  assert (Hun : focus (m, root) (fr (negb d) (mk e s p RB_RED t) g cg :: k) u)
    by (apply (proj2 (focus_fr _ _ _ _ _ _ _)); by rewrite mk_negb).
  pose proof (focus_null _ _ _ Hun) as Un. pose proof (focus_color _ _ _ Hun Hul) as Uc. cbn [fst] in Uc.
  unfold fix_step. rewrite X1, P3, G1, Un, Uc, Hu.
  assert (negb (match u with Leaf => true | _ => false end) && (RB_RED =? RB_RED) = true) as ->
    by (by destruct u).
  (* parent *)
  destruct (recolor_mk_focus (m, root) (fr d u g cg :: k) e s p RB_RED t RB_BLACK L Hp) as [F1 O1].
  { unfold L. apply focus_nodes_perm. simpl. by rewrite plug1_fr. }
  cbn [fst snd] in *. set (m1 := set_color p RB_BLACK m) in *.
  (* uncle *)
  apply (proj1 (focus_fr _ _ _ _ _ _ _)) in F1.
  assert (Hu1 : focus (m1, root) (fr (negb d) (mk e s p RB_BLACK t) g cg :: k) u)
    by (apply (proj2 (focus_fr _ _ _ _ _ _ _)); by rewrite mk_negb).
  destruct (recolor_focus _ _ _ RB_BLACK Hu1 Hul) as [F2 O2]. cbn [fst snd] in *.
  set (m2 := set_color (ptr_of u) RB_BLACK m1) in *.
  apply (proj1 (focus_fr _ _ _ _ _ _ _)) in F2. rewrite mk_negb in F2.
  (* grandparent *)
  pose proof (proj2 (focus_fr _ _ _ _ _ _ _) F2) as Hp2.
  pose proof (focus_root _ _ _ _ _ _ _ Hp2) as (_ & _ & P3' & _). rewrite par_fr in P3'. cbn [fst] in P3'.
  pose proof (proj2 (focus_fr _ _ _ _ _ _ _) Hp2) as Hx2.
  pose proof (focus_parent _ _ _ Hx2 Ht) as X1'. rewrite par_fr in X1'. cbn [fst] in X1'.
  destruct (recolor_mk_focus (m2, root) k d (recolor RB_BLACK u) g cg (mk e s p RB_BLACK t) RB_RED L F2)
    as [F3 O3].
  { unfold L. rewrite !nodes_mk, nodes_recolor. done. }
  cbn [fst snd] in *. set (m3 := set_color g RB_RED m2) in *.
  pose proof (proj2 (focus_fr _ _ _ _ _ _ _) F3) as Hp3.
  pose proof (focus_root _ _ _ _ _ _ _ Hp3) as (_ & _ & P3'' & _). rewrite par_fr in P3''. cbn [fst] in P3''.
  pose proof (proj2 (focus_fr _ _ _ _ _ _ _) Hp3) as Hx3.
  pose proof (focus_parent _ _ _ Hx3 Ht) as X1''. rewrite par_fr in X1''. cbn [fst] in X1''.
  rewrite X1', P3'. fold m3. rewrite X1'', P3''. exists (m3, root). split; [done|]. split; [exact F3|].
  cbn [fst]. eapply only_nodes_trans; [exact O1|]. eapply only_nodes_trans; [|exact O3].
  intros y Hy. apply O2. intros z Hz. apply Hy. unfold L. revert Hz.
  rewrite (nodes_mk d), (nodes_mk e). simpl. destruct d; simpl; rewrite ?nodes_mk; set_solver.
Qed.
End step.

(** The end of a turn with a black uncle: recolour and rotate the grandparent. *)
Definition fix_finish (d : bool) (h : heap) (x : ptr) : heap * ptr :=
  let '(m, root) := h in
  let m := set_color (parent_of m x) RB_BLACK m in
  let m := set_color (parent_of m (parent_of m x)) RB_RED m in
  (rotate d (m, root) (parent_of m (parent_of m x)), x).

Lemma only_nodes_perm L L' m m' : L ≡ₚ L' -> only_nodes L m m' -> only_nodes L' m m'.
Proof. intros HP H a Ha. apply H. intros x Hx. apply Ha. by rewrite <- HP. Qed.

Lemma finish_focus k d u g cg a y cy b h L :
  focus h k (mk d u g cg (mk d a y cy b)) -> b <> Leaf ->
  L ≡ₚ nodes (mk d u g cg (mk d a y cy b)) ++ ctx_nodes k ->
  exists h', fix_finish d h (ptr_of b) = (h', ptr_of b) /\
    focus h' k (mk d (mk d u g RB_RED a) y RB_BLACK b) /\ steps_in L h h'.
Proof.
  intros Hf Hb HL. destruct h as [m root]. unfold fix_finish.
  pose proof (proj2 (focus_fr _ _ _ _ _ _ _) Hf) as Hy.
  pose proof (proj2 (focus_fr _ _ _ _ _ _ _) Hy) as Hx.
  pose proof (focus_parent _ _ _ Hx Hb) as X1. rewrite par_fr in X1. cbn [fst] in X1. rewrite X1.
  destruct (recolor_mk_focus (m, root) (fr d u g cg :: k) d a y cy b RB_BLACK L Hy) as [F1 O1].
  { rewrite HL. apply focus_nodes_perm. simpl. by rewrite plug1_fr. }
  cbn [fst snd] in *. set (m1 := set_color y RB_BLACK m) in *.
  pose proof (focus_root _ _ _ _ _ _ _ F1) as (_ & _ & Y1 & _). rewrite par_fr in Y1.
  pose proof (focus_parent _ _ _ (proj2 (focus_fr _ _ _ _ _ _ _) F1) Hb) as X2. rewrite par_fr in X2.
  cbn [fst] in X2, Y1. rewrite X2, Y1. apply (proj1 (focus_fr _ _ _ _ _ _ _)) in F1.
  destruct (recolor_mk_focus (m1, root) k d u g cg (mk d a y RB_BLACK b) RB_RED L F1) as [F2 O2].
  { rewrite HL. by rewrite !nodes_mk. }
  cbn [fst snd] in *. set (m2 := set_color g RB_RED m1) in *.
  pose proof (proj2 (focus_fr _ _ _ _ _ _ _) F2) as Hy2.
  pose proof (focus_root _ _ _ _ _ _ _ Hy2) as (_ & _ & Y2 & _). rewrite par_fr in Y2.
  pose proof (focus_parent _ _ _ (proj2 (focus_fr _ _ _ _ _ _ _) Hy2) Hb) as X3. rewrite par_fr in X3.
  cbn [fst] in X3, Y2. rewrite X3, Y2.
  destruct (rotate_focus d k u g RB_RED a y RB_BLACK b (m2, root) F2) as [F3 O3].
  eexists. split; [done|]. split; [exact F3|]. cbn [fst] in *.
  eapply only_nodes_trans; [exact O1|]. eapply only_nodes_trans; [exact O2|].
  eapply only_nodes_perm; [|exact O3]. rewrite HL. by rewrite !nodes_mk.
Qed.

(** A black uncle: one or two rotations, and the loop is over. *)
Lemma step_black_uncle k d e s u t p g cg h :
  focus h k (mk d u g cg (mk e s p RB_RED t)) -> t <> Leaf -> root_color u <> RB_RED ->
  exists h' k' t', fix_step d h (ptr_of t) = (h', ptr_of t') /\ t' <> Leaf /\
    plug k' t' = plug k (rebuild d e u g s p t) /\ focus h' k' t' /\
    color_of h'.1 (par k') = RB_BLACK /\
    steps_in (nodes (mk d u g cg (mk e s p RB_RED t)) ++ ctx_nodes k) h h'.
Proof.
  intros Hf Ht Hu. destruct h as [m root].
  set (L := nodes (mk d u g cg (mk e s p RB_RED t)) ++ ctx_nodes k).
  pose proof (focus_root _ _ _ _ _ _ _ Hf) as (G1 & G2 & G3 & G4 & G5). rewrite ptr_of_mk in G2. cbn [fst] in *.
  pose proof (proj2 (focus_fr _ _ _ _ _ _ _) Hf) as Hp.
  pose proof (focus_root _ _ _ _ _ _ _ Hp) as (P1 & P2 & P3 & P4 & P5). rewrite par_fr in P3. cbn [fst] in *.
  pose proof (proj2 (focus_fr _ _ _ _ _ _ _) Hp) as Hx.
  pose proof (focus_parent _ _ _ Hx Ht) as X1. rewrite par_fr in X1. cbn [fst] in *.
  assert (Hun : focus (m, root) (fr (negb d) (mk e s p RB_RED t) g cg :: k) u)
    by (apply (proj2 (focus_fr _ _ _ _ _ _ _)); by rewrite mk_negb).
  unfold fix_step. rewrite X1, P3, G1, (focus_null _ _ _ Hun).
  assert (negb (match u with Leaf => true | _ => false end) && (color_of m (ptr_of u) =? RB_RED) = false) as ->.
  { destruct (decide (u = Leaf)) as [->|Hul]; [done|].
    pose proof (focus_color _ _ _ Hun Hul) as Uc. cbn [fst] in Uc. rewrite Uc.
    rewrite (proj2 (Z.eqb_neq _ _)) by done. apply andb_false_r. }
  unfold rebuild. destruct (decide (e = d)) as [->|Hed].
  - (* outer child *)
    rewrite Bool.eqb_reflx. rewrite P1.
    rewrite (proj2 (Z.eqb_neq (ptr_of t) (ptr_of s))) by (by apply (focus_children _ _ _ _ _ _ _ Hp)).
    destruct (finish_focus k d u g cg s p RB_RED t (m, root) L Hf Ht) as (h' & E & Hf' & Ho); [done|].
    exists h', (fr d (mk d u g RB_RED s) p RB_BLACK :: k), t. split; [exact E|]. split; [done|].
    split; [simpl; by rewrite plug1_fr|]. split; [by apply (proj2 (focus_fr _ _ _ _ _ _ _))|].
    split; [|done]. rewrite par_fr. by apply (focus_root _ _ _ _ _ _ _ Hf').
  - (* inner child *)
    assert (Ee : e = negb d) by (destruct d, e; done). subst e.
    rewrite (proj2 (Bool.eqb_false_iff (negb d) d)) by done. rewrite P2, Z.eqb_refl.
    destruct t as [|l x cx r]; [done|]. cbn [ptr_of] in *.
    set (t1 := if negb d then l else r). set (t2 := if negb d then r else l).
    assert (Et : Node l x cx r = mk (negb d) t1 x cx t2) by (unfold t1, t2; by destruct d).
    rewrite Et in Hp.
    destruct (rotate_focus (negb d) (fr d u g cg :: k) s p RB_RED t1 x cx t2 (m, root) Hp) as [F1 O1].
    apply (proj1 (focus_fr _ _ _ _ _ _ _)) in F1. rewrite (mk_negb d (mk _ s p _ t1)) in F1.
    set (h1 := rotate (negb d) (m, root) p) in *.
    destruct (finish_focus k d u g cg t2 x cx (mk (negb d) s p RB_RED t1) h1 L F1) as (h' & E & Hf' & Ho).
    { by destruct d. }
    { unfold L. rewrite Et, !nodes_mk. solve_Permutation. }
    exists h', (fr d (mk d u g RB_RED t2) x RB_BLACK :: k), (mk (negb d) s p RB_RED t1).
    rewrite ptr_of_mk in *. split; [destruct h1 as [m1 root1]; exact E|]. split; [by destruct d|].
    split.
    { simpl. rewrite plug1_fr. rewrite (mk_negb d s). unfold t1, t2. by destruct d. }
    split; [by apply (proj2 (focus_fr _ _ _ _ _ _ _))|].
    split; [rewrite par_fr; by apply (focus_root _ _ _ _ _ _ _ Hf')|].
    eapply only_nodes_trans; [|exact Ho]. eapply only_nodes_perm; [|exact O1].
    unfold L. rewrite Et. apply focus_nodes_perm. simpl. by rewrite plug1_fr.
Qed.

(** The side the code computes is the parent's side. *)
Lemma parent_side h k d u g cg e s p c t :
  focus h k (mk d u g cg (mk e s p c t)) ->
  negb (p =? left_of h.1 g) = d.
Proof.
  intros Hf. pose proof (focus_root _ _ _ _ _ _ _ Hf) as (G1 & G2 & _). rewrite ptr_of_mk in G2.
  pose proof (focus_children _ _ _ _ _ _ _ Hf ltac:(by destruct e)) as Hne. rewrite ptr_of_mk in Hne.
  destruct d; unfold sub in *; simpl in *.
  - rewrite G1. by rewrite (proj2 (Z.eqb_neq _ _)).
  - by rewrite G2, Z.eqb_refl.
Qed.

Lemma insert_fixup_loop_spec turns k t h :
  (length k <= turns)%nat -> focus h k t -> t <> Leaf ->
  exists h', insert_fixup_loop turns h (ptr_of t) = Some h' /\ heap_tree h' (fixup k t) /\
    steps_in (nodes t ++ ctx_nodes k) h h'.
Proof.
  revert k t h. induction turns as [turns IH] using (well_founded_induction lt_wf); intros k t h Hl Hf Ht.
  pose proof (focus_parent _ _ _ Hf Ht) as Hpar.
  assert (Hstop : forall n, negb (parent_of h.1 (ptr_of t) =? NULL) &&
    (color_of h.1 (parent_of h.1 (ptr_of t)) =? RB_RED) &&
    negb (parent_of h.1 (parent_of h.1 (ptr_of t)) =? NULL) = false ->
    insert_fixup_loop n h (ptr_of t) = Some h).
  { intros n E. destruct n; simpl; by rewrite E. }
  destruct k as [|f1 k].
  { exists h. rewrite Hstop by (by rewrite Hpar). split_and!; [done|done|apply only_nodes_refl]. }
  rewrite (frame_eta f1) in Hf, Hpar. rewrite par_fr in Hpar.
  set (e := side f1) in *. set (s := frame_sub f1) in *. set (p := frame_node f1) in *.
  set (c1 := frame_color f1) in *.
  pose proof (proj1 (focus_fr _ _ _ _ _ _ _) Hf) as Hp.
  pose proof (focus_root _ _ _ _ _ _ _ Hp) as (_ & _ & P3 & P4 & P5).
  destruct k as [|f2 k].
  { exists h. rewrite Hstop by (rewrite Hpar, P3; apply andb_false_r).
    split; [done|]. split; [|apply only_nodes_refl]. apply (proj1 (focus_plug h [f1] t)).
    rewrite (frame_eta f1). exact Hf. }
  rewrite (frame_eta f2) in Hp, P3. rewrite par_fr in P3.
  set (d := side f2) in *. set (u := frame_sub f2) in *. set (g := frame_node f2) in *.
  set (cg := frame_color f2) in *.
  pose proof (proj1 (focus_fr _ _ _ _ _ _ _) Hp) as Hg.
  pose proof (focus_root _ _ _ _ _ _ _ Hg) as (_ & _ & _ & _ & G5).
  assert (Hcond : negb (parent_of h.1 (ptr_of t) =? NULL) &&
    (color_of h.1 (parent_of h.1 (ptr_of t)) =? RB_RED) &&
    negb (parent_of h.1 (parent_of h.1 (ptr_of t)) =? NULL) = (c1 =? RB_RED)).
  { rewrite Hpar, P3, P4, (proj2 (Z.eqb_neq p NULL)), (proj2 (Z.eqb_neq g NULL)) by done.
    simpl. apply andb_true_r. }
  assert (HL : nodes t ++ ctx_nodes (f1 :: f2 :: k) ≡ₚ nodes (mk d u g cg (mk e s p c1 t)) ++ ctx_nodes k).
  { apply focus_nodes_perm. rewrite (frame_eta f1), (frame_eta f2). simpl. by rewrite !plug1_fr. }
  cbn [fixup]. fold c1 u. destruct (Z.eqb_spec c1 RB_RED) as [Ec|Ec].
  2:{ exists h. rewrite Hstop by (rewrite Hcond; done).
      split; [done|]. split; [|apply only_nodes_refl]. apply (proj1 (focus_plug h (f1 :: f2 :: k) t)).
      rewrite (frame_eta f1). exact Hf. }
  destruct turns as [|n]; [simpl in Hl; lia|]. cbn [insert_fixup_loop]. rewrite Hcond.
  rewrite insert_fixup_step_side, Hpar, P3, (parent_side _ _ _ _ _ _ _ _ _ _ _ Hg). rewrite Ec in *.
  change (RB_RED =? RB_RED) with true. cbv iota.
  destruct (Z.eqb_spec (root_color u) RB_RED) as [Eu|Eu].
  - destruct (step_red_uncle k d e s u t p g cg h Hg Ht Eu) as (h1 & E1 & F1 & O1). rewrite E1.
    destruct (IH n ltac:(lia) k _ h1 ltac:(simpl in Hl; lia) F1 ltac:(by destruct d)) as (h2 & E2 & F2 & O2).
    rewrite ptr_of_mk in E2. exists h2. split; [exact E2|]. split.
    + rewrite plug1_fr, recolor_mk. rewrite (frame_eta f1), plug1_fr, recolor_mk. exact F2.
    + eapply only_nodes_trans; [eapply only_nodes_perm; [|exact O1]; by rewrite HL|].
      eapply only_nodes_perm; [|exact O2]. rewrite HL, !nodes_mk, nodes_recolor. done.
  - destruct (step_black_uncle k d e s u t p g cg h Hg Ht Eu) as (h1 & k1 & t1 & E1 & Ht1 & Epl & F1 & C1 & O1).
    rewrite E1. exists h1. split.
    + destruct n; cbn [insert_fixup_loop]; rewrite (focus_parent _ _ _ F1 Ht1), C1;
        by rewrite andb_false_r.
    + split; [|eapply only_nodes_perm; [|exact O1]; by rewrite HL].
      change (heap_tree h1 (plug k (rebuild d e u g s p t))).
      rewrite <- Epl. by apply (proj1 (focus_plug _ _ _)).
Qed.
