(* ===== verification/RbBalance.v ===== *)
(** * Red-black trees as trees: order, balance and height

    The repair keeps the in-order sequence and restores the red-black
    conditions; a red-black tree is logarithmically high. *)

From S2P Require Import Prelude State RbTree RbRep RbInsert.

(** ** Order *)

(** What stands to the left and to the right of a hole. *)
Fixpoint lhs (k : ctx) : list ptr :=
  match k with [] => [] | FL _ _ _ :: k' => lhs k' | FR l y _ :: k' => lhs k' ++ nodes l ++ [y] end.
Fixpoint rhs (k : ctx) : list ptr :=
  match k with [] => [] | FL y _ r :: k' => y :: nodes r ++ rhs k' | FR _ _ _ :: k' => rhs k' end.

Lemma inorder_plug k t : nodes (plug k t) = lhs k ++ nodes t ++ rhs k.
Proof.
  revert t. induction k as [|f k IH]; intros t; simpl; [by rewrite app_nil_r|].
  rewrite IH. destruct f; simpl; by rewrite <- !app_assoc.
Qed.

Lemma inorder_rebuild d e u g s p t cg c1 :
  t <> Leaf -> nodes (rebuild d e u g s p t) = nodes (mk d u g cg (mk e s p c1 t)).
Proof.
  intros Ht. destruct t as [|l x cx r]; [done|].
  destruct d, e; simpl; by repeat (rewrite <- app_assoc; simpl).
Qed.

Lemma inorder_fixup_len n k t : (length k <= n)%nat -> t <> Leaf -> nodes (fixup k t) = nodes (plug k t).
Proof.
  revert k t. induction n as [n IH] using (well_founded_induction lt_wf); intros k t Hn Ht.
  destruct k as [|f1 [|f2 k]]; [done..|]. cbn [fixup].
  rewrite (frame_eta f1), (frame_eta f2).
  set (e := side f1). set (s := frame_sub f1). set (p := frame_node f1). set (c1 := frame_color f1).
  set (d := side f2). set (u := frame_sub f2). set (g := frame_node f2). set (cg := frame_color f2).
  assert (Ee : side (fr e s p c1) = e /\ frame_sub (fr e s p c1) = s /\ frame_node (fr e s p c1) = p /\
    frame_color (fr e s p c1) = c1) by (by destruct e).
  assert (Ed : side (fr d u g cg) = d /\ frame_sub (fr d u g cg) = u /\ frame_node (fr d u g cg) = g /\
    frame_color (fr d u g cg) = cg) by (by destruct d).
  destruct Ee as (-> & -> & -> & ->), Ed as (-> & -> & -> & _).
  destruct (c1 =? RB_RED); [|done]. cbn [plug]. rewrite !plug1_fr, !recolor_mk.
  destruct (root_color u =? RB_RED).
  - rewrite (IH (length k)); [|simpl in Hn; lia|lia|by destruct d].
    rewrite !inorder_plug. f_equal. f_equal. destruct d, e; simpl; by rewrite nodes_recolor.
  - rewrite !inorder_plug. f_equal. f_equal. by apply inorder_rebuild.
Qed.

Lemma inorder_fixup k t : t <> Leaf -> nodes (fixup k t) = lhs k ++ nodes t ++ rhs k.
Proof. intros Ht. rewrite (inorder_fixup_len (length k)) by done. apply inorder_plug. Qed.

(** ** Balance *)

(** [rb t n]: every path of [t] has [n] black nodes and no two red nodes in a
    row. *)
Fixpoint rb (t : tree) (n : nat) : Prop :=
  match t with
  | Leaf => n = 0%nat
  | Node l x c r =>
      c = RB_RED /\ rb l n /\ rb r n /\ root_color l = RB_BLACK /\ root_color r = RB_BLACK \/
      c = RB_BLACK /\ exists n', n = S n' /\ rb l n' /\ rb r n'
  end.

Definition rbtree (t : tree) : Prop := root_color t = RB_BLACK /\ exists n, rb t n.

Lemma rb_mk d a x c b n :
  rb (mk d a x c b) n <->
  c = RB_RED /\ rb a n /\ rb b n /\ root_color a = RB_BLACK /\ root_color b = RB_BLACK \/
  c = RB_BLACK /\ exists n', n = S n' /\ rb a n' /\ rb b n'.
Proof. destruct d; simpl; naive_solver. Qed.

(** A context that takes a tree of black height [n]; a red frame has a black
    sibling and stands below a black one. *)
Fixpoint rb_ctx (k : ctx) (n : nat) : Prop :=
  match k with
  | [] => True
  | f :: k' =>
      rb (frame_sub f) n /\
      (frame_color f = RB_RED /\ root_color (frame_sub f) = RB_BLACK /\ rb_ctx k' n /\
         match k' with [] => False | f' :: _ => frame_color f' = RB_BLACK end \/
       frame_color f = RB_BLACK /\ rb_ctx k' (S n))
  end.

Definition accepts_red (k : ctx) : Prop :=
  match k with [] => True | f :: _ => frame_color f = RB_BLACK end.

Lemma rb_black_root t n : rb t n -> root_color t <> RB_RED -> root_color t = RB_BLACK.
Proof. destruct t; simpl; [done|]. naive_solver. Qed.

Lemma rb_plug k t n :
  rb_ctx k n -> rb t n -> root_color t = RB_BLACK \/ accepts_red k -> exists N, rb (plug k t) N.
Proof.
  revert t n. induction k as [|f k IH]; intros t n Hk Ht Hc; [by exists n|]. cbn [plug].
  destruct Hk as [Hs [(E & Hsb & Hk & Hr)|(E & Hk)]].
  - apply (IH _ n); [done| |right; destruct k; done].
    rewrite (frame_eta f), plug1_fr. apply rb_mk. left. rewrite E in *. simpl in Hc. split_and!; try done.
    destruct Hc as [|Hc]; [done|]. rewrite E in Hc. done.
  - apply (IH _ (S n)); [done| |left].
    + rewrite (frame_eta f), plug1_fr. apply rb_mk. right. split; [done|]. by exists n.
    + rewrite (frame_eta f), plug1_fr, root_color_mk. done.
Qed.

(** The context of a path in a red-black tree. *)
Lemma rb_ctx_plug k t N :
  rb (plug k t) N -> root_color (plug k t) = RB_BLACK -> exists n, rb_ctx k n /\ rb t n /\
    (root_color t = RB_RED -> k <> [] /\ accepts_red k).
Proof.
  revert t. induction k as [|f k IH]; intros t Hrb Hroot.
  { exists N. split_and!; [done|done|]. simpl in Hroot. rewrite Hroot. done. }
  cbn [plug] in *. destruct (IH _ Hrb Hroot) as (n & Hk & Ht & Hr).
  rewrite (frame_eta f), plug1_fr in Ht, Hr. rewrite root_color_mk in Hr. apply rb_mk in Ht.
  destruct Ht as [(E & Ha & Hb & Ca & Cb)|(E & n' & -> & Ha & Hb)].
  - exists n. split; [split; [done|left]|].
    + split_and!; try done. destruct (Hr E) as [Hne Hacc]. by destruct k.
    + split; [done|]. rewrite Cb. done.
  - exists n'. split; [split; [done|by right]|]. split; [done|]. intros _. split; [done|]. done.
Qed.

(** The repair: the hole holds a red node with black children. *)
Lemma rb_fixup_len m k t n :
  (length k <= m)%nat -> rb_ctx k n -> rb t n -> t <> Leaf -> root_color t = RB_RED ->
  exists N, rb (recolor RB_BLACK (fixup k t)) N.
Proof.
  revert k t n. induction m as [m IH] using (well_founded_induction lt_wf); intros k t n Hm Hk Ht Hl Hred.
  assert (Hblack : forall T N, rb T N -> exists N', rb (recolor RB_BLACK T) N').
  { intros T N HT. destruct T as [|a x c b]; [by exists N|]. simpl in HT |- *.
    destruct HT as [(_ & Ha & Hb & _)|(_ & n' & _ & Ha & Hb)]; eexists (S _); right; eauto. }
  destruct k as [|f1 [|f2 k]].
  { by eapply Hblack. }
  { destruct Hk as [Hs [(_ & _ & _ & [])|(E & _)]]. destruct (rb_plug [f1] t n) as [N HN]; [|done| |].
    - split; [done|by right].
    - right. done.
    - by eapply Hblack. }
  cbn [fixup]. destruct Hk as [Hs Hk].
  destruct (Z.eqb_spec (frame_color f1) RB_RED) as [E1|E1].
  2:{ destruct Hk as [(E & _)|(E & Hk)]; [done|].
      destruct (rb_plug (f1 :: f2 :: k) t n) as [N HN]; [split; [done|by right]|done|by right|].
      by eapply Hblack. }
  destruct Hk as [(_ & Csb & Hk & Eg)|(E & _)]; [|by rewrite E in E1]. simpl in Eg.
  destruct Hk as [Hu [(E & _)|(_ & Hk)]]; [by rewrite Eg in E|].
  rewrite (frame_eta f1), plug1_fr, recolor_mk, plug1_fr, recolor_mk.
  assert (side (fr (side f1) (frame_sub f1) (frame_node f1) (frame_color f1)) = side f1 /\
    frame_sub (fr (side f1) (frame_sub f1) (frame_node f1) (frame_color f1)) = frame_sub f1 /\
    frame_node (fr (side f1) (frame_sub f1) (frame_node f1) (frame_color f1)) = frame_node f1)
    as (-> & -> & ->) by (by destruct f1).
  destruct (Z.eqb_spec (root_color (frame_sub f2)) RB_RED) as [Eu|Eu].
  - apply (IH (length k) ltac:(simpl in Hm; lia) k _ (S n)); [lia|done| |by destruct (side f2)|
      by rewrite root_color_mk].
    destruct (frame_sub f2) as [|ul ux uc ur] eqn:EU; [done|]. simpl in Eu. simpl in Hu. subst uc.
    destruct Hu as [(_ & Hul & Hur & _)|(E & _)]; [|done].
    apply rb_mk. left. split_and!; [done| | |done|by rewrite root_color_mk].
    + simpl. right. split; [done|]. by exists n.
    + apply rb_mk. right. split; [done|]. by exists n.
  - assert (Cu := rb_black_root _ _ Hu Eu).
    assert (Hre : rb (rebuild (side f2) (side f1) (frame_sub f2) (frame_node f2) (frame_sub f1) (frame_node f1) t) (S n)).
    { unfold rebuild. destruct (Bool.eqb (side f1) (side f2)).
      - apply rb_mk. right. split; [done|]. exists n. split; [done|]. split; [|done].
        apply rb_mk. left. done.
      - destruct t as [|l x cx r]; [done|]. simpl in Hred. subst cx. simpl in Ht.
        destruct Ht as [(_ & Hl' & Hr' & Cl & Cr)|(E & _)]; [|done].
        destruct (side f1); (apply rb_mk; right; split; [done|]; exists n; split; [done|];
          split; apply rb_mk; left; done). }
    destruct (rb_plug k _ (S n) Hk Hre) as [N HN]; [|by eapply Hblack].
    left. unfold rebuild. destruct (Bool.eqb _ _); [apply root_color_mk|].
    destruct t as [|l x cx r]; [done|]. destruct (side f1); apply root_color_mk.
Qed.

Lemma rb_fixup k t n :
  rb_ctx k n -> rb t n -> t <> Leaf -> root_color t = RB_RED ->
  rbtree (recolor RB_BLACK (fixup k t)).
Proof.
  intros Hk Ht Hl Hr. split; [|by eapply (rb_fixup_len (length k))].
  destruct (fixup k t); done.
Qed.

(** ** Height *)

Fixpoint height (t : tree) : nat :=
  match t with Leaf => 0 | Node l _ _ r => S (Nat.max (height l) (height r)) end.

Lemma rb_height_black t n :
  rb t n -> (height t <= 2 * n + (if decide (root_color t = RB_RED) then 1 else 0))%nat.
Proof.
  revert n. induction t as [|l IHl x c r IHr]; intros n; simpl; [lia|].
  intros [(-> & Hl & Hr & Cl & Cr)|(-> & n' & -> & Hl & Hr)].
  - specialize (IHl n Hl). specialize (IHr n Hr). rewrite Cl in IHl. rewrite Cr in IHr.
    rewrite decide_False in IHl, IHr by done. rewrite decide_True by done. lia.
  - specialize (IHl n' Hl). specialize (IHr n' Hr). rewrite decide_False by done.
    destruct (decide (root_color l = RB_RED)), (decide (root_color r = RB_RED)); lia.
Qed.

Lemma rb_size t n : rb t n -> (2 ^ n <= length (nodes t) + 1)%nat.
Proof.
  revert n. induction t as [|l IHl x c r IHr]; intros n; simpl.
  { intros ->. simpl. lia. }
  rewrite length_app. simpl. intros [(_ & Hl & Hr & _)|(_ & n' & -> & Hl & Hr)].
  - specialize (IHl n Hl). lia.
  - specialize (IHl n' Hl). specialize (IHr n' Hr). simpl. lia.
Qed.

Lemma rb_height t : rbtree t -> (height t <= 2 * Nat.log2 (length (nodes t) + 1))%nat.
Proof.
  intros [Hc [n Ht]]. pose proof (rb_height_black t n Ht) as H1. rewrite Hc, decide_False in H1 by done.
  pose proof (rb_size t n Ht) as H2. apply Nat.log2_le_mono in H2. rewrite Nat.log2_pow2 in H2; lia.
Qed.
