(* ===== verification/RbDelete.v ===== *)
(** * Red-black deletion: the code on trees with a hole

    What [rb_transplant] and the removal in [rb_delete] do to the tree in
    memory, and the repair of [rb_delete_fixup] turn by turn. *)

From S2P Require Import Prelude State RbTree RbRep RbInsert RbBalance.

(** ** Transplanting *)

Lemma transplant_eq m k x p root :
  rep_ctx m k x -> good (x :: ctx_nodes k) -> parent_of m x = par k ->
  rb_transplant (m, root) x p =
  (if negb (p =? NULL) then set_parent p (par k) (relink k p m) else relink k p m, reroot k p root).
Proof.
  intros Hc Hg Hp. unfold rb_transplant.
  pose proof (link_node true m k x p m root Hc Hg Hp ltac:(done)) as E.
  change (sub (negb true) m (parent_of m x)) with (left_of m (parent_of m x)) in E.
  change (set_sub (negb true)) with set_left in E. change (set_sub true) with set_right in E. rewrite E.
  set (L := x :: ctx_nodes k) in *. assert (x ∈ L) by left. assert (ctx_nodes k ⊆ L) by (by right).
  rewrite (parent_relink L Hg) by done. by rewrite Hp.
Qed.

(** A node with at most one child is replaced by that child. *)
Lemma drop_focus d h k x c b :
  focus h k (mk d Leaf x c b) ->
  focus (rb_transplant h x (ptr_of b)) k b /\
  rb_transplant h x (ptr_of b) = (reparent b (par k) (relink k (ptr_of b) h.1), reroot k (ptr_of b) h.2) /\
  only_nodes (nodes b ++ ctx_nodes k) h.1 (rb_transplant h x (ptr_of b)).1.
Proof.
  intros Hf. destruct h as [m root].
  destruct (focus_hole _ _ _ Hf ltac:(by destruct d)) as [Hgx Hpx]. rewrite ptr_of_mk in *.
  pose proof Hf as [H1 H2 H3 Hg]. rewrite ptr_of_mk in *. cbn [fst snd] in *.
  assert (E : rb_transplant (m, root) x (ptr_of b) =
    (reparent b (par k) (relink k (ptr_of b) m), reroot k (ptr_of b) root)).
  { rewrite (transplant_eq m k x (ptr_of b) root H3 Hgx Hpx).
    rewrite (ptr_of_null _ b Hg) by (intros z Hz; rewrite nodes_mk; set_solver). by destruct b. }
  apply rep_mk in H2 as (_ & _ & _ & _ & _ & Hb).
  set (L := nodes b ++ ctx_nodes k).
  assert (HgL : good L).
  { eapply good_sublist; [| |exact Hg]; unfold L.
    - intros z Hz. rewrite nodes_mk. set_solver.
    - destruct Hg as (Hnd & _). rewrite nodes_mk in Hnd. cbn [nodes app] in Hnd.
      by apply NoDup_cons in Hnd as [_ ?]. }
  assert (HbL : nodes b ⊆ L) by (unfold L; intros z Hz; set_solver).
  assert (HkL : ctx_nodes k ⊆ L) by (unfold L; intros z Hz; set_solver).
  rewrite E. split; [|split; [done|cbn [fst]; auto with rb]].
  set (m' := reparent b (par k) (relink k (ptr_of b) m)).
  assert (Hsub : forall e z, z ∈ L -> sub e m' z = match k with [] => sub e m z | f :: _ =>
    if decide (z = frame_node f /\ e = side f) then ptr_of b else sub e m z end).
  { intros e z Hz. unfold m'. rewrite (sub_reparent L HgL), (sub_relink L HgL) by done. done. }
  assert (Hpar : forall z, z ∈ L -> parent_of m' z = if decide (z = ptr_of b) then par k else parent_of m z).
  { intros z Hz. unfold m'. rewrite (parent_reparent L HgL), (parent_relink L HgL) by done. done. }
  assert (Hcol : forall z, z ∈ L -> color_of m' z = color_of m z).
  { intros z Hz. unfold m'. rewrite (color_reparent L HgL), (color_relink L HgL) by done. done. }
  clearbody m'. pose proof HgL as (HndL & _). apply NoDup_app in HndL as (Hnb & Hdj & Hnk).
  assert (Hbk : forall z, z ∈ nodes b -> k <> [] -> z <> par k).
  { intros z Hz Hk ->. apply (Hdj _ Hz). by apply par_elem. }
  split; cbn [fst snd].
  - by apply (reroot_root k (mk d Leaf x c b) (ptr_of b) (m, root)); rewrite ptr_of_mk.
  - eapply rep_reparent; [exact Hb|done| |].
    + intros z Hz Hzb. assert (z ∈ L) by auto. apply same_at_sub.
      rewrite Hpar, decide_False by done. split_and!; [|done|auto]. intros e. rewrite Hsub by done.
      destruct k as [|f k']; [done|]. rewrite decide_False; [done|]. intros [Hbad _]. by apply (Hbk z Hz).
    + intros Hbl. pose proof (ptr_of_elem b Hbl) as Hpe. assert (ptr_of b ∈ L) by auto.
      rewrite Hpar, decide_True by done. split_and!; [|auto|done]. intros e. rewrite Hsub by done.
      destruct k as [|f k']; [done|]. rewrite decide_False; [done|]. intros [Hbad _]. by apply (Hbk _ Hpe).
  - eapply rep_ctx_relink; [exact H3|done| |].
    + intros z Hz Hzk. assert (z ∈ L) by auto. apply same_at_sub.
      assert (z <> ptr_of b).
      { intros ->. destruct b as [|b1 bx bc b2]; [by apply (good_pos L) in Hz; auto|].
        apply (Hdj bx); [simpl; set_solver|done]. }
      rewrite Hpar, decide_False by done. split_and!; [|done|auto]. intros e. rewrite Hsub by done.
      destruct k as [|f k']; [done|]. rewrite decide_False; [done|]. cbn [par] in Hzk. naive_solver.
    + destruct k as [|f k']; [done|]. cbn [par].
      assert (Hfk : frame_node f ∈ ctx_nodes (f :: k')) by (apply (par_elem (f :: k')); done).
      assert (frame_node f ∈ L) by auto.
      assert (frame_node f <> ptr_of b).
      { intros Eb. destruct b as [|b1 bx bc b2]; [by apply (good_pos L) in Eb|].
        apply (Hdj bx); [simpl; set_solver|]. cbn [ptr_of] in Eb. by rewrite <- Eb. }
      assert (negb (side f) <> side f) by (by destruct (side f)).
      rewrite !Hsub, Hpar, Hcol by done. cbv beta iota.
      split_and!; repeat case_decide; destruct_and?; congruence || naive_solver.
  - done.
Qed.

(** The end of a removal: [y] takes the place of [node]. *)
Definition take_place (h : heap) (node y : ptr) : heap :=
  let '(m, root) := rb_transplant h node y in
  let m := set_left y (left_of m node) m in
  let m := set_parent (left_of m y) y m in
  (set_color y (color_of m node) m, root).

Lemma take_place_focus m root k l z c y r :
  rep_ctx m k z -> root = ctx_root k z -> left_of m z = ptr_of l -> parent_of m z = par k ->
  color_of m z = c -> rep m z l -> l <> Leaf -> right_of m y = ptr_of r -> rep m y r ->
  good (z :: y :: nodes l ++ nodes r ++ ctx_nodes k) ->
  focus (take_place (m, root) z y) k (Node l y c r) /\
  only_nodes (z :: y :: nodes l ++ nodes r ++ ctx_nodes k) m (take_place (m, root) z y).1.
Proof.
  intros H3 Hroot Ez Pz Cz Hl Hll Ey Hr Hg. set (L := z :: y :: nodes l ++ nodes r ++ ctx_nodes k) in *.
  assert (Hz : z ∈ L) by left. assert (Hy : y ∈ L) by (right; left).
  assert (HkL : ctx_nodes k ⊆ L) by (unfold L; intros w Hw; set_solver).
  assert (HlL : nodes l ⊆ L) by (unfold L; intros w Hw; set_solver).
  assert (HrL : nodes r ⊆ L) by (unfold L; intros w Hw; set_solver).
  pose proof (ptr_of_elem l Hll) as Hpl. assert (HplL : ptr_of l ∈ L) by auto.
  destruct (parts_apart z y (nodes l) (nodes r) [] (ctx_nodes k))
    as (Hzy & HzB & HyB & HzK & HyK & HA & HB & _ & HK & HnB & HnK); [apply Hg|].
  assert (Hgz : good (z :: ctx_nodes k)).
  { eapply good_sublist; [| |exact Hg]; [intros w [->|Hw]%elem_of_cons; auto|by apply NoDup_cons]. }
  assert (Hkz : forall w, w ∉ ctx_nodes k -> k <> [] -> w <> par k) by (intros w Hw Hk ->; by apply Hw, par_elem).
  assert (Et : rb_transplant (m, root) z y = (set_parent y (par k) (relink k y m), reroot k y root)).
  { rewrite (transplant_eq m k z y root H3 Hgz Pz).
    by rewrite (proj2 (Z.eqb_neq y NULL) (good_pos _ _ Hg Hy)). }
  assert (Hrelz : forall e, sub e (relink k y m) z = sub e m z).
  { intros e. rewrite (sub_relink L Hg) by done. destruct k as [|f k']; [done|].
    rewrite decide_False; [done|]. intros [Hb _]. by apply (Hkz z). }
  set (m' := set_color y c (set_parent (ptr_of l) y (set_sub false y (ptr_of l) (set_parent y (par k) (relink k y m))))).
  assert (Em : take_place (m, root) z y = (m', reroot k y root)).
  { unfold take_place. rewrite Et.
    change (left_of (set_parent y (par k) (relink k y m)) z) with (sub false (set_parent y (par k) (relink k y m)) z).
    rewrite (sub_set_parent L Hg), Hrelz by done. change (sub false m z) with (left_of m z). rewrite Ez.
    change (set_left y (ptr_of l)) with (set_sub false y (ptr_of l)).
    change (left_of (set_sub false y (ptr_of l) (set_parent y (par k) (relink k y m))) y)
      with (sub false (set_sub false y (ptr_of l) (set_parent y (par k) (relink k y m))) y).
    rewrite (sub_set_sub L Hg), decide_True by done. rd L Hg. rewrite (color_relink L Hg), Cz by done. done. }
  rewrite Em. cbn [fst]. split; [|unfold m'; auto 20 with rb].
  assert (Hsub : forall e w, w ∈ L -> sub e m' w =
    if decide (w = y /\ e = false) then ptr_of l else
    match k with [] => sub e m w | f :: _ => if decide (w = frame_node f /\ e = side f) then y else sub e m w end).
  { intros e w Hw. unfold m'. rd L Hg. by rewrite (sub_relink L Hg) by done. }
  assert (Hpar : forall w, w ∈ L -> parent_of m' w =
    if decide (w = ptr_of l) then y else if decide (w = y) then par k else parent_of m w).
  { intros w Hw. unfold m'. rd L Hg. by rewrite (parent_relink L Hg) by done. }
  assert (Hcol : forall w, w ∈ L -> color_of m' w = if decide (w = y) then c else color_of m w).
  { intros w Hw. unfold m'. rd L Hg. by rewrite (color_relink L Hg) by done. }
  clearbody m'.
  assert (Hsame : forall w, w ∈ L -> w <> y -> w <> ptr_of l -> (k <> [] -> w <> par k) -> same_at m m' w).
  { intros w Hw Hwy Hwl Hwk. apply same_at_sub. rewrite Hpar, Hcol, !decide_False by done.
    split_and!; [|done|done]. intros e. rewrite Hsub, decide_False by naive_solver.
    destruct k as [|f k']; [done|]. rewrite decide_False; [done|]. intros [Hb _]. by apply Hwk. }
  split; cbn [fst snd].
  - by apply (reroot_root k (Node Leaf z 0 Leaf) y (m, root)).
  - change (Node l y c r) with (mk true l y c r). apply rep_mk. rewrite !Hsub, Hpar, Hcol by done.
    assert (y <> ptr_of l) by (intros ->; by destruct (HA _ Hpl) as (_ & ? & _)).
    rewrite (decide_True (P := y = y /\ _)), (decide_False (P := y = ptr_of l)), !(decide_True (P := y = y))
      by done.
    assert (HKy := Hkz y HyK). split_and!; [done| |done|done| |].
    + rewrite decide_False by naive_solver. destruct k as [|f k']; [exact Ey|].
      rewrite decide_False; [exact Ey|]. intros [Hb _]. by apply HKy.
    + eapply rep_reparent; [exact Hl| | |].
      * destruct Hg as (Hnd & _). unfold L in Hnd. apply NoDup_cons in Hnd as [_ [_ Hnd]%NoDup_cons].
        by apply NoDup_app in Hnd as (? & _).
      * intros w Hw Hwl. destruct (HA w Hw) as (? & ? & ? & ?). apply Hsame; auto.
      * intros _. destruct (HA _ Hpl) as (? & ? & ? & Hlk). rewrite Hpar, Hcol by done.
        rewrite (decide_False (P := ptr_of l = y)), (decide_True (P := ptr_of l = ptr_of l)) by done.
        split_and!; [|done|done]. intros e. rewrite Hsub, decide_False by naive_solver.
        destruct k as [|f k']; [done|]. rewrite decide_False; [done|]. intros [Hb _]. by apply (Hkz _ Hlk).
    + eapply rep_same; [|exact Hr]. intros w Hw. destruct (HB w Hw) as (? & ? & ?). apply Hsame; auto.
      intros ->. by destruct (HA _ Hpl) as (_ & _ & ? & _).
  - cbn [ptr_of]. eapply rep_ctx_relink; [exact H3|done| |].
    + intros w Hw Hwk. destruct (HK w Hw) as (? & ? & ?). apply Hsame; auto.
      intros ->. by destruct (HA _ Hpl) as (_ & _ & _ & ?).
    + destruct k as [|f k']; [done|]. cbn [par] in *.
      assert (Hfk : frame_node f ∈ ctx_nodes (f :: k')) by (apply (par_elem (f :: k')); done).
      destruct (HK _ Hfk) as (? & ? & ?). assert (frame_node f ∈ L) by auto.
      assert (frame_node f <> ptr_of l) by (intros Eb; rewrite Eb in Hfk; by destruct (HA _ Hpl) as (_ & _ & _ & ?)).
      assert (negb (side f) <> side f) by (by destruct (side f)).
      rewrite !Hsub, Hpar, Hcol by done. cbv beta iota.
      split_and!; repeat case_decide; destruct_and?; congruence || naive_solver.
  - eapply good_sublist; [| |exact Hg].
    + intros w. simpl nodes. unfold L. rewrite !elem_of_app, !elem_of_cons, !elem_of_app. clear. tauto.
    + simpl nodes. destruct Hg as (Hnd & _). unfold L in Hnd. apply NoDup_cons in Hnd as [_ Hnd].
      eapply NoDup_Permutation_proper; [|exact Hnd]. solve_Permutation.
Qed.

(** ** The removal *)

Lemma plug_app k1 k2 t : plug (k1 ++ k2) t = plug k2 (plug k1 t).
Proof. revert t. induction k1 as [|f k1 IH]; intros t; simpl; [done|apply IH]. Qed.
Lemma lhs_app k1 k2 : lhs (k1 ++ k2) = lhs k2 ++ lhs k1.
Proof. induction k1 as [|[] k1 IH]; simpl; rewrite ?app_nil_r, ?IH, <- ?app_assoc; done. Qed.
Lemma rhs_app k1 k2 : rhs (k1 ++ k2) = rhs k1 ++ rhs k2.
Proof. induction k1 as [|[] k1 IH]; simpl; rewrite ?IH, <- ?app_assoc; done. Qed.

Lemma rb_ctx_rename k1 l y z c k n :
  rb_ctx (k1 ++ FR l z c :: k) n -> rb_ctx (k1 ++ FR l y c :: k) n.
Proof.
  revert n. induction k1 as [|f k1 IH]; intros n; [done|]. simpl. intros [Hs Hr]. split; [done|].
  destruct Hr as [(H1 & H2 & H3 & H4)|(H1 & H2)]; [left|right; auto].
  split_and!; auto. by destruct k1.
Qed.

Lemma minimum_spec turns h k r :
  focus h k r -> r <> Leaf -> (height r <= turns)%nat ->
  exists kr y cy yr, rb_minimum turns h.1 (ptr_of r) = Some y /\ r = plug kr (Node Leaf y cy yr) /\
    lhs kr = [] /\ (length kr < height r)%nat.
Proof.
  unfold rb_minimum. revert turns k. induction r as [|l IHl x c r' _]; intros turns k Hf Hr Hh; [done|].
  pose proof (focus_root h k true l x c r' Hf) as (E1 & _). unfold sub in E1. simpl in E1, Hh.
  destruct turns as [|n]; [lia|]. cbn [minimum_loop ptr_of]. rewrite E1.
  pose proof (proj2 (focus_plug1 h (FL x c r') k l) Hf) as Hfl.
  rewrite (focus_null _ _ _ Hfl). destruct (decide (l = Leaf)) as [->|Hl].
  - exists [], x, c, r'. split_and!; [done..|simpl; lia].
  - destruct (IHl n _ Hfl Hl ltac:(lia)) as (kr & y & cy & yr & E & Ep & El & Hlen).
    exists (kr ++ [FL x c r']), y, cy, yr. rewrite plug_app, <- Ep, lhs_app, El, length_app.
    split_and!; [by destruct l|done|done|simpl; lia].
Qed.

(** After taking the root of [T], which stood in [k], out of the tree: [K] is
    the place of the repair and [b] the tree there ([x] and [x_parent] of the
    code), [rest] are the nodes of [T] that stay.  The node that left its place
    had colour [cy]. *)
Definition unlinked (h' : heap) (K : ctx) (b : tree) (cy : Z) (k : ctx) (T : tree) (rest : list ptr) : Prop :=
  focus h' K b /\ lhs K ++ nodes b ++ rhs K = lhs k ++ rest ++ rhs k /\
  (length K < length k + height T)%nat /\
  forall N, rb (plug k T) N -> root_color (plug k T) = RB_BLACK ->
    exists n d y, rb_ctx K n /\ rb (mk d Leaf y cy b) n.

Lemma unlink_one turns h k d z c b :
  focus h k (mk d Leaf z c b) ->
  exists h', rb_unlink turns h z = Some (h', ptr_of b, par k, c) /\
    unlinked h' k b c k (mk d Leaf z c b) (nodes b) /\ only_nodes (nodes b ++ ctx_nodes k) h.1 h'.1.
Proof.
  intros Hf. destruct (drop_focus d h k z c b Hf) as (F1 & _ & O1).
  pose proof (focus_root _ _ _ _ _ _ _ Hf) as (E1 & E2 & E3 & E4 & _).
  exists (rb_transplant h z (ptr_of b)). split; [|split; [|exact O1]].
  - destruct h as [m root]. unfold rb_unlink. cbn [fst] in *. destruct d; unfold sub in *; simpl in *.
    + by rewrite E1, E2, E3, E4.
    + rewrite E2. destruct (ptr_of b =? NULL) eqn:Eb.
      * apply Z.eqb_eq in Eb. rewrite E1, E3, E4, Eb. done.
      * by rewrite E1, E3, E4.
  - split_and!; [done|done|destruct d; simpl; lia|].
    intros N HN Hc. destruct (rb_ctx_plug _ _ _ HN Hc) as (n & Hk & Hn & _). by exists n, d, z.
Qed.

(** The order the code makes of a node with two children, in terms of
    [take_place]. *)
Lemma unlink_two_eq turns m root z y :
  left_of m z <> NULL -> right_of m z <> NULL -> rb_minimum turns m (right_of m z) = Some y ->
  rb_unlink turns (m, root) z =
  let x := right_of m y in
  let '((m1, root1), x_parent) :=
    if parent_of m y =? z then ((if negb (x =? NULL) then set_parent x y m else m, root), y)
    else
      let '(m1, root1) := rb_transplant (m, root) y (right_of m y) in
      let m1 := set_right y (right_of m1 z) m1 in
      let m1 := set_parent (right_of m1 y) y m1 in
      ((m1, root1), parent_of m1 y) in
  Some (take_place (m1, root1) z y, x, x_parent, color_of m y).
Proof.
  intros Hl Hr Hy. unfold rb_unlink, take_place. rewrite (proj2 (Z.eqb_neq _ _)) by done.
  rewrite (proj2 (Z.eqb_neq (right_of m z) _)) by done. rewrite Hy.
  destruct (parent_of m y =? z).
  - by destruct (rb_transplant _ z y).
  - destruct (rb_transplant (m, root) y (right_of m y)) as [m1 root1]. by destruct (rb_transplant _ z y).
Qed.

(** The successor is the right child itself. *)
Lemma unlink_child turns h k l z c y cy yr :
  focus h k (Node l z c (Node Leaf y cy yr)) -> l <> Leaf ->
  rb_minimum turns h.1 y = Some y ->
  exists h', rb_unlink turns h z = Some (h', ptr_of yr, y, cy) /\ focus h' (FR l y c :: k) yr /\
    only_nodes (z :: y :: nodes l ++ nodes yr ++ ctx_nodes k) h.1 h'.1.
Proof.
  intros Hf Hl Hmin. destruct h as [m root]. pose proof Hf as [H1 H2 H3 Hg]. cbn [fst snd] in *.
  set (L := z :: y :: nodes l ++ nodes yr ++ ctx_nodes k).
  assert (HgL : good L).
  { eapply good_perm; [|exact Hg]. simpl nodes. unfold L. simpl. solve_Permutation. }
  change (Node l z c ?t) with (mk true l z c t) in H2. apply rep_mk in H2 as (E1 & E2 & E3 & E4 & Hrl & H2).
  change (Node Leaf y cy yr) with (mk true Leaf y cy yr) in H2.
  apply rep_mk in H2 as (F1 & F2 & F3 & F4 & _ & Hry).
  unfold sub in E1, E2, F1, F2. simpl in E1, E2, F1, F2.
  assert (Hz : z ∈ L) by left. assert (Hy : y ∈ L) by (right; left).
  assert (HlL : nodes l ⊆ L) by (unfold L; intros w Hw; set_solver).
  assert (HyrL : nodes yr ⊆ L) by (unfold L; intros w Hw; set_solver).
  assert (HkL : ctx_nodes k ⊆ L) by (unfold L; intros w Hw; rewrite !elem_of_cons, !elem_of_app; tauto).
  rewrite (unlink_two_eq turns m root z y); [|rewrite E1; apply (good_pos L); [done|by apply HlL, ptr_of_elem]
    |rewrite E2; by apply (good_pos L)|by rewrite E2].
  rewrite F3, Z.eqb_refl, F2, F4. cbv zeta.
  rewrite (ptr_of_null L yr HgL HyrL).
  assert (Em : (if negb (match yr with Leaf => true | _ => false end) then set_parent (ptr_of yr) y m else m)
    = reparent yr y m) by (by destruct yr).
  rewrite Em. set (m1 := reparent yr y m).
  assert (Hsame : forall w, w ∈ L -> same_at m m1 w).
  { intros w Hw. apply same_at_sub. unfold m1. split_and!.
    - intros e. by rewrite (sub_reparent L HgL) by done.
    - rewrite (parent_reparent L HgL) by done. case_decide as E; [|done].
      subst w. destruct yr as [|a w cw b]; [by apply (good_pos L) in Hw|]. symmetry. apply Hry.
    - by rewrite (color_reparent L HgL) by done. }
  pose proof (Hsame z Hz) as (Z1 & Z2 & Z3 & Z4). pose proof (Hsame y Hy) as (Y1 & Y2 & Y3 & Y4).
  destruct (take_place_focus m1 root k l z c y yr) as [F O]; try congruence.
  - eapply rep_ctx_same; [|exact H3]. intros w Hw. apply Hsame. auto.
  - exact H1.
  - eapply rep_same; [|exact Hrl]. intros w Hw. apply Hsame. auto.
  - eapply rep_same; [|exact Hry]. intros w Hw. apply Hsame. auto.
  - done.
  - eexists. split; [done|]. split; [exact (proj2 (focus_plug1 _ (FR l y c) k yr) F)|].
    eapply only_nodes_trans; [|exact O]. cbn [fst]. unfold m1. auto with rb.
Qed.

(** The successor [y] is further down; it is taken out of the right subtree
    first. *)
Lemma unlink_deep turns h k l z c f kr y cy yr :
  let r := plug (f :: kr) (Node Leaf y cy yr) in
  focus h k (Node l z c r) -> l <> Leaf -> rb_minimum turns h.1 (ptr_of r) = Some y ->
  exists h', rb_unlink turns h z = Some (h', ptr_of yr, frame_node f, cy) /\
    focus h' ((f :: kr) ++ FR l y c :: k) yr /\ only_nodes (nodes (Node l z c r) ++ ctx_nodes k) h.1 h'.1.
Proof.
  intros r Hf Hl Hmin. destruct h as [m root]. cbn [fst snd] in *.
  set (r' := plug (f :: kr) yr). set (K := (f :: kr) ++ FR l z c :: k).
  assert (Hfy : focus (m, root) K (Node Leaf y cy yr)).
  { apply (proj2 (focus_plug _ _ _)). unfold K. rewrite plug_app.
    by apply (proj1 (focus_plug (m, root) k (Node l z c r))). }
  destruct (drop_focus true _ _ _ _ _ Hfy) as (Fd & Ed & Od).
  assert (HrL : r <> Leaf /\ r' <> Leaf).
  { assert (Hp : forall k0 f0 t0, plug (f0 :: k0) t0 <> Leaf).
    { induction k0 as [|f1 k0 IH]; intros f0 t0; simpl; [by destruct f0|apply IH]. }
    split; apply Hp. }
  destruct HrL as [Hr Hr'].
  pose proof (focus_root _ _ true l z c r Hf) as (E1 & E2 & E3 & E4 & _).
  unfold sub in E1, E2. cbn [fst] in *. simpl in E1, E2.
  pose proof (focus_root _ _ true Leaf y cy yr Hfy) as (_ & Y2 & Y3 & Y4 & Y5).
  unfold sub in Y2. cbn [fst] in *. simpl in Y2, Y3.
  assert (Hfz := Hf). destruct Hfz as [_ _ _ Hg].
  set (L := nodes (Node l z c r) ++ ctx_nodes k) in *.
  assert (Hpr : nodes r ≡ₚ y :: nodes r').
  { unfold r, r'. rewrite !nodes_plug. simpl. done. }
  assert (HL : L ≡ₚ z :: y :: nodes l ++ nodes r' ++ ctx_nodes k).
  { unfold L. simpl nodes. rewrite Hpr. solve_Permutation. }
  assert (HgL : good (z :: y :: nodes l ++ nodes r' ++ ctx_nodes k)) by (by rewrite <- HL).
  assert (Hin : forall w, w = z \/ w = y \/ w ∈ nodes l \/ w ∈ nodes r' \/ w ∈ ctx_nodes k -> w ∈ L).
  { intros w Hw. rewrite HL, !elem_of_cons, !elem_of_app. tauto. }
  destruct (parts_apart z y (nodes l) (nodes r') [] (ctx_nodes k))
    as (Hzy & HzB & HyB & HzK & HyK & HA & HB & _ & HK & HnB & HnK); [apply HgL|].
  assert (Hz : z ∈ L) by auto. assert (Hy : y ∈ L) by auto.
  rewrite (unlink_two_eq turns m root z y); [|rewrite E1; apply (good_pos L); [done|apply Hin; right; right; left; by apply ptr_of_elem]
    |rewrite E2; apply (good_pos L); [done|]; unfold L; simpl; pose proof (ptr_of_elem r Hr); set_solver|by rewrite E2].
  (* the parent of [y] is a node of the right subtree *)
  assert (Hfr : frame_node f ∈ nodes r').
  { unfold r'. rewrite nodes_plug. apply elem_of_app. right. simpl. destruct f; set_solver. }
  assert ((parent_of m y =? z) = false) as ->.
  { apply Z.eqb_neq. rewrite Y3. intros Efz. rewrite Efz in Hfr. done. }
  cbv zeta. rewrite Y2, Y4.
  destruct (rb_transplant (m, root) y (ptr_of yr)) as [m1 root1] eqn:Et. cbn [fst snd] in *.
  (* the tree without [y] *)
  assert (F1 : focus (m1, root1) k (Node l z c r')).
  { apply (proj2 (focus_plug _ _ _)). unfold r'.
    change (Node l z c (plug (f :: kr) yr)) with (plug1 (FR l z c) (plug (f :: kr) yr)).
    change (plug k (plug1 (FR l z c) (plug (f :: kr) yr))) with (plug (FR l z c :: k) (plug (f :: kr) yr)).
    rewrite <- plug_app. by apply (proj1 (focus_plug _ _ _)). }
  pose proof (focus_root _ _ true l z c r' F1) as (G1 & G2 & G3 & G4 & _).
  unfold sub in G1, G2. cbn [fst] in *. simpl in G1, G2. rewrite G2.
  pose proof F1 as [R1 R2 R3 _]. cbn [fst snd ptr_of] in R1, R2, R3. destruct R2 as (_ & Rl & Rr).
  pose proof (ptr_of_elem r' Hr') as Hpe. assert (HpL : ptr_of r' ∈ L) by auto 10.
  assert (Hyr : y <> ptr_of r') by (intros Ey; by rewrite Ey in HyB).
  (* [y] keeps its parent link *)
  assert (Py : parent_of m1 y = frame_node f).
  { injection Ed as -> ->.
    assert (nodes yr ⊆ L) by (intros w Hw; apply Hin; right; right; right; left; unfold r'; rewrite nodes_plug, elem_of_app; by left).
    assert (frame_node f ∈ L) by auto 10.
    rewrite (parent_reparent L Hg), (parent_set_sub L Hg) by done. case_decide; [done|exact Y3]. }
  set (m2 := set_right y (ptr_of r') m1).
  assert (right_of m2 y = ptr_of r') as -> by (unfold m2, right_of, set_right; apply upd_eq).
  set (m3 := set_parent (ptr_of r') y m2).
  assert (Em3 : m3 = set_parent (ptr_of r') y (set_sub true y (ptr_of r') m1)) by done. clearbody m3.
  assert (Hsame : forall w, w ∈ L -> w <> y -> w <> ptr_of r' -> same_at m1 m3 w).
  { intros w Hw Hwy Hwr. apply same_at_sub. rewrite Em3. rd L Hg. rewrite decide_False by done.
    split_and!; [|done|done]. intros e. rd L Hg. by rewrite decide_False by naive_solver. }
  assert (Py3 : parent_of m3 y = frame_node f) by (rewrite Em3; rd L Hg; by rewrite decide_False).
  rewrite Py3. assert (Hzr : z <> ptr_of r') by (intros Ez; by rewrite Ez in HzB).
  pose proof (Hsame z Hz Hzy Hzr) as (Z1 & Z2 & Z3 & Z4).
  destruct (take_place_focus m3 root1 k l z c y r') as [F O]; try congruence.
  - eapply rep_ctx_same; [|exact R3]. intros w Hw. destruct (HK w Hw) as (? & ? & ?). apply Hsame; auto 10.
    intros ->. done.
  - eapply rep_same; [|exact Rl]. intros w Hw. destruct (HA w Hw) as (? & ? & ? & ?). apply Hsame; auto 10.
    intros ->. done.
  - change (sub true m3 y = ptr_of r'). rewrite Em3. rd L Hg. by rewrite decide_True.
  - eapply rep_reparent; [exact Rr|done| |].
    + intros w Hw Hwr. destruct (HB w Hw) as (? & ? & ?). apply Hsame; auto 10.
    + intros _. rewrite Em3. rd L Hg. rewrite decide_True by done. split_and!; [|done|done].
      intros e. rd L Hg. rewrite decide_False by naive_solver. done.
  - eexists. split; [done|]. split.
    + apply (proj2 (focus_plug _ _ _)). rewrite plug_app. exact (proj1 (focus_plug _ _ _) F).
    + eapply only_nodes_trans; [|eapply only_nodes_perm; [|exact O]; by rewrite HL].
      rewrite Em3. apply only_set_parent; [done|]. apply only_set_sub; [done|].
      intros w Hw. apply Od. intros v Hv. apply Hw. revert Hv. unfold K.
      rewrite <- (nodes_plug ((f :: kr) ++ FR l z c :: k)), plug_app. cbn [plug plug1]. fold r'.
      rewrite nodes_plug. cbn [nodes]. rewrite !elem_of_app, elem_of_cons. clear -Hin. intros Hv. apply Hin. tauto.
Qed.

Lemma only_nodes_weaken L L' m m' : (forall x, x ∈ L -> x ∈ L') -> only_nodes L m m' -> only_nodes L' m m'.
Proof. intros Hs H a Ha. apply H. intros x Hx. apply Ha. auto. Qed.

Lemma unlink_spec turns h k l z c r :
  focus h k (Node l z c r) -> (height (Node l z c r) <= turns)%nat ->
  exists h' K b cy, rb_unlink turns h z = Some (h', ptr_of b, par K, cy) /\
    unlinked h' K b cy k (Node l z c r) (nodes l ++ nodes r) /\
    only_nodes (nodes (Node l z c r) ++ ctx_nodes k) h.1 h'.1.
Proof.
  intros Hf Hh.
  assert (Hone : forall d b, Node l z c r = mk d Leaf z c b -> nodes l ++ nodes r = nodes b ->
    exists h' K b cy, rb_unlink turns h z = Some (h', ptr_of b, par K, cy) /\
      unlinked h' K b cy k (Node l z c r) (nodes l ++ nodes r) /\
      only_nodes (nodes (Node l z c r) ++ ctx_nodes k) h.1 h'.1).
  { intros d b E En. rewrite E in *. destruct (unlink_one turns h k d z c b Hf) as (h' & E1 & U & O).
    exists h', k, b, c. rewrite En. split_and!; [done|done|]. eapply only_nodes_weaken; [|exact O].
    intros x. rewrite nodes_mk, !elem_of_app, elem_of_cons, elem_of_app. tauto. }
  destruct (decide (l = Leaf)) as [->|Hl]; [by apply (Hone true r)|].
  destruct (decide (r = Leaf)) as [->|Hr]; [apply (Hone false l); [done|by rewrite app_nil_r]|]. clear Hone.
  pose proof (proj2 (focus_plug1 h (FR l z c) k r) Hf) as Hfr.
  destruct (minimum_spec turns h _ r Hfr Hr) as (kr & y & cy & yr & Emin & Er & Elhs & Hlen); [simpl in Hh; lia|].
  assert (Hn : nodes r = y :: nodes yr ++ rhs kr) by (by rewrite Er, inorder_plug, Elhs).
  assert (Hgen : forall h', focus h' (kr ++ FR l y c :: k) yr ->
    unlinked h' (kr ++ FR l y c :: k) yr cy k (Node l z c r) (nodes l ++ nodes r)).
  { intros h' F. split_and!; [done| | |].
    - rewrite lhs_app, rhs_app, Elhs, app_nil_r, Hn. simpl. rewrite <- !app_assoc. simpl. by rewrite <- app_assoc.
    - rewrite length_app. simpl. lia.
    - intros N HN Hc. change (plug k (Node l z c r)) with (plug (FR l z c :: k) r) in HN, Hc.
      rewrite Er, <- plug_app in HN, Hc. destruct (rb_ctx_plug _ _ _ HN Hc) as (n & Hk & Hn' & _).
      exists n, true, y. split; [by eapply rb_ctx_rename|done]. }
  destruct kr as [|f kr].
  - simpl in Er. subst r. cbn [ptr_of] in Emin.
    destruct (unlink_child turns h k l z c y cy yr Hf Hl Emin) as (h' & E & F & O).
    exists h', (FR l y c :: k), yr, cy. split_and!; [done|by apply Hgen|]. eapply only_nodes_weaken; [|exact O].
    clear. intros x. simpl nodes. set_solver.
  - subst r. destruct (unlink_deep turns h k l z c f kr y cy yr Hf Hl Emin) as (h' & E & F & O).
    exists h', ((f :: kr) ++ FR l y c :: k), yr, cy. split_and!; [done|by apply Hgen|exact O].
Qed.

(** ** The repair *)

(** One turn, for a sibling on side [d] of the parent. *)
Definition del_step (d : bool) (h : heap) (x x_parent : ptr) : heap * ptr * ptr :=
  let '(m, root) := h in
  let sibling := sub d m x_parent in
  let '((m, root), sibling) :=
    if negb (sibling =? NULL) && (color_of m sibling =? RB_RED) then
      let m := set_color sibling RB_BLACK m in
      let m := set_color x_parent RB_RED m in
      let h := rotate d (m, root) x_parent in
      (h, sub d h.1 x_parent)
    else ((m, root), sibling) in
  if is_black m (sub (negb d) m sibling) && is_black m (sub d m sibling) then
    let m := set_color sibling RB_RED m in
    ((m, root), x_parent, parent_of m x_parent)
  else
    let '((m, root), sibling) :=
      if is_black m (sub d m sibling) then
        let m := if negb (sub (negb d) m sibling =? NULL) then set_color (sub (negb d) m sibling) RB_BLACK m else m in
        let m := set_color sibling RB_RED m in
        let h := rotate (negb d) (m, root) sibling in
        (h, sub d h.1 x_parent)
      else ((m, root), sibling) in
    let m := set_color sibling (color_of m x_parent) m in
    let m := set_color x_parent RB_BLACK m in
    let m := if negb (sub d m sibling =? NULL) then set_color (sub d m sibling) RB_BLACK m else m in
    let h := rotate d (m, root) x_parent in
    (h, h.2, x_parent).

Lemma delete_fixup_step_side h x p :
  delete_fixup_step h x p = del_step (x =? left_of h.1 p) h x p.
Proof.
  destruct h as [m root]. unfold delete_fixup_step. cbn [fst].
  destruct (x =? left_of m p); reflexivity.
Qed.

(** The parts of a turn: a red sibling is rotated away; the end rotates the
    parent; in between the sibling's children decide. *)
Definition del_red (d : bool) (h : heap) (x_parent : ptr) : heap * ptr :=
  let '(m, root) := h in
  let sibling := sub d m x_parent in
  if negb (sibling =? NULL) && (color_of m sibling =? RB_RED) then
    let m := set_color sibling RB_BLACK m in
    let m := set_color x_parent RB_RED m in
    let h := rotate d (m, root) x_parent in
    (h, sub d h.1 x_parent)
  else ((m, root), sibling).

Definition del_inner (d : bool) (h : heap) (sibling x_parent : ptr) : heap * ptr :=
  let '(m, root) := h in
  if is_black m (sub d m sibling) then
    let m := if negb (sub (negb d) m sibling =? NULL) then set_color (sub (negb d) m sibling) RB_BLACK m else m in
    let m := set_color sibling RB_RED m in
    let h := rotate (negb d) (m, root) sibling in
    (h, sub d h.1 x_parent)
  else ((m, root), sibling).

Definition del_finish (d : bool) (h : heap) (sibling x_parent : ptr) : heap * ptr * ptr :=
  let '(m, root) := h in
  let m := set_color sibling (color_of m x_parent) m in
  let m := set_color x_parent RB_BLACK m in
  let m := if negb (sub d m sibling =? NULL) then set_color (sub d m sibling) RB_BLACK m else m in
  let h := rotate d (m, root) x_parent in
  (h, h.2, x_parent).

Lemma del_step_parts d h x p :
  del_step d h x p =
  let '((m, root), sibling) := del_red d h p in
  if is_black m (sub (negb d) m sibling) && is_black m (sub d m sibling) then
    ((set_color sibling RB_RED m, root), p, parent_of (set_color sibling RB_RED m) p)
  else let '(h2, sibling2) := del_inner d (m, root) sibling p in del_finish d h2 sibling2 p.
Proof.
  destruct h as [m root]. unfold del_step, del_red.
  destruct (negb (sub d m p =? NULL) && (color_of m (sub d m p) =? RB_RED)).
  - destruct (rotate d _ p) as [m1 root1] eqn:E. cbn [fst].
    destruct (is_black m1 (sub (negb d) m1 (sub d m1 p)) && is_black m1 (sub d m1 (sub d m1 p))); [done|].
    unfold del_inner. destruct (is_black m1 (sub d m1 (sub d m1 p))); [|done].
    by destruct (rotate (negb d) _ _).
  - destruct (is_black m (sub (negb d) m (sub d m p)) && is_black m (sub d m (sub d m p))); [done|].
    unfold del_inner. destruct (is_black m (sub d m (sub d m p))); [|done]. by destruct (rotate (negb d) _ _).
Qed.

Lemma is_black_focus h k t : focus h k t -> is_black h.1 (ptr_of t) = (root_color t =? RB_BLACK).
Proof.
  intros Hf. unfold is_black. rewrite (focus_null _ _ _ Hf). destruct (decide (t = Leaf)) as [->|Ht]; [done|].
  rewrite (focus_color _ _ _ Hf Ht). by destruct t.
Qed.

(** Both children of a node in focus. *)
Lemma focus_kids h k d a y c b :
  focus h k (mk d a y c b) -> focus h (fr (negb d) b y c :: k) a /\ focus h (fr d a y c :: k) b.
Proof. intros Hf. rewrite !focus_fr, mk_negb. done. Qed.

(** Recolouring a tree in focus, with the nodes named once. *)
Lemma recolor_in h k t c L :
  focus h k t -> t <> Leaf -> L ≡ₚ nodes t ++ ctx_nodes k ->
  focus (set_color (ptr_of t) c h.1, h.2) k (recolor c t) /\ only_nodes L h.1 (set_color (ptr_of t) c h.1).
Proof.
  intros Hf Ht HL. destruct (recolor_focus h k t c Hf Ht) as [F O]. split; [done|].
  eapply only_nodes_perm; [|exact O]. by rewrite HL.
Qed.

Lemma perm_kid d a y c b k :
  nodes (mk d a y c b) ++ ctx_nodes k ≡ₚ nodes b ++ ctx_nodes (fr d a y c :: k) /\
  nodes (mk d a y c b) ++ ctx_nodes k ≡ₚ nodes a ++ ctx_nodes (fr (negb d) b y c :: k).
Proof.
  split; apply focus_nodes_perm; simpl; by rewrite plug1_fr, ?mk_negb.
Qed.

Section turn.
Context (k : ctx) (d : bool) (t : tree) (p c : Z).

Lemma del_finish_spec a y cy b h L :
  focus h k (mk d t p c (mk d a y cy b)) -> b <> Leaf ->
  L ≡ₚ nodes (mk d t p c (mk d a y cy b)) ++ ctx_nodes k ->
  exists h', del_finish d h y p = (h', h'.2, p) /\
    focus h' k (mk d (mk d t p RB_BLACK a) y c (recolor RB_BLACK b)) /\ steps_in L h h'.
Proof using Type.
  intros Hf Hb HL. destruct h as [m root]. unfold del_finish.
  pose proof (focus_root _ _ _ _ _ _ _ Hf) as (_ & _ & _ & Ec & _). cbn [fst] in Ec. rewrite Ec.
  destruct (focus_kids _ _ _ _ _ _ _ Hf) as [_ Hs].
  destruct (recolor_mk_focus (m, root) _ d a y cy b c L Hs) as [F1 O1]; [by rewrite HL, (proj1 (perm_kid _ _ _ _ _ _))|].
  cbn [fst snd] in *. set (m1 := set_color y c m) in *. apply (proj1 (focus_fr _ _ _ _ _ _ _)) in F1.
  destruct (recolor_mk_focus (m1, root) k d t p c (mk d a y c b) RB_BLACK L F1) as [F2 O2];
    [by rewrite HL, !nodes_mk|].
  cbn [fst snd] in *. set (m2 := set_color p RB_BLACK m1) in *.
  destruct (focus_kids _ _ _ _ _ _ _ F2) as [_ Hs2]. destruct (focus_kids _ _ _ _ _ _ _ Hs2) as [_ Hb2].
  pose proof (focus_root _ _ _ _ _ _ _ Hs2) as (_ & Eb & _). cbn [fst] in Eb. rewrite Eb, (focus_null _ _ _ Hb2).
  assert (negb (match b with Leaf => true | _ => false end) = true) as -> by (by destruct b).
  destruct (recolor_in (m2, root) _ b RB_BLACK L Hb2 Hb) as [F3 O3].
  { by rewrite HL, <- (proj1 (perm_kid _ _ _ _ _ _)), <- (proj1 (perm_kid _ _ _ _ _ _)), !nodes_mk. }
  cbn [fst snd] in *. set (m3 := set_color (ptr_of b) RB_BLACK m2) in *.
  do 2 apply (proj1 (focus_fr _ _ _ _ _ _ _)) in F3.
  destruct (rotate_focus d k t p RB_BLACK a y c (recolor RB_BLACK b) (m3, root) F3) as [F4 O4].
  eexists. split; [done|]. split; [exact F4|]. cbn [fst] in *.
  eapply only_nodes_trans; [exact O1|]. eapply only_nodes_trans; [exact O2|].
  eapply only_nodes_trans; [exact O3|]. eapply only_nodes_perm; [|exact O4].
  by rewrite HL, !nodes_mk, nodes_recolor.
Qed.

(** The inner nephew is red and the outer one is not: it becomes the sibling. *)
Lemma del_inner_spec a1 z a2 y b h L :
  focus h k (mk d t p c (mk d (mk d a1 z RB_RED a2) y RB_BLACK b)) -> root_color b = RB_BLACK ->
  L ≡ₚ nodes (mk d t p c (mk d (mk d a1 z RB_RED a2) y RB_BLACK b)) ++ ctx_nodes k ->
  exists h', del_inner d h y p = (h', z) /\
    focus h' k (mk d t p c (mk d a1 z RB_BLACK (mk d a2 y RB_RED b))) /\ steps_in L h h'.
Proof using Type.
  intros Hf Cb HL. destruct h as [m root]. unfold del_inner.
  destruct (focus_kids _ _ _ _ _ _ _ Hf) as [_ Hs]. destruct (focus_kids _ _ _ _ _ _ _ Hs) as [Ha Hb].
  pose proof (focus_root _ _ _ _ _ _ _ Hs) as (Ea & Eb & _). rewrite ptr_of_mk in Ea. cbn [fst] in *.
  rewrite Eb. pose proof (is_black_focus _ _ _ Hb) as Ib. cbn [fst] in Ib. rewrite Ib, Cb. cbv iota.
  change (RB_BLACK =? RB_BLACK) with true. cbv iota. rewrite Ea.
  pose proof (focus_root _ _ _ _ _ _ _ Ha) as (_ & _ & _ & _ & Hz). rewrite (proj2 (Z.eqb_neq z NULL)) by done.
  simpl negb. cbv iota.
  destruct (recolor_mk_focus (m, root) _ d a1 z RB_RED a2 RB_BLACK L Ha) as [F1 O1].
  { by rewrite HL, <- (proj2 (perm_kid _ _ _ _ _ _)), <- (proj1 (perm_kid _ _ _ _ _ _)). }
  cbn [fst snd] in *. set (m1 := set_color z RB_BLACK m) in *. apply (proj1 (focus_fr _ _ _ _ _ _ _)) in F1.
  rewrite mk_negb in F1.
  destruct (recolor_mk_focus (m1, root) _ d _ y RB_BLACK b RB_RED L F1) as [F2 O2].
  { by rewrite HL, <- (proj1 (perm_kid _ _ _ _ _ _)), !nodes_mk. }
  cbn [fst snd] in *. set (m2 := set_color y RB_RED m1) in *.
  assert (F2' : focus (m2, root) (fr d t p c :: k) (mk (negb d) b y RB_RED (mk (negb d) a2 z RB_BLACK a1)))
    by (by rewrite !mk_negb).
  destruct (rotate_focus (negb d) _ b y RB_RED a2 z RB_BLACK a1 (m2, root) F2') as [F3 O3].
  rewrite !mk_negb in F3. apply (proj1 (focus_fr _ _ _ _ _ _ _)) in F3.
  pose proof (focus_root _ _ _ _ _ _ _ F3) as (_ & Ez & _). rewrite ptr_of_mk in Ez.
  eexists. split; [by rewrite Ez|]. split; [exact F3|]. cbn [fst] in *.
  eapply only_nodes_trans; [exact O1|]. eapply only_nodes_trans; [exact O2|].
  eapply only_nodes_perm; [|exact O3]. rewrite !mk_negb.
  by rewrite HL, <- (proj1 (perm_kid _ _ _ _ _ _)), !nodes_mk.
Qed.

(** A red sibling: afterwards the sibling is black and the parent red. *)
Lemma del_red_red a y b h L :
  focus h k (mk d t p c (mk d a y RB_RED b)) ->
  L ≡ₚ nodes (mk d t p c (mk d a y RB_RED b)) ++ ctx_nodes k ->
  exists h', del_red d h p = (h', ptr_of a) /\
    focus h' (fr (negb d) b y RB_BLACK :: k) (mk d t p RB_RED a) /\ steps_in L h h'.
Proof using Type.
  intros Hf HL. destruct h as [m root]. unfold del_red.
  destruct (focus_kids _ _ _ _ _ _ _ Hf) as [_ Hs].
  pose proof (focus_root _ _ _ _ _ _ _ Hf) as (_ & Es & _). rewrite ptr_of_mk in Es. cbn [fst] in Es. rewrite Es.
  pose proof (focus_root _ _ _ _ _ _ _ Hs) as (_ & _ & _ & Ec & Hy). cbn [fst] in Ec.
  rewrite (proj2 (Z.eqb_neq y NULL)), Ec by done. change (negb false && (RB_RED =? RB_RED)) with true. cbv iota zeta.
  destruct (recolor_mk_focus (m, root) _ d a y RB_RED b RB_BLACK L Hs) as [F1 O1];
    [by rewrite HL, <- (proj1 (perm_kid _ _ _ _ _ _))|].
  cbn [fst snd] in *. set (m1 := set_color y RB_BLACK m) in *. apply (proj1 (focus_fr _ _ _ _ _ _ _)) in F1.
  destruct (recolor_mk_focus (m1, root) k d t p c _ RB_RED L F1) as [F2 O2]; [by rewrite HL, !nodes_mk|].
  cbn [fst snd] in *. set (m2 := set_color p RB_RED m1) in *.
  destruct (rotate_focus d k t p RB_RED a y RB_BLACK b (m2, root) F2) as [F3 O3].
  destruct (focus_kids _ _ _ _ _ _ _ F3) as [F4 _].
  pose proof (focus_root _ _ _ _ _ _ _ F4) as (_ & Ea & _).
  eexists. split; [by rewrite Ea|]. split; [exact F4|]. cbn [fst] in *.
  eapply only_nodes_trans; [exact O1|]. eapply only_nodes_trans; [exact O2|].
  eapply only_nodes_perm; [|exact O3]. by rewrite HL, !nodes_mk.
Qed.

Lemma del_red_black s h :
  focus h k (mk d t p c s) -> s <> Leaf -> root_color s = RB_BLACK -> del_red d h p = (h, ptr_of s).
Proof using Type.
  intros Hf Hs Cs. destruct h as [m root]. unfold del_red.
  destruct (focus_kids _ _ _ _ _ _ _ Hf) as [_ Hfs].
  pose proof (focus_root _ _ _ _ _ _ _ Hf) as (_ & Es & _). cbn [fst] in Es. rewrite Es.
  pose proof (focus_color _ _ _ Hfs Hs) as Ec. cbn [fst] in Ec. rewrite Ec, Cs.
  by rewrite andb_false_r.
Qed.
End turn.

(** ** Balance *)

(** A tree that is one black node short of [S n], or will have [S n] once its
    red root is coloured black. *)
Definition short (t : tree) (n : nat) : Prop :=
  root_color t = RB_RED /\ rb (recolor RB_BLACK t) (S n) \/ root_color t = RB_BLACK /\ rb t n.

Lemma rb_blacken t n : rb t n -> exists n', rb (recolor RB_BLACK t) n'.
Proof.
  destruct t as [|a x c b]; [by exists n|]. simpl.
  intros [(_ & Ha & Hb & _)|(_ & n' & _ & Ha & Hb)]; eexists (S _); right; eauto.
Qed.

Lemma rb_colors t n : rb t n -> root_color t = RB_RED \/ root_color t = RB_BLACK.
Proof. destruct t; simpl; [by right|]. naive_solver. Qed.

Lemma rb_recolor_red t n : rb t n -> root_color t = RB_RED -> rb (recolor RB_BLACK t) (S n).
Proof.
  destruct t as [|a x c b]; [done|]. simpl. intros [(_ & Ha & Hb & _)|(-> & _)] Hc; [|done].
  right. split; [done|]. by exists n.
Qed.

Lemma rb_node d t n : rb t n -> t <> Leaf -> exists a y b, t = mk d a y (root_color t) b.
Proof. destruct t as [|l x c r]; [done|]. intros _ _. destruct d; [by exists l, x, r|by exists r, x, l]. Qed.

Lemma rb_not_leaf t n : rb t (S n) -> t <> Leaf.
Proof. by intros H ->. Qed.

(** The requirement of the context on the colour of the parent [p]. *)
Definition parent_fits (k : ctx) (c : Z) (s : tree) (n : nat) : Prop :=
  c = RB_RED /\ root_color s = RB_BLACK /\ rb_ctx k n /\ k <> [] /\ accepts_red k \/
  c = RB_BLACK /\ rb_ctx k (S n).

Lemma parent_fits_ctx k c s d p n :
  rb_ctx (fr d s p c :: k) n -> rb s n /\ parent_fits k c s n.
Proof.
  intros [Hs Hk]. assert (E : frame_sub (fr d s p c) = s /\ frame_color (fr d s p c) = c) by (by destruct d).
  destruct E as [E1 E2]. rewrite E1, ?E2 in *. split; [done|].
  destruct Hk as [(H1 & H2 & H3 & H4)|(H1 & H2)]; [left|by right]. destruct k; done.
Qed.

Lemma rb_ctx_root k n t : rb_ctx k n -> k <> [] -> root_color (plug k t) = RB_BLACK.
Proof.
  revert n t. induction k as [|f k IH]; intros n t; [done|]. intros [_ Hk] _. cbn [plug].
  destruct k as [|g k]; [destruct Hk as [(_ & _ & _ & [])|[E _]]; by destruct f|].
  destruct Hk as [(_ & _ & Hk & _)|[_ Hk]]; by eapply IH.
Qed.

(** The nodes are recorded in order; [repaired] is what the fix-up from here on
    achieves. *)
Definition repaired (turns : nat) (h : heap) (x x_parent : ptr) (l : list ptr) : Prop :=
  exists h' T, rb_delete_fixup turns h x x_parent = Some h' /\ heap_tree h' T /\ rbtree T /\ nodes T = l /\
    only_nodes l h.1 h'.1.

Lemma rbtree_blacken T N : rb T N -> rbtree (recolor RB_BLACK T).
Proof.
  intros HT. split; [by destruct T|]. by eapply rb_blacken.
Qed.

(** The last colouring, on the tree in focus. *)
Lemma stop_repaired turns h k t xp N :
  focus h k t -> delete_fixup_loop turns h (ptr_of t) xp = Some (h, ptr_of t) ->
  rb (plug k (recolor RB_BLACK t)) N -> (exists n, rb_ctx k n) ->
  repaired turns h (ptr_of t) xp (nodes (plug k t)).
Proof.
  intros Hf Hl Hrb Hk. unfold repaired, rb_delete_fixup. rewrite Hl. destruct h as [m root].
  rewrite (focus_null _ _ _ Hf).
  assert (Hroot : root_color (plug k (recolor RB_BLACK t)) = RB_BLACK).
  { destruct (decide (k = [])) as [->|Hne]; [by destruct t|]. destruct Hk as [n Hk]. by eapply rb_ctx_root. }
  assert (Hn : nodes (plug k (recolor RB_BLACK t)) = nodes (plug k t)) by (by rewrite !inorder_plug, nodes_recolor).
  destruct (decide (t = Leaf)) as [->|Ht].
  - eexists _, (plug k Leaf). split; [done|]. split; [exact (proj1 (focus_plug _ _ _) Hf)|].
    split; [split; [done|by exists N]|]. split; [done|apply only_nodes_refl].
  - assert (negb (match t with Leaf => true | _ => false end) = true) as -> by (by destruct t).
    destruct (recolor_in (m, root) k t RB_BLACK (nodes (plug k t)) Hf Ht) as [F O]; [apply nodes_plug|].
    eexists _, (plug k (recolor RB_BLACK t)). split; [done|]. split; [exact (proj1 (focus_plug _ _ _) F)|].
    split; [split; [done|by exists N]|]. split; [done|exact O].
Qed.

(** The part of a turn behind [del_red]. *)
Definition del_rest (d : bool) (h : heap) (sibling p : ptr) : heap * ptr * ptr :=
  let '(m, root) := h in
  if is_black m (sub (negb d) m sibling) && is_black m (sub d m sibling) then
    ((set_color sibling RB_RED m, root), p, parent_of (set_color sibling RB_RED m) p)
  else let '(h2, sibling2) := del_inner d (m, root) sibling p in del_finish d h2 sibling2 p.

Lemma del_step_rest d h x p : del_step d h x p = del_rest d (del_red d h p).1 (del_red d h p).2 p.
Proof. rewrite del_step_parts. destruct (del_red d h p) as [[m root] s]. done. Qed.

(** What is left to do after a turn. *)
Definition turned (k : ctx) (c : Z) (l : list ptr) (h : heap) (r : heap * ptr * ptr) : Prop :=
  let '(h2, x2, xp2) := r in
  exists t2, focus h2 k t2 /\ nodes t2 = l /\ only_nodes (nodes t2 ++ ctx_nodes k) h.1 h2.1 /\
    ( (* the parent took the defect over *)
     (exists n2, x2 = ptr_of t2 /\ xp2 = par k /\ rb_ctx k (S n2) /\ short t2 n2 /\ (c = RB_RED -> root_color t2 = RB_RED)) \/
     (* repaired *)
     x2 = h2.2 /\ exists n2, rb_ctx k n2 /\ rb t2 n2 /\ (root_color t2 = RB_BLACK \/ accepts_red k)).

Section balance.
Context (k : ctx) (d : bool) (t : tree) (p c : Z) (n : nat).
Hypothesis (Ht : rb t n) (Ct : root_color t = RB_BLACK).

Lemma nodes_mk_eq d' a x c0 b c1 : nodes (mk d' a x c0 b) = nodes (mk d' a x c1 b).
Proof using Type. by destruct d'. Qed.

(** The repaired subtree fits the place of the parent. *)
Lemma repaired_fits s a y b :
  rb a n -> rb b (S n) -> root_color b = RB_BLACK -> parent_fits k c s (S n) ->
  exists n2, rb_ctx k n2 /\ rb (mk d (mk d t p RB_BLACK a) y c b) n2 /\
    (root_color (mk d (mk d t p RB_BLACK a) y c b) = RB_BLACK \/ accepts_red k).
Proof using Ht.
  intros Ha Hb Cb Hfit. rewrite root_color_mk.
  assert (Hp : rb (mk d t p RB_BLACK a) (S n)) by (apply rb_mk; right; eauto).
  destruct Hfit as [(-> & _ & Hk & _ & Hacc)|(-> & Hk)].
  - exists (S n). split_and!; [done| |by right]. apply rb_mk. left. by rewrite root_color_mk.
  - exists (S (S n)). split_and!; [done| |by left]. apply rb_mk. right. eauto.
Qed.

Lemma turn_black h s :
  focus h k (mk d t p c s) -> rb s (S n) -> root_color s = RB_BLACK -> parent_fits k c s (S n) ->
  turned k c (nodes (mk d t p c s)) h (del_rest d h (ptr_of s) p).
Proof using Ht Ct.
  intros Hf Hs Cs Hfit. destruct (rb_node d s _ Hs (rb_not_leaf _ _ Hs)) as (a & y & b & Es). rewrite Cs in Es.
  rewrite Es in Hs. apply rb_mk in Hs as [(E & _)|(_ & n' & [= <-] & Ha & Hb)]; [done|].
  rewrite Es in Hf |- *. rewrite ptr_of_mk. destruct h as [m root].
  destruct (focus_kids _ _ _ _ _ _ _ Hf) as [_ Hfs]. destruct (focus_kids _ _ _ _ _ _ _ Hfs) as [Hfa Hfb].
  pose proof (focus_root _ _ _ _ _ _ _ Hfs) as (Ea & Eb & _). cbn [fst] in Ea, Eb.
  pose proof (is_black_focus _ _ _ Hfa) as Ia. pose proof (is_black_focus _ _ _ Hfb) as Ib. cbn [fst] in Ia, Ib.
  unfold del_rest. rewrite Ea, Eb, Ia, Ib.
  assert (Hfin : forall h1 a1 z b1, del_inner d (m, root) y p = (h1, z) ->
    focus h1 k (mk d t p c (mk d a1 z RB_BLACK b1)) -> only_nodes (nodes (mk d t p c (mk d a y RB_BLACK b)) ++ ctx_nodes k) m h1.1 ->
    rb a1 n -> rb b1 n -> root_color b1 = RB_RED ->
    nodes (mk d a1 z RB_BLACK b1) = nodes (mk d a y RB_BLACK b) ->
    turned k c (nodes (mk d t p c (mk d a y RB_BLACK b))) (m, root)
      (let '(h2, sibling2) := del_inner d (m, root) y p in del_finish d h2 sibling2 p)).
  { intros h1 a1 z b1 E F O Ha1 Hb1 Cb1 En. rewrite E.
    assert (HP : nodes (mk d t p c (mk d a1 z RB_BLACK b1)) = nodes (mk d t p c (mk d a y RB_BLACK b)))
      by (by destruct d; simpl in *; rewrite En).
    assert (Hb1l : b1 <> Leaf) by (by intros ->).
    destruct (del_finish_spec k d t p c a1 z RB_BLACK b1 h1 _ F Hb1l (Permutation_refl _)) as (h2 & E2 & F2 & O2).
    rewrite E2. eexists. split; [exact F2|]. split.
    { rewrite <- HP. destruct d; simpl; rewrite nodes_recolor; repeat (rewrite <- app_assoc; simpl); done. }
    split.
    { eapply only_nodes_trans; [eapply only_nodes_perm; [|exact O]|eapply only_nodes_perm; [|exact O2]].
      - rewrite <- HP. rewrite !nodes_mk, nodes_recolor. solve_Permutation.
      - rewrite !nodes_mk, nodes_recolor. solve_Permutation. }
    right. split; [done|]. eapply repaired_fits; [done|by apply rb_recolor_red|by destruct b1|exact Hfit]. }
  destruct (rb_colors _ _ Hb) as [Cb|Cb]; rewrite Cb.
  { (* outer nephew red *)
    change (RB_RED =? RB_BLACK) with false. rewrite andb_false_r.
    apply (Hfin (m, root) a y b); try done.
    unfold del_inner. rewrite Eb, Ib, Cb. done. }
  change (RB_BLACK =? RB_BLACK) with true. rewrite andb_true_r.
  destruct (rb_colors _ _ Ha) as [Ca|Ca]; rewrite Ca.
  - (* inner nephew red *)
    change (RB_RED =? RB_BLACK) with false. cbv iota.
    destruct (rb_node d a _ Ha) as (a1 & z & a2 & Ea'); [by intros ->|]. rewrite Ca in Ea'. subst a.
    apply rb_mk in Ha as [(_ & Ha1 & Ha2 & Ca1 & Ca2)|(E & _)]; [|done].
    destruct (del_inner_spec k d t p c a1 z a2 y b (m, root) _ Hf Cb (Permutation_refl _)) as (h1 & E1 & F1 & O1).
    apply (Hfin h1 a1 z (mk d a2 y RB_RED b)); try done.
    + apply rb_mk. left. done.
    + apply root_color_mk.
    + by destruct d; simpl; repeat (rewrite <- app_assoc; simpl).
  - (* both nephews black *)
    change (RB_BLACK =? RB_BLACK) with true. cbv iota.
    destruct (recolor_mk_focus (m, root) _ d a y RB_BLACK b RB_RED
      (nodes (mk d t p c (mk d a y RB_BLACK b)) ++ ctx_nodes k) Hfs) as [F1 O1]; [apply (proj1 (perm_kid _ _ _ _ _ _))|].
    cbn [fst snd] in F1, O1. apply (proj1 (focus_fr _ _ _ _ _ _ _)) in F1.
    pose proof (focus_root _ _ _ _ _ _ _ F1) as (_ & _ & Ep & _). cbn [fst] in Ep. rewrite Ep.
    exists (mk d t p c (mk d a y RB_RED b)). split; [exact F1|].
    assert (En : nodes (mk d t p c (mk d a y RB_RED b)) = nodes (mk d t p c (mk d a y RB_BLACK b))) by (by destruct d).
    split; [done|]. split; [by rewrite En|]. left. rewrite ptr_of_mk, root_color_mk.
    assert (Hr : rb (mk d a y RB_RED b) n) by (apply rb_mk; left; done).
    destruct Hfit as [(-> & _ & Hk & _)|(-> & Hk)].
    + exists n. split_and!; try done. left. rewrite root_color_mk, recolor_mk. split; [done|].
      apply rb_mk. right. eauto.
    + exists (S n). split_and!; try done. right. rewrite root_color_mk. split; [done|].
      apply rb_mk. right. eauto.
Qed.
End balance.

(** ** The loop *)

Lemma ctx_root_elem f k p : ctx_root (f :: k) p ∈ ctx_nodes (f :: k).
Proof.
  revert f p. induction k as [|g k IH]; intros f p.
  - simpl. rewrite app_nil_r. destruct f; left.
  - change (ctx_root (f :: g :: k) p) with (ctx_root (g :: k) (frame_node f)).
    change (ctx_nodes (f :: g :: k)) with (frame_nodes f ++ ctx_nodes (g :: k)). apply elem_of_app. right. apply IH.
Qed.

Lemma focus_not_root h f k t : focus h (f :: k) t -> ptr_of t <> h.2.
Proof.
  intros [H1 _ _ Hg] E. pose proof (ctx_root_elem f k (ptr_of t)) as Hin. rewrite <- H1, <- E in Hin.
  destruct (decide (t = Leaf)) as [->|Ht].
  - eapply (good_pos _ NULL Hg); [|done]. apply elem_of_app. by right.
  - destruct Hg as (Hnd & _). apply NoDup_app in Hnd as (_ & Hd & _). apply (Hd (ptr_of t)); [|done].
    by apply ptr_of_elem.
Qed.

Lemma loop_stop turns h k t xp :
  focus h k t -> k = [] \/ root_color t = RB_RED ->
  delete_fixup_loop turns h (ptr_of t) xp = Some (h, ptr_of t).
Proof.
  intros Hf Hs. assert (negb (ptr_of t =? h.2) && is_black h.1 (ptr_of t) = false) as E.
  { destruct Hs as [->|Hr].
    - assert (h.2 = ptr_of t) as -> by apply Hf. by rewrite Z.eqb_refl.
    - rewrite (is_black_focus _ _ _ Hf), Hr. apply andb_false_r. }
  destruct turns; cbn [delete_fixup_loop]; by rewrite E.
Qed.

(** A defect at the root, or on a red node, is repaired by the last colouring. *)
Lemma short_repaired turns h k t n xp :
  focus h k t -> rb_ctx k (S n) -> short t n -> k = [] \/ root_color t = RB_RED ->
  repaired turns h (ptr_of t) xp (nodes (plug k t)).
Proof.
  intros Hf Hk Ht Hs. assert (exists N, rb (plug k (recolor RB_BLACK t)) N) as [N HN].
  { destruct Ht as [[Hr Ht]|[Hb Ht]].
    - apply (rb_plug k _ (S n)); [done|done|left; by destruct t].
    - destruct Hs as [->|Hr]; [|by rewrite Hb in Hr]. by eapply rb_blacken. }
  eapply stop_repaired; [done|by eapply loop_stop|exact HN|by exists (S n)].
Qed.

Lemma turned_repaired turns k c l h h2 x2 xp2 :
  turned k c l h (h2, x2, xp2) ->
  c = RB_RED \/ (forall t n, focus h2 k t -> rb_ctx k (S n) -> short t n ->
                  repaired turns h2 (ptr_of t) (par k) (nodes (plug k t))) ->
  repaired turns h2 x2 xp2 (lhs k ++ l ++ rhs k) /\ only_nodes (lhs k ++ l ++ rhs k) h.1 h2.1.
Proof.
  intros (t2 & F & <- & O & Hcase) Hc. rewrite <- inorder_plug. split.
  - destruct Hcase as [(n2 & -> & -> & Hk & Hsh & Hred)|(-> & n2 & Hk & Hrb & Hcol)].
    + destruct Hc as [Hc|Hc]; [|by eapply Hc].
      eapply short_repaired; [exact F|exact Hk|exact Hsh|right; auto].
    + destruct (rb_plug k t2 n2 Hk Hrb Hcol) as [N HN]. destruct (rb_blacken _ _ HN) as [N' HN'].
      assert (F' : focus h2 [] (plug k t2)) by (apply (proj1 (focus_plug _ _ _)); exact F).
      assert (h2.2 = ptr_of (plug k t2)) as -> by apply F'.
      apply (stop_repaired turns h2 [] (plug k t2) xp2 N'); [exact F'|apply (loop_stop _ _ _ _ _ F'); by left|exact HN'|by exists 0%nat].
  - eapply only_nodes_perm; [|exact O]. symmetry. apply nodes_plug.
Qed.

Lemma sibling_side h k d t p c s :
  focus h k (mk d t p c s) -> s <> Leaf -> (ptr_of t =? left_of h.1 p) = d.
Proof.
  intros Hf Hs. pose proof (focus_root _ _ _ _ _ _ _ Hf) as (E1 & E2 & _).
  pose proof (focus_children _ _ _ _ _ _ _ Hf Hs) as Hne.
  destruct d; unfold sub in *; simpl in *; [by rewrite E1, Z.eqb_refl|].
  rewrite E2. apply Z.eqb_neq. congruence.
Qed.

(** One turn of the loop, from either colour of the sibling. *)
Lemma turn_repaired turns h k d t p c s n :
  focus h k (mk d t p c s) -> rb t n -> root_color t = RB_BLACK -> rb s (S n) -> parent_fits k c s (S n) ->
  (forall h2 t n, focus h2 k t -> rb_ctx k (S n) -> short t n ->
     repaired turns h2 (ptr_of t) (par k) (nodes (plug k t))) ->
  let '(h2, x2, xp2) := del_step d h (ptr_of t) p in
  repaired turns h2 x2 xp2 (nodes (plug k (mk d t p c s))) /\ only_nodes (nodes (plug k (mk d t p c s))) h.1 h2.1.
Proof.
  intros Hf Ht Ct Hs Hfit IH. rewrite del_step_rest, inorder_plug. pose proof (rb_not_leaf _ _ Hs) as Hsl.
  destruct (rb_colors _ _ Hs) as [Cs|Cs].
  - destruct (rb_node d s _ Hs Hsl) as (a & y & b & Es). rewrite Cs in Es. subst s.
    destruct Hfit as [(_ & E & _)|(-> & Hk)]; [by rewrite root_color_mk in E|].
    apply rb_mk in Hs as [(_ & Ha & Hb & Ca & Cb)|(E & _)]; [|done].
    destruct (del_red_red k d t p RB_BLACK a y b h _ Hf (Permutation_refl _)) as (h1 & E1 & F1 & O1). rewrite E1. cbn [fst snd].
    set (k1 := fr (negb d) b y RB_BLACK :: k) in *.
    assert (Efr : frame_sub (fr (negb d) b y RB_BLACK) = b /\ frame_color (fr (negb d) b y RB_BLACK) = RB_BLACK)
      by (by destruct d).
    assert (Hk1 : rb_ctx k1 (S n)).
    { unfold k1. cbn [rb_ctx]. destruct Efr as [-> ->]. split; [done|by right]. }
    pose proof (turn_black k1 d t p RB_RED n Ht Ct h1 a F1 Ha Ca) as Hturn.
    assert (Hfit1 : parent_fits k1 RB_RED a (S n)) by (left; split_and!; [done..|apply Efr]).
    specialize (Hturn Hfit1). destruct (del_rest d h1 (ptr_of a) p) as [[h2 x2] xp2].
    destruct (turned_repaired turns k1 RB_RED _ h1 h2 x2 xp2 Hturn ltac:(by left)) as [HR HO].
    assert (El : lhs k1 ++ nodes (mk d t p RB_RED a) ++ rhs k1 =
                 lhs k ++ nodes (mk d t p RB_BLACK (mk d a y RB_RED b)) ++ rhs k).
    { unfold k1. destruct d; simpl; repeat (rewrite <- app_assoc; simpl); done. }
    rewrite El in HR, HO. split; [done|]. eapply only_nodes_trans; [|exact HO].
    eapply only_nodes_perm; [|exact O1]. by rewrite <- inorder_plug, nodes_plug.
  - rewrite (del_red_black k d t p c s h Hf Hsl Cs). cbn [fst snd].
    pose proof (turn_black k d t p c n Ht Ct h s Hf Hs Cs Hfit) as Hturn.
    destruct (del_rest d h (ptr_of s) p) as [[h2 x2] xp2].
    apply (turned_repaired turns k c _ h h2 x2 xp2 Hturn). right. apply IH.
Qed.

Lemma delete_fixup_spec turns k t h n :
  (length k <= turns)%nat -> focus h k t -> rb_ctx k (S n) -> short t n ->
  repaired turns h (ptr_of t) (par k) (nodes (plug k t)).
Proof.
  revert k t h n. induction turns as [|turns IH]; intros k t h n Hl Hf Hk Ht.
  { destruct k; [|simpl in Hl; lia]. eapply short_repaired; eauto. }
  destruct (decide (k = [] \/ root_color t = RB_RED)) as [Hs|Hs]; [by eapply short_repaired|].
  destruct Ht as [[? _]|[Ct Ht]]; [tauto|]. destruct k as [|f k]; [tauto|].
  rewrite (frame_eta f) in Hf, Hk |- *. rewrite par_fr. cbn [plug]. rewrite plug1_fr.
  set (d := negb (side f)). replace (side f) with (negb d) in * by apply negb_involutive. clearbody d.
  set (s := frame_sub f) in *. set (p := frame_node f) in *. set (c := frame_color f) in *.
  rewrite mk_negb. destruct (parent_fits_ctx _ _ _ _ _ _ Hk) as [Hs' Hfit].
  pose proof (focus_not_root _ _ _ _ Hf) as Hnr. pose proof (is_black_focus _ _ _ Hf) as Hib.
  apply (proj1 (focus_fr _ _ _ _ _ _ _)) in Hf. rewrite mk_negb in Hf.
  assert (Hstep : delete_fixup_loop (S turns) h (ptr_of t) p =
    let '(h2, x2, xp2) := del_step d h (ptr_of t) p in delete_fixup_loop turns h2 x2 xp2).
  { cbn [delete_fixup_loop]. rewrite (proj2 (Z.eqb_neq _ _) Hnr), Hib, Ct.
    change (negb false && (RB_BLACK =? RB_BLACK)) with true. cbv iota.
    by rewrite delete_fixup_step_side, (sibling_side _ _ _ _ _ _ _ Hf (rb_not_leaf _ _ Hs')). }
  pose proof (turn_repaired turns h k d t p c s n Hf Ht Ct Hs' Hfit) as Hturn.
  assert (HIH : forall h2 t n, focus h2 k t -> rb_ctx k (S n) -> short t n ->
    repaired turns h2 (ptr_of t) (par k) (nodes (plug k t))).
  { intros h2 t2 n2 F2 K2 S2. eapply IH; [simpl in Hl; lia|done..]. }
  specialize (Hturn HIH). destruct (del_step d h (ptr_of t) p) as [[h2 x2] xp2].
  destruct Hturn as [(h' & T & E & HT & HR & Hn & HO) HO'].
  exists h', T. split; [|split_and!; [done..|by eapply only_nodes_trans]].
  unfold rb_delete_fixup in *. by rewrite Hstep.
Qed.
