(* ===== verification/RbTheorems.v ===== *)
(** * Red-black trees: the theorems

    Search, insertion, deletion and traversal on the heap, for any comparison
    that orders the nodes by a key. *)

From S2P Require Import Prelude State RbTree RbRep RbInsert RbBalance RbDelete.

(** ** A new node *)

(** Writing fields of an object that is not in the tree. *)
Lemma fresh_write h k t node m' :
  focus h k t -> good (node :: nodes t ++ ctx_nodes k) ->
  (forall z, z ∈ nodes t ++ ctx_nodes k -> same_at h.1 m' z) -> focus (m', h.2) k t.
Proof.
  intros [H1 H2 H3 H4] Hg Hs. split; cbn [fst snd]; [done| | |done].
  - eapply rep_same; [|exact H2]. intros z Hz. apply Hs. set_solver.
  - eapply rep_ctx_same; [|exact H3]. intros z Hz. apply Hs. set_solver.
Qed.

Lemma good_head node L : good (node :: L) -> (node ∉ L) /\ good L.
Proof.
  intros (H1 & H2 & H3). apply NoDup_cons in H1 as [H1 H1']. split; [done|]. split_and!; [done| |];
    intros; [apply H2|apply H3]; by try right.
Qed.

Lemma cleared_links h t node :
  heap_tree h t -> good (node :: nodes t) ->
  let m1 := set_right node NULL (set_left node NULL h.1) in
  heap_tree (m1, h.2) t /\ left_of m1 node = NULL /\ right_of m1 node = NULL /\
  only_nodes (node :: nodes t) h.1 m1.
Proof.
  intros Hf Hg m1. set (L := node :: nodes t) in *. assert (Hn : node ∈ L) by left.
  assert (Em : m1 = set_sub true node NULL (set_sub false node NULL h.1)) by done.
  clearbody m1. subst m1.
  destruct (good_head _ _ Hg) as [Hnt _].
  split_and!; [| | |auto with rb].
  - apply (fresh_write h [] t node); [done|by rewrite app_nil_r|].
    change (ctx_nodes []) with (@nil ptr). rewrite app_nil_r. intros z Hz.
    assert (z ∈ L) by (by right). assert (z <> node) by (intros ->; done).
    apply same_at_sub. split_and!; [intros e|..]; rd L Hg; [by rewrite !decide_False by naive_solver|done..].
  - change (sub false (set_sub true node NULL (set_sub false node NULL h.1)) node = NULL). rd L Hg.
    by rewrite decide_False, decide_True by naive_solver.
  - change (sub true (set_sub true node NULL (set_sub false node NULL h.1)) node = NULL). rd L Hg.
    by rewrite decide_True.
Qed.

Lemma attach_focus m root f k node :
  focus (m, root) (f :: k) Leaf -> good (node :: ctx_nodes (f :: k)) ->
  left_of m node = NULL -> right_of m node = NULL ->
  let m' := set_color node RB_RED (set_parent node (frame_node f) (set_sub (side f) (frame_node f) node m)) in
  focus (m', root) (f :: k) (Node Leaf node RB_RED Leaf) /\ only_nodes (node :: ctx_nodes (f :: k)) m m'.
Proof.
  intros [H1 H2 H3 _] Hg E1 E2 m'. cbn [fst snd] in *.
  set (L := node :: ctx_nodes (f :: k)) in *. destruct (good_head _ _ Hg) as [Hnt Hg'].
  assert (Hn : node ∈ L) by left.
  assert (Hfk : frame_node f ∈ ctx_nodes (f :: k)) by (apply (par_elem (f :: k)); done).
  assert (Hf : frame_node f ∈ L) by (by right).
  assert (Hne : node <> frame_node f) by (intros ->; done).
  assert (Hsub : forall e z, z ∈ L -> sub e m' z =
    if decide (z = frame_node f /\ e = side f) then node else sub e m z)
    by (intros e z Hz; unfold m'; by rd L Hg).
  assert (Hpar : forall z, z ∈ L -> parent_of m' z = if decide (z = node) then frame_node f else parent_of m z)
    by (intros z Hz; unfold m'; by rd L Hg).
  assert (Hcol : forall z, z ∈ L -> color_of m' z = if decide (z = node) then RB_RED else color_of m z)
    by (intros z Hz; unfold m'; by rd L Hg).
  split; [|unfold m'; auto 10 with rb]. clearbody m'. split; cbn [fst snd ptr_of].
  - done.
  - change (rep m' (frame_node f) (mk true Leaf node RB_RED Leaf)). apply rep_mk.
    rewrite !Hsub, Hpar, Hcol, !decide_False, !decide_True by naive_solver. split_and!; done.
  - eapply rep_ctx_relink; [exact H3|apply Hg'| |].
    + intros z Hz Hzp. cbn [par] in Hzp. assert (z ∈ L) by (by right). assert (z <> node) by (intros ->; done).
      apply same_at_sub. rewrite Hpar, Hcol, !decide_False by done. split_and!; [|done..].
      intros e. rewrite Hsub, decide_False by naive_solver. done.
    + cbn [par]. rewrite !Hsub, Hpar, Hcol by done.
      assert (negb (side f) <> side f) by (by destruct (side f)).
      split_and!; repeat case_decide; destruct_and?; congruence || naive_solver.
  - exact Hg.
Qed.
(** ** Removing a node *)

Lemma node_place t x :
  x ∈ nodes t -> exists k l c r, t = plug k (Node l x c r) /\ (length k + height (Node l x c r) <= height t)%nat.
Proof.
  induction t as [|l IHl y c r IHr]; simpl; [set_solver|].
  intros [Hx|[->|Hx]%elem_of_cons]%elem_of_app.
  - destruct (IHl Hx) as (k & l' & c' & r' & -> & Hh). exists (k ++ [FL y c r]), l', c', r'.
    rewrite plug_app, length_app. split; [done|]. simpl in *. lia.
  - exists [], l, c, r. split; [done|]. simpl. lia.
  - destruct (IHr Hx) as (k & l' & c' & r' & -> & Hh). exists (k ++ [FR l y c]), l', c', r'.
    rewrite plug_app, length_app. split; [done|]. simpl in *. lia.
Qed.

(** Taking a node out at the heap and repairing. *)
Lemma remove_spec h k l z c r turns :
  focus h k (Node l z c r) -> rbtree (plug k (Node l z c r)) ->
  (length k + height (Node l z c r) <= turns)%nat ->
  exists h1 x xp cy h' t', rb_unlink turns h z = Some (h1, x, xp, cy) /\
    (if cy =? RB_BLACK then rb_delete_fixup turns h1 x xp = Some h' else h1 = h') /\
    heap_tree h' t' /\ rbtree t' /\ nodes t' = lhs k ++ (nodes l ++ nodes r) ++ rhs k /\
    only_nodes (nodes (plug k (Node l z c r))) h.1 h'.1.
Proof.
  intros Hf [Hroot [N HN]] Hh.
  destruct (unlink_spec turns h k l z c r Hf) as (h1 & K & b & cy & E1 & (F1 & En & HlK & Hbal) & O1); [lia|].
  destruct (Hbal N HN Hroot) as (n & d & y & HK & Hb).
  assert (O1' : only_nodes (nodes (plug k (Node l z c r))) h.1 h1.1)
    by (eapply only_nodes_perm; [|exact O1]; symmetry; apply nodes_plug).
  apply rb_mk in Hb as [(-> & _ & Hb & _ & Cb)|(-> & n' & -> & Hn' & Hb)].
  - destruct (rb_plug K b n HK Hb ltac:(by left)) as [N' HN'].
    exists h1, (ptr_of b), (par K), RB_RED, h1, (plug K b). split; [done|]. split; [done|].
    split; [exact (proj1 (focus_plug _ _ _) F1)|]. split; [split; [|by exists N']|].
    + destruct (decide (K = [])) as [->|HKne]; [done|by eapply rb_ctx_root].
    + by rewrite inorder_plug, En.
  - simpl in Hn'. subst n'.
    assert (Hsh : short b 0).
    { destruct (rb_colors _ _ Hb) as [Cb|Cb]; [left|by right]. split; [done|by apply rb_recolor_red]. }
    destruct (delete_fixup_spec turns K b h1 0 ltac:(lia) F1 HK Hsh) as (h' & T & E2 & FT & HT & HnT & O2).
    exists h1, (ptr_of b), (par K), RB_BLACK, h', T. split; [done|]. split; [done|]. split; [done|]. split; [done|].
    rewrite HnT, inorder_plug, En. split; [done|]. eapply only_nodes_trans; [exact O1'|].
    eapply only_nodes_weaken; [|exact O2]. intros x. rewrite !inorder_plug, En. cbn [nodes].
    rewrite !elem_of_app, !elem_of_cons. tauto.
Qed.

(** ** Keys *)

Section keys.
Context (key : ptr -> Z).

Fixpoint sorted (l : list ptr) : Prop :=
  match l with [] => True | x :: l' => (forall y, y ∈ l' -> key x < key y) /\ sorted l' end.

(** On the objects of [L], in every memory that differs from [m] inside the
    nodes only, [cmp] compares the keys. *)
Definition compares (cmp : mem -> ptr -> ptr -> Z) (L : list ptr) (m : mem) : Prop :=
  forall m', only_nodes L m m' -> forall a b, a ∈ L -> b ∈ L ->
    (cmp m' a b < 0 <-> key a < key b) /\ (cmp m' a b > 0 <-> key b < key a).

Lemma sorted_app l1 l2 :
  sorted (l1 ++ l2) <-> sorted l1 /\ sorted l2 /\ (forall a b, a ∈ l1 -> b ∈ l2 -> key a < key b).
Proof.
  induction l1 as [|x l1 IH]; simpl.
  - split; [intros H; split_and!; [done|done|set_solver]|tauto].
  - rewrite IH. split.
    + intros (H1 & H2 & H3 & H4). split_and!; try done; [set_solver|].
      intros a b [->|Ha]%elem_of_cons Hb; [apply H1; set_solver|auto].
    + intros ((H1 & H2) & H3 & H4). split_and!; try done; [|intros; apply H4; set_solver].
      intros y [Hy|Hy]%elem_of_app; [auto|apply H4; set_solver].
Qed.

Lemma sorted_mid l1 x l2 :
  sorted (l1 ++ x :: l2) <-> sorted (l1 ++ l2) /\ (forall a, a ∈ l1 -> key a < key x) /\
    (forall b, b ∈ l2 -> key x < key b).
Proof.
  change (x :: l2) with ([x] ++ l2). rewrite !sorted_app. split.
  - intros (H1 & (_ & H2 & H3) & H4). split_and!; try done; intros; [apply H4|apply H4|apply H3]; set_solver.
  - intros ((H1 & H2 & H3) & H4 & H5). split_and!; try done.
    + simpl. split; [set_solver|done].
    + intros a b ->%list_elem_of_singleton. auto.
    + intros a b Ha [->%list_elem_of_singleton|Hb]%elem_of_app; auto.
Qed.

(** ** Search *)

Lemma find_loop_spec cmp L turns m k node t h :
  compares cmp L m -> h.1 = m -> focus h k t -> node ∈ L -> nodes t ⊆ L -> sorted (nodes t) ->
  (height t <= turns)%nat ->
  exists x, find_loop cmp turns m node (ptr_of t) = Some x /\
    (x = NULL /\ (forall y, y ∈ nodes t -> key y <> key node) \/ x ∈ nodes t /\ key x = key node).
Proof using Type.
  intros Hc Hm. revert k t h Hm. induction turns as [|n IH]; intros k t h Hm Hf Hn HL Hs Hh.
  { destruct t; [|simpl in Hh; lia]. exists NULL. split; [done|]. left. split; [done|]. set_solver. }
  destruct t as [|l x c r].
  { exists NULL. split; [done|]. left. split; [done|]. set_solver. }
  pose proof (focus_root h k true l x c r Hf) as (E1 & E2 & _ & _ & E5). unfold sub in E1, E2. simpl in E1, E2.
  cbn [find_loop ptr_of nodes] in *. rewrite (proj2 (Z.eqb_neq x NULL)) by done.
  destruct (Hc m ltac:(apply only_nodes_refl) node x Hn ltac:(apply HL; set_solver)) as [C1 C2].
  apply sorted_mid in Hs as (Hs & H1 & H2). apply sorted_app in Hs as (Hsl & Hsr & _). simpl in Hh.
  assert (HLl : nodes l ⊆ L) by (intros z Hz; apply HL; set_solver).
  assert (HLr : nodes r ⊆ L) by (intros z Hz; apply HL; set_solver).
  destruct (Z.ltb_spec (cmp m node x) 0) as [Hlt|Hge].
  - apply C1 in Hlt. subst m. rewrite E1.
    destruct (IH (FL x c r :: k) l h eq_refl (proj2 (focus_plug1 h (FL x c r) k l) Hf) Hn HLl Hsl ltac:(lia)) as (z & -> & Hz).
    exists z. split; [done|]. destruct Hz as [[-> Hz]|[Hz ?]]; [left|right; set_solver].
    split; [done|]. intros y Hy. rewrite elem_of_app, elem_of_cons in Hy.
    destruct Hy as [Hy|[->|Hy]]; [auto|lia|specialize (H2 y Hy); lia].
  - destruct (Z.gtb_spec (cmp m node x) 0) as [Hgt|Hle].
    + assert (Hk : key x < key node) by (apply C2; lia). subst m. rewrite E2.
      destruct (IH (FR l x c :: k) r h eq_refl (proj2 (focus_plug1 h (FR l x c) k r) Hf) Hn HLr Hsr ltac:(lia)) as (z & -> & Hz).
      exists z. split; [done|]. destruct Hz as [[-> Hz]|[Hz ?]]; [left|right; set_solver].
      split; [done|]. intros y Hy. rewrite elem_of_app, elem_of_cons in Hy.
      destruct Hy as [Hy|[->|Hy]]; [specialize (H1 y Hy); lia|lia|auto].
    + exists x. split; [done|]. right. split; [set_solver|].
      destruct (Z.lt_trichotomy (key node) (key x)) as [H|[H|H]]; [apply C1 in H; lia|lia|apply C2 in H; lia].
Qed.

(** The walk of [rb_insert]. *)
Lemma insert_loop_spec cmp L turns m node k t h :
  compares cmp L m -> h.1 = m -> focus h k t -> node ∈ L -> nodes t ⊆ L -> sorted (nodes t) ->
  (height t <= turns)%nat ->
  (forall a, a ∈ lhs k -> key a < key node) -> (forall b, b ∈ rhs k -> key node < key b) ->
  exists pl, insert_loop cmp turns m node (ptr_of t) (par k) = Some pl /\
    match pl with
    | Dup => exists x, x ∈ nodes t /\ key x = key node
    | Place p => exists k', plug k' Leaf = plug k t /\ p = par k' /\ (length k' <= length k + height t)%nat /\
        (forall a, a ∈ lhs k' -> key a < key node) /\ (forall b, b ∈ rhs k' -> key node < key b)
    end.
Proof using Type.
  intros Hc Hm. revert k t h Hm. induction turns as [|n IH]; intros k t h Hm Hf Hn HL Hs Hh Hlo Hhi.
  { destruct t; [|simpl in Hh; lia]. exists (Place (par k)). split; [done|]. exists k.
    split_and!; try done. lia. }
  destruct t as [|l x c r].
  { exists (Place (par k)). split; [done|]. exists k. split_and!; try done. lia. }
  pose proof (focus_root h k true l x c r Hf) as (E1 & E2 & _ & _ & E5). unfold sub in E1, E2. simpl in E1, E2.
  cbn [insert_loop ptr_of nodes] in *. rewrite (proj2 (Z.eqb_neq x NULL)) by done.
  destruct (Hc m ltac:(apply only_nodes_refl) node x Hn ltac:(apply HL; set_solver)) as [C1 C2].
  apply sorted_mid in Hs as (Hs & H1 & H2). apply sorted_app in Hs as (Hsl & Hsr & _). simpl in Hh.
  assert (HLl : nodes l ⊆ L) by (intros z Hz; apply HL; set_solver).
  assert (HLr : nodes r ⊆ L) by (intros z Hz; apply HL; set_solver).
  destruct (Z.ltb_spec (cmp m node x) 0) as [Hlt|Hge].
  - apply C1 in Hlt. subst m. rewrite E1.
    destruct (IH (FL x c r :: k) l h eq_refl (proj2 (focus_plug1 h (FL x c r) k l) Hf) Hn HLl Hsl ltac:(lia))
      as (pl & Epl & Hpl).
    { done. }
    { simpl. intros b Hb. rewrite elem_of_cons, elem_of_app in Hb.
      destruct Hb as [->|[Hb|Hb]]; [done|specialize (H2 b Hb); lia|auto]. }
    exists pl. split; [exact Epl|]. destruct pl as [p|].
    + destruct Hpl as (k' & Ep & ? & Hl & ? & ?). exists k'. split_and!; try done. simpl in Hl |- *. lia.
    + destruct Hpl as (z & Hz & ?). exists z. split; [set_solver|done].
  - destruct (Z.gtb_spec (cmp m node x) 0) as [Hgt|Hle].
    + assert (Hk : key x < key node) by (apply C2; lia). subst m. rewrite E2.
      destruct (IH (FR l x c :: k) r h eq_refl (proj2 (focus_plug1 h (FR l x c) k r) Hf) Hn HLr Hsr ltac:(lia))
        as (pl & Epl & Hpl).
      { simpl. intros b Hb. rewrite !elem_of_app in Hb.
        destruct Hb as [Hb|[Hb| ->%list_elem_of_singleton]]; [auto|specialize (H1 b Hb); lia|done]. }
      { done. }
      exists pl. split; [exact Epl|]. destruct pl as [p|].
      * destruct Hpl as (k' & Ep & ? & Hl & ? & ?). exists k'. split_and!; try done. simpl in Hl |- *. lia.
      * destruct Hpl as (z & Hz & ?). exists z. split; [set_solver|done].
    + exists Dup. split; [done|]. exists x. split; [set_solver|].
      destruct (Z.lt_trichotomy (key node) (key x)) as [H|[H|H]]; [apply C1 in H; lia|lia|apply C2 in H; lia].
Qed.


(** ** Insertion *)

Lemma compares_mono cmp L m m' : compares cmp L m -> only_nodes L m m' -> compares cmp L m'.
Proof using Type. intros H Ho m2 H2. apply H. by eapply only_nodes_trans. Qed.

Lemma single_node m node :
  0 < node -> left_of m node = NULL -> right_of m node = NULL ->
  let m' := set_color node RB_BLACK (set_parent node NULL m) in
  heap_tree (m', node) (Node Leaf node RB_BLACK Leaf) /\ only_nodes [node] m m'.
Proof using Type.
  intros Hp E1 E2 m'. assert (Hg : good [node]).
  { split_and!; [apply NoDup_singleton|intros x ->%list_elem_of_singleton; done|].
    intros x y ->%list_elem_of_singleton ->%list_elem_of_singleton. done. }
  assert (Hn : node ∈ [node]) by left. split; [|unfold m'; auto with rb].
  split; cbn [fst snd]; [done| |done|done].
  change (rep m' NULL (mk true Leaf node RB_BLACK Leaf)). apply rep_mk. unfold m'. rd [node] Hg.
  rewrite !decide_True by done. split_and!; done.
Qed.

(** The result of putting [node] into the hole of [k]. *)
Lemma insert_at m root f k node t turns :
  focus (m, root) (f :: k) Leaf -> plug (f :: k) Leaf = t -> good (node :: nodes t) ->
  left_of m node = NULL -> right_of m node = NULL -> rbtree t -> (length (f :: k) <= turns)%nat ->
  let m' := set_color node RB_RED (set_parent node (frame_node f) (set_sub (side f) (frame_node f) node m)) in
  exists h' t', rb_insert_fixup turns (m', root) node = Some h' /\ heap_tree h' t' /\ rbtree t' /\
    nodes t' = lhs (f :: k) ++ node :: rhs (f :: k) /\ only_nodes (node :: nodes t) m h'.1.
Proof using Type.
  intros Hf Ep Hg E1 E2 Hrb Hl m'.
  assert (HP : nodes t ≡ₚ ctx_nodes (f :: k)) by (rewrite <- Ep; apply nodes_plug).
  destruct (attach_focus m root f k node Hf) as [F2 O2]; [by rewrite <- HP|done..|]. fold m' in F2, O2.
  set (T := Node Leaf node RB_RED Leaf) in *.
  destruct (insert_fixup_loop_spec turns (f :: k) T (m', root) Hl F2 ltac:(done)) as ([m3 r3] & E3 & F3 & O3).
  unfold rb_insert_fixup. cbn [ptr_of T] in E3. rewrite E3.
  assert (Hfl : fixup (f :: k) T <> Leaf).
  { intros E. pose proof (inorder_fixup (f :: k) T ltac:(done)) as Hn. rewrite E in Hn.
    simpl nodes in Hn. by destruct (lhs (f :: k)). }
  destruct (recolor_focus (m3, r3) [] _ RB_BLACK F3 Hfl) as [F4 O4].
  pose proof (fo_root _ _ _ F3) as Hr3. cbn [snd ctx_root] in Hr3. rewrite <- Hr3 in F4, O4.
  cbn [fst snd] in *.
  destruct Hrb as [Hc [N HN]]. rewrite <- Ep in Hc, HN.
  destruct (rb_ctx_plug _ _ _ HN Hc) as (n & Hk & Hn & _). simpl in Hn. subst n.
  eexists _, _. split; [done|]. split; [exact F4|]. split_and!.
  - apply (rb_fixup _ _ 0); try done. simpl. left. done.
  - rewrite nodes_recolor, inorder_fixup by done. done.
  - cbn [fst]. eapply only_nodes_trans; [eapply only_nodes_perm; [|exact O2]; by rewrite HP|].
    eapply only_nodes_trans; [eapply only_nodes_perm; [|exact O3]|].
    + simpl nodes. by rewrite HP.
    + eapply only_nodes_perm; [|exact O4]. rewrite inorder_fixup by done.
      change (ctx_nodes []) with (@nil ptr). rewrite app_nil_r. simpl nodes.
      rewrite <- Ep, inorder_plug. simpl nodes. solve_Permutation.
Qed.

Lemma rb_insert_spec cmp h t node turns :
  heap_tree h t -> rbtree t -> sorted (nodes t) -> good (node :: nodes t) ->
  compares cmp (node :: nodes t) h.1 ->
  (2 * Nat.log2 (length (nodes t) + 1) <= turns)%nat ->
  exists h' r, rb_insert cmp turns h node = Some (h', r) /\ only_nodes (node :: nodes t) h.1 h'.1 /\
    ((exists x, x ∈ nodes t /\ key x = key node) /\ r = NULL /\ heap_tree h' t \/
     (forall x, x ∈ nodes t -> key x <> key node) /\ r = node /\
     exists t', heap_tree h' t' /\ rbtree t' /\ sorted (nodes t') /\ nodes t' ≡ₚ node :: nodes t).
Proof using Type.
  intros Hf Hrb Hs Hg Hc Ht. destruct h as [m root]. pose proof (rb_height t Hrb) as Hh.
  destruct (cleared_links (m, root) t node Hf Hg) as (F1 & E1 & E2 & O1). cbn [fst snd] in *.
  unfold rb_insert. set (m1 := set_right node NULL (set_left node NULL m)) in *.
  assert (Hc1 := compares_mono _ _ _ _ Hc O1).
  assert (Hr : root = ptr_of t) by apply Hf.
  destruct (insert_loop_spec cmp (node :: nodes t) turns m1 node [] t (m1, root) Hc1 eq_refl F1)
    as (pl & Epl & Hpl); [by left|by right|done|lia|simpl; set_solver..|].
  cbn [par] in Epl. rewrite <- Hr in Epl. rewrite Epl. destruct pl as [p|].
  2:{ exists (m1, root), NULL. split; [done|]. split; [done|]. left. done. }
  destruct Hpl as (k & Ep & -> & Hlk & Hlo & Hhi). cbn [plug length] in *.
  assert (Hfresh : forall x, x ∈ nodes t -> key x <> key node).
  { intros x. rewrite <- Ep, inorder_plug. simpl. intros [Hx|Hx]%elem_of_app;
      [specialize (Hlo x Hx)|specialize (Hhi x Hx)]; lia. }
  assert (Hsort : sorted (lhs k ++ node :: rhs k)).
  { apply sorted_mid. split_and!; try done. rewrite <- Ep, inorder_plug in Hs. done. }
  assert (Hperm : lhs k ++ node :: rhs k ≡ₚ node :: nodes t).
  { rewrite <- Ep, inorder_plug. simpl. solve_Permutation. }
  destruct k as [|f k].
  { simpl in Ep. subst t. cbn [par]. rewrite Z.eqb_refl.
    destruct (single_node m1 node) as [F2 O2]; [apply Hg; left|done..|].
    eexists _, _. split; [done|]. split; [by eapply only_nodes_trans|]. right. split; [done|].
    split; [done|]. eexists. split; [exact F2|]. split; [|done].
    split; [done|]. exists 1%nat. simpl. right. split; [done|]. by exists 0%nat. }
  cbn [par]. assert (Hfn : frame_node f ∈ nodes t).
  { rewrite <- Ep, nodes_plug. simpl. apply elem_of_app. left. by destruct f; left. }
  assert (Hfl : focus (m1, root) (f :: k) Leaf) by (apply (proj2 (focus_plug _ _ _)); by rewrite Ep).
  rewrite (proj2 (Z.eqb_neq (frame_node f) NULL)) by (apply (good_pos (nodes t)); [apply (good_head _ _ Hg)|done]).
  destruct (Hc1 m1 ltac:(apply only_nodes_refl) node (frame_node f)) as [C1 C2]; [by left|by right|].
  assert (Hside : (side f = false /\ key node < key (frame_node f)) \/
                  (side f = true /\ key (frame_node f) < key node)).
  { destruct f as [y c r|l y c]; simpl in *; [left|right]; (split; [done|]);
      [apply Hhi; left|apply Hlo; set_solver]. }
  assert (Hres : (cmp m1 node (frame_node f) =? 0) = false).
  { apply Z.eqb_neq. destruct Hside as [[_ H]|[_ H]]; [apply C1 in H|apply C2 in H]; lia. }
  rewrite Hres.
  assert (Hset : (if cmp m1 node (frame_node f) <? 0 then set_left (frame_node f) node m1
                  else set_right (frame_node f) node m1) = set_sub (side f) (frame_node f) node m1).
  { destruct Hside as [[-> H]|[-> H]]; [apply C1 in H; by rewrite (proj2 (Z.ltb_lt _ _))|].
    apply C2 in H. rewrite (proj2 (Z.ltb_ge _ _)) by lia. done. }
  rewrite Hset.
  destruct (insert_at m1 root f k node t turns Hfl Ep Hg E1 E2 Hrb ltac:(simpl in *; lia))
    as (h' & t' & -> & Ft & Hrb' & Hn & Ho).
  exists h', node. split; [done|]. split; [by eapply only_nodes_trans|]. right. split; [done|].
  split; [done|]. exists t'. rewrite Hn. done.
Qed.

(** ** Deletion *)

Lemma rb_delete_spec cmp h t node turns :
  heap_tree h t -> rbtree t -> sorted (nodes t) -> compares cmp (node :: nodes t) h.1 ->
  (2 * Nat.log2 (length (nodes t) + 1) <= turns)%nat ->
  exists h' b, rb_delete cmp turns h node = Some (h', b) /\ only_nodes (nodes t) h.1 h'.1 /\
    (b = false /\ (forall x, x ∈ nodes t -> key x <> key node) /\ h' = h \/
     b = true /\ exists z t', z ∈ nodes t /\ key z = key node /\ heap_tree h' t' /\ rbtree t' /\
       sorted (nodes t') /\ nodes t ≡ₚ z :: nodes t').
Proof using Type.
  intros Hf Hrb Hs Hc Ht. pose proof (rb_height t Hrb) as Hh. unfold rb_delete, rb_find_exact.
  assert (h.2 = ptr_of t) as -> by apply Hf.
  destruct (find_loop_spec cmp (node :: nodes t) turns h.1 [] node t h) as (z & -> & Hz);
    [done|done|done|by left|by right|done|lia|].
  destruct Hz as [[-> Hno]|[Hz Ek]].
  { exists h, false. split; [done|]. split; [apply only_nodes_refl|]. by left. }
  assert (Hzn : z <> NULL) by (apply (good_pos (nodes t)); [|done]; destruct Hf as [_ _ _ Hg]; by rewrite app_nil_r in Hg).
  rewrite (proj2 (Z.eqb_neq z NULL) Hzn).
  destruct (node_place t z Hz) as (k & l & c & r & -> & Hlen).
  pose proof (proj2 (focus_plug _ _ _) Hf) as Hfz.
  destruct (remove_spec h k l z c r turns Hfz Hrb ltac:(lia)) as (h1 & x & xp & cy & h' & t' & E1 & E2 & F & Hrb' & Hn & Ho).
  rewrite E1. exists h', true. split; [destruct (cy =? RB_BLACK); [by rewrite E2|by rewrite E2]|].
  split; [done|]. right. split; [done|]. exists z, t'. rewrite Hn, inorder_plug in *. cbn [nodes] in Hs |- *.
  rewrite <- !app_assoc in Hs. cbn [app] in Hs. rewrite app_assoc in Hs. apply sorted_mid in Hs as (Hs & _).
  rewrite <- app_assoc in Hs. split_and!; [done|done|done|done| |].
  - by rewrite <- app_assoc.
  - solve_Permutation.
Qed.

(** C4. [rb_insert] on a red-black tree sorted by key, for a node that is not part
    of it and any comparison of keys: within [2 * log2 (n + 1)] turns of each loop
    it returns NULL with the tree as it was if the key is present already, and
    otherwise the node, with a heap that holds a red-black tree of the old nodes
    and the new one in key order.  Only the fields of these nodes are written. *)
Theorem rb_insert_correct cmp h t node turns :
  heap_tree h t -> rbtree t -> sorted (nodes t) -> good (node :: nodes t) ->
  compares cmp (node :: nodes t) h.1 ->
  (2 * Nat.log2 (length (nodes t) + 1) <= turns)%nat ->
  exists h' r, rb_insert cmp turns h node = Some (h', r) /\ only_nodes (node :: nodes t) h.1 h'.1 /\
    ((exists x, x ∈ nodes t /\ key x = key node) /\ r = NULL /\ heap_tree h' t \/
     (forall x, x ∈ nodes t -> key x <> key node) /\ r = node /\
     exists t', heap_tree h' t' /\ rbtree t' /\ sorted (nodes t') /\ nodes t' ≡ₚ node :: nodes t).
Proof using Type. apply rb_insert_spec. Qed.

(** [rb_find_exact] on a red-black tree sorted by key returns, within
    [2 * log2 (n + 1)] turns, the node with the key looked for, or NULL when no
    node has it. *)
Theorem rb_find_exact_correct cmp h t node turns :
  heap_tree h t -> rbtree t -> sorted (nodes t) -> compares cmp (node :: nodes t) h.1 ->
  (2 * Nat.log2 (length (nodes t) + 1) <= turns)%nat ->
  exists x, rb_find_exact cmp turns h node = Some x /\
    (x = NULL /\ (forall y, y ∈ nodes t -> key y <> key node) \/ x ∈ nodes t /\ key x = key node).
Proof using Type.
  intros Hf Hrb Hs Hc Ht. pose proof (rb_height t Hrb). unfold rb_find_exact.
  assert (h.2 = ptr_of t) as -> by apply Hf.
  apply (find_loop_spec cmp (node :: nodes t) turns h.1 [] node t h); auto; [by left|by right|lia].
Qed.

(** C5. [rb_delete] on a red-black tree sorted by key returns false with the heap as
    it was when no node has the key, and otherwise true with a heap that holds a
    red-black tree of the remaining nodes in key order, exactly the node with the
    key gone.  Each loop takes at most [2 * log2 (n + 1)] turns, and only fields of
    the tree's nodes are written. *)
Theorem rb_delete_correct cmp h t node turns :
  heap_tree h t -> rbtree t -> sorted (nodes t) -> compares cmp (node :: nodes t) h.1 ->
  (2 * Nat.log2 (length (nodes t) + 1) <= turns)%nat ->
  exists h' b, rb_delete cmp turns h node = Some (h', b) /\ only_nodes (nodes t) h.1 h'.1 /\
    (b = false /\ (forall x, x ∈ nodes t -> key x <> key node) /\ h' = h \/
     b = true /\ exists z t', z ∈ nodes t /\ key z = key node /\ heap_tree h' t' /\ rbtree t' /\
       sorted (nodes t') /\ nodes t ≡ₚ z :: nodes t').
Proof using Type. apply rb_delete_spec. Qed.

End keys.

(** ** Traversal *)

Lemma traverse_spec depth h k t :
  focus h k t -> (height t <= depth)%nat -> rb_traverse_inorder depth h.1 (ptr_of t) = Some (nodes t).
Proof.
  revert k t. induction depth as [|d IH]; intros k t Hf Hh; (destruct t as [|l x c r]; [done|]); [simpl in Hh; lia|].
  pose proof (focus_root h k true l x c r Hf) as (E1 & E2 & _ & _ & E5). unfold sub in E1, E2. simpl in E1, E2, Hh.
  cbn [rb_traverse_inorder ptr_of]. rewrite (proj2 (Z.eqb_neq x NULL) E5), E1, E2.
  rewrite (IH _ l (proj2 (focus_plug1 h (FL x c r) k l) Hf) ltac:(lia)).
  by rewrite (IH _ r (proj2 (focus_plug1 h (FR l x c) k r) Hf) ltac:(lia)).
Qed.

(** [rb_traverse_inorder] on a red-black tree calls the callback on every node
    once, in order, with a recursion of depth at most [2 * log2 (n + 1)]. *)
Theorem rb_traverse_inorder_correct h t depth :
  heap_tree h t -> rbtree t -> (2 * Nat.log2 (length (nodes t) + 1) <= depth)%nat ->
  rb_traverse_inorder depth h.1 h.2 = Some (nodes t).
Proof.
  intros Hf Hrb Hd. pose proof (rb_height t Hrb). assert (h.2 = ptr_of t) as -> by apply Hf.
  apply (traverse_spec depth h [] t); [done|lia].
Qed.
