(* ===== verification/Vm.v ===== *)
(** * vm.c and virt_kmalloc.c: the trees of virtual memory areas

    Areas ([vma]) and allocation chunks ([vac]) are objects with an embedded
    [rb_node]; the searches of the two files and the comparisons they give to
    the tree, with the theorems about them. *)

From S2P Require Import Prelude State RbTree RbRep RbInsert RbBalance RbTheorems Slab SlabTheorems.

(** ** Layout *)

(** [struct vma] *)
Definition off_vma_start : Z := 0.
Definition off_vma_end : Z := 8.
Definition off_vma_node : Z := 24.
(** [struct vac] *)
Definition off_vac_addr : Z := 0.
Definition off_vac_end : Z := 8.
Definition off_vac_node : Z := 16.
Definition sizeof_vac : Z := 48.

(** [container_of(node, vma_t, node)] and [container_of(node, vac_t, node)] *)
Definition vma_of (node : ptr) : ptr := node - off_vma_node.
Definition vac_of (node : ptr) : ptr := node - off_vac_node.

Definition vma_start (m : mem) (node : ptr) : Z := m (vma_of node + off_vma_start).
Definition vma_end (m : mem) (node : ptr) : Z := m (vma_of node + off_vma_end).
Definition vac_addr (m : mem) (node : ptr) : Z := m (vac_of node + off_vac_addr).
Definition vac_end (m : mem) (node : ptr) : Z := m (vac_of node + off_vac_end).

(** ** Searches

    Both files have the same three loops, on areas and on chunks: [first] and
    [last] read the bounds kept around a node. *)

Section loops.
Context (first last : mem -> ptr -> Z).

Fixpoint successor_loop (turns : nat) (m : mem) (addr : Z) (current successor : ptr) : option ptr :=
  if current =? NULL then Some successor else
  match turns with
  | O => None
  | S t =>
      if addr <? first m current then successor_loop t m addr (left_of m current) current
      else successor_loop t m addr (right_of m current) successor
  end.

Fixpoint predecessor_loop (turns : nat) (m : mem) (addr : Z) (current predecessor : ptr) : option ptr :=
  if current =? NULL then Some predecessor else
  match turns with
  | O => None
  | S t =>
      if addr >? first m current then predecessor_loop t m addr (right_of m current) current
      else predecessor_loop t m addr (left_of m current) predecessor
  end.

Fixpoint containing_loop (turns : nat) (m : mem) (addr : Z) (current : ptr) : option ptr :=
  if current =? NULL then Some NULL else
  match turns with
  | O => None
  | S t =>
      if addr <? first m current then containing_loop t m addr (left_of m current)
      else if addr >=? last m current then containing_loop t m addr (right_of m current)
      else Some current
  end.
End loops.

(** [node ? container_of(node, ..., node) : NULL] *)
Definition container (object : ptr -> ptr) (o : option ptr) : option ptr :=
  match o with Some node => Some (if node =? NULL then NULL else object node) | None => None end.

Definition rb_successor (turns : nat) (h : heap) (addr : Z) : option ptr :=
  container vma_of (successor_loop vma_start turns h.1 addr h.2 NULL).
Definition rb_predeccessor (turns : nat) (h : heap) (addr : Z) : option ptr :=
  container vma_of (predecessor_loop vma_start turns h.1 addr h.2 NULL).
Definition rb_find_vma (turns : nat) (h : heap) (addr : Z) : option ptr :=
  container vma_of (containing_loop vma_start vma_end turns h.1 addr h.2).

Definition rb_successor_vac (turns : nat) (h : heap) (addr : Z) : option ptr :=
  container vac_of (successor_loop vac_addr turns h.1 addr h.2 NULL).
Definition rb_predeccessor_vac (turns : nat) (h : heap) (addr : Z) : option ptr :=
  container vac_of (predecessor_loop vac_addr turns h.1 addr h.2 NULL).
Definition rb_find_vac (turns : nat) (h : heap) (addr : Z) : option ptr :=
  container vac_of (containing_loop vac_addr vac_end turns h.1 addr h.2).

(** ** Comparisons, and the tree of chunks *)

Definition vma_cmp (m : mem) (a b : ptr) : Z :=
  if vma_start m a <? vma_start m b then -1
  else if vma_start m a >? vma_start m b then 1
  else 0.

Definition vac_cmp (m : mem) (a b : ptr) : Z :=
  if vac_addr m a >? vac_addr m b then 1
  else if vac_addr m a <? vac_addr m b then -1
  else 0.

(** [v] is the chunk: the node handed to the tree is [&v->node]. *)
Definition rb_insert_vac (turns : nat) (h : heap) (v : ptr) : option (heap * ptr) :=
  rb_insert vac_cmp turns h (v + off_vac_node).
Definition rb_remove_vac (turns : nat) (h : heap) (v : ptr) : option (heap * bool) :=
  rb_delete vac_cmp turns h (v + off_vac_node).

(** [vac_cache] is the address of the cache of chunks in the kernel image. *)
Definition __init_virt_kmalloc (vac_cache : ptr) : cmd kstate unit :=
  spinlock_init vac_rb_spinlock;;
  let! _ := kmem_cache_create_sl vac_cache sizeof_vac in
  ret tt.

(** ** Search lemmas *)

Section searches.
Context (first last : mem -> ptr -> Z).
Implicit Types (t : tree) (h : heap) (k : ctx).

Lemma focus_step h k l x c r :
  focus h k (Node l x c r) ->
  x <> NULL /\ focus h (FL x c r :: k) l /\ focus h (FR l x c :: k) r /\
  left_of h.1 x = ptr_of l /\ right_of h.1 x = ptr_of r.
Proof using Type.
  intros Hf. pose proof (focus_root h k true l x c r Hf) as (E1 & E2 & _ & _ & E5).
  split_and!; [done| | |exact E1|exact E2].
  - exact (proj2 (focus_plug1 h (FL x c r) k l) Hf).
  - exact (proj2 (focus_plug1 h (FR l x c) k r) Hf).
Qed.

Lemma sorted_node key l x r :
  sorted key (l ++ x :: r) ->
  sorted key l /\ sorted key r /\ (forall a, a ∈ l -> key a < key x) /\ (forall b, b ∈ r -> key x < key b).
Proof using Type. intros (Hs & H1 & H2)%sorted_mid. apply sorted_app in Hs as (? & ? & _). done. Qed.

(** Walk one node down: the node is not NULL and the two subtrees are below it. *)
Ltac step_down :=
  lazymatch goal with
  | Hf : focus _ _ (Node ?l ?x ?c ?r), Hs : sorted _ _, Hh : (height _ <= _)%nat |- _ =>
      destruct (focus_step _ _ _ _ _ _ Hf) as (Hx & Hfl & Hfr & El & Er);
      simpl nodes in Hs |- *; apply sorted_node in Hs as (Hsl & Hsr & Hlt & Hgt); simpl height in Hh;
      cbn [ptr_of]; rewrite (proj2 (Z.eqb_neq x NULL)) by done; rewrite ?El, ?Er
  end.

Lemma successor_spec turns h addr k t acc :
  focus h k t -> sorted (first h.1) (nodes t) -> (height t <= turns)%nat ->
  exists s, successor_loop first turns h.1 addr (ptr_of t) acc = Some s /\
    (s = acc /\ (forall y, y ∈ nodes t -> first h.1 y <= addr) \/
     s ∈ nodes t /\ addr < first h.1 s /\
     (forall y, y ∈ nodes t -> addr < first h.1 y -> first h.1 s <= first h.1 y)).
Proof using Type.
  revert k t acc. induction turns as [|n IH]; intros k t acc Hf Hs Hh; (destruct t as [|l x c r];
    [exists acc; split; [done|]; left; split; [done|]; set_solver|]); [simpl in Hh; lia|].
  cbn [successor_loop]. step_down. destruct (Z.ltb_spec addr (first h.1 x)) as [H|H].
  - destruct (IH _ l x Hfl Hsl ltac:(lia)) as (s & -> & Hcase). exists s. split; [done|]. right.
    destruct Hcase as [[-> Hle]|(Hin & Ha & Hle)].
    + split_and!; [set_solver|done|]. intros y Hy Hya. rewrite elem_of_app, elem_of_cons in Hy.
      destruct Hy as [Hy|[->|Hy]]; [specialize (Hle y Hy)|..]; [lia|lia|]. specialize (Hgt y Hy). lia.
    + split_and!; [set_solver|done|]. intros y Hy Hya. rewrite elem_of_app, elem_of_cons in Hy.
      specialize (Hlt s Hin). destruct Hy as [Hy|[->|Hy]]; [auto|lia|specialize (Hgt y Hy); lia].
  - destruct (IH _ r acc Hfr Hsr ltac:(lia)) as (s & -> & Hcase). exists s. split; [done|].
    assert (Hsmall : forall y, y ∈ nodes l ++ [x] -> first h.1 y <= addr).
    { intros y [Hy| ->%list_elem_of_singleton]%elem_of_app; [specialize (Hlt y Hy)|]; lia. }
    destruct Hcase as [[-> Hle]|(Hin & Ha & Hle)]; [left|right].
    + split; [done|]. intros y Hy. rewrite elem_of_app, elem_of_cons in Hy.
      destruct Hy as [Hy|[->|Hy]]; [apply Hsmall; set_solver|lia|auto].
    + split_and!; [set_solver|done|]. intros y Hy Hya. rewrite elem_of_app, elem_of_cons in Hy.
      destruct Hy as [Hy|[->|Hy]]; [specialize (Hsmall y ltac:(set_solver)); lia|lia|auto].
Qed.

Lemma predecessor_spec turns h addr k t acc :
  focus h k t -> sorted (first h.1) (nodes t) -> (height t <= turns)%nat ->
  exists s, predecessor_loop first turns h.1 addr (ptr_of t) acc = Some s /\
    (s = acc /\ (forall y, y ∈ nodes t -> addr <= first h.1 y) \/
     s ∈ nodes t /\ first h.1 s < addr /\
     (forall y, y ∈ nodes t -> first h.1 y < addr -> first h.1 y <= first h.1 s)).
Proof using Type.
  revert k t acc. induction turns as [|n IH]; intros k t acc Hf Hs Hh; (destruct t as [|l x c r];
    [exists acc; split; [done|]; left; split; [done|]; set_solver|]); [simpl in Hh; lia|].
  cbn [predecessor_loop]. step_down. destruct (Z.gtb_spec addr (first h.1 x)) as [H|H].
  - destruct (IH _ r x Hfr Hsr ltac:(lia)) as (s & -> & Hcase). exists s. split; [done|]. right.
    destruct Hcase as [[-> Hle]|(Hin & Ha & Hle)].
    + split_and!; [set_solver|lia|]. intros y Hy Hya. rewrite elem_of_app, elem_of_cons in Hy.
      destruct Hy as [Hy|[->|Hy]]; [specialize (Hlt y Hy); lia|lia|specialize (Hle y Hy); lia].
    + split_and!; [set_solver|done|]. intros y Hy Hya. rewrite elem_of_app, elem_of_cons in Hy.
      specialize (Hgt s Hin). destruct Hy as [Hy|[->|Hy]]; [specialize (Hlt y Hy); lia|lia|auto].
  - destruct (IH _ l acc Hfl Hsl ltac:(lia)) as (s & -> & Hcase). exists s. split; [done|].
    destruct Hcase as [[-> Hle]|(Hin & Ha & Hle)]; [left|right].
    + split; [done|]. intros y Hy. rewrite elem_of_app, elem_of_cons in Hy.
      destruct Hy as [Hy|[->|Hy]]; [auto|lia|specialize (Hgt y Hy); lia].
    + split_and!; [set_solver|done|]. intros y Hy Hya. rewrite elem_of_app, elem_of_cons in Hy.
      destruct Hy as [Hy|[->|Hy]]; [auto|lia|specialize (Hgt y Hy); lia].
Qed.

(** The intervals of the nodes are not empty and lie one behind the other. *)
Definition intervals (m : mem) (l : list ptr) : Prop :=
  (forall x, x ∈ l -> first m x < last m x) /\
  (forall x y, x ∈ l -> y ∈ l -> first m x < first m y -> last m x <= first m y).

Lemma containing_spec turns h addr k t :
  focus h k t -> sorted (first h.1) (nodes t) -> intervals h.1 (nodes t) -> (height t <= turns)%nat ->
  exists s, containing_loop first last turns h.1 addr (ptr_of t) = Some s /\
    (s = NULL /\ (forall y, y ∈ nodes t -> ~ first h.1 y <= addr < last h.1 y) \/
     s ∈ nodes t /\ first h.1 s <= addr < last h.1 s).
Proof using Type.
  revert k t. induction turns as [|n IH]; intros k t Hf Hs [Hi1 Hi2] Hh; (destruct t as [|l x c r];
    [exists NULL; split; [done|]; left; split; [done|]; set_solver|]); [simpl in Hh; lia|].
  cbn [containing_loop]. step_down. simpl nodes in Hi1, Hi2.
  assert (Hxin : x ∈ nodes l ++ x :: nodes r) by set_solver.
  pose proof (Hi1 x Hxin) as Hx1.
  destruct (Z.ltb_spec addr (first h.1 x)) as [H|H].
  - destruct (IH _ l Hfl Hsl) as (s & -> & Hcase); [split; intros; [apply Hi1|apply Hi2]; set_solver|lia|].
    exists s. split; [done|]. destruct Hcase as [[-> Hno]|[Hin Hin']]; [left|right; set_solver].
    split; [done|]. intros y Hy. rewrite elem_of_app, elem_of_cons in Hy.
    destruct Hy as [Hy|[->|Hy]]; [auto|lia|specialize (Hgt y Hy); lia].
  - destruct (Z.geb_spec addr (last h.1 x)) as [H'|H'].
    + destruct (IH _ r Hfr Hsr) as (s & -> & Hcase); [split; intros; [apply Hi1|apply Hi2]; set_solver|lia|].
      exists s. split; [done|]. destruct Hcase as [[-> Hno]|[Hin Hin']]; [left|right; set_solver].
      split; [done|]. intros y Hy. rewrite elem_of_app, elem_of_cons in Hy.
      destruct Hy as [Hy|[->|Hy]]; [|lia|auto].
      specialize (Hi2 y x ltac:(set_solver) Hxin (Hlt y Hy)). lia.
    + exists x. split; [done|]. right. split; [done|lia].
Qed.
End searches.

(** ** Objects around the nodes *)

(** The nodes sit [before] bytes inside objects that do not overlap. *)
Definition objects (before : Z) (l : list ptr) : Prop :=
  NoDup l /\ (forall x, x ∈ l -> before < x) /\
  (forall x y, x ∈ l -> y ∈ l -> x <> y ->
     x + sizeof_rb_node + before <= y \/ y + sizeof_rb_node + before <= x).

Lemma objects_good before l : 0 <= before -> objects before l -> good l.
Proof.
  intros Hb (H1 & H2 & H3). split_and!; [done|intros x Hx; specialize (H2 x Hx); lia|].
  intros x y Hx Hy Hne. specialize (H3 x y Hx Hy Hne). lia.
Qed.

Lemma objects_perm before l l' : l ≡ₚ l' -> objects before l -> objects before l'.
Proof.
  intros HP (H1 & H2 & H3). split_and!; [by rewrite <- HP|intros x; rewrite <- HP; auto|].
  intros x y. rewrite <- !HP. auto.
Qed.

Lemma objects_field before l m m' x off :
  objects before l -> only_nodes l m m' -> x ∈ l -> 0 < off <= before -> m' (x - off) = m (x - off).
Proof.
  intros (H1 & H2 & H3) Ho Hx Hoff. apply Ho. intros y Hy.
  destruct (decide (x = y)) as [->|Hne]; [lia|]. specialize (H3 x y Hx Hy Hne). lia.
Qed.

Lemma vac_bounds_kept l m m' x :
  objects off_vac_node l -> only_nodes l m m' -> x ∈ l ->
  vac_addr m' x = vac_addr m x /\ vac_end m' x = vac_end m x.
Proof.
  intros Hob Ho Hx. unfold vac_addr, vac_end, vac_of, off_vac_addr, off_vac_end, off_vac_node in *.
  replace (x - 16 + 0) with (x - 16) by lia. replace (x - 16 + 8) with (x - 8) by lia.
  split; eapply objects_field; done.
Qed.

Lemma vma_start_kept l m m' x :
  objects off_vma_node l -> only_nodes l m m' -> x ∈ l -> vma_start m' x = vma_start m x.
Proof.
  intros Hob Ho Hx. unfold vma_start, vma_of, off_vma_start, off_vma_node in *.
  replace (x - 24 + 0) with (x - 24) by lia. eapply objects_field; done.
Qed.

(** The two comparisons order the nodes by start address, whatever the tree
    code writes into the nodes. *)
Lemma vac_compares l m : objects off_vac_node l -> compares (vac_addr m) vac_cmp l m.
Proof.
  intros Hob m' Ho a b Ha Hb. unfold vac_cmp.
  destruct (vac_bounds_kept l m m' a Hob Ho Ha) as [-> _], (vac_bounds_kept l m m' b Hob Ho Hb) as [-> _].
  destruct (Z.gtb_spec (vac_addr m a) (vac_addr m b)), (Z.ltb_spec (vac_addr m a) (vac_addr m b)); lia.
Qed.

Lemma vma_compares l m : objects off_vma_node l -> compares (vma_start m) vma_cmp l m.
Proof.
  intros Hob m' Ho a b Ha Hb. unfold vma_cmp.
  rewrite (vma_start_kept l m m' a Hob Ho Ha), (vma_start_kept l m m' b Hob Ho Hb).
  destruct (Z.ltb_spec (vma_start m a) (vma_start m b)), (Z.gtb_spec (vma_start m a) (vma_start m b)); lia.
Qed.

Lemma sorted_ext key key' l : (forall x, x ∈ l -> key' x = key x) -> sorted key l -> sorted key' l.
Proof.
  induction l as [|x l IH]; simpl; [done|]. intros He [H1 H2]. split; [|apply IH; set_solver].
  intros y Hy. rewrite !He by set_solver. auto.
Qed.

Lemma sorted_inj key l x y : sorted key l -> x ∈ l -> y ∈ l -> key x = key y -> x = y.
Proof.
  induction l as [|z l IH]; simpl; [set_solver|]. intros [H1 H2] Hx Hy E.
  apply elem_of_cons in Hx as [->|Hx], Hy as [->|Hy]; [done| | |by apply IH].
  - specialize (H1 y Hy). lia.
  - specialize (H1 x Hx). lia.
Qed.

(** ** Trees of areas and of chunks *)

Record vma_tree (h : heap) (t : tree) : Prop := {
  vt_heap : heap_tree h t;
  vt_rb : rbtree t;
  vt_objects : objects off_vma_node (nodes t);
  vt_sorted : sorted (vma_start h.1) (nodes t);
  vt_apart : intervals vma_start vma_end h.1 (nodes t);
}.

Record vac_tree (h : heap) (t : tree) : Prop := {
  ct_heap : heap_tree h t;
  ct_rb : rbtree t;
  ct_objects : objects off_vac_node (nodes t);
  ct_sorted : sorted (vac_addr h.1) (nodes t);
  ct_apart : intervals vac_addr vac_end h.1 (nodes t);
}.

(** Enough turns of a loop that descends a tree of [n] nodes. *)
Definition enough (t : tree) (turns : nat) : Prop := (2 * Nat.log2 (length (nodes t) + 1) <= turns)%nat.

Lemma enough_height t turns : rbtree t -> enough t turns -> (height t <= turns)%nat.
Proof. intros Hrb Ht. pose proof (rb_height t Hrb). unfold enough in Ht. lia. Qed.

Lemma container_node object x : x <> NULL -> container object (Some x) = Some (object x).
Proof. intros Hx. simpl. by rewrite (proj2 (Z.eqb_neq x NULL)). Qed.

Lemma find_vma_spec h t turns addr :
  vma_tree h t -> enough t turns ->
  exists v, rb_find_vma turns h addr = Some v /\
    (v = NULL /\ (forall x, x ∈ nodes t -> ~ vma_start h.1 x <= addr < vma_end h.1 x) \/
     exists x, x ∈ nodes t /\ v = vma_of x /\ v <> NULL /\ vma_start h.1 x <= addr < vma_end h.1 x /\
       forall y, y ∈ nodes t -> vma_start h.1 y <= addr < vma_end h.1 y -> y = x).
Proof.
  intros [Hf Hrb Hob Hs Hi] Ht. unfold rb_find_vma. assert (h.2 = ptr_of t) as -> by apply Hf.
  destruct (containing_spec vma_start vma_end turns h addr [] t Hf Hs Hi (enough_height _ _ Hrb Ht))
    as (s & -> & Hcase).
  destruct Hcase as [[-> Hno]|[Hin Hb]]; [exists NULL; split; [done|by left]|].
  pose proof (proj1 (proj2 Hob) s Hin) as Hpos. unfold off_vma_node in Hpos.
  exists (vma_of s). rewrite container_node by (unfold NULL; lia). split; [done|]. right. exists s.
  split_and!; [done|done|unfold vma_of, off_vma_node, NULL; lia|lia|lia|].
  intros y Hy Hyb. destruct Hi as [_ Hi].
  destruct (Z.lt_trichotomy (vma_start h.1 y) (vma_start h.1 s)) as [H|[H|H]].
  - specialize (Hi y s Hy Hin H). lia.
  - by apply (sorted_inj (vma_start h.1) (nodes t)).
  - specialize (Hi s y Hin Hy H). lia.
Qed.

(** [rb_find_vma] on a tree of disjoint areas returns, within
    [2 * log2 (n + 1)] turns, the one area the address falls in, or NULL exactly
    when no area contains it. *)
Theorem rb_find_vma_correct h t turns addr :
  vma_tree h t -> enough t turns ->
  exists v, rb_find_vma turns h addr = Some v /\
    (v = NULL /\ (forall x, x ∈ nodes t -> ~ vma_start h.1 x <= addr < vma_end h.1 x) \/
     exists x, x ∈ nodes t /\ v = vma_of x /\ v <> NULL /\ vma_start h.1 x <= addr < vma_end h.1 x /\
       forall y, y ∈ nodes t -> vma_start h.1 y <= addr < vma_end h.1 y -> y = x).
Proof. apply find_vma_spec. Qed.

(** [rb_successor] and [rb_predeccessor] return, within [2 * log2 (n + 1)]
    turns, the area that starts next above the address and the area that starts
    next below it, and NULL exactly when there is none. *)
Theorem rb_adjacent_vma_correct h t turns addr :
  vma_tree h t -> enough t turns ->
  (exists v, rb_successor turns h addr = Some v /\
    (v = NULL /\ (forall y, y ∈ nodes t -> vma_start h.1 y <= addr) \/
     exists x, x ∈ nodes t /\ v = vma_of x /\ v <> NULL /\ addr < vma_start h.1 x /\
       forall y, y ∈ nodes t -> addr < vma_start h.1 y -> vma_start h.1 x <= vma_start h.1 y)) /\
  (exists v, rb_predeccessor turns h addr = Some v /\
    (v = NULL /\ (forall y, y ∈ nodes t -> addr <= vma_start h.1 y) \/
     exists x, x ∈ nodes t /\ v = vma_of x /\ v <> NULL /\ vma_start h.1 x < addr /\
       forall y, y ∈ nodes t -> vma_start h.1 y < addr -> vma_start h.1 y <= vma_start h.1 x)).
Proof.
  intros [Hf Hrb Hob Hs Hi] Ht. assert (Hr : h.2 = ptr_of t) by apply Hf.
  pose proof (enough_height _ _ Hrb Ht) as Hh.
  assert (Hne : forall s, s ∈ nodes t -> s <> NULL /\ vma_of s <> NULL).
  { intros s Hs'. pose proof (proj1 (proj2 Hob) s Hs'). unfold off_vma_node, vma_of, NULL in *.
    unfold off_vma_node. lia. }
  unfold rb_successor, rb_predeccessor. rewrite Hr. split.
  - destruct (successor_spec vma_start turns h addr [] t NULL Hf Hs Hh) as (s & -> & Hcase).
    destruct Hcase as [[-> Hno]|(Hin & Hb & Hl)]; [exists NULL; split; [done|by left]|].
    destruct (Hne s Hin). rewrite container_node by done. eexists. split; [done|]. right. by exists s.
  - destruct (predecessor_spec vma_start turns h addr [] t NULL Hf Hs Hh) as (s & -> & Hcase).
    destruct Hcase as [[-> Hno]|(Hin & Hb & Hl)]; [exists NULL; split; [done|by left]|].
    destruct (Hne s Hin). rewrite container_node by done. eexists. split; [done|]. right. by exists s.
Qed.

(** ** Chunks *)

Definition covers (m : mem) (x : ptr) (addr : Z) : Prop := vac_addr m x <= addr < vac_end m x.

Lemma intervals_disjoint h t x y addr :
  vac_tree h t -> x ∈ nodes t -> y ∈ nodes t -> covers h.1 x addr -> covers h.1 y addr -> x = y.
Proof.
  unfold covers. intros [_ _ _ Hs [_ Hi]] Hx Hy Hcx Hcy.
  destruct (Z.lt_trichotomy (vac_addr h.1 x) (vac_addr h.1 y)) as [H|[H|H]].
  - specialize (Hi x y Hx Hy H). lia.
  - by apply (sorted_inj (vac_addr h.1) (nodes t)).
  - specialize (Hi y x Hy Hx H). lia.
Qed.

Lemma rb_find_vac_spec h t turns addr :
  vac_tree h t -> enough t turns ->
  rb_find_vac turns h addr = Some NULL /\ (forall x, x ∈ nodes t -> ~ covers h.1 x addr) \/
  exists x, rb_find_vac turns h addr = Some (vac_of x) /\ x ∈ nodes t /\ covers h.1 x addr.
Proof.
  intros [Hf Hrb Hob Hs Hi] Ht. unfold rb_find_vac. assert (h.2 = ptr_of t) as -> by apply Hf.
  destruct (containing_spec vac_addr vac_end turns h addr [] t Hf Hs Hi (enough_height _ _ Hrb Ht))
    as (s & -> & Hcase).
  destruct Hcase as [[-> Hno]|[Hin Hb]]; [left|right].
  - done.
  - pose proof (proj1 (proj2 Hob) s Hin) as Hpos. unfold off_vac_node in Hpos.
    exists s. rewrite container_node by (unfold NULL; lia). done.
Qed.

Lemma find_vac_hit h t turns addr x :
  vac_tree h t -> enough t turns -> x ∈ nodes t -> covers h.1 x addr ->
  rb_find_vac turns h addr = Some (vac_of x).
Proof.
  intros Hv Ht Hx Hc. destruct (rb_find_vac_spec h t turns addr Hv Ht) as [[_ Hno]|(y & E & Hy & Hcy)].
  - by destruct (Hno x).
  - by rewrite E, (intervals_disjoint h t x y addr).
Qed.

Lemma find_vac_miss h t turns addr :
  vac_tree h t -> enough t turns -> (forall x, x ∈ nodes t -> ~ covers h.1 x addr) ->
  rb_find_vac turns h addr = Some NULL.
Proof.
  intros Hv Ht Hno. destruct (rb_find_vac_spec h t turns addr Hv Ht) as [[E _]|(y & E & Hy & Hcy)]; [done|].
  by destruct (Hno y).
Qed.

Lemma intervals_transfer m m' l node :
  intervals vac_addr vac_end m l -> vac_addr m node < vac_end m node ->
  (forall x, x ∈ l -> vac_end m node <= vac_addr m x \/ vac_end m x <= vac_addr m node) ->
  (forall x, x ∈ node :: l -> vac_addr m' x = vac_addr m x /\ vac_end m' x = vac_end m x) ->
  intervals vac_addr vac_end m' (node :: l).
Proof.
  intros [H1 H2] Hne Hd He. split.
  - intros x Hx. destruct (He x Hx) as [-> ->]. apply elem_of_cons in Hx as [->|Hx]; [done|auto].
  - intros x y Hx Hy. destruct (He x Hx) as [-> ->], (He y Hy) as [-> _].
    apply elem_of_cons in Hx as [->|Hx], Hy as [->|Hy].
    + lia.
    + specialize (Hd y Hy). specialize (H1 y Hy). lia.
    + specialize (Hd x Hx). specialize (H1 x Hx). lia.
    + by apply H2.
Qed.

(** Insertion keeps the tree of chunks well formed. *)
Lemma insert_vac_spec h t v turns :
  vac_tree h t -> objects off_vac_node (v + off_vac_node :: nodes t) ->
  vac_addr h.1 (v + off_vac_node) < vac_end h.1 (v + off_vac_node) ->
  (forall x, x ∈ nodes t -> vac_end h.1 (v + off_vac_node) <= vac_addr h.1 x \/
                             vac_end h.1 x <= vac_addr h.1 (v + off_vac_node)) ->
  enough t turns ->
  exists h' t', rb_insert_vac turns h v = Some (h', v + off_vac_node) /\ vac_tree h' t' /\
    nodes t' ≡ₚ (v + off_vac_node) :: nodes t /\ only_nodes (v + off_vac_node :: nodes t) h.1 h'.1.
Proof.
  intros Hv Hob Hne Hd Ht. set (node := v + off_vac_node) in *. pose proof Hv as [Hf Hrb _ Hs Hi].
  destruct (rb_insert_spec (vac_addr h.1) vac_cmp h t node turns Hf Hrb Hs) as (h' & r & E & Ho & Hcase);
    [by eapply objects_good; [|exact Hob]|by apply vac_compares|exact Ht|].
  destruct Hcase as [((x & Hx & Ek) & _)|(_ & -> & t' & Hf' & Hrb' & Hs' & HP)].
  { specialize (Hd x Hx). pose proof (proj1 Hi x Hx). lia. }
  exists h', t'. split; [exact E|]. split; [|done].
  assert (Hkept : forall x, x ∈ node :: nodes t -> vac_addr h'.1 x = vac_addr h.1 x /\ vac_end h'.1 x = vac_end h.1 x)
    by (intros x Hx; by eapply vac_bounds_kept).
  pose proof (intervals_transfer _ _ _ _ Hi Hne Hd Hkept) as [Hi1 Hi2].
  split; [done|done|by eapply objects_perm; [symmetry|]| |].
  - eapply sorted_ext; [|exact Hs']. intros x Hx. apply Hkept. by rewrite <- HP.
  - split; intros *; rewrite HP; auto.
Qed.

(** C23. [rb_insert_vac] of a chunk that overlaps no chunk of the tree returns its
    node and leaves a tree of disjoint chunks; afterwards [rb_find_vac] returns the
    new chunk for the addresses inside it and its earlier answer for all others. *)
Theorem rb_insert_vac_lookup h t v turns :
  vac_tree h t -> objects off_vac_node (v + off_vac_node :: nodes t) ->
  vac_addr h.1 (v + off_vac_node) < vac_end h.1 (v + off_vac_node) ->
  (forall x, x ∈ nodes t -> vac_end h.1 (v + off_vac_node) <= vac_addr h.1 x \/
                             vac_end h.1 x <= vac_addr h.1 (v + off_vac_node)) ->
  (2 * Nat.log2 (length (nodes t) + 2) <= turns)%nat ->
  exists h' t', rb_insert_vac turns h v = Some (h', v + off_vac_node) /\ vac_tree h' t' /\
    nodes t' ≡ₚ (v + off_vac_node) :: nodes t /\
    forall addr, rb_find_vac turns h' addr =
      if decide (vac_addr h.1 (v + off_vac_node) <= addr < vac_end h.1 (v + off_vac_node)) then Some v
      else rb_find_vac turns h addr.
Proof.
  intros Hv Hob Hne Hd Hturns.
  assert (Ht : enough t turns).
  { unfold enough. pose proof (Nat.log2_le_mono (length (nodes t) + 1) (length (nodes t) + 2)). lia. }
  destruct (insert_vac_spec h t v turns Hv Hob Hne Hd Ht) as (h' & t' & E & Hv' & HP & Ho).
  exists h', t'. split_and!; [done..|]. intros addr. set (node := v + off_vac_node) in *.
  assert (Ht' : enough t' turns).
  { unfold enough. rewrite HP. cbn [length]. by replace (S (length (nodes t)) + 1)%nat with (length (nodes t) + 2)%nat by lia. }
  assert (Hcov : forall x, x ∈ node :: nodes t -> covers h'.1 x addr <-> covers h.1 x addr).
  { intros x Hx. unfold covers. by destruct (vac_bounds_kept _ _ _ _ Hob Ho Hx) as [-> ->]. }
  case_decide as Hin.
  - rewrite (find_vac_hit h' t' turns addr node); [|done|done|rewrite HP; left|apply Hcov; [left|done]].
    unfold vac_of, node. f_equal. lia.
  - destruct (rb_find_vac_spec h t turns addr Hv Ht) as [[-> Hno]|(x & -> & Hx & Hc)].
    + apply (find_vac_miss h' t'); [done..|]. intros x Hx. rewrite HP in Hx. rewrite Hcov by done.
      apply elem_of_cons in Hx as [->|Hx]; [exact Hin|auto].
    + apply (find_vac_hit h' t'); [done|done|rewrite HP; by right|]. apply Hcov; [by right|done].
Qed.

(** Removing keeps the tree of chunks well formed. *)
Lemma remove_vac_spec h t v turns :
  vac_tree h t -> v + off_vac_node ∈ nodes t -> enough t turns ->
  exists h' t', rb_remove_vac turns h v = Some (h', true) /\ vac_tree h' t' /\
    nodes t ≡ₚ (v + off_vac_node) :: nodes t' /\ only_nodes (nodes t) h.1 h'.1.
Proof.
  intros Hv Hin Ht. set (node := v + off_vac_node) in *. pose proof Hv as [Hf Hrb Hob Hs Hi].
  destruct (rb_delete_spec (vac_addr h.1) vac_cmp h t node turns Hf Hrb Hs) as (h' & b & E & Ho & Hcase); [|exact Ht|].
  { intros m' Hm' a a' Ha Ha'. apply (vac_compares (nodes t) h.1 Hob m').
    - intros w Hw. apply Hm'. intros x [->|Hx]%elem_of_cons; auto.
    - by apply elem_of_cons in Ha as [->|Ha].
    - by apply elem_of_cons in Ha' as [->|Ha']. }
  destruct Hcase as [(_ & Hno & _)|(-> & z & t' & Hz & Ek & Hf' & Hrb' & Hs' & HP)]; [by destruct (Hno node)|].
  assert (z = node) as -> by (by apply (sorted_inj (vac_addr h.1) (nodes t))).
  assert (Hsub : forall x, x ∈ nodes t' -> x ∈ nodes t) by (intros x Hx; rewrite HP; by right).
  assert (Hkept : forall x, x ∈ nodes t' -> vac_addr h'.1 x = vac_addr h.1 x /\ vac_end h'.1 x = vac_end h.1 x)
    by (intros x Hx; eapply vac_bounds_kept; eauto).
  exists h', t'. split; [exact E|]. split; [|done].
  split; [done|done| | |].
  - destruct (objects_perm _ _ _ HP Hob) as (H1 & H2 & H3). apply NoDup_cons in H1 as [_ H1].
    split_and!; [done|intros; apply H2; by right|intros; apply H3; by try right].
  - eapply sorted_ext; [|exact Hs']. intros x Hx. by apply Hkept.
  - destruct Hi as [Hi1 Hi2]. split; intros x.
    + intros Hx. destruct (Hkept x Hx) as [-> ->]. auto.
    + intros y Hx Hy. destruct (Hkept x Hx) as [-> ->], (Hkept y Hy) as [-> _]. auto.
Qed.

(** C24. [rb_remove_vac] of a chunk of the tree succeeds and leaves a tree of the
    other chunks; afterwards [rb_find_vac] finds nothing at the addresses of the
    chunk and gives its earlier answer for all others. *)
Theorem rb_remove_vac_lookup h t v turns :
  vac_tree h t -> v + off_vac_node ∈ nodes t -> enough t turns ->
  exists h' t', rb_remove_vac turns h v = Some (h', true) /\ vac_tree h' t' /\
    nodes t ≡ₚ (v + off_vac_node) :: nodes t' /\
    forall addr, rb_find_vac turns h' addr =
      if decide (vac_addr h.1 (v + off_vac_node) <= addr < vac_end h.1 (v + off_vac_node)) then Some NULL
      else rb_find_vac turns h addr.
Proof.
  intros Hv Hin Ht. destruct (remove_vac_spec h t v turns Hv Hin Ht) as (h' & t' & E & Hv' & HP & Ho).
  exists h', t'. split_and!; [done..|]. intros addr. set (node := v + off_vac_node) in *.
  assert (Ht' : enough t' turns).
  { unfold enough in *. rewrite HP in Ht. cbn [length] in Ht.
    pose proof (Nat.log2_le_mono (length (nodes t') + 1) (S (length (nodes t')) + 1)). lia. }
  assert (Hob := ct_objects _ _ Hv).
  assert (Hsub : forall x, x ∈ nodes t' -> x ∈ nodes t /\ x <> node).
  { intros x Hx. split; [rewrite HP; by right|]. intros ->. destruct Hob as (Hnd & _). rewrite HP in Hnd.
    by apply NoDup_cons in Hnd as [Hnd _]. }
  assert (Hcov : forall x, x ∈ nodes t -> covers h'.1 x addr <-> covers h.1 x addr).
  { intros x Hx. unfold covers. by destruct (vac_bounds_kept _ _ _ _ Hob Ho Hx) as [-> ->]. }
  case_decide as Hd.
  - apply (find_vac_miss h' t'); [done..|]. intros x Hx Hc. destruct (Hsub x Hx) as [Hxt Hne].
    apply Hne. apply Hcov in Hc; [|done]. by apply (intervals_disjoint h t x node addr).
  - destruct (rb_find_vac_spec h t turns addr Hv Ht) as [[-> Hno]|(x & -> & Hx & Hc)].
    + apply (find_vac_miss h' t'); [done..|]. intros x Hx. destruct (Hsub x Hx) as [Hxt _]. rewrite Hcov by done. auto.
    + apply (find_vac_hit h' t'); [done|done| |by apply Hcov].
      rewrite HP in Hx. apply elem_of_cons in Hx as [->|Hx]; [by destruct Hd|done].
Qed.

(** [__init_virt_kmalloc] returns with the lock of the chunk tree free and the
    cache of chunks ready for objects of the size of [struct vac]; it writes no
    other memory and leaves the other locks and the interrupt flag as they were. *)
Theorem init_virt_kmalloc_correct vac_cache s :
  lock_free s slab_lock ->
  exists s', __init_virt_kmalloc vac_cache s = Ret tt s' /\ kframe s s' /\ lock_free s' vac_rb_spinlock /\
    cache_ready (k_mem s') vac_cache sizeof_vac /\
    same_outside vac_cache sizeof_kmem_cache (k_mem s) (k_mem s').
Proof.
  intros Hf.
  assert (H : wp (__init_virt_kmalloc vac_cache) (fun _ s' => kframe s s' /\ lock_free s' vac_rb_spinlock /\
    cache_ready (k_mem s') vac_cache sizeof_vac /\
    same_outside vac_cache sizeof_kmem_cache (k_mem s) (k_mem s')) s).
  { unfold __init_virt_kmalloc, spinlock_init. wp_steps. apply create_sl_wp; [done|done|].
    intros s' [K1 K2 K3 K4 K5] _ Hr Hso. wp_steps. split_and!; [|by apply K1|done|done].
    split; [|done..]. intros id Hid. apply K1. unfold lock_free in *. simpl. by case_decide. }
  destruct (wp_elim _ _ _ H) as ([] & s' & E & HR). eauto.
Qed.

Lemma init_virt_kmalloc_correct_witness :
  exists s', __init_virt_kmalloc 0xffffffff80060000 slab_demo = Ret tt s' /\ lock_free s' vac_rb_spinlock.
Proof.
  destruct (init_virt_kmalloc_correct 0xffffffff80060000 slab_demo ltac:(done)) as (s' & E & _ & H & _).
  exists s'. split; [exact E|exact H].
Defined.

(** ** A tree of chunks *)

(** Three chunks at 0x1000, 0x1100 and 0x1200 with the bounds they stand for. *)
Definition demo_chunks : mem := fun a =>
  if a =? 0x1000 then 0x400000 else if a =? 0x1008 then 0x402000
  else if a =? 0x1100 then 0x600000 else if a =? 0x1108 then 0x601000
  else if a =? 0x1200 then 0x500000 else if a =? 0x1208 then 0x540000 else 0.

(** The heap after the insertion of the first two. *)
Definition demo_heap : heap :=
  match rb_insert_vac 4 (demo_chunks, NULL) 0x1000 with
  | Some (h, _) => match rb_insert_vac 4 h 0x1100 with Some (h', _) => h' | None => h end
  | None => (demo_chunks, NULL)
  end.
Definition demo_tree : tree := Node Leaf 0x1010 RB_BLACK (Node Leaf 0x1110 RB_RED Leaf).

Ltac in_cases := repeat match goal with
  | H : _ ∈ [] |- _ => by apply elem_of_nil in H
  | H : _ ∈ _ :: _ |- _ => apply elem_of_cons in H as [->|H]
  end.

Lemma demo_objects : objects off_vac_node [0x1210; 0x1010; 0x1110].
Proof.
  split_and!; [repeat constructor; set_solver|..].
  - intros x Hx. in_cases; done.
  - intros x y Hx Hy. unfold sizeof_rb_node, off_vac_node. in_cases; lia.
Qed.

Lemma demo_vac_tree : vac_tree demo_heap demo_tree.
Proof.
  assert (Hob : objects off_vac_node (nodes demo_tree)).
  { destruct demo_objects as (H1 & H2 & H3). apply NoDup_cons in H1 as [_ H1].
    split_and!; [exact H1|intros x Hx; apply H2; by right|intros x y Hx Hy; apply H3; by right]. }
  split; [| |exact Hob| |].
  - split; [by vm_compute|vm_compute; tauto|done|exact (objects_good off_vac_node _ ltac:(done) Hob)].
  - split; [done|]. exists 1%nat. vm_compute. naive_solver.
  - simpl nodes. split; [|split; [set_solver|done]]. intros y Hy. in_cases. by vm_compute.
  - split; intros x; intros; simpl nodes in *; in_cases; vm_compute in *; congruence.
Qed.

Lemma rb_insert_vac_lookup_witness :
  exists h' t', rb_insert_vac 4 demo_heap 0x1200 = Some (h', 0x1210) /\ vac_tree h' t' /\
    rb_find_vac 4 h' 0x53ffff = Some 0x1200 /\ rb_find_vac 4 h' 0x400000 = rb_find_vac 4 demo_heap 0x400000.
Proof.
  destruct (rb_insert_vac_lookup demo_heap demo_tree 0x1200 4 demo_vac_tree) as (h' & t' & E & Hv & _ & Hf).
  - exact demo_objects.
  - by vm_compute.
  - simpl nodes. intros x Hx. in_cases; vm_compute; [right|left]; discriminate.
  - simpl. lia.
  - exists h', t'. split; [exact E|]. split; [exact Hv|]. split; [exact (Hf 0x53ffff)|exact (Hf 0x400000)].
Defined.

Lemma rb_insert_correct_witness :
  exists h' r, rb_insert vac_cmp 2 demo_heap 0x1210 = Some (h', r) /\
    only_nodes (0x1210 :: nodes demo_tree) demo_heap.1 h'.1.
Proof.
  destruct (rb_insert_correct (vac_addr demo_heap.1) vac_cmp demo_heap demo_tree 0x1210 2) as (h' & r & E & Ho & _).
  - apply demo_vac_tree.
  - apply demo_vac_tree.
  - apply demo_vac_tree.
  - exact (objects_good off_vac_node _ ltac:(done) demo_objects).
  - exact (vac_compares _ _ demo_objects).
  - simpl. lia.
  - exists h', r. split; [exact E|exact Ho].
Defined.

Lemma rb_find_exact_correct_witness :
  exists x, rb_find_exact vac_cmp 2 demo_heap 0x1210 = Some x /\
    (x = NULL /\ (forall y, y ∈ nodes demo_tree -> vac_addr demo_heap.1 y <> vac_addr demo_heap.1 0x1210) \/
     x ∈ nodes demo_tree /\ vac_addr demo_heap.1 x = vac_addr demo_heap.1 0x1210).
Proof.
  apply (rb_find_exact_correct (vac_addr demo_heap.1)).
  - apply demo_vac_tree.
  - apply demo_vac_tree.
  - apply demo_vac_tree.
  - exact (vac_compares _ _ demo_objects).
  - simpl. lia.
Defined.

Lemma rb_remove_vac_lookup_witness :
  exists h' t', rb_remove_vac 2 demo_heap 0x1000 = Some (h', true) /\ vac_tree h' t' /\
    rb_find_vac 2 h' 0x400000 = Some NULL.
Proof.
  destruct (rb_remove_vac_lookup demo_heap demo_tree 0x1000 2 demo_vac_tree) as (h' & t' & E & Hv & _ & Hf).
  - left.
  - unfold enough. simpl. lia.
  - exists h', t'. split; [exact E|]. split; [exact Hv|]. exact (Hf 0x400000).
Defined.

Lemma rb_delete_correct_witness :
  exists h' b, rb_delete vac_cmp 2 demo_heap 0x1210 = Some (h', b) /\ only_nodes (nodes demo_tree) demo_heap.1 h'.1.
Proof.
  destruct (rb_delete_correct (vac_addr demo_heap.1) vac_cmp demo_heap demo_tree 0x1210 2) as (h' & b & E & Ho & _).
  - apply demo_vac_tree.
  - apply demo_vac_tree.
  - apply demo_vac_tree.
  - exact (vac_compares _ _ demo_objects).
  - simpl. lia.
  - exists h', b. split; [exact E|exact Ho].
Defined.

Lemma rb_traverse_inorder_correct_witness :
  rb_traverse_inorder 2 demo_heap.1 demo_heap.2 = Some [0x1010; 0x1110].
Proof.
  apply (rb_traverse_inorder_correct demo_heap demo_tree 2).
  - apply demo_vac_tree.
  - apply demo_vac_tree.
  - simpl. lia.
Defined.

(** Two areas: [0x400000, 0x402000) and [0x7f000000, 0x7f010000). *)
Definition demo_areas : mem := fun a =>
  if a =? 0x1000 then 0x400000 else if a =? 0x1008 then 0x402000
  else if a =? 0x1100 then 0x7f000000 else if a =? 0x1108 then 0x7f010000 else 0.
Definition demo_area_heap : heap :=
  match rb_insert vma_cmp 4 (demo_areas, NULL) 0x1018 with
  | Some (h, _) => match rb_insert vma_cmp 4 h 0x1118 with Some (h', _) => h' | None => h end
  | None => (demo_areas, NULL)
  end.
Definition demo_area_tree : tree := Node Leaf 0x1018 RB_BLACK (Node Leaf 0x1118 RB_RED Leaf).

Lemma demo_vma_tree : vma_tree demo_area_heap demo_area_tree.
Proof.
  assert (Hob : objects off_vma_node (nodes demo_area_tree)).
  { split_and!; [repeat constructor; set_solver|..].
    - intros x Hx. simpl nodes in Hx. in_cases; done.
    - intros x y Hx Hy. simpl nodes in Hx, Hy. unfold sizeof_rb_node, off_vma_node. in_cases; lia. }
  split; [| |exact Hob| |].
  - split; [by vm_compute|vm_compute; tauto|done|exact (objects_good off_vma_node _ ltac:(done) Hob)].
  - split; [done|]. exists 1%nat. vm_compute. naive_solver.
  - simpl nodes. split; [|split; [set_solver|done]]. intros y Hy. in_cases. by vm_compute.
  - split; intros x; intros; simpl nodes in *; in_cases; vm_compute in *; congruence.
Qed.

Lemma rb_find_vma_correct_witness :
  exists v, rb_find_vma 2 demo_area_heap 0x401fff = Some v /\
    (v = NULL \/ exists x, x ∈ nodes demo_area_tree /\ v = vma_of x).
Proof.
  destruct (rb_find_vma_correct demo_area_heap demo_area_tree 2 0x401fff demo_vma_tree) as (v & E & Hv).
  - unfold enough. simpl. lia.
  - exists v. split; [exact E|]. destruct Hv as [[? _]|(x & ? & ? & _)]; [by left|right; by exists x].
Defined.

Lemma rb_adjacent_vma_correct_witness :
  exists v, rb_successor 2 demo_area_heap 0x500000 = Some v /\
    (v = NULL \/ exists x, x ∈ nodes demo_area_tree /\ v = vma_of x).
Proof.
  destruct (rb_adjacent_vma_correct demo_area_heap demo_area_tree 2 0x500000 demo_vma_tree) as [(v & E & Hv) _].
  - unfold enough. simpl. lia.
  - exists v. split; [exact E|]. destruct Hv as [[? _]|(x & ? & ? & _)]; [by left|right; by exists x].
Defined.

(** What the code computes on these trees. *)
Example find_vma_hit : rb_find_vma 2 demo_area_heap 0x401fff = Some 0x1000.
Proof. reflexivity. Qed.
Example find_vma_gap : rb_find_vma 2 demo_area_heap 0x402000 = Some NULL.
Proof. reflexivity. Qed.
Example successor_gap : rb_successor 2 demo_area_heap 0x402000 = Some 0x1100.
Proof. reflexivity. Qed.
Example predecessor_gap : rb_predeccessor 2 demo_area_heap 0x402000 = Some 0x1000.
Proof. reflexivity. Qed.
