(* ===== verification/RbValidate.v ===== *)
(** * rb_tree.h: the debug check of the tree of areas

    [rb_validate], compiled under [DEBUG], walks a tree of areas and returns 0 at
    the first violation it meets; what it accepts, exactly, and what that leaves
    open.  Unlike the routines of rb_tree.c it follows the stored, physical pointers
    without [directmap_p2v]: the model is right while the nodes are mapped at those
    addresses (the boot loader's map, or the low 16 MB until [unmap_boot_memory]). *)

From S2P Require Import Prelude State RbTree RbRep RbInsert RbBalance RbTheorems Vm.

(** ** The check *)

(** [node->child != NULL && test] *)
Definition child_with (child : ptr) (test : bool) : bool := negb (child =? NULL) && test.

(** The four groups of tests a node must pass before its subtrees are walked. *)
Definition node_violation (m : mem) (node : ptr) : bool :=
  (color_of m node =? RB_RED) &&
    (child_with (left_of m node) (color_of m (left_of m node) =? RB_RED)
     || child_with (right_of m node) (color_of m (right_of m node) =? RB_RED))
  || child_with (left_of m node) (negb (parent_of m (left_of m node) =? node))
  || child_with (right_of m node) (negb (parent_of m (right_of m node) =? node))
  || child_with (left_of m node) (vma_start m (left_of m node) >=? vma_start m node)
  || child_with (right_of m node) (vma_start m (right_of m node) <=? vma_start m node).

(** The result with the value left in [*path_black_count]. *)
Fixpoint rb_validate_helper (depth : nat) (m : mem) (node : ptr) (black_count path_black_count : Z) :
    option (bool * Z) :=
  if node =? NULL then
    if path_black_count =? -1 then Some (true, black_count)
    else Some (black_count =? path_black_count, path_black_count)
  else
  match depth with
  | O => None
  | S d =>
      if node_violation m node then Some (false, path_black_count) else
      let black_count := if color_of m node =? RB_BLACK then black_count + 1 else black_count in
      match rb_validate_helper d m (left_of m node) black_count path_black_count with
      | Some (true, path_black_count) => rb_validate_helper d m (right_of m node) black_count path_black_count
      | other => other
      end
  end.

Definition rb_validate (depth : nat) (h : heap) : option bool :=
  let (m, root) := h in
  if root =? NULL then Some true
  else if negb (color_of m root =? RB_BLACK) then Some false
  else if negb (parent_of m root =? NULL) then Some false
  else match rb_validate_helper depth m root 0 (-1) with Some (v, _) => Some v | None => None end.

(** ** What it accepts *)

(** The tree one reads from memory by following the child pointers. *)
Fixpoint shape (m : mem) (t : tree) : Prop :=
  match t with
  | Leaf => True
  | Node l x c r =>
      x <> NULL /\ left_of m x = ptr_of l /\ right_of m x = ptr_of r /\ color_of m x = c /\
      (c = RB_RED \/ c = RB_BLACK) /\ shape m l /\ shape m r
  end.

(** Every parent starts above its left and below its right child. *)
Definition child_order (key : ptr -> Z) (l : tree) (x : ptr) (r : tree) : Prop :=
  (l <> Leaf -> key (ptr_of l) < key x) /\ (r <> Leaf -> key x < key (ptr_of r)).
Fixpoint neighbours (key : ptr -> Z) (t : tree) : Prop :=
  match t with Leaf => True | Node l x _ r => child_order key l x r /\ neighbours key l /\ neighbours key r end.

(** Parent pointers below the root. *)
Definition has_parent (m : mem) (x : ptr) (t : tree) : Prop := t <> Leaf -> parent_of m (ptr_of t) = x.
Fixpoint linked (m : mem) (t : tree) : Prop :=
  match t with Leaf => True | Node l x _ r => has_parent m x l /\ has_parent m x r /\ linked m l /\ linked m r end.

Lemma child_with_shape m t test : shape m t -> child_with (ptr_of t) test = match t with Leaf => false | _ => test end.
Proof. destruct t as [|l x c r]; [done|]. intros (Hx & _). unfold child_with. simpl. by rewrite (proj2 (Z.eqb_neq x NULL)). Qed.

Lemma root_color_shape m t : shape m t -> t <> Leaf -> color_of m (ptr_of t) = root_color t.
Proof. destruct t; [done|]. by intros (_ & _ & _ & H & _). Qed.

Lemma root_color_cases m t : shape m t -> root_color t = RB_RED \/ root_color t = RB_BLACK.
Proof. destruct t; simpl; [by right|tauto]. Qed.

(** One child of a node passes its tests. *)
Lemma violation_spec m l x c r :
  shape m (Node l x c r) ->
  node_violation m x = false <->
  (c = RB_RED -> root_color l = RB_BLACK /\ root_color r = RB_BLACK) /\
  has_parent m x l /\ has_parent m x r /\ child_order (vma_start m) l x r.
Proof.
  intros (Hx & El & Er & Ec & Hc & Hl & Hr). unfold node_violation, has_parent, child_order.
  rewrite El, Er, Ec, !(child_with_shape m) by done.
  assert (Hlc : l <> Leaf -> color_of m (ptr_of l) = root_color l) by by apply root_color_shape.
  assert (Hrc : r <> Leaf -> color_of m (ptr_of r) = root_color r) by by apply root_color_shape.
  pose proof (root_color_cases m l Hl). pose proof (root_color_cases m r Hr).
  rewrite !orb_false_iff, andb_false_iff, orb_false_iff.
  destruct l, r; simpl in *; rewrite ?negb_false_iff, ?Z.eqb_eq, ?Z.eqb_neq, ?Z.geb_leb, ?Z.leb_gt in *;
    try rewrite (Hlc ltac:(done)) in *; try rewrite (Hrc ltac:(done)) in *; unfold RB_RED, RB_BLACK in *; naive_solver lia.
Qed.

(** A node adds its own colour to the black height of its subtrees. *)
Lemma rb_node_step l x c r b n :
  (c = RB_RED \/ c = RB_BLACK) -> (c = RB_RED -> root_color l = RB_BLACK /\ root_color r = RB_BLACK) ->
  rb (Node l x c r) n <-> exists n', rb l n' /\ rb r n' /\
    b + Z.of_nat n = (if c =? RB_BLACK then b + 1 else b) + Z.of_nat n'.
Proof.
  intros [->| ->] Hc; simpl.
  - destruct (Hc eq_refl). split; [|intros (n' & H1 & H2 & E)].
    + intros [(_ & H1 & H2 & _)|[? _]]; [by exists n|done].
    + assert (n = n') as -> by lia. by left.
  - split; [|intros (n' & H1 & H2 & E)].
    + intros [[? _]|(_ & n' & -> & H1 & H2)]; [done|]. exists n'. split_and!; [done|done|lia].
    + right. split; [done|]. exists n'. split_and!; [lia|done|done].
Qed.

(** What a walk that left off at black count [b] reports of [t]. *)
Definition reports (m : mem) (t : tree) (b path : Z) (v : bool) (p : Z) : Prop :=
  (v = true -> exists n, p = b + Z.of_nat n) /\
  forall n, v = true /\ p = b + Z.of_nat n <->
    rb t n /\ linked m t /\ neighbours (vma_start m) t /\ (path = -1 \/ path = b + Z.of_nat n).

Lemma helper_leaf depth m b path :
  0 <= b -> exists v p, rb_validate_helper depth m NULL b path = Some (v, p) /\ reports m Leaf b path v p.
Proof.
  intros Hb.
  assert (E : rb_validate_helper depth m NULL b path =
    Some (if path =? -1 then (true, b) else (b =? path, path))) by (destruct depth; simpl; by destruct (path =? -1)).
  rewrite E. destruct (Z.eqb_spec path (-1)) as [->|Hp].
  - exists true, b. split; [done|]. split; [intros _; exists 0%nat; lia|]. intros n. simpl.
    split; [intros [_ ?]; split_and!; [lia|done|done|by left]|intros (-> & _); lia].
  - exists (b =? path), path. split; [done|]. unfold reports. rewrite Z.eqb_eq.
    split; [intros ->; exists 0%nat; lia|]. intros n. simpl.
    split; [intros [? ?]; split_and!; [lia|done|done|by right]|intros (-> & _ & _ & [?|?]); lia].
Qed.

(** A subtree is accepted exactly when it is linked, ordered and red-black with
    the black height that the paths before it fixed. *)
Lemma helper_spec m depth t b path :
  shape m t -> (height t <= depth)%nat -> 0 <= b ->
  exists v p, rb_validate_helper depth m (ptr_of t) b path = Some (v, p) /\ reports m t b path v p.
Proof.
  revert t b path. induction depth as [|d IH]; intros t b path Hs Hh Hb;
    (destruct t as [|l x c r]; [by apply helper_leaf|simpl in Hh; try lia]).
  pose proof (violation_spec m l x c r Hs) as Hv. destruct Hs as (Hx & El & Er & Ec & Hc & Hl & Hr).
  cbn [rb_validate_helper ptr_of]. rewrite (proj2 (Z.eqb_neq x NULL)) by done.
  destruct (node_violation m x).
  - exists false, path. split; [done|]. split; [done|]. intros n. split; [by intros [? _]|].
    intros (Hrb & (L1 & L2 & _) & (N1 & _) & _). exfalso. enough (true = false) by done. apply Hv.
    split_and!; try done. simpl in Hrb. intros ->. destruct Hrb as [(_ & _ & _ & H)|(? & _)]; done.
  - destruct (proj1 Hv eq_refl) as (Hred & L1 & L2 & N1). rewrite El, Er, Ec.
    set (b' := if c =? RB_BLACK then b + 1 else b). assert (Hb' : 0 <= b') by (subst b'; destruct (c =? RB_BLACK); lia).
    assert (Hup : b <= b') by (subst b'; destruct (c =? RB_BLACK); lia).
    destruct (IH l b' path Hl ltac:(lia) Hb') as (v & p & -> & Hp & Hspec).
    assert (Hnode : forall n, rb (Node l x c r) n /\ linked m (Node l x c r) /\ neighbours (vma_start m) (Node l x c r) <->
      exists n', (rb l n' /\ linked m l /\ neighbours (vma_start m) l) /\
        (rb r n' /\ linked m r /\ neighbours (vma_start m) r) /\ b + Z.of_nat n = b' + Z.of_nat n').
    { intros n. rewrite (rb_node_step l x c r b n Hc Hred). cbn [linked neighbours]. fold b'. naive_solver. }
    destruct v.
    + destruct (Hp eq_refl) as [n1 ->]. destruct (proj1 (Hspec n1) (conj eq_refl eq_refl)) as (R1 & R2 & R3 & R4).
      destruct (IH r b' (b' + Z.of_nat n1) Hr ltac:(lia) Hb') as (v & p & -> & Hp' & Hspec').
      exists v, p. split; [done|]. split.
      * intros ->. destruct (Hp' eq_refl) as [n2 ->]. exists (Z.to_nat (b' + Z.of_nat n2 - b)). lia.
      * intros n. split.
        -- intros [-> E]. destruct (Hp' eq_refl) as [n2 E2].
           destruct (proj1 (Hspec' n2) (conj eq_refl E2)) as (Q1 & Q2 & Q3 & Q4).
           assert (n2 = n1) as -> by lia. destruct (proj2 (Hnode n)) as (? & ? & ?).
           { exists n1. split_and!; try done. lia. }
           split_and!; try done. destruct R4; [by left|right; lia].
        -- intros (H1 & H2 & H3 & H4). destruct (proj1 (Hnode n)) as (n' & (A1 & A2 & A3) & (A4 & A5 & A6) & E); [done|].
           rewrite E in H4 |- *. destruct (proj2 (Hspec n')) as [_ E']; [done|].
           apply Hspec'. split_and!; try done. by right.
    + exists false, p. split; [done|]. split; [done|]. intros n. split; [by intros [? _]|].
      intros (H1 & H2 & H3 & H4). destruct (proj1 (Hnode n)) as (n' & (A1 & A2 & A3) & _ & E); [done|].
      rewrite E in H4. exfalso. enough (false = true) by done. by apply (Hspec n').
Qed.

Lemma rep_linked m p t : shape m t -> rep m p t <-> has_parent m p t /\ linked m t.
Proof.
  revert p. induction t as [|l IHl x c r IHr]; intros p;
    [by split; [intros _; split; [intros []|]|]|]. intros (Hx & El & Er & Ec & _ & Hl & Hr).
  cbn [rep linked]. rewrite (IHl x Hl), (IHr x Hr). unfold holds, has_parent. simpl. naive_solver.
Qed.

Lemma validate_spec h t depth :
  shape h.1 t -> h.2 = ptr_of t -> (height t <= depth)%nat ->
  exists v, rb_validate depth h = Some v /\
    (v = true <-> rep h.1 NULL t /\ rbtree t /\ neighbours (vma_start h.1) t).
Proof.
  intros Hs Hroot Hd. destruct h as [m root]. simpl in *. subst root. setoid_rewrite (rep_linked m NULL t Hs). unfold rbtree.
  destruct (helper_spec m depth t 0 (-1) Hs Hd ltac:(lia)) as (v & p & E & Hp & Hspec).
  destruct t as [|l x c r]; 
    [exists true; split; [done|]; split; [|done]; intros _; split_and!; [by intros []|done|done|by exists 0%nat|done]|].
  pose proof Hs as (Hx & _ & _ & Ec & _). cbn [ptr_of] in *. unfold has_parent, rb_validate. simpl root_color. simpl ptr_of.
  rewrite (proj2 (Z.eqb_neq x NULL)), Ec by done.
  destruct (Z.eqb_spec c RB_BLACK) as [->|Hc]; simpl negb; cbn [negb]; [|exists false; split; [done|]; naive_solver].
  destruct (Z.eqb_spec (parent_of m x) NULL) as [Hpar|Hpar]; cbn [negb]; [|exists false; split; [done|]; naive_solver].
  rewrite E. exists v. split; [done|]. split.
  - intros ->. destruct (Hp eq_refl) as [n ->]. destruct (proj1 (Hspec n) (conj eq_refl eq_refl)) as (? & ? & ? & _).
    split_and!; eauto.
  - intros ((_ & H1) & (_ & n & H2) & H3). apply (Hspec n). auto.
Qed.

Lemma rep_shape m p t n : good (nodes t) -> rep m p t -> rb t n -> shape m t.
Proof.
  revert p n. induction t as [|l IHl x c r IHr]; intros p n Hg; [done|]. intros [(El & Er & _ & Ec) [Hl Hr]] Hrb.
  simpl in Hg. cbn [shape].
  assert (Hx : x <> NULL) by (apply (good_pos _ x Hg); set_solver).
  pose proof Hg as [(Hnl & _ & [_ Hnr]%NoDup_cons)%NoDup_app _].
  assert (Hgl : good (nodes l)) by (apply (good_sublist (nodes l ++ x :: nodes r)); [set_solver|done|done]).
  assert (Hgr : good (nodes r)) by (apply (good_sublist (nodes l ++ x :: nodes r)); [set_solver|done|done]).
  simpl in Hrb. destruct Hrb as [(-> & H1 & H2 & _)|(-> & n' & _ & H1 & H2)]; split_and!; eauto.
Qed.

Lemma sorted_neighbours key t : sorted key (nodes t) -> neighbours key t.
Proof.
  induction t as [|l IHl x c r IHr]; [done|]. cbn [nodes neighbours]. intros (H1 & H2 & H3 & H4)%sorted_node.
  split_and!; auto. split; intros Hne; [apply H3|apply H4]; by apply ptr_of_elem.
Qed.

(** A tree of areas, as the kernel's operations keep it, passes. *)
Lemma vma_tree_validates h t depth : vma_tree h t -> enough t depth -> rb_validate depth h = Some true.
Proof.
  intros [Hf Hrb _ Hs _] He. assert (Hsh : shape h.1 t).
  { destruct Hrb as (_ & n & Hn). apply (rep_shape h.1 NULL t n); [|apply Hf|done].
    destruct Hf as [_ _ _ Hg]. simpl in Hg. by rewrite app_nil_r in Hg. }
  destruct (validate_spec h t depth Hsh) as (v & -> & Hv); [apply Hf|by apply enough_height|].
  f_equal. apply Hv. split_and!; [apply Hf|done|by apply sorted_neighbours].
Qed.

(** C27. [rb_validate] decides, on every finite tree the child pointers spell out,
    whether the root is black and has no parent, parent and child pointers agree,
    no red node has a red child, all paths have as many black nodes and every
    child lies on its side of its parent.  It recurses as deep as the tree is high,
    and its nodes have to be mapped at the physical addresses it dereferences. *)
Theorem rb_validate_exact h t depth :
  shape h.1 t -> h.2 = ptr_of t -> (height t <= depth)%nat ->
  exists v, rb_validate depth h = Some v /\
    (v = true <-> rep h.1 NULL t /\ rbtree t /\ neighbours (vma_start h.1) t).
Proof. apply validate_spec. Qed.

(** ** What that leaves open *)

(** A node with its area. *)
Definition put_area (v start last right left parent color : Z) (m : mem) : mem :=
  let node := v + off_vma_node in
  let m := m.[v + off_vma_start <- start].[v + off_vma_end <- last] in
  set_color node color (set_parent node parent (set_left node left (set_right node right m))).

(** The right child of the left child of the root starts above the root, and no
    test compares it with the root. *)
Definition misplaced : heap :=
  (put_area 0x1000 0x500000 0x501000 0x1218 0x1118 NULL RB_BLACK
     (put_area 0x1100 0x300000 0x301000 0x1318 NULL 0x1018 RB_BLACK
        (put_area 0x1200 0x700000 0x701000 NULL NULL 0x1018 RB_BLACK
           (put_area 0x1300 0x900000 0x901000 NULL NULL 0x1118 RB_RED (fun _ => 0)))), 0x1018).

(** The tree passes and yet an area in it is not found. *)
Example rb_validate_misses :
  rb_validate 4 misplaced = Some true /\
  rb_traverse_inorder 4 misplaced.1 misplaced.2 = Some [0x1118; 0x1318; 0x1018; 0x1218] /\
  vma_start misplaced.1 0x1318 = 0x900000 /\ rb_find_vma 4 misplaced 0x900000 = Some NULL.
Proof. split_and!; reflexivity. Qed.

Lemma rb_validate_exact_witness :
  exists v, rb_validate 2 demo_area_heap = Some v /\
    (v = true <-> rep demo_area_heap.1 NULL demo_area_tree /\ rbtree demo_area_tree /\
      neighbours (vma_start demo_area_heap.1) demo_area_tree).
Proof.
  apply (rb_validate_exact demo_area_heap demo_area_tree 2); [|reflexivity|simpl; lia].
  vm_compute. split_and!; try done; auto.
Defined.
