(* ===== verification/Paging.v ===== *)
(** * paging.c: definitions

    The kernel's own mappings: each call of [kmap_page], [kmap_huge_page] or
    [kmap_pages] records an area in the tree of areas and then changes the page
    tables, under [kernel_page_lock]; [__init_mmu] builds the first address
    space of the kernel with them and switches to it. *)

From S2P Require Import Prelude State Kmath Buddy Slab PhysKmalloc Mmu RbTree Vm.

Definition off_vma_pte : Z := 16.
Definition sizeof_vma : Z := 56.

Definition PTE_PWT : Z := 0x8.
Definition PTE_GLOBAL : Z := 0x100.
Definition PTE_NX : Z := 0x8000000000000000.
Definition PTE_FLAGS_DIRECT_MAP : Z := Z.lor (Z.lor (Z.lor PTE_PRESENT PTE_WRITABLE) PTE_GLOBAL) PTE_NX.
Definition PTE_FLAGS_KERNEL_CODE : Z := Z.lor PTE_PRESENT PTE_GLOBAL.
Definition PTE_FLAGS_KERNEL_DATA : Z := Z.lor (Z.lor (Z.lor PTE_PRESENT PTE_WRITABLE) PTE_NX) PTE_GLOBAL.
Definition KERNEL_STACKS_START : Z := 0xFFFFFC0000600000.
Definition KERNEL_IMAGE_START : Z := 0xFFFFFFFF80000000.

(** What the linker and the boot loader fix: the symbols of the image, the
    address of [vma_cache], the memory map, the frame buffer. *)
Record kernel_image : Type := mk_kernel_image {
  vma_cache : ptr;
  kernel_start_addr : Z;
  kernel_end_addr : Z;
  text_end_addr : Z;
  rodata_start_addr : Z;
  rodata_end_addr : Z;
  data_start_addr : Z;
  mmap_bios_entries : list mmap_entry_0xe820;
  framebuffer_address : Z;
  pitch : Z;
  height_px : Z;
}.

(** The static variables of paging.c beside the kernel state, CR3, and the
    address the screen routines write to. *)
Record pstate : Type := mk_pstate {
  p_k : kstate;
  kernel_pml4t : ptr;
  kernel_rb_root : ptr;
  p_cr3 : ptr;
  p_fb_virtual : Z;
}.

Definition set_k (k : kstate) (s : pstate) : pstate :=
  mk_pstate k (kernel_pml4t s) (kernel_rb_root s) (p_cr3 s) (p_fb_virtual s).
Definition set_pml4t (t : ptr) (s : pstate) : pstate :=
  mk_pstate (p_k s) t (kernel_rb_root s) (p_cr3 s) (p_fb_virtual s).
Definition set_heap (h : heap) (s : pstate) : pstate :=
  mk_pstate (set_mem h.1 (p_k s)) (kernel_pml4t s) h.2 (p_cr3 s) (p_fb_virtual s).

(** A routine of the layers below. *)
Definition lift {A} (c : cmd kstate A) : cmd pstate A := fun s =>
  match c (p_k s) with
  | Ret a k => Ret a (set_k k s)
  | Panic msg => Panic msg
  | Diverge => Diverge
  end.

(** The tree of areas: the shared memory and [kernel_rb_root]. *)
Definition vma_heap (s : pstate) : heap := (k_mem (p_k s), kernel_rb_root s).

Section paging.
Context (img : kernel_image) (turns : nat).

(** The result of [rb_insert] is not looked at. *)
Definition rb_insert_vma (v : ptr) : cmd pstate unit :=
  let! h := gets vma_heap in
  let! r := of_loop (rb_insert vma_cmp turns h (v + off_vma_node)) in
  modify (set_heap r.1).

Definition rb_remove_vma (v : ptr) : cmd pstate unit :=
  let! h := gets vma_heap in
  let! r := of_loop (rb_delete vma_cmp turns h (v + off_vma_node)) in
  modify (set_heap r.1).

Definition find_vma (vaddr : Z) : cmd pstate ptr :=
  let! h := gets vma_heap in
  of_loop (rb_find_vma turns h vaddr).

(** [vma->vma_start = ...; vma->vma_end = ...; vma->vma_pte = ...] *)
Definition fill_vma (vma start last pte : Z) : cmd kstate unit :=
  store (vma + off_vma_start) start;;
  store (vma + off_vma_end) last;;
  store (vma + off_vma_pte) pte.

Definition kmap_page (paddr vaddr flags : Z) : cmd pstate unit :=
  let! vma := lift (kmem_cache_kalloc (vma_cache img)) in
  if vma =? NULL then panic "FAILED TO ALLOCATE VMA STRUCT IN KMAP_PAGE" else
  lift (fill_vma vma vaddr (u64 (vaddr + PAGE_SIZE)) (Z.lor paddr flags));;
  lift (spinlock_acquire kernel_page_lock);;
  rb_insert_vma vma;;
  let! pml4t := gets kernel_pml4t in
  lift (map_page pml4t paddr vaddr flags);;
  lift (spinlock_release kernel_page_lock).

Definition kunmap_page (paddr vaddr : Z) : cmd pstate unit :=
  let! vma := find_vma vaddr in
  if vma =? NULL then ret tt else
  lift (spinlock_acquire kernel_page_lock);;
  rb_remove_vma vma;;
  lift (kmem_cache_kfree (vma_cache img) vma);;
  let! pml4t := gets kernel_pml4t in
  lift (unmap_page pml4t paddr vaddr);;
  lift (spinlock_release kernel_page_lock).

Definition kmap_huge_page (paddr vaddr flags : Z) : cmd pstate unit :=
  let! vma := lift (kmem_cache_kalloc (vma_cache img)) in
  if vma =? NULL then panic "FAILED TO ALLOCATE HUGE VMA STRUCT IN KMAP_PAGE" else
  lift (fill_vma vma vaddr (u64 (vaddr + HUGE_PAGE_SIZE)) (Z.lor paddr flags));;
  lift (spinlock_acquire kernel_page_lock);;
  rb_insert_vma vma;;
  let! pml4t := gets kernel_pml4t in
  lift (map_huge_page pml4t paddr vaddr flags);;
  lift (spinlock_release kernel_page_lock).

Definition kunmap_huge_page (paddr vaddr : Z) : cmd pstate unit :=
  let! vma := find_vma vaddr in
  if vma =? NULL then ret tt else
  lift (spinlock_acquire kernel_page_lock);;
  rb_remove_vma vma;;
  lift (kmem_cache_kfree (vma_cache img) vma);;
  let! pml4t := gets kernel_pml4t in
  lift (unmap_huge_page pml4t paddr vaddr);;
  lift (spinlock_release kernel_page_lock).

Definition no_vma_struct : string := "FAILED TO ALLOCATE A VMA STRUCT IN KMAP_PAGES".

Definition kmap_pages (paddr vaddr flags num_pages : Z) : cmd pstate unit :=
  (if has_flag flags PTE_HUGE_PAGE then
     let! vma := lift (kmem_cache_kalloc (vma_cache img)) in
     if vma =? NULL then panic no_vma_struct else
     lift (fill_vma vma vaddr (u64 (vaddr + u64 (num_pages * HUGE_PAGE_SIZE))) (Z.lor paddr flags));;
     lift (spinlock_acquire kernel_page_lock);;
     rb_insert_vma vma
   else
     let! vma := lift (kmem_cache_kalloc (vma_cache img)) in
     if vma =? NULL then panic no_vma_struct else
     lift (fill_vma vma vaddr (u64 (vaddr + u64 (num_pages * PAGE_SIZE))) (Z.lor paddr flags));;
     lift (spinlock_acquire kernel_page_lock);;
     rb_insert_vma vma);;
  let! pml4t := gets kernel_pml4t in
  lift (map_pages pml4t paddr vaddr flags num_pages);;
  lift (spinlock_release kernel_page_lock).

Definition kunmap_pages (paddr vaddr flags num_pages : Z) : cmd pstate unit :=
  let! vma := find_vma vaddr in
  if vma =? NULL then ret tt else
  lift (spinlock_acquire kernel_page_lock);;
  rb_remove_vma vma;;
  lift (kmem_cache_kfree (vma_cache img) vma);;
  let! pml4t := gets kernel_pml4t in
  lift (unmap_pages pml4t paddr vaddr flags num_pages);;
  lift (spinlock_release kernel_page_lock).

(** ** The first address space *)

Definition map_framebuffer : cmd pstate unit :=
  let fb := framebuffer_address img in
  let fb_last := u64 (fb + u32 (pitch img * height_px img) - 1) in
  let base_aligned := Z.land fb (not64 (PAGE_SIZE - 1)) in
  let end_aligned := Z.land (u64 (fb_last + PAGE_SIZE)) (not64 (PAGE_SIZE - 1)) in
  let num_pages := u64 (end_aligned - base_aligned) / PAGE_SIZE in
  kmap_pages base_aligned (u64 (DIRECT_MAP_START + base_aligned)) (Z.lor PTE_FLAGS_DIRECT_MAP PTE_PWT) num_pages.

(** [for (i = 0; i < 4; i++) memset_pg(phys_stack_addr + i * PAGE_SIZE)] *)
Fixpoint clear_pages (n : nat) (p i : Z) : cmd kstate unit :=
  match n with
  | O => ret tt
  | S n => memset_pg (p + i * PAGE_SIZE);; clear_pages n p (i + 1)
  end.

Definition map_stacks : cmd pstate ptr :=
  let! phys_stack_addr := lift (phys_kmalloc (4 * PAGE_SIZE) BUDDY_ALLOC) in
  if phys_stack_addr =? NULL then panic "Failed to allocate 16KiB page for stack" else
  lift (clear_pages 4 phys_stack_addr 0);;
  kmap_pages phys_stack_addr KERNEL_STACKS_START PTE_FLAGS_KERNEL_DATA 4;;
  ret (KERNEL_STACKS_START + 4 * PAGE_SIZE - 8).

(** The body of the loop of [map_direct_mapping]. *)
Definition map_direct_entry (e : mmap_entry_0xe820) : cmd pstate unit :=
  if negb (me_type e =? 1) then ret tt else
  let base_addr := me_base_address e in
  let size := me_chunk_size e in
  let last_addr := u64 (base_addr + size) in
  let base_addr_aligned := Z.land (u64 (base_addr + PAGE_SIZE - 1)) (not64 (PAGE_SIZE - 1)) in
  let last_addr_aligned := Z.land last_addr (not64 (PAGE_SIZE - 1)) in
  if base_addr_aligned >=? last_addr_aligned then ret tt else
  let huge_base := Z.land (u64 (base_addr_aligned + HUGE_PAGE_SIZE - 1)) (not64 (HUGE_PAGE_SIZE - 1)) in
  let huge_end := Z.land last_addr_aligned (not64 (HUGE_PAGE_SIZE - 1)) in
  if huge_base >=? huge_end then
    let pte_num := u64 (last_addr_aligned - base_addr_aligned) / PAGE_SIZE in
    kmap_pages base_addr_aligned (u64 (DIRECT_MAP_START + base_addr_aligned)) PTE_FLAGS_DIRECT_MAP pte_num
  else
    (if base_addr_aligned <? huge_base then
       let pre_pte_num := u64 (huge_base - base_addr_aligned) / PAGE_SIZE in
       kmap_pages base_addr_aligned (u64 (DIRECT_MAP_START + base_addr_aligned)) PTE_FLAGS_DIRECT_MAP pre_pte_num
     else ret tt);;
    let huge_count := u64 (huge_end - huge_base) / HUGE_PAGE_SIZE in
    kmap_pages huge_base (u64 (DIRECT_MAP_START + huge_base)) (Z.lor PTE_FLAGS_DIRECT_MAP PTE_HUGE_PAGE) huge_count;;
    let leftover_pte_num := u64 (last_addr_aligned - huge_end) / PAGE_SIZE in
    if leftover_pte_num >? 0 then
      kmap_pages huge_end (u64 (DIRECT_MAP_START + huge_end)) PTE_FLAGS_DIRECT_MAP leftover_pte_num
    else ret tt.

Fixpoint map_entries (entries : list mmap_entry_0xe820) : cmd pstate unit :=
  match entries with
  | [] => ret tt
  | e :: entries => map_direct_entry e;; map_entries entries
  end.

Definition map_direct_mapping : cmd pstate unit := map_entries (mmap_bios_entries img).

Definition boot_flags : Z := Z.lor (Z.lor PTE_PRESENT PTE_WRITABLE) PTE_HUGE_PAGE.
Definition map_boot_memory : cmd pstate unit := kmap_pages 0 0 boot_flags 8.
Definition unmap_boot_memory : cmd pstate unit := kunmap_pages 0 0 boot_flags 8.

(** Map a section of the image at its link address. *)
Definition map_section (first last flags : Z) : cmd pstate Z :=
  let num_pages := u64 (last - first) / PAGE_SIZE in
  kmap_pages (u64 (first - KERNEL_IMAGE_START)) first flags num_pages;;
  ret num_pages.

Definition load_pmlt_cr3 : cmd pstate unit :=
  modify (fun s => mk_pstate (p_k s) (kernel_pml4t s) (kernel_rb_root s) (kernel_pml4t s) (p_fb_virtual s)).
Definition vesa_set_fb_virtual (v : Z) : cmd pstate unit :=
  modify (fun s => mk_pstate (p_k s) (kernel_pml4t s) (kernel_rb_root s) (p_cr3 s) v).
Definition set_phys_map_offset (off : Z) (k : kstate) : kstate :=
  mk_kstate (k_mem k) (k_buddy k) (k_locks k) (k_rflags k) (k_cpuid_ebx k) off (k_invlpg k) (k_slab_caches k).

Definition __init_mmu : cmd pstate ptr :=
  lift (spinlock_init kernel_page_lock);;
  let! _ := lift (kmem_cache_create_sl (vma_cache img) sizeof_vma) in
  let! pml4t := lift (phys_kmalloc PAGE_SIZE BUDDY_ALLOC) in
  modify (set_pml4t pml4t);;
  if pml4t =? NULL then panic "FAILED TO ALLOCATE PML4T ROOT FOR THE KERNEL" else
  lift (memset_pg pml4t);;
  let! _ := map_section (kernel_start_addr img) (text_end_addr img) PTE_FLAGS_KERNEL_CODE in
  let! _ := map_section (rodata_start_addr img) (rodata_end_addr img)
              (Z.lor (Z.lor PTE_PRESENT PTE_NX) PTE_GLOBAL) in
  let! num_pages := map_section (data_start_addr img) (kernel_end_addr img) PTE_FLAGS_KERNEL_DATA in
  let vaddr := u64 (data_start_addr img + u64 (num_pages * PAGE_SIZE)) in
  kmap_pages (u64 (vaddr - KERNEL_IMAGE_START)) vaddr
    (Z.lor (Z.lor (Z.lor PTE_PRESENT PTE_NX) PTE_GLOBAL) PTE_WRITABLE) 4;;
  let! virt_rsp := map_stacks in
  map_direct_mapping;;
  map_boot_memory;;
  map_framebuffer;;
  load_pmlt_cr3;;
  lift (modify (set_phys_map_offset DIRECT_MAP_START));;
  vesa_set_fb_virtual (u64 (DIRECT_MAP_START + framebuffer_address img));;
  ret virt_rsp.
End paging.
