(* ===== verification/LockFrame.v ===== *)
(** * Locks a routine does not touch

    A routine that runs inside another critical section must leave the record
    of that section's lock alone.  [keeps_lock] is closed under the monad, and
    the page-table routines, which take [buddy_lock] only, keep every other
    lock. *)

From S2P Require Import Prelude State Kmath Buddy Slab PhysKmalloc Mmu.

Definition keeps_lock {A} (id : lock_id) (c : cmd kstate A) : Prop :=
  forall s, match c s with Ret _ s' => k_locks s' id = k_locks s id | _ => True end.

Section keeps.
Context (id : lock_id).

Lemma keeps_ret {A} (a : A) : keeps_lock id (ret a).
Proof. done. Qed.
Lemma keeps_gets {A} (f : kstate -> A) : keeps_lock id (gets f).
Proof. done. Qed.
Lemma keeps_panic {A} msg : keeps_lock (A := A) id (panic msg).
Proof. done. Qed.
Lemma keeps_of_loop {A} (o : option A) : keeps_lock id (of_loop o).
Proof. by destruct o. Qed.
Lemma keeps_modify f : (forall s, k_locks (f s) id = k_locks s id) -> keeps_lock id (modify f).
Proof. intros H s. apply H. Qed.
Lemma keeps_bind {A B} (c : cmd kstate A) (k : A -> cmd kstate B) :
  keeps_lock id c -> (forall a, keeps_lock id (k a)) -> keeps_lock id (bind c k).
Proof.
  intros Hc Hk s. unfold bind. specialize (Hc s). destruct (c s) as [a s1| |]; [|done..].
  specialize (Hk a s1). destruct (k a s1); [congruence|done..].
Qed.
Lemma keeps_acquire id' : id <> id' -> keeps_lock id (spinlock_acquire id').
Proof. intros Hne s. unfold spinlock_acquire. destruct (_ =? _); [|done]. simpl. by rewrite decide_False. Qed.
Lemma keeps_release id' : id <> id' -> keeps_lock id (spinlock_release id').
Proof. intros Hne s. simpl. by rewrite decide_False. Qed.
Lemma keeps_on_lists f : keeps_lock id (on_lists f).
Proof. apply keeps_modify. intros s. by destruct (f _ _). Qed.
End keeps.

Create HintDb locks.
#[export] Hint Resolve keeps_ret keeps_gets keeps_panic keeps_of_loop keeps_on_lists keeps_acquire keeps_release : locks.

(** Walk through the body of a routine. *)
Ltac keeps :=
  repeat lazymatch goal with
  | |- keeps_lock _ (bind _ _) => apply keeps_bind; [|intros]
  | |- keeps_lock _ (modify _) => apply keeps_modify; intros; reflexivity
  | |- keeps_lock _ (match _ with _ => _ end) => case_match
  | |- keeps_lock _ _ => solve [auto with locks]
  end.

(** The page allocator takes [buddy_lock] only. *)
Section buddy.
Context (id : lock_id) (Hid : id <> buddy_lock).

Lemma toggle_keeps addr order : keeps_lock id (toggle_bitmap addr order).
Proof using Hid. unfold toggle_bitmap. keeps. Qed.

Lemma kalloc_scan_keeps turns order idx : keeps_lock id (kalloc_scan turns order idx).
Proof using Hid.
  revert idx. induction turns as [|t IH]; intros idx; cbn [kalloc_scan]; keeps; apply toggle_keeps || apply IH.
Qed.

Lemma buddy_kalloc_keeps size : keeps_lock id (buddy_kalloc size).
Proof using Hid. unfold buddy_kalloc. keeps. apply kalloc_scan_keeps. Qed.

Lemma wire_table_keeps slot msg : keeps_lock id (wire_table slot msg).
Proof using Hid.
  unfold wire_table, phys_kmalloc, memset_pg, on_mem, load, store. keeps. apply buddy_kalloc_keeps.
Qed.

Lemma map_huge_loop_keeps turns pml4t pa va flags c4 c3 pdpt pd :
  keeps_lock id (map_huge_loop turns pml4t pa va flags c4 c3 pdpt pd).
Proof using Hid.
  revert pa va c4 c3 pdpt pd. induction turns as [|t IH]; intros; cbn [map_huge_loop]; unfold store; keeps;
    apply wire_table_keeps || apply IH.
Qed.

Lemma map_small_loop_keeps turns pml4t pa va flags c4 c3 c2 pdpt pd pt :
  keeps_lock id (map_small_loop turns pml4t pa va flags c4 c3 c2 pdpt pd pt).
Proof using Hid.
  revert pa va c4 c3 c2 pdpt pd pt. induction turns as [|t IH]; intros; cbn [map_small_loop]; unfold store; keeps;
    apply wire_table_keeps || apply IH.
Qed.

Lemma map_pages_keeps pml4t pa va flags num : keeps_lock id (map_pages pml4t pa va flags num).
Proof using Hid.
  unfold map_pages. keeps; apply map_huge_loop_keeps || apply map_small_loop_keeps.
Qed.

Lemma kfree_coalesce_keeps turns chunk order : keeps_lock id (kfree_coalesce turns chunk order).
Proof using Hid.
  revert chunk order. induction turns as [|t IH]; intros chunk order; cbn [kfree_coalesce]; keeps; apply toggle_keeps || apply IH.
Qed.

Lemma buddy_kfree_keeps chunk size : keeps_lock id (buddy_kfree chunk size).
Proof using Hid. unfold buddy_kfree. keeps; apply toggle_keeps || apply kfree_coalesce_keeps. Qed.

Lemma drop_if_empty_keeps table slot k : keeps_lock id k -> keeps_lock id (drop_if_empty table slot k).
Proof using Hid.
  intros Hk. unfold drop_if_empty, table_is_empty, store, phys_kfree. keeps; apply buddy_kfree_keeps || exact Hk.
Qed.

Lemma unmap_small_keeps pml4t p v mh mw : keeps_lock id (unmap_small pml4t p v mh mw).
Proof using Hid.
  unfold unmap_small, load, store, invlpg. keeps. do 3 apply drop_if_empty_keeps. apply keeps_ret.
Qed.

Lemma unmap_huge_keeps pml4t p v ms mw : keeps_lock id (unmap_huge pml4t p v ms mw).
Proof using Hid.
  unfold unmap_huge, load, store, invlpg. keeps. do 2 apply drop_if_empty_keeps. apply keeps_ret.
Qed.

Lemma unmap_loop_keeps turns step i pa va one :
  (forall p v, keeps_lock id (one p v)) -> keeps_lock id (unmap_loop turns step i pa va one).
Proof using Hid.
  intros Ho. revert i. induction turns as [|t IH]; intros i; cbn [unmap_loop]; keeps; apply Ho || apply IH.
Qed.

Lemma unmap_pages_keeps pml4t pa va flags num : keeps_lock id (unmap_pages pml4t pa va flags num).
Proof using Hid.
  unfold unmap_pages. keeps; apply unmap_loop_keeps; intros; apply unmap_huge_keeps || apply unmap_small_keeps.
Qed.
End buddy.

(** The object allocator's release takes [slab_lock] only. *)
Lemma kfree_keeps id cache x : id <> slab_lock -> keeps_lock id (kmem_cache_kfree cache x).
Proof. intros Hid. unfold kmem_cache_kfree, move_slab, on_mem, load, store. keeps. Qed.

(** Inside a critical section such a routine keeps the section. *)
Lemma held_keep id s0 s s' :
  held id s0 s -> kframe s s' -> k_locks s' id = k_locks s id -> held id s0 s'.
Proof.
  intros (H1 & H2 & H3 & H4 & H5 & H6 & H7) [K1 K2 K3 K4 K5] E. unfold held. rewrite E.
  split_and!; try done; try congruence. intros i Hi Hf. apply K1. auto.
Qed.

Lemma keeps_wpe {A} id (c : cmd kstate A) Q P s :
  keeps_lock id c -> wpe c Q P s -> wpe c (fun a s' => Q a s' /\ k_locks s' id = k_locks s id) P s.
Proof. intros Hk. specialize (Hk s). unfold wpe. by destruct (c s). Qed.

Lemma keeps_wp {A} id (c : cmd kstate A) Q s :
  keeps_lock id c -> wp c Q s -> wp c (fun a s' => Q a s' /\ k_locks s' id = k_locks s id) s.
Proof. intros Hk. specialize (Hk s). unfold wp. by destruct (c s). Qed.
