(* ===== verification/PagingInv.v ===== *)
(** * Kernel mappings: the invariant over all layers

    One address space of the kernel: the cache of areas and its slabs, the tree
    of areas built from objects of that cache, the page tables and the page
    allocator all live in one memory.  The invariant says that they do not
    overlap; the lemmas say what a write of one layer leaves of the others. *)

From stdpp Require Import functions.
From S2P Require Import Prelude State Kmath Buddy FreeList BuddyInv BuddyOps Slab SlabTheorems SlabRings PhysKmalloc SlabObjects SlabAlloc Mmu MmuInv MmuOps MmuTheorems RbTree RbRep RbInsert RbBalance RbTheorems Vm Paging.

(** ** Lifted routines *)

Lemma wp_lift {A} (c : cmd kstate A) Q s :
  wp c (fun a k => Q a (set_k k s)) (p_k s) -> wp (lift c) Q s.
Proof. unfold wp, lift. by destruct (c (p_k s)). Qed.

Lemma wpe_lift {A} (c : cmd kstate A) Q P s :
  wpe c (fun a k => Q a (set_k k s)) P (p_k s) -> wpe (lift c) Q P s.
Proof. unfold wpe, lift. by destruct (c (p_k s)). Qed.

(** ** Areas *)

Lemma heap_tree_words m m' root t :
  (forall x k, x ∈ nodes t -> 0 <= k < sizeof_rb_node -> m' (x + k) = m (x + k)) ->
  heap_tree (m, root) t -> heap_tree (m', root) t.
Proof.
  intros Hw [H1 H2 H3 H4]. split; [done| |done|done]. cbn [fst] in *. eapply rep_same; [|exact H2].
  intros x Hx. unfold same_at, left_of, right_of, parent_of, color_of, off_left, off_right, off_parent, off_color.
  unfold sizeof_rb_node in Hw. split_and!; apply Hw; (done || lia).
Qed.

Lemma vma_words h h' t :
  h'.2 = h.2 -> (forall x k, x ∈ nodes t -> 0 <= k < sizeof_vma -> h'.1 (vma_of x + k) = h.1 (vma_of x + k)) ->
  vma_tree h t -> vma_tree h' t.
Proof.
  destruct h as [m r], h' as [m' r']. cbn [fst snd]. intros -> Hw [H1 H2 H3 H4 [H5 H6]].
  unfold vma_of, off_vma_node, sizeof_vma in Hw. cbn [fst] in *.
  assert (Hs : forall x, x ∈ nodes t -> vma_start m' x = vma_start m x /\ vma_end m' x = vma_end m x).
  { intros x Hx. unfold vma_start, vma_end, vma_of, off_vma_start, off_vma_end, off_vma_node.
    split; apply Hw; (done || lia). }
  split; cbn [fst]; [|done|done|eapply sorted_ext; [|exact H4]; intros x Hx; by apply Hs|].
  - eapply heap_tree_words; [|exact H1]. unfold sizeof_rb_node. intros x k Hx Hk.
    specialize (Hw x (24 + k) Hx ltac:(lia)). by replace (x - 24 + (24 + k)) with (x + k) in Hw by lia.
  - split; [intros x Hx; destruct (Hs x Hx) as [-> ->]; auto|].
    intros x y Hx Hy. destruct (Hs x Hx) as [-> ->], (Hs y Hy) as [-> _]. auto.
Qed.

(** ** The invariant *)

Section kvm.
Context {client : AllocClient} (img : kernel_image) (o al n : Z).
Context (Hat : cache_at (vma_cache img) sizeof_vma o al n).

Record kvm (s : pstate) (L : Z -> list ptr) (R : slab_class -> list ptr) (fl : ptr -> list ptr) (t : tree) :
    Prop := {
  kv_lock : lock_free (p_k s) slab_lock /\ lock_free (p_k s) buddy_lock;
  kv_cache : cache_owns (vma_cache img) sizeof_vma o al n (p_k s) L R fl;
  kv_tree : vma_tree (vma_heap s) t;
  kv_used : forall x, x ∈ nodes t -> vma_of x ∈ used_objects sizeof_vma al n R fl;
  kv_tables : pt_inv (k_mem (p_k s)) (kernel_pml4t s) (free_pages L ++ slab_pages o R);
  kv_frames : forall q t, path_ok q -> tbl (k_mem (p_k s)) (kernel_pml4t s) q = Some t -> ac_frame t;
}.

(** The pages the words of the cache lie in, above every table. *)
Definition cache_pages : list Z :=
  [page_of (vma_cache img); page_of (vma_cache img + sizeof_kmem_cache - 1)].

Lemma cache_word_pages a :
  vma_cache img <= a < vma_cache img + sizeof_kmem_cache -> page_of a ∈ cache_pages.
Proof.
  unfold cache_pages, page_of, PAGE_SIZE, sizeof_kmem_cache. intros Ha.
  assert (a / 0x1000 = vma_cache img / 0x1000 \/ a / 0x1000 = (vma_cache img + 72 - 1) / 0x1000) as [-> | ->]
    by dlia; [left|right; left].
Qed.

Lemma pt_inv_cache m root F : pt_inv m root F -> pt_inv m root (F ++ cache_pages).
Proof using Hat.
  intros [H1 H2 H3]. split; [|done|done]. intros p t Hp E. destruct (H1 p t Hp E) as [Hf Hn]. split; [done|].
  rewrite elem_of_app. intros [?|Hc]; [done|]. destruct Hf as [_ Hf]. destruct Hat as [_ _ Hhigh].
  unfold cache_pages, page_of, sizeof_kmem_cache, PAGE_SIZE in Hc.
  apply elem_of_cons in Hc as [Hc|Hc%list_elem_of_singleton]; dlia.
Qed.

Lemma pt_inv_perm m root F F' : F ≡ₚ F' -> pt_inv m root F -> pt_inv m root F'.
Proof. intros HP [H1 H2 H3]. split; [|done|done]. intros p t Hp E. rewrite <- HP. exact (H1 p t Hp E). Qed.

Lemma pt_inv_sub m root F F' : (forall x, x ∈ F' -> x ∈ F) -> pt_inv m root F -> pt_inv m root F'.
Proof. intros HP [H1 H2 H3]. split; [|done|done]. intros p t Hp E. destruct (H1 p t Hp E). auto. Qed.

(** Writes outside the tables, in pages that are free, slabs or the cache. *)
Lemma tables_kept m m' root F :
  pt_inv m root F ->
  (forall a, ~ (vma_cache img <= a < vma_cache img + sizeof_kmem_cache) -> page_of a ∉ F -> m' a = m a) ->
  pt_inv m' root F /\ forall q j, path_ok q -> idx_ok j -> leaf m' root q j = leaf m root q j.
Proof using Hat.
  intros Hi Hw. pose proof (pt_inv_cache _ _ _ Hi) as Hi'.
  assert (Hf : mem_frame (F ++ cache_pages) m m').
  { intros a Ha. rewrite elem_of_app in Ha. apply Hw; [|tauto]. intros Hc%cache_word_pages. tauto. }
  split; [eapply pt_inv_frame; [exact Hi'|exact Hf|]; intros x Hx; apply elem_of_app; auto|].
  intros q j Hq Hj. by eapply leaf_frame.
Qed.

Lemma used_page s L R fl u a :
  cache_owns (vma_cache img) sizeof_vma o al n s L R fl -> u ∈ used_objects sizeof_vma al n R fl ->
  u <= a < u + sizeof_vma -> page_of a ∈ slab_pages o R.
Proof using Hat.
  destruct Hat as [Hg Hs Hc]. intros Ho [(d & Hd & Hu) _]%used_elem Ha.
  apply list_elem_of_bind. exists d. split; [|done].
  apply (slab_page sizeof_vma o al n Hg Hs).
  - exact (inv_place _ _ _ _ _ _ _ _ (co_cache _ _ _ _ _ _ _ _ _ Ho) d Hd).
  - apply (slab_object_bounds sizeof_vma o al n Hg Hs) in Hu. lia.
Qed.

(** Writes into objects in use keep the tables and the cache. *)
Lemma object_writes_tables s L R fl m' root :
  cache_owns (vma_cache img) sizeof_vma o al n s L R fl ->
  pt_inv (k_mem s) root (free_pages L ++ slab_pages o R) ->
  object_writes sizeof_vma al n R fl (k_mem s) m' ->
  pt_inv m' root (free_pages L ++ slab_pages o R) /\
  forall q j, path_ok q -> idx_ok j -> leaf m' root q j = leaf (k_mem s) root q j.
Proof using Hat.
  intros Ho Hi Hw. apply tables_kept; [done|]. intros a _ Ha. apply Hw. intros u Hu Hua. apply Ha.
  apply elem_of_app. right. by eapply used_page.
Qed.
(** The entries of every table are the same. *)
Definition same_leaves (root : ptr) (m m' : mem) : Prop :=
  forall q j, path_ok q -> idx_ok j -> leaf m' root q j = leaf m root q j.

Lemma tbl_leaf m root p i :
  tbl m root (p ++ [i]) =
    if is_link (leaf m root p i) then Some (Z.land (leaf m root p i) PTE_ADDR_MASK) else None.
Proof. rewrite tbl_snoc. unfold leaf. by destruct (tbl m root p). Qed.

Lemma same_leaves_tbl root m m' q : same_leaves root m m' -> path_ok q -> tbl m' root q = tbl m root q.
Proof.
  intros Hs. destruct q as [|i q] using rev_ind; [done|]. intros (Hq & Hi & _)%path_ok_snoc. by rewrite !tbl_leaf, Hs.
Qed.

(** The tables stay in frames the client may hold. *)
Lemma same_leaves_frames root m m' :
  same_leaves root m m' -> (forall q t, path_ok q -> tbl m root q = Some t -> ac_frame t) ->
  forall q t, path_ok q -> tbl m' root q = Some t -> ac_frame t.
Proof. intros Hs Hf q t Hq. rewrite (same_leaves_tbl root m m') by done. by apply Hf. Qed.

Lemma same_leaves_trans root m1 m2 m3 : same_leaves root m1 m2 -> same_leaves root m2 m3 -> same_leaves root m1 m3.
Proof. intros H1 H2 q j Hq Hj. by rewrite H2, H1. Qed.

(** Only memory, allocator metadata and the two locks matter. *)
Lemma kvm_state s k L R fl t :
  kvm s L R fl t -> k_mem k = k_mem (p_k s) -> k_buddy k = k_buddy (p_k s) ->
  lock_free k slab_lock -> lock_free k buddy_lock -> kvm (set_k k s) L R fl t.
Proof.
  intros [[H1 H2] [Hb Hi Hp Hcl Hco] H4 H5 H6 H7] Em Eb Hl1 Hl2. unfold vma_heap in *.
  split; cbn [p_k set_k kernel_rb_root kernel_pml4t] in *; unfold vma_heap; cbn [p_k set_k kernel_rb_root];
    rewrite ?Em, ?Eb; try done. split; by rewrite ?Em, ?Eb.
Qed.

(** The areas keep their words. *)
Lemma kvm_words s m' L R fl t :
  kvm s L R fl t -> object_writes sizeof_vma al n R fl (k_mem (p_k s)) m' ->
  (forall x k, x ∈ nodes t -> 0 <= k < sizeof_vma -> m' (vma_of x + k) = k_mem (p_k s) (vma_of x + k)) ->
  kvm (set_k (set_mem m' (p_k s)) s) L R fl t /\ same_leaves (kernel_pml4t s) (k_mem (p_k s)) m'.
Proof using Hat.
  intros [H1 H3 H4 H5 H6 H7] Hw Hk. destruct (object_writes_tables _ _ _ _ _ _ H3 H6 Hw) as [Hi Hl].
  split; [|done]. pose proof Hat as [Hg Hs Hc].
  split; [done|by apply cache_owns_objects| |done|done|by eapply same_leaves_frames].
  eapply (vma_words (vma_heap s)); [done| |done]. intros x k Hx Hk'. by apply Hk.
Qed.

Lemma kalloc_vma_wp s L R fl t :
  kvm s L R fl t ->
  wp (lift (kmem_cache_kalloc (vma_cache img))) (fun v s' => exists k, s' = set_k k s /\ kframe (p_k s) k /\
    (v = NULL /\ (forall j, o <= j <= MAX_ORDER -> L j = []) \/
     v <> NULL /\ exists L' R' fl', kvm s' L' R' fl' t /\ v ∈ used_objects sizeof_vma al n R' fl' /\
       (forall x, x ∈ nodes t -> vma_of x + sizeof_vma <= v \/ v + sizeof_vma <= vma_of x) /\
       (length (free_pages L) <= length (free_pages L') + Z.to_nat (2 ^ o))%nat /\
       same_leaves (kernel_pml4t s) (k_mem (p_k s)) (k_mem k) /\
       (forall x j, x ∈ nodes t -> 0 <= j < sizeof_vma -> k_mem k (vma_of x + j) = k_mem (p_k s) (vma_of x + j)))) s.
Proof using Hat.
  intros [[H1 H2] H3 H4 H5 H6 H7]. pose proof Hat as [Hg Hs Hc]. apply wp_lift.
  eapply wp_mono; [by eapply kalloc_at|]. cbv beta. intros v k [Hk Ht]. exists k. split; [done|]. split; [done|].
  destruct (taken_used _ _ _ _ _ Hg Hs Hc _ _ _ _ _ _ H3 Ht) as [Hu Hm].
  destruct (decide (v = NULL)) as [Hv|Hv].
  { left. split; [done|]. by destruct Ht. }
  right. split; [done|]. destruct Hu as [?|(L' & R' & fl' & Ho & HU & Hd & HP & Hlen)]; [done|].
  assert (Hw : forall x j, x ∈ nodes t -> 0 <= j < sizeof_vma -> k_mem k (vma_of x + j) = k_mem (p_k s) (vma_of x + j)).
  { intros x j Hx Hj. apply (Hm (vma_of x)); [auto|lia]. }
  destruct (tables_kept (k_mem (p_k s)) (k_mem k) (kernel_pml4t s) (free_pages L ++ slab_pages o R) H6)
    as [Hi Hl]; [intros a Ha Hp; eapply (taken_frame _ _ _ _ _ Hg Hs Hc); eauto|].
  exists L', R', fl'. split_and!; [|rewrite HU; left|intros x Hx; by apply Hd, H5|done|done|done].
  split; [split; by apply Hk|done| |intros x Hx; rewrite HU; right; by apply H5|by eapply pt_inv_perm|by eapply same_leaves_frames].
  eapply (vma_words (vma_heap s)); done.
Qed.

(** The fields in front of the node are not the tree's. *)
Lemma vma_fields_kept l m m' x k :
  objects off_vma_node l -> only_nodes l m m' -> x ∈ l -> 0 <= k < off_vma_node -> m' (vma_of x + k) = m (vma_of x + k).
Proof.
  intros Hob Ho Hx Hk. unfold vma_of, off_vma_node in *. replace (x - 24 + k) with (x - (24 - k)) by lia.
  eapply objects_field; [exact Hob|done|done|lia].
Qed.

Lemma insert_vma_wp turns s L R fl t v :
  kvm s L R fl t -> v ∈ used_objects sizeof_vma al n R fl ->
  (forall x, x ∈ nodes t -> vma_of x + sizeof_vma <= v \/ v + sizeof_vma <= vma_of x) ->
  let m := k_mem (p_k s) in
  m (v + off_vma_start) < m (v + off_vma_end) ->
  (forall x, x ∈ nodes t -> vma_end m x <= m (v + off_vma_start) \/ m (v + off_vma_end) <= vma_start m x) ->
  enough t turns ->
  wp (rb_insert_vma turns v) (fun _ s' => exists m' r' t', s' = set_heap (m', r') s /\ kvm s' L R fl t' /\
    nodes t' ≡ₚ v + off_vma_node :: nodes t /\ same_leaves (kernel_pml4t s) m m' /\
    (forall x k, x ∈ v + off_vma_node :: nodes t -> 0 <= k < off_vma_node -> m' (vma_of x + k) = m (vma_of x + k))) s.
Proof using Hat.
  intros Hkv Hv Hd m Hlt Hap Hen. pose proof Hkv as [H1 H3 H4 H5 H6 H7]. pose proof Hat as [Hg Hs Hc].
  destruct H4 as [T1 T2 T3 T4 [T5 T6]]. cbn [fst vma_heap] in T4, T5, T6. fold m in T4, T5, T6.
  set (node := v + off_vma_node). assert (Evn : vma_of node = v) by (unfold node, vma_of; lia).
  assert (Hob : objects off_vma_node (node :: nodes t)).
  { destruct T3 as (O1 & O2 & O3). split_and!.
    - constructor; [|done]. intros Hn. specialize (Hd node Hn). rewrite Evn in Hd. unfold sizeof_vma in Hd. lia.
    - intros x [->|Hx]%elem_of_cons; [|auto]. unfold node.
      apply used_elem in Hv as [(d & Hdd & Hv) _]. apply (slab_object_bounds sizeof_vma o al n Hg Hs) in Hv.
      pose proof (inv_place _ _ _ _ _ _ _ _ (co_cache _ _ _ _ _ _ _ _ _ H3) d Hdd) as (? & _). lia.
    - unfold sizeof_rb_node, off_vma_node in *. unfold vma_of, off_vma_node, sizeof_vma in Hd.
      intros x y [->|Hx]%elem_of_cons [->|Hy]%elem_of_cons Hne; [done| | |auto];
        [specialize (Hd y Hy)|specialize (Hd x Hx)]; unfold node; lia. }
  assert (Hnodup : forall x, x ∈ nodes t -> vma_start m x <> vma_start m node).
  { intros x Hx E. unfold vma_start at 2 in E. rewrite Evn in E. specialize (Hap x Hx). specialize (T5 x Hx). lia. }
  destruct (rb_insert_spec (vma_start m) vma_cmp (vma_heap s) t node turns T1 T2 T4
    (objects_good off_vma_node _ ltac:(done) Hob) (vma_compares _ m Hob) Hen)
    as ([m' r'] & r & E & Ho & Hcase). cbn [fst vma_heap] in Ho. fold m in Ho.
  destruct Hcase as [((x & Hx & Ex) & _)|(_ & _ & t' & F1 & F2 & F3 & F4)]; [by destruct (Hnodup x Hx)|].
  assert (Hfld : forall x k, x ∈ node :: nodes t -> 0 <= k < off_vma_node -> m' (vma_of x + k) = m (vma_of x + k)).
  { intros x k Hx Hk. by eapply vma_fields_kept. }
  assert (Hbnd : forall x, x ∈ node :: nodes t -> vma_start m' x = vma_start m x /\ vma_end m' x = vma_end m x).
  { intros x Hx. split; apply Hfld; done. }
  assert (Hw : object_writes sizeof_vma al n R fl (k_mem (p_k s)) m').
  { intros a Ha. apply Ho. intros x Hx.
    assert (Hu : vma_of x ∈ used_objects sizeof_vma al n R fl).
    { apply elem_of_cons in Hx as [->|Hx]; [by rewrite Evn|auto]. }
    specialize (Ha _ Hu). unfold vma_of, off_vma_node, sizeof_vma, sizeof_rb_node in *. lia. }
  destruct (object_writes_tables _ _ _ _ _ _ H3 H6 Hw) as [Hi Hl].
  unfold rb_insert_vma. wp_steps. unfold node in E. rewrite E. unfold of_loop. wp_steps. cbn [fst].
  exists m', r', t'. split; [done|]. split_and!; [|by rewrite F4|done|done].
  split; [done|by apply cache_owns_objects| | |done|by eapply same_leaves_frames].
  - change (vma_heap (set_heap (m', r') s)) with (m', r').
    split; [done|done|by eapply objects_perm| |]; cbn [fst].
    + eapply sorted_ext; [|exact F3]. intros x. rewrite F4. intros Hx. by apply Hbnd.
    + split.
      * intros x. rewrite F4. intros Hx. destruct (Hbnd x Hx) as [-> ->].
        apply elem_of_cons in Hx as [->|Hx]; [|auto]. unfold vma_start, vma_end. by rewrite Evn.
      * intros x y. rewrite !F4. intros Hx Hy.
        destruct (Hbnd x Hx) as [-> ->], (Hbnd y Hy) as [-> _].
        apply elem_of_cons in Hx as [->|Hx], Hy as [->|Hy]; [lia| | |auto].
        -- unfold vma_start at 1, vma_end. rewrite Evn. specialize (Hap y Hy). specialize (T5 y Hy). lia.
        -- unfold vma_start at 2 3. rewrite Evn. specialize (Hap x Hx). lia.
  - intros x. rewrite F4. intros [->|Hx]%elem_of_cons; [by rewrite Evn|auto].
Qed.
Lemma kvm_owned s L R fl t :
  kvm s L R fl t -> tables (owns := buddy_owns) (kernel_pml4t s) (p_k s) (free_pages L).
Proof.
  intros [[H1 H2] H3 H4 H5 H6 H7]. split.
  - eapply pt_inv_sub; [|exact H6]. intros x Hx. apply elem_of_app. by left.
  - exists L. split_and!; [by eapply co_buddy|done|done|by eapply co_client].
Qed.

(** Page tables grow into free pages only, away from the areas. *)
Lemma tables_kvm s k F' L R fl t :
  kvm s L R fl t -> lock_free k slab_lock -> tables (owns := buddy_owns) (kernel_pml4t s) k F' ->
  extended (kernel_pml4t s) (free_pages L) (k_mem (p_k s)) F' (k_mem k) ->
  exists L', F' ≡ₚ free_pages L' /\ kvm (set_k k s) L' R fl t /\
    forall x a, x ∈ nodes t -> vma_of x <= a < vma_of x + sizeof_vma -> k_mem k a = k_mem (p_k s) a.
Proof using Hat.
  intros [[H1 H2] H3 H4 H5 H6 H7] Hslk [Hti (L' & Hb & Hlk & HF & Hcl)] [E1 E2 E3 E4].
  pose proof Hat as [Hg Hs Hc].
  assert (Hkeep : forall a, page_of a ∈ slab_pages o R \/ 2 ^ 48 <= a -> k_mem k a = k_mem (p_k s) a).
  { intros a Ha. apply E4.
    - intros Hf. destruct Ha as [Ha|Ha].
      + apply list_elem_of_bind in Ha as (d & Hd & Hds). by eapply (co_pages _ _ _ _ _ _ _ _ _ H3).
      + eapply (high_page _ _ _ a (co_buddy _ _ _ _ _ _ _ _ _ H3)); done.
    - intros q Hq Et. destruct (pi_frame _ _ _ H6 q _ Hq Et) as [[_ Hf] Hn]. destruct Ha as [Ha|Ha].
      + apply Hn, elem_of_app. by right.
      + unfold page_of, PAGE_SIZE in Hf. dlia. }
  assert (Hobj : forall x a, x ∈ nodes t -> vma_of x <= a < vma_of x + sizeof_vma -> k_mem k a = k_mem (p_k s) a).
  { intros x a Hx Ha. apply Hkeep. left. by eapply used_page; [exact H3|apply H5|]. }
  exists L'. split; [done|]. split; [|done].
  assert (Hsub : forall x, x ∈ free_pages L' -> x ∈ free_pages L) by (intros x; rewrite <- HF; apply E2).
  split; [done| | |done| |].
  - split; [done| | |done|by eapply co_order].
    + eapply (cache_inv_same _ _ _ _ _ Hg Hs); [|apply (co_cache _ _ _ _ _ _ _ _ _ H3)].
      intros a [Ha|(d & Hd & Ha)]; apply Hkeep; [right; lia|left].
      apply list_elem_of_bind. exists d. split; [|done]. apply (slab_page sizeof_vma o al n Hg Hs); [|done].
      exact (inv_place _ _ _ _ _ _ _ _ (co_cache _ _ _ _ _ _ _ _ _ H3) d Hd).
    + intros d pg Hd Hpg Hf. by eapply (co_pages _ _ _ _ _ _ _ _ _ H3); [..|apply Hsub].
  - eapply (vma_words (vma_heap s)); [done| |done]. intros x j Hx Hj. apply (Hobj x); [done|lia].
  - destruct Hti as [P1 P2 P3]. split; [|done|done]. intros p tb Hp E.
    destruct (P1 p tb Hp E) as [Hf Hn]. split; [done|]. rewrite elem_of_app, <- HF. intros [?|Hsl]; [done|].
    destruct (E3 p tb Hp E) as [Eo|Hin].
    + destruct (pi_frame _ _ _ H6 p tb Hp Eo) as [_ Hno]. apply Hno, elem_of_app. by right.
    + apply list_elem_of_bind in Hsl as (d & Hd & Hds). by eapply (co_pages _ _ _ _ _ _ _ _ _ H3).
  - intros q tb Hq E. destruct (E3 q tb Hq E) as [Eo|Hin]; [by eapply H7|].
    by eapply (ac_free _ _ L); [apply H3|eapply co_client|].
Qed.

Lemma mapped_kvm s k N F' L R fl t :
  kvm s L R fl t -> after (owns := buddy_owns) (kernel_pml4t s) (p_k s) (free_pages L) N k F' ->
  exists L', F' ≡ₚ free_pages L' /\ kvm (set_k k s) L' R fl t /\
    forall x a, x ∈ nodes t -> vma_of x <= a < vma_of x + sizeof_vma -> k_mem k a = k_mem (p_k s) a.
Proof using Hat. intros Hkv (Hk & Ht & He & _). pose proof (kv_lock _ _ _ _ _ Hkv) as [Hl _]. eapply tables_kvm; eauto. by apply Hk. Qed.
End kvm.
