(* ===== verification/PagingTheorems.v ===== *)
(** * Kernel mappings: theorems

    [kmap_pages] over all the layers it uses, the split of the memory map into
    4 KB and 2 MB pages, and what unmapping does to an address no area holds. *)

From stdpp Require Import functions.
From S2P Require Import Prelude State Kmath Buddy FreeList BuddyInv BuddyDemo BuddyOps Slab SlabTheorems SlabRings PhysKmalloc SlabObjects SlabAlloc Mmu MmuInv MmuOps MmuTheorems RbTree RbRep RbInsert RbBalance RbTheorems Vm Paging LockFrame PagingInv.

Lemma wpe_ext {S A} (c c' : cmd S A) Q P s : c s = c' s -> wpe c' Q P s -> wpe c Q P s.
Proof. unfold wpe. by intros ->. Qed.

Lemma bind_assoc {S A B C} (c : cmd S A) (k : A -> cmd S B) (k' : B -> cmd S C) s :
  bind (bind c k) k' s = bind c (fun a => bind (k a) k') s.
Proof. unfold bind. by destruct (c s). Qed.

Lemma bind_ret_tt {S} (c : cmd S unit) s : bind c (fun _ => ret tt) s = c s.
Proof. unfold bind. by destruct (c s) as [[] ?| |]. Qed.

Lemma bind_ext {S A B} (c : cmd S A) (k k' : A -> cmd S B) s :
  (forall a s', k a s' = k' a s') -> bind c k s = bind c k' s.
Proof. intros H. unfold bind. destruct (c s); auto. Qed.

(** ** Recording an area *)

Section kmap.
Context {client : AllocClient} (img : kernel_image) (turns : nat) (o al n : Z).
Context (Hat : cache_at (vma_cache img) sizeof_vma o al n).

(** The part the mapping routines share: a new area for [va, va + bytes), put
    into the tree with the lock taken. *)
Definition record_area (msg : string) (paddr vaddr flags bytes : Z) : cmd pstate unit :=
  let! vma := lift (kmem_cache_kalloc (vma_cache img)) in
  if vma =? NULL then panic msg else
  lift (fill_vma vma vaddr (u64 (vaddr + bytes)) (Z.lor paddr flags));;
  lift (spinlock_acquire kernel_page_lock);;
  rb_insert_vma turns vma.

(** The area recorded and what the recording leaves alone. *)
Record recorded (va bytes pte : Z) (s : pstate) (L : Z -> list ptr) (t : tree) (s' : pstate)
    (L' : Z -> list ptr) (R' : slab_class -> list ptr) (fl' : ptr -> list ptr) (t' : tree) : Prop := {
  rc_kvm : kvm img o al n s' L' R' fl' t';
  rc_root : kernel_pml4t s' = kernel_pml4t s;
  rc_nodes : exists x, nodes t' ≡ₚ x :: nodes t /\ vma_start (k_mem (p_k s')) x = va /\
    vma_end (k_mem (p_k s')) x = va + bytes /\ k_mem (p_k s') (vma_of x + off_vma_pte) = pte;
  rc_others : forall x k, x ∈ nodes t -> 0 <= k < off_vma_node ->
    k_mem (p_k s') (vma_of x + k) = k_mem (p_k s) (vma_of x + k);
  rc_leaves : same_leaves (kernel_pml4t s) (k_mem (p_k s)) (k_mem (p_k s'));
  rc_frames : (length (free_pages L) <= length (free_pages L') + Z.to_nat (2 ^ o))%nat;
}.

(** No area overlaps the range. *)
Definition range_free (m : mem) (t : tree) (va bytes : Z) : Prop :=
  forall x, x ∈ nodes t -> vma_end m x <= va \/ va + bytes <= vma_start m x.

Lemma record_area_wpe msg pa va flags bytes s L R fl t :
  kvm img o al n s L R fl t -> lock_free (p_k s) kernel_page_lock -> enough t turns ->
  0 <= va -> 0 < bytes -> va + bytes < 2 ^ 64 -> range_free (k_mem (p_k s)) t va bytes ->
  wpe (record_area msg pa va flags bytes) (fun _ s' => exists k0 L' R' fl' t',
      kframe (p_k s) k0 /\ held kernel_page_lock k0 (p_k s') /\
      recorded va bytes (Z.lor pa flags) s L t s' L' R' fl' t')
    (fun m => m = msg /\ forall j, o <= j <= MAX_ORDER -> L j = []) s.
Proof using Hat.
  intros Hkv Hlk Hen Hva Hb Hwr Hfree. unfold record_area.
  apply wpe_bind. eapply wpe_mono; [apply wpe_wp, (kalloc_vma_wp _ _ _ _ Hat s L R fl t Hkv)| |intros msg0 H0; exact H0].
  cbv beta. intros v s1 (k1 & -> & Hk1 & Hcase). destruct Hcase as [(-> & HL)|(Hv & L1 & R1 & fl1 & Hkv1 & Hu & Hd & Hlen & Hl1 & Hw1)].
  { rewrite Z.eqb_refl. done. }
  rewrite (proj2 (Z.eqb_neq v NULL)) by done. rewrite (u64_small (va + bytes)) by lia.
  apply wpe_bind, wpe_wp, wp_lift. unfold fill_vma. kwp. cbn [p_k set_k k_mem set_mem].
  set (m2 := (k_mem k1).[v + off_vma_start <- va].[v + off_vma_end <- va + bytes].[v + off_vma_pte <- Z.lor pa flags]).
  assert (Hw : object_writes sizeof_vma al n R1 fl1 (k_mem k1) m2).
  { intros a Ha. specialize (Ha v Hu). unfold m2, off_vma_start, off_vma_end, off_vma_pte, sizeof_vma in *. by upd_solve. }
  assert (Hold : forall x k, x ∈ nodes t -> 0 <= k < sizeof_vma -> m2 (vma_of x + k) = k_mem k1 (vma_of x + k)).
  { intros x k Hx Hk. specialize (Hd x Hx). unfold m2, off_vma_start, off_vma_end, off_vma_pte, sizeof_vma in *. by upd_solve. }
  destruct (kvm_words _ _ _ _ Hat (set_k k1 s) m2 L1 R1 fl1 t Hkv1 Hw Hold) as [Hkv2 Hl2].
  cbn [p_k set_k kernel_pml4t] in Hkv2, Hl2.
  set (k2 := set_mem _ (set_mem _ _)).
  assert (Ek2 : k2 = set_mem m2 k1) by done. clearbody k2. subst k2.
  apply wpe_bind, wpe_wp, wp_lift. cbn [p_k set_k].
  apply wp_acquire; [by apply Hk1|]. intros k3 Hh Em Eb. cbn [k_mem k_buddy set_mem] in Em, Eb.
  assert (Hkv3 : kvm img o al n (set_k k3 s) L1 R1 fl1 t).
  { pose proof (kv_lock _ _ _ _ _ _ _ _ _ Hkv1) as [? ?].
    apply (kvm_state _ _ _ _ _ k3 _ _ _ _ Hkv2); [done|done|by apply Hh|by apply Hh]. }
  assert (Hbnd : forall x k, x ∈ nodes t -> 0 <= k < sizeof_vma ->
    k_mem k3 (vma_of x + k) = k_mem (p_k s) (vma_of x + k)).
  { intros x k Hx Hk. by rewrite Em, Hold, Hw1. }
  assert (E1 : k_mem k3 (v + off_vma_start) = va)
    by (rewrite Em; unfold m2, off_vma_start, off_vma_end, off_vma_pte; by upd_solve).
  assert (E2 : k_mem k3 (v + off_vma_end) = va + bytes)
    by (rewrite Em; unfold m2, off_vma_start, off_vma_end, off_vma_pte; by upd_solve).
  assert (E3 : k_mem k3 (v + off_vma_pte) = Z.lor pa flags) by (rewrite Em; apply upd_eq).
  eapply wpe_wp, wp_mono.
  { apply (insert_vma_wp _ _ _ _ Hat turns (set_k k3 s) L1 R1 fl1 t v Hkv3 Hu Hd); cbn [p_k set_k]; [| |done].
    - rewrite E1, E2. lia.
    - rewrite E1, E2. intros x Hx. unfold vma_end, vma_start. rewrite !Hbnd by done. by apply Hfree. }
  cbv beta. cbn [p_k set_k kernel_pml4t]. intros _ s4 (m4 & r4 & t' & -> & Hkv4 & HN & Hl4 & Hf4).
  assert (Hv4 : forall k, 0 <= k < off_vma_node -> m4 (v + k) = k_mem k3 (v + k)).
  { intros k Hk. specialize (Hf4 (v + off_vma_node) k ltac:(left) Hk). unfold vma_of in Hf4. by rewrite Z.add_simpl_r in Hf4. }
  exists (set_mem m2 k1), L1, R1, fl1, t'. split; [by apply kframe_set_mem|].
  split; [apply held_set_mem; exact Hh|]. split; [done|done| | | |done]; cbn [p_k set_heap set_k k_mem set_mem fst].
  - exists (v + off_vma_node). split; [done|]. unfold vma_start, vma_end, vma_of. rewrite Z.add_simpl_r.
    rewrite !Hv4 by done. done.
  - intros x k Hx Hk. rewrite Hf4 by (done || by right). apply Hbnd; [done|]. unfold off_vma_node, sizeof_vma in *. lia.
  - eapply same_leaves_trans; [exact Hl1|]. eapply same_leaves_trans; [|exact Hl4]. by rewrite Em.
Qed.

(** ** Mapping *)

(** The result of a mapping call: the invariant with one more area, of the
    given bounds and entry, and the other areas as they were. *)
Definition area_added (va bytes pte : Z) (s s' : pstate) (t t' : tree) : Prop :=
  exists x, nodes t' ≡ₚ x :: nodes t /\ vma_start (k_mem (p_k s')) x = va /\
    vma_end (k_mem (p_k s')) x = va + bytes /\ k_mem (p_k s') (vma_of x + off_vma_pte) = pte /\
    forall y k, y ∈ nodes t -> 0 <= k < off_vma_node ->
      k_mem (p_k s') (vma_of y + k) = k_mem (p_k s) (vma_of y + k).

(** Why a mapping call stops. *)
Definition out_of_memory (L : Z -> list ptr) (N : nat) (msg : string) : Prop :=
  msg = no_vma_struct /\ (forall j, o <= j <= MAX_ORDER -> L j = []) \/
  no_frame msg /\ (length (free_pages L) < N + Z.to_nat (2 ^ o))%nat.

Lemma kmap_wpe (V : mem -> Prop) N pa va flags num bytes s L R fl t :
  kvm img o al n s L R fl t -> lock_free (p_k s) kernel_page_lock -> enough t turns ->
  0 <= va -> 0 < bytes -> va + bytes < 2 ^ 64 -> range_free (k_mem (p_k s)) t va bytes ->
  (forall k F, tables (owns := buddy_owns) (kernel_pml4t s) k F ->
     same_leaves (kernel_pml4t s) (k_mem (p_k s)) (k_mem k) ->
     wpe (map_pages (kernel_pml4t s) pa va flags num) (fun _ k' => exists F',
         after (owns := buddy_owns) (kernel_pml4t s) k F N k' F' /\ V (k_mem k'))
       (fun msg => no_frame msg /\ (length F < N)%nat) k) ->
  wpe (record_area no_vma_struct pa va flags bytes;;
       let! pml4t := gets kernel_pml4t in
       lift (map_pages pml4t pa va flags num);;
       lift (spinlock_release kernel_page_lock))
    (fun _ s' => kframe (p_k s) (p_k s') /\ kernel_pml4t s' = kernel_pml4t s /\ V (k_mem (p_k s')) /\
       exists L' R' fl' t', kvm img o al n s' L' R' fl' t' /\
         (length (free_pages L) <= length (free_pages L') + (N + Z.to_nat (2 ^ o)))%nat /\
         area_added va bytes (Z.lor pa flags) s s' t t')
    (out_of_memory L N) s.
Proof using Hat.
  intros Hkv Hlk Hen Hva Hb Hwr Hfree Hmap. apply wpe_bind.
  eapply wpe_mono; [apply (record_area_wpe no_vma_struct pa va flags bytes s L R fl t); auto| |].
  2:{ intros msg [-> HL]. by left. }
  cbv beta. intros _ s1 (k0 & L1 & R1 & fl1 & t1 & Hk0 & Hh & [Hkv1 Er (x & HN & E1 & E2 & E3) Hoth Hlv Hlen]).
  apply wpe_bind, wpe_wp, wp_gets. apply wpe_bind, wpe_lift. rewrite Er.
  eapply wpe_mono; [apply (keeps_wpe kernel_page_lock); [by apply map_pages_keeps|]; apply (Hmap (p_k s1) (free_pages L1))| |].
  - rewrite <- Er. by eapply kvm_owned.
  - done.
  - cbv beta. intros _ k2 [(F' & Haft & HV) Hlock]. rewrite <- Er in Haft.
    destruct (mapped_kvm _ _ _ _ Hat s1 k2 N F' L1 R1 fl1 t1 Hkv1 Haft) as (L2 & HF2 & Hkv2 & Hw2).
    pose proof Haft as (Hk2 & _ & _ & Hlen2). rewrite HF2 in Hlen2. apply wpe_wp, wp_lift. cbn [p_k set_k].
    eapply wp_release; [by eapply held_keep|]. intros k3 Hk3 Em3 Eb3.
    assert (Hkf : kframe (p_k s) k3) by (by etrans).
    split; [done|]. split; [done|]. cbn [p_k set_k]. split; [by rewrite Em3|].
    pose proof (kv_lock _ _ _ _ _ _ _ _ _ Hkv) as [Hsl Hbl].
    exists L2, R1, fl1, t1. split.
    { eapply (kvm_state _ _ _ _ (set_k k2 s1) k3); [exact Hkv2|done|done|by apply Hkf|by apply Hkf]. }
    assert (Hfields : forall y k, y ∈ nodes t1 -> 0 <= k < off_vma_node ->
      k_mem k3 (vma_of y + k) = k_mem (p_k s1) (vma_of y + k)).
    { intros y k Hy Hk. rewrite Em3. apply (Hw2 y); [done|]. unfold off_vma_node, sizeof_vma in *. lia. }
    assert (Hx : x ∈ nodes t1) by (rewrite HN; left).
    split; [lia|]. exists x. cbn [p_k set_k]. unfold vma_start, vma_end in *.
    rewrite !Hfields by done. split_and!; try done.
    intros y k Hy Hk. rewrite Hfields, Hoth by (done || rewrite HN; by right). done.
  - intros msg [Hm Hl]. right. split; [done|lia].
Qed.

(** The entries after [num] 4 KB pages were mapped. *)
Definition pages_mapped (root pa va flags num : Z) (m m' : mem) : Prop :=
  (forall v, (forall i, 0 <= i < num -> huge_vpn v <> huge_vpn (u64 (va + i * PAGE_SIZE))) ->
     pde m' root v = pde m root v) /\
  same_huge root m m' /\
  (forall i, 0 <= i < num -> pte m' root (u64 (va + i * PAGE_SIZE)) =
     Z.lor (u64 (pa - pa mod PAGE_SIZE + i * PAGE_SIZE)) flags) /\
  (forall v, (forall i, 0 <= i < num -> vpn v <> vpn (u64 (va + i * PAGE_SIZE))) -> pte m' root v = pte m root v).

Lemma kmap_pages_wpe pa va flags num s L R fl t :
  kvm img o al n s L R fl t -> lock_free (p_k s) kernel_page_lock -> enough t turns ->
  has_flag flags PTE_HUGE_PAGE = false -> 0 < num <= 2 ^ 36 -> 0 <= pa < 2 ^ 64 ->
  0 <= va -> va + num * PAGE_SIZE < 2 ^ 64 -> range_free (k_mem (p_k s)) t va (num * PAGE_SIZE) ->
  (forall i, 0 <= i < num -> let v := u64 (va + i * PAGE_SIZE) in
     huge_leaf (k_mem (p_k s)) (kernel_pml4t s) (pd_path v) (VIRT_TO_PD_IDX v) = 0) ->
  wpe (kmap_pages img turns pa va flags num) (fun _ s' => kframe (p_k s) (p_k s') /\
      kernel_pml4t s' = kernel_pml4t s /\
      pages_mapped (kernel_pml4t s) pa va flags num (k_mem (p_k s)) (k_mem (p_k s')) /\
      exists L' R' fl' t', kvm img o al n s' L' R' fl' t' /\
         (length (free_pages L) <= length (free_pages L') + (3 * Z.to_nat num + Z.to_nat (2 ^ o)))%nat /\
         area_added va (num * PAGE_SIZE) (Z.lor pa flags) s s' t t') (out_of_memory L (3 * Z.to_nat num)) s.
Proof using Hat.
  intros Hkv Hlk Hen Hfl Hn Hpa Hva Hwr Hfree Hh. set (root := kernel_pml4t s) in *.
  set (m := k_mem (p_k s)) in *.
  unfold kmap_pages. rewrite Hfl. rewrite (u64_small (num * PAGE_SIZE)) by (unfold PAGE_SIZE in *; lia).
  apply (kmap_wpe (pages_mapped root pa va flags num m) _ pa va flags num (num * PAGE_SIZE) s L R fl t); auto;
    [unfold PAGE_SIZE; lia|].
  intros k F Ht Hl. fold root in Ht, Hl |- *. fold m in Hl.
  eapply wpe_mono; [apply (map_pages_wpe root pa va flags num k F Ht Hfl); unfold PAGE_SIZE in *; try lia| |done].
  - intros i Hi. cbv zeta. unfold huge_leaf. rewrite Hl by (apply pd_path_ok || apply idx_land). by apply Hh.
  - cbv beta. intros _ k' (F' & Haft & Hd & Hsh & Hp & Ho). exists F'. split; [done|]. split_and!; [| |done|].
    + intros v Hv. rewrite Hd by done. apply Hl; [apply pd_path_ok|apply idx_land].
    + intros q j Hq Hlq Hj. rewrite Hsh by done. unfold huge_leaf. by rewrite Hl.
    + intros v Hv. rewrite Ho by done. unfold pte. apply Hl; [apply pt_path_ok|apply idx_land].
Qed.

(** C8. [kmap_pages] of [num] 4 KB pages in a kernel address space where no area
    overlaps the range and no huge page lies in it: it either returns with the
    area [va, va + num * 4096) added to the tree of areas, page [i] mapped to
    frame [i] with the given flags, every other 4 KB entry and every other area
    as before, all locks free again, and the invariant over the page
    allocator, the cache of areas, the tree and the page tables restored; or it
    stops in PANIC because no memory was left for the area or for a table,
    which three free frames per page and those of one slab rule out. *)
Theorem kmap_pages_correct pa va flags num s L R fl t :
  kvm img o al n s L R fl t -> lock_free (p_k s) kernel_page_lock -> enough t turns ->
  has_flag flags PTE_HUGE_PAGE = false -> 0 < num <= 2 ^ 36 -> 0 <= pa < 2 ^ 64 ->
  0 <= va -> va + num * PAGE_SIZE < 2 ^ 64 -> range_free (k_mem (p_k s)) t va (num * PAGE_SIZE) ->
  (forall i, 0 <= i < num -> let v := u64 (va + i * PAGE_SIZE) in
     huge_leaf (k_mem (p_k s)) (kernel_pml4t s) (pd_path v) (VIRT_TO_PD_IDX v) = 0) ->
  (exists s', kmap_pages img turns pa va flags num s = Ret tt s' /\
     kframe (p_k s) (p_k s') /\ kernel_pml4t s' = kernel_pml4t s /\
     (forall i, 0 <= i < num -> pte (k_mem (p_k s')) (kernel_pml4t s) (u64 (va + i * PAGE_SIZE)) =
        Z.lor (u64 (pa - pa mod PAGE_SIZE + i * PAGE_SIZE)) flags) /\
     (forall v, (forall i, 0 <= i < num -> vpn v <> vpn (u64 (va + i * PAGE_SIZE))) ->
        pte (k_mem (p_k s')) (kernel_pml4t s) v = pte (k_mem (p_k s)) (kernel_pml4t s) v) /\
     exists L' R' fl' t', kvm img o al n s' L' R' fl' t' /\
       area_added va (num * PAGE_SIZE) (Z.lor pa flags) s s' t t') \/
  (exists msg, kmap_pages img turns pa va flags num s = Panic msg /\ out_of_memory L (3 * Z.to_nat num) msg).
Proof using Hat.
  intros Hkv Hlk Hen Hfl Hn Hpa Hva Hwr Hfree Hh.
  destruct (wpe_elim _ _ _ _ (kmap_pages_wpe pa va flags num s L R fl t Hkv Hlk Hen Hfl Hn Hpa Hva Hwr Hfree Hh))
    as [([] & s' & E & H1 & H2 & (_ & _ & H3 & H4) & L' & R' & fl' & t' & H5 & _ & H6)|(msg & E & HO)];
    [left|right; by exists msg].
  exists s'. split_and!; try done. by exists L', R', fl', t'.
Qed.

Lemma kmap_huge_pages_wpe pa va flags num s L R fl t :
  kvm img o al n s L R fl t -> lock_free (p_k s) kernel_page_lock -> enough t turns ->
  has_flag flags PTE_HUGE_PAGE = true -> 0 < num <= 2 ^ 27 -> 0 <= pa < 2 ^ 64 ->
  0 <= va -> va + num * HUGE_PAGE_SIZE < 2 ^ 64 -> range_free (k_mem (p_k s)) t va (num * HUGE_PAGE_SIZE) ->
  (forall i, 0 <= i < num -> no_table_at (kernel_pml4t s) (k_mem (p_k s)) (u64 (va + i * HUGE_PAGE_SIZE))) ->
  wpe (kmap_pages img turns pa va flags num) (fun _ s' =>
     kframe (p_k s) (p_k s') /\ kernel_pml4t s' = kernel_pml4t s /\
     ((forall v, pte (k_mem (p_k s')) (kernel_pml4t s) v = pte (k_mem (p_k s)) (kernel_pml4t s) v) /\
      (forall i, 0 <= i < num -> pde (k_mem (p_k s')) (kernel_pml4t s) (u64 (va + i * HUGE_PAGE_SIZE)) =
         Z.lor (u64 (pa + i * HUGE_PAGE_SIZE)) flags) /\
      (forall v, (forall i, 0 <= i < num -> huge_vpn v <> huge_vpn (u64 (va + i * HUGE_PAGE_SIZE))) ->
         pde (k_mem (p_k s')) (kernel_pml4t s) v = pde (k_mem (p_k s)) (kernel_pml4t s) v)) /\
     exists L' R' fl' t', kvm img o al n s' L' R' fl' t' /\
         (length (free_pages L) <= length (free_pages L') + (2 * Z.to_nat num + Z.to_nat (2 ^ o)))%nat /\
         area_added va (num * HUGE_PAGE_SIZE) (Z.lor pa flags) s s' t t') (out_of_memory L (2 * Z.to_nat num)) s.
Proof using Hat.
  intros Hkv Hlk Hen Hfl Hn Hpa Hva Hwr Hfree Hh. set (root := kernel_pml4t s) in *.
  set (m := k_mem (p_k s)) in *. unfold kmap_pages. rewrite Hfl.
  rewrite (u64_small (num * HUGE_PAGE_SIZE)) by (unfold HUGE_PAGE_SIZE in *; lia).
  apply (kmap_wpe (fun m' => (forall v, pte m' root v = pte m root v) /\
      (forall i, 0 <= i < num -> pde m' root (u64 (va + i * HUGE_PAGE_SIZE)) =
         Z.lor (u64 (pa + i * HUGE_PAGE_SIZE)) flags) /\
      (forall v, (forall i, 0 <= i < num -> huge_vpn v <> huge_vpn (u64 (va + i * HUGE_PAGE_SIZE))) ->
         pde m' root v = pde m root v)) _ pa va flags num (num * HUGE_PAGE_SIZE) s L R fl t); auto;
    [unfold HUGE_PAGE_SIZE; lia|].
  intros k F Ht Hl. fold root in Ht, Hl |- *. fold m in Hl.
  eapply wpe_mono; [apply (map_huge_pages_wpe root pa va flags num k F Ht Hfl); unfold HUGE_PAGE_SIZE in *; try lia| |done].
  - intros i Hi. unfold no_table_at. rewrite Hl by (apply pd_path_ok || apply idx_land). by apply Hh.
  - cbv beta. intros _ k' (F' & Haft & Hp & Hi & Ho). exists F'. split; [done|]. split_and!; [|done|].
    + intros v. rewrite Hp. unfold pte. apply Hl; [apply pt_path_ok|apply idx_land].
    + intros v Hv. rewrite Ho by done. unfold pde. apply Hl; [apply pd_path_ok|apply idx_land].
Qed.

Definition no_vma_page : string := "FAILED TO ALLOCATE VMA STRUCT IN KMAP_PAGE".

(** [kmap_page] is the common part, then [map_page]. *)
Lemma kmap_page_area pa va flags s :
  kmap_page img turns pa va flags s =
  (record_area no_vma_page pa va flags PAGE_SIZE;;
   let! pml4t := gets kernel_pml4t in
   lift (map_page pml4t pa va flags);;
   lift (spinlock_release kernel_page_lock)) s.
Proof.
  unfold kmap_page, record_area. rewrite bind_assoc. apply bind_ext. intros v s1. destruct (v =? NULL); [done|].
  rewrite bind_assoc. apply bind_ext. intros _ s2. by rewrite bind_assoc.
Qed.

(** C40. [kmap_page] of a 4 KB page records the area and maps nothing: it returns
    with [va, va + 4096) in the tree of areas and every entry of every page table
    as before, so the address the tree calls mapped is not; or it stops in PANIC
    because no memory was left for the area. *)
Theorem kmap_page_records_only pa va flags s L R fl t :
  kvm img o al n s L R fl t -> lock_free (p_k s) kernel_page_lock -> enough t turns ->
  has_flag flags PTE_HUGE_PAGE = false -> 0 <= va -> va + PAGE_SIZE < 2 ^ 64 ->
  range_free (k_mem (p_k s)) t va PAGE_SIZE ->
  (exists s' L' R' fl' t', kmap_page img turns pa va flags s = Ret tt s' /\ kframe (p_k s) (p_k s') /\
     kvm img o al n s' L' R' fl' t' /\ area_added va PAGE_SIZE (Z.lor pa flags) s s' t t' /\
     same_leaves (kernel_pml4t s) (k_mem (p_k s)) (k_mem (p_k s'))) \/
  (exists msg, kmap_page img turns pa va flags s = Panic msg /\ forall j, o <= j <= MAX_ORDER -> L j = []).
Proof using Hat.
  intros Hkv Hlk Hen Hfl Hva Hwr Hfree.
  assert (Hw : wpe (kmap_page img turns pa va flags) (fun _ s' => kframe (p_k s) (p_k s') /\
      exists L' R' fl' t', kvm img o al n s' L' R' fl' t' /\ area_added va PAGE_SIZE (Z.lor pa flags) s s' t t' /\
      same_leaves (kernel_pml4t s) (k_mem (p_k s)) (k_mem (p_k s')))
    (fun _ => forall j, o <= j <= MAX_ORDER -> L j = []) s).
  { eapply wpe_ext; [apply kmap_page_area|]. apply wpe_bind.
    eapply wpe_mono; [apply (record_area_wpe no_vma_page pa va flags PAGE_SIZE s L R fl t); auto; done| |by intros msg [_ ?]].
    cbv beta. intros _ s1 (k0 & L1 & R1 & fl1 & t1 & Hk0 & Hh & [Hkv1 Er (x & HN & E1 & E2 & E3) Hoth Hlv _]).
    apply wpe_wp. wp_steps. apply wp_lift. unfold map_page. rewrite Hfl. wp_steps. apply wp_lift. cbn [p_k set_k].
    eapply wp_release; [exact Hh|]. intros k2 Hk2 Em Eb. assert (Hkf : kframe (p_k s) k2) by (by etrans).
    split; [done|]. exists L1, R1, fl1, t1. pose proof (kv_lock _ _ _ _ _ _ _ _ _ Hkv) as [Hsl Hbl].
    cbn [p_k set_k]. split_and!.
    - eapply (kvm_state _ _ _ _ s1 k2); [exact Hkv1|done|done|by apply Hkf|by apply Hkf].
    - exists x. cbn [p_k set_k]. rewrite Em. split_and!; try done.
    - by rewrite Em. }
  destruct (wpe_elim _ _ _ _ Hw) as [([] & s' & E & H1 & L' & R' & fl' & t' & H2 & H3 & H4)|(msg & E & HO)];
    [left|right; by exists msg].
  exists s', L', R', fl', t'. done.
Qed.
End kmap.

(** ** The direct map of a memory region *)

(** A run of pages: first frame, whether huge, how many. *)
Record span : Set := mk_span { sp_first : Z; sp_huge : bool; sp_count : Z }.

Definition span_pages (sp : span) : list Z :=
  page_range (sp_first sp) (if sp_huge sp then 512 * sp_count sp else sp_count sp).

Fixpoint map_spans (img : kernel_image) (turns : nat) (l : list span) : cmd pstate unit :=
  match l with
  | [] => ret tt
  | sp :: l =>
      kmap_pages img turns (sp_first sp) (u64 (DIRECT_MAP_START + sp_first sp))
        (if sp_huge sp then Z.lor PTE_FLAGS_DIRECT_MAP PTE_HUGE_PAGE else PTE_FLAGS_DIRECT_MAP) (sp_count sp);;
      map_spans img turns l
  end.

(** The 2 MB block around [pg] lies in the region. *)
Definition whole_block (first last pg : Z) : Prop :=
  let block := pg / HUGE_PAGE_SIZE * HUGE_PAGE_SIZE in first <= block /\ block + HUGE_PAGE_SIZE <= last.

(** A run of pages of the size that fits its place in [first, last): 2 MB pages where
    the whole aligned block lies in the region, and only there. *)
Record span_ok (first last : Z) (sp : span) : Prop := {
  so_count : 0 < sp_count sp;
  so_aligned : ((if sp_huge sp then HUGE_PAGE_SIZE else PAGE_SIZE) | sp_first sp);
  so_size : forall pg, pg ∈ span_pages sp -> sp_huge sp = true <-> whole_block first last pg;
}.

Lemma page_mask x : 0 <= x < 2 ^ 64 -> Z.land x (not64 (PAGE_SIZE - 1)) = x - x mod PAGE_SIZE.
Proof. intros. change (PAGE_SIZE - 1) with (2 ^ 12 - 1). rewrite land_not64_low by lia. done. Qed.
Lemma huge_mask x : 0 <= x < 2 ^ 64 -> Z.land x (not64 (HUGE_PAGE_SIZE - 1)) = x - x mod HUGE_PAGE_SIZE.
Proof. intros. change (HUGE_PAGE_SIZE - 1) with (2 ^ 21 - 1). rewrite land_not64_low by lia. done. Qed.

(** The frames of consecutive runs. *)
Lemma page_range_seq x y z a b :
  x <= y <= z -> y - x = a * PAGE_SIZE -> z - y = b * PAGE_SIZE ->
  page_range x ((z - x) / PAGE_SIZE) = page_range x a ++ page_range y b.
Proof.
  intros H E1 E2. assert ((z - x) / PAGE_SIZE = a + b) as ->.
  { replace (z - x) with ((a + b) * PAGE_SIZE) by lia. by apply Z.div_mul. }
  unfold PAGE_SIZE in *. rewrite page_range_app by lia. do 2 f_equal. unfold PAGE_SIZE. lia.
Qed.

(** A run between two bounds. *)
Lemma span_ok_intro first last lo hi sp :
  0 < sp_count sp -> ((if sp_huge sp then HUGE_PAGE_SIZE else PAGE_SIZE) | sp_first sp) ->
  lo <= sp_first sp -> sp_first sp + (if sp_huge sp then 512 * sp_count sp else sp_count sp) * PAGE_SIZE <= hi ->
  (forall pg, lo <= pg < hi -> sp_huge sp = true <-> whole_block first last pg) -> span_ok first last sp.
Proof.
  intros H1 H2 H3 H4 H5. split; [done|done|]. intros pg (i & -> & Hi%elem_of_seqZ)%list_elem_of_fmap. apply H5.
  unfold PAGE_SIZE in *. destruct (sp_huge sp); lia.
Qed.

(** The calls for [first, last) with the 2 MB pages on [hb, he). *)
Definition three_spans (first hb he last : Z) : list span :=
  (if first <? hb then [mk_span first false ((hb - first) / PAGE_SIZE)] else []) ++
  mk_span hb true ((he - hb) / HUGE_PAGE_SIZE) ::
  (if (last - he) / PAGE_SIZE >? 0 then [mk_span he false ((last - he) / PAGE_SIZE)] else []).

(** Their lengths, in pages. *)
Lemma three_spans_counts qf ql qb qe first hb he last :
  first = qf * PAGE_SIZE -> last = ql * PAGE_SIZE -> hb = qb * HUGE_PAGE_SIZE -> he = qe * HUGE_PAGE_SIZE ->
  (hb - first) / PAGE_SIZE = 512 * qb - qf /\ (he - hb) / HUGE_PAGE_SIZE = qe - qb /\
  (last - he) / PAGE_SIZE = ql - 512 * qe.
Proof. unfold PAGE_SIZE, HUGE_PAGE_SIZE. intros. split_and!; dlia. Qed.

Lemma three_spans_spec first hb he last :
  (PAGE_SIZE | first) -> (PAGE_SIZE | last) -> (HUGE_PAGE_SIZE | hb) -> (HUGE_PAGE_SIZE | he) ->
  first <= hb < first + HUGE_PAGE_SIZE -> he <= last < he + HUGE_PAGE_SIZE -> hb < he ->
  three_spans first hb he last ≫= span_pages = page_range first ((last - first) / PAGE_SIZE) /\
  Forall (span_ok first last) (three_spans first hb he last).
Proof.
  intros [qf Ef] [ql El] [qb Eb] [qe Ee] Rb Re Hlt. unfold three_spans.
  destruct (three_spans_counts qf ql qb qe first hb he last Ef El Eb Ee) as (-> & -> & ->).
  unfold HUGE_PAGE_SIZE in Eb, Ee, Rb, Re. unfold PAGE_SIZE in Ef, El. split.
  - rewrite bind_app, bind_cons. unfold span_pages at 2. cbn [sp_first sp_huge sp_count].
    rewrite (page_range_seq first hb last (512 * qb - qf) (ql - 512 * qb)) by (unfold PAGE_SIZE; lia). f_equal.
    + destruct (Z.ltb_spec first hb); [cbn; by rewrite app_nil_r|]. by replace (512 * qb - qf) with 0 by lia.
    + replace (ql - 512 * qb) with ((last - hb) / PAGE_SIZE) by (unfold PAGE_SIZE; dlia).
      rewrite (page_range_seq hb he last (512 * (qe - qb)) (ql - 512 * qe)) by (unfold PAGE_SIZE; lia). f_equal.
      destruct (Z.gtb_spec (ql - 512 * qe) 0); [cbn; by rewrite app_nil_r|]. by replace (ql - 512 * qe) with 0 by lia.
  - apply Forall_app. split; [|apply Forall_cons; split].
    + destruct (Z.ltb_spec first hb); [|constructor]. apply Forall_singleton.
      apply (span_ok_intro _ _ first hb); cbn [sp_count sp_huge sp_first]; unfold PAGE_SIZE; [lia|by exists qf|lia|lia|].
      intros pg Hpg. unfold whole_block, HUGE_PAGE_SIZE. split; [done|dlia].
    + apply (span_ok_intro _ _ hb he); cbn [sp_count sp_huge sp_first]; unfold PAGE_SIZE; [lia|by exists qb|lia|lia|].
      intros pg Hpg. unfold whole_block, HUGE_PAGE_SIZE. split; [dlia|done].
    + destruct (Z.gtb_spec (ql - 512 * qe) 0); [|constructor]. apply Forall_singleton.
      apply (span_ok_intro _ _ he last); cbn [sp_count sp_huge sp_first]; unfold PAGE_SIZE; [lia|exists (512 * qe); lia|lia|lia|].
      intros pg Hpg. unfold whole_block, HUGE_PAGE_SIZE. split; [done|dlia].
Qed.

(** The calls the code makes are these. *)
Lemma map_three_spans img turns first hb he last s :
  ((if first <? hb then kmap_pages img turns first (u64 (DIRECT_MAP_START + first)) PTE_FLAGS_DIRECT_MAP
      ((hb - first) / PAGE_SIZE) else ret tt);;
   kmap_pages img turns hb (u64 (DIRECT_MAP_START + hb)) (Z.lor PTE_FLAGS_DIRECT_MAP PTE_HUGE_PAGE)
     ((he - hb) / HUGE_PAGE_SIZE);;
   if (last - he) / PAGE_SIZE >? 0 then kmap_pages img turns he (u64 (DIRECT_MAP_START + he)) PTE_FLAGS_DIRECT_MAP
      ((last - he) / PAGE_SIZE) else ret tt) s = map_spans img turns (three_spans first hb he last) s.
Proof.
  unfold three_spans. set (post := if (last - he) / PAGE_SIZE >? 0 then [_] else []).
  assert (Htail : forall s', (if (last - he) / PAGE_SIZE >? 0 then kmap_pages img turns he
    (u64 (DIRECT_MAP_START + he)) PTE_FLAGS_DIRECT_MAP ((last - he) / PAGE_SIZE) else ret tt) s' =
    map_spans img turns post s').
  { intros s'. unfold post. destruct (_ >? 0); [|done]. symmetry. apply bind_ret_tt. }
  destruct (first <? hb); cbn [app map_spans sp_first sp_huge sp_count];
    [apply bind_ext; intros _ s1|unfold bind at 1; cbn [ret]]; apply bind_ext; intros _ s2; apply Htail.
Qed.

(** C21. The direct map of a usable region of the memory map covers exactly the
    whole pages inside it: the calls [map_direct_entry] makes map, in order and
    each once, the frames from the region's start rounded up to its end rounded
    down; each at the direct map, with 2 MB pages, aligned, exactly where the whole
    aligned 2 MB block around the frame lies in the region and 4 KB pages elsewhere;
    no call maps zero pages.  Entries of another type and regions without a whole
    page map nothing. *)
Theorem direct_mapping_exact img turns e s :
  0 <= me_base_address e -> 0 <= me_chunk_size e ->
  me_base_address e + me_chunk_size e < 2 ^ 64 - HUGE_PAGE_SIZE ->
  let first := (me_base_address e + PAGE_SIZE - 1) / PAGE_SIZE * PAGE_SIZE in
  let last := (me_base_address e + me_chunk_size e) / PAGE_SIZE * PAGE_SIZE in
  exists spans, map_direct_entry img turns e s = map_spans img turns spans s /\
    spans ≫= span_pages =
      (if (me_type e =? 1) && (first <? last) then page_range first ((last - first) / PAGE_SIZE) else []) /\
    Forall (span_ok first last) spans.
Proof.
  intros Hb Hs Hw first last. unfold map_direct_entry.
  destruct (me_type e =? 1); cbn [negb andb]; [|exists []; done].
  unfold PAGE_SIZE, HUGE_PAGE_SIZE in Hw. set (b := me_base_address e) in *. set (z := me_chunk_size e) in *.
  rewrite (u64_small (b + z)), (u64_small (b + PAGE_SIZE - 1)) by (unfold PAGE_SIZE; lia).
  rewrite !page_mask by (unfold PAGE_SIZE; lia).
  replace (b + PAGE_SIZE - 1 - (b + PAGE_SIZE - 1) mod PAGE_SIZE) with first by (unfold first, PAGE_SIZE; dlia).
  replace (b + z - (b + z) mod PAGE_SIZE) with last by (unfold last, PAGE_SIZE; dlia).
  assert (Hf : (PAGE_SIZE | first)) by apply Z.divide_factor_r.
  assert (Hl : (PAGE_SIZE | last)) by apply Z.divide_factor_r.
  assert (Hr : 0 <= first /\ 0 <= last < 2 ^ 64 - 0x200000) by (unfold first, last, PAGE_SIZE; dlia).
  clearbody first last. rewrite Z.geb_leb. destruct (Z.leb_spec last first) as [Hle|Hlt].
  { rewrite (proj2 (Z.ltb_ge first last)) by lia. exists []. done. }
  rewrite (proj2 (Z.ltb_lt first last)) by lia.
  rewrite (u64_small (first + HUGE_PAGE_SIZE - 1)) by (unfold HUGE_PAGE_SIZE; lia).
  rewrite !huge_mask by (unfold HUGE_PAGE_SIZE; lia).
  set (hb := first + HUGE_PAGE_SIZE - 1 - _). set (he := last - last mod HUGE_PAGE_SIZE).
  assert (Hhb : (HUGE_PAGE_SIZE | hb) /\ first <= hb < first + HUGE_PAGE_SIZE).
  { unfold hb, HUGE_PAGE_SIZE. split; [|dlia]. apply Z.mod_divide; [done|]. dlia. }
  assert (Hhe : (HUGE_PAGE_SIZE | he) /\ he <= last < he + HUGE_PAGE_SIZE).
  { unfold he, HUGE_PAGE_SIZE. split; [|dlia]. apply Z.mod_divide; [done|]. dlia. }
  clearbody hb he. clear Hw. destruct Hhb as [Dhb Rhb], Hhe as [Dhe Rhe].
  rewrite Z.geb_leb. destruct (Z.leb_spec he hb) as [Hno|Hyes].
  - rewrite (u64_small (last - first)) by lia.
    exists [mk_span first false ((last - first) / PAGE_SIZE)]. split; [|split].
    + cbn [map_spans sp_first sp_huge sp_count]. by rewrite bind_ret_tt.
    + simpl. by rewrite app_nil_r.
    + apply Forall_singleton. destruct Hf as [qf ->], Hl as [ql ->], Dhb as [qb ->], Dhe as [qe ->].
      apply (span_ok_intro _ _ (qf * PAGE_SIZE) (ql * PAGE_SIZE)); cbn [sp_count sp_huge sp_first];
        [unfold PAGE_SIZE in *; dlia|apply Z.divide_factor_r|lia|unfold PAGE_SIZE; dlia|].
      intros pg Hpg. unfold whole_block, HUGE_PAGE_SIZE, PAGE_SIZE in *. split; [done|dlia].
  - rewrite (u64_small (hb - first)), (u64_small (he - hb)), (u64_small (last - he)) by lia.
    exists (three_spans first hb he last). split; [apply map_three_spans|by apply three_spans_spec].
Qed.

Lemma direct_mapping_exact_witness :
  exists spans, map_direct_entry (mk_kernel_image 0xffffffff80040000 0 0 0 0 0 0 [] 0 0 0) 2
      (mk_mmap_entry 0x1ff800 0x401000 1 1) (mk_pstate demo_state 0x400000 NULL NULL 0) =
    map_spans (mk_kernel_image 0xffffffff80040000 0 0 0 0 0 0 [] 0 0 0) 2 spans (mk_pstate demo_state 0x400000 NULL NULL 0) /\
    spans ≫= span_pages = page_range 0x200000 1024 /\
    (forall sp, sp ∈ spans -> 0x400000 ∈ span_pages sp -> sp_huge sp = true).
Proof.
  destruct (direct_mapping_exact (mk_kernel_image 0xffffffff80040000 0 0 0 0 0 0 [] 0 0 0) 2
    (mk_mmap_entry 0x1ff800 0x401000 1 1) (mk_pstate demo_state 0x400000 NULL NULL 0)
    ltac:(done) ltac:(done) ltac:(done)) as (spans & E & H & Hok). exists spans. split; [exact E|]. split; [exact H|].
    intros sp Hsp Hpg. rewrite Forall_forall in Hok. apply (so_size _ _ _ (Hok sp Hsp) _ Hpg). vm_compute. split; discriminate.
Defined.

(** ** A concrete address space: the empty one *)

Definition demo_image : kernel_image :=
  mk_kernel_image 0xffffffff80040000 0xffffffff80013000 0xffffffff80050000 0xffffffff80020000
    0xffffffff80020000 0xffffffff80025000 0xffffffff80030000 [] 0xfd000000 5120 720.

Definition demo_kernel : kstate :=
  set_mem (created_mem (vma_cache demo_image) sizeof_vma 0 8 72 (k_mem demo_state)) demo_state.
Definition demo_space : pstate := mk_pstate demo_kernel 0x400000 NULL NULL 0.

Lemma demo_image_cache : cache_at (vma_cache demo_image) sizeof_vma 0 8 72.
Proof. split; [vm_compute; reflexivity|done|done]. Qed.

Lemma demo_kvm : kvm demo_image 0 8 72 demo_space demo_lists (fun _ => []) (fun _ => []) Leaf.
Proof.
  destruct (created_mem_ready (vma_cache demo_image) sizeof_vma 0 8 72 (k_mem demo_state)
    ltac:(vm_compute; reflexivity)) as [Hr Hf].
  assert (Hfree : forall a, page_of a ∈ free_pages demo_lists -> k_mem demo_kernel a = k_mem demo_state a).
  { intros a Ha. apply Hf. destruct (decide (a < vma_cache demo_image)); [by left|]. exfalso.
    eapply (high_page _ _ _ a demo_inv); [|exact Ha]. unfold demo_image, vma_cache in *. lia. }
  split; [done| | |by intros x Hx%elem_of_nil| |done].
  - apply ready_cache_owns; [exact demo_image_cache|exact Hr| |done|done].
    eapply buddy_inv_local; [exact demo_inv|exact Hfree].
  - split; [split; [done|done|done|]|split; [done|exists O; constructor]|..|]; cbn [nodes app ctx_nodes]; try done.
    + split_and!; [constructor|by intros x ?%elem_of_nil|by intros x y ?%elem_of_nil].
    + split_and!; [constructor|by intros x ?%elem_of_nil|by intros x y ?%elem_of_nil].
    + split; [by intros x ?%elem_of_nil|by intros x y ?%elem_of_nil].
  - cbn [demo_space p_k kernel_pml4t]. change (slab_pages 0 (fun _ => [])) with (@nil Z). rewrite app_nil_r.
    pose proof (ta_inv _ _ _ demo_tables) as Ht.
    eapply (tables_kept _ _ _ _ demo_image_cache); [exact Ht|].
    intros a Ha _. apply Hf. cbn. unfold sizeof_kmem_cache in *. cbn in Ha. lia.
Qed.

Lemma kmap_pages_correct_witness :
  exists s', kmap_pages demo_image 2 0x123456 0xffff800000200000 3 2 demo_space = Ret tt s' /\
    pte (k_mem (p_k s')) 0x400000 (u64 (0xffff800000200000 + 1 * PAGE_SIZE)) = 0x124003.
Proof.
  destruct (kmap_pages_correct demo_image 2 0 8 72 demo_image_cache 0x123456 0xffff800000200000 3 2 demo_space
    demo_lists (fun _ => []) (fun _ => []) Leaf demo_kvm eq_refl ltac:(vm_compute; lia) eq_refl ltac:(done)
    ltac:(done) ltac:(done) ltac:(done)) as [(s' & E & _ & _ & H & _)|(msg & E & _)].
  - intros x Hx. exfalso. apply elem_of_nil in Hx. exact Hx.
  - intros i Hi. assert (i = 0 \/ i = 1) as [-> | ->] by lia; vm_compute; reflexivity.
  - exists s'. split; [exact E|]. apply (H 1). lia.
  - exfalso. assert (Hc : match kmap_pages demo_image 2 0x123456 0xffff800000200000 3 2 demo_space with
      | Panic _ => False | _ => True end) by (vm_compute; exact I). rewrite E in Hc. exact Hc.
Defined.

Lemma kmap_page_records_only_witness :
  exists s', kmap_page demo_image 2 0x123000 0xffff800000200000 3 demo_space = Ret tt s' /\
    pte (k_mem (p_k s')) 0x400000 0xffff800000200000 = 0.
Proof.
  destruct (kmap_page_records_only demo_image 2 0 8 72 demo_image_cache 0x123000 0xffff800000200000 3 demo_space
    demo_lists (fun _ => []) (fun _ => []) Leaf demo_kvm eq_refl ltac:(vm_compute; lia) eq_refl ltac:(done)
    ltac:(done)) as [(s' & L' & R' & fl' & t' & E & _ & _ & _ & H)|(msg & E & _)].
  - intros x Hx. exfalso. apply elem_of_nil in Hx. exact Hx.
  - exists s'. split; [exact E|]. unfold pte.
    refine (eq_trans (H _ _ (pt_path_ok _) (idx_land _)) _). vm_compute. reflexivity.
  - exfalso. assert (Hc : match kmap_page demo_image 2 0x123000 0xffff800000200000 3 demo_space with
      | Panic _ => False | _ => True end) by (vm_compute; exact I). rewrite E in Hc. exact Hc.
Defined.

(** Two pages are mapped as one area, then the first of them is unmapped. *)
Definition partial_unmap : cmd pstate (ptr * Z * Z) :=
  kmap_pages demo_image 2 0x123000 0xffff800000200000 3 2;;
  kunmap_pages demo_image 2 0x123000 0xffff800000200000 3 1;;
  let! v := find_vma 2 0xffff800000201000 in
  let! e := gets (fun s => pte (k_mem (p_k s)) (kernel_pml4t s) 0xffff800000200000) in
  let! e' := gets (fun s => pte (k_mem (p_k s)) (kernel_pml4t s) 0xffff800000201000) in
  ret (v, e, e').

(** [kunmap_pages] of a part of an area drops the whole area: after two pages
    were mapped by one call and the first was unmapped, the second is still
    mapped, but the tree of areas knows nothing of it, so that no later
    [kunmap_pages] can unmap it. *)
Theorem kunmap_drops_whole_area :
  match partial_unmap demo_space with
  | Ret (v, e, e') s' => v = NULL /\ e = 0 /\ e' = 0x124003 /\
      match kunmap_pages demo_image 2 0x124000 0xffff800000201000 3 1 s' with
      | Ret _ s'' => pte (k_mem (p_k s'')) (kernel_pml4t s'') 0xffff800000201000 = 0x124003
      | _ => False
      end
  | _ => False
  end.
Proof. vm_compute. auto. Qed.

(** ** A whole boot *)

(** A small image and a memory map with one region of 6 MB. *)
Definition boot_image : kernel_image :=
  mk_kernel_image 0xffffffff80040000 0xffffffff80013000 0xffffffff80032000 0xffffffff80015000
    0xffffffff80015000 0xffffffff80016000 0xffffffff80016000 [mk_mmap_entry 0x400000 0x600000 1 1] 0xfd000000 5120 4.

(** [__init_mmu] on it: the stack pointer handed back, CR3 and the offset of the
    direct map, the entries of text, stack, direct map and boot memory, and the
    area of a direct-map address. *)
Example init_mmu_boot :
  match __init_mmu boot_image 16 (mk_pstate demo_state NULL NULL NULL 0) with
  | Ret rsp s =>
      let e v := pte (k_mem (p_k s)) (kernel_pml4t s) v in
      let h v := pde (k_mem (p_k s)) (kernel_pml4t s) v in
      rsp = KERNEL_STACKS_START + 0x3ff8 /\ p_cr3 s = kernel_pml4t s /\
      phys_map_offset (p_k s) = DIRECT_MAP_START /\ p_fb_virtual s = DIRECT_MAP_START + 0xfd000000 /\
      e 0xffffffff80014000 = Z.lor 0x14000 PTE_FLAGS_KERNEL_CODE /\
      e KERNEL_STACKS_START = Z.lor 0x804000 PTE_FLAGS_KERNEL_DATA /\
      h (DIRECT_MAP_START + 0x400000) = Z.lor 0x400000 (Z.lor PTE_FLAGS_DIRECT_MAP PTE_HUGE_PAGE) /\
      h 0x200000 = Z.lor 0x200000 boot_flags /\
      rb_find_vma 16 (vma_heap s) (DIRECT_MAP_START + 0x500000) <> Some NULL
  | _ => False
  end.
Proof. vm_compute. split_and!; congruence. Qed.
