(* ===== verification/Kunmap.v ===== *)
(** * Kernel mappings: release

    What [kunmap_pages] does over all the layers it uses: the area that holds the
    address leaves the tree, its struct goes back to the cache of areas, and the
    entries of the pages are cleared. *)

From stdpp Require Import functions.
From S2P Require Import Prelude State Kmath Buddy FreeList BuddyInv BuddyDemo BuddyOps Slab SlabTheorems SlabRings PhysKmalloc SlabObjects SlabAlloc Mmu MmuInv MmuOps MmuTheorems RbTree RbRep RbInsert RbBalance RbTheorems Vm Paging LockFrame PagingInv PagingTheorems.

Section release.
Context {client : AllocClient} (img : kernel_image) (turns : nat) (o al n : Z).
Context (Hat : cache_at (vma_cache img) sizeof_vma o al n).

(** ** The area leaves the tree *)

Lemma remove_vma_wp s L R fl t x :
  kvm img o al n s L R fl t -> x ∈ nodes t -> enough t turns ->
  let m := k_mem (p_k s) in
  wp (rb_remove_vma turns (vma_of x)) (fun _ s' => exists m' r' t', s' = set_heap (m', r') s /\
    kvm img o al n s' L R fl t' /\ nodes t ≡ₚ x :: nodes t' /\ same_leaves (kernel_pml4t s) m m' /\
    (forall y k, y ∈ nodes t -> 0 <= k < off_vma_node -> m' (vma_of y + k) = m (vma_of y + k))) s.
Proof using Hat.
  intros Hkv Hx Hen m. pose proof Hkv as [H1 H3 H4 H5 H6 H7]. pose proof Hat as [Hg Hs Hc].
  destruct H4 as [T1 T2 T3 T4 [T5 T6]]. cbn [fst vma_heap] in T4, T5, T6. fold m in T4, T5, T6.
  assert (Ex : vma_of x + off_vma_node = x) by (unfold vma_of; lia).
  assert (Hcmp : compares (vma_start m) vma_cmp (x :: nodes t) m).
  { intros m' Ho a b Ha Hb. apply (vma_compares (nodes t) m T3); [|set_solver..].
    intros a' Ha'. apply Ho. intros y Hy. apply Ha'. set_solver. }
  destruct (rb_delete_spec (vma_start m) vma_cmp (vma_heap s) t x turns T1 T2 T4 Hcmp Hen)
    as ([m' r'] & b & E & Ho & Hcase). cbn [fst vma_heap] in Ho. fold m in Ho.
  destruct Hcase as [(_ & Hno & _)|(_ & z & t' & Hz & Ez & F1 & F2 & F3 & F4)]; [by destruct (Hno x Hx)|].
  assert (z = x) as -> by exact (sorted_inj (vma_start m) (nodes t) z x T4 Hz Hx Ez).
  assert (Hfld : forall y k, y ∈ nodes t -> 0 <= k < off_vma_node -> m' (vma_of y + k) = m (vma_of y + k)).
  { intros y k Hy Hk. by eapply vma_fields_kept. }
  assert (Hbnd : forall y, y ∈ nodes t -> vma_start m' y = vma_start m y /\ vma_end m' y = vma_end m y).
  { intros y Hy. split; apply Hfld; done. }
  assert (Hsub : forall y, y ∈ nodes t' -> y ∈ nodes t) by (intros y Hy; rewrite F4; by right).
  assert (Hw : object_writes sizeof_vma al n R fl (k_mem (p_k s)) m').
  { intros a Ha. apply Ho. intros y Hy. specialize (Ha _ (H5 y Hy)).
    unfold vma_of, off_vma_node, sizeof_vma, sizeof_rb_node in *. lia. }
  destruct (object_writes_tables _ _ _ _ Hat _ _ _ _ _ _ H3 H6 Hw) as [Hi Hl].
  unfold rb_remove_vma. wp_steps. rewrite Ex, E. unfold of_loop. wp_steps. cbn [fst].
  exists m', r', t'. split; [done|]. split_and!; [|done|done|done].
  split; [done|by apply cache_owns_objects| |intros y Hy; by apply H5, Hsub|done|by eapply same_leaves_frames].
  change (vma_heap (set_heap (m', r') s)) with (m', r').
  assert (Hob : objects off_vma_node (nodes t')).
  { apply (objects_perm _ _ _ F4) in T3. destruct T3 as (O1 & O2 & O3). apply NoDup_cons in O1 as [_ O1].
    split_and!; [done|intros y Hy; apply O2; by right|intros y w Hy Hw'; apply O3; by right]. }
  split; [done|done|done| |]; cbn [fst].
  - eapply sorted_ext; [|exact F3]. intros y Hy. by apply Hbnd, Hsub.
  - split.
    + intros y Hy%Hsub. destruct (Hbnd y Hy) as [-> ->]. auto.
    + intros y w Hy%Hsub Hw'%Hsub. destruct (Hbnd y Hy) as [-> ->], (Hbnd w Hw') as [-> _]. auto.
Qed.

(** ** Its struct goes back to the cache *)

Lemma kfree_vma_wp s L R fl t v :
  kvm img o al n s L R fl t -> v ∈ used_objects sizeof_vma al n R fl ->
  (forall y, y ∈ nodes t -> vma_of y <> v) ->
  wp (lift (kmem_cache_kfree (vma_cache img) v)) (fun _ s' => exists k R' fl', s' = set_k k s /\ kframe (p_k s) k /\
    k_locks k kernel_page_lock = k_locks (p_k s) kernel_page_lock /\
    kvm img o al n s' L R' fl' t /\ used_objects sizeof_vma al n R fl ≡ₚ v :: used_objects sizeof_vma al n R' fl' /\
    same_leaves (kernel_pml4t s) (k_mem (p_k s)) (k_mem k) /\
    (forall y k', y ∈ nodes t -> 0 <= k' < sizeof_vma -> k_mem k (vma_of y + k') = k_mem (p_k s) (vma_of y + k'))) s.
Proof using Hat.
  intros [[H1 H2] H3 H4 H5 H6 H7] Hv Hne. pose proof Hat as [Hg Hs Hc]. apply wp_lift.
  eapply wp_mono; [apply (keeps_wp kernel_page_lock); [by apply kfree_keeps|]; by eapply (kfree_at _ _ _ _ _ Hat)|].
  cbv beta. intros _ k [[Hk Hrel] Hlk].
  destruct (released_used _ _ _ _ _ Hat _ _ _ _ _ _ H3 Hv Hrel) as [(R' & fl' & Ho & HU & HS) Hm].
  destruct Hrel as (R0 & fl0 & _ & _ & _ & Hwr).
  assert (Hw : forall y j, y ∈ nodes t -> 0 <= j < sizeof_vma -> k_mem k (vma_of y + j) = k_mem (p_k s) (vma_of y + j)).
  { intros y j Hy Hj. apply (Hm (vma_of y)); [auto|auto|lia]. }
  assert (HP : slab_pages o R' ≡ₚ slab_pages o R) by (unfold slab_pages; by rewrite HS).
  destruct (tables_kept _ _ _ _ Hat (k_mem (p_k s)) (k_mem k) (kernel_pml4t s) (free_pages L ++ slab_pages o R) H6) as [Hi Hl].
  { intros a Ha Hp. apply Hwr.
    - intros [Hmw|(d & Hd & Hmw)]; [done|]. apply Hp, elem_of_app. right. apply list_elem_of_bind. exists d. split; [|done].
      apply (slab_page sizeof_vma o al n Hg Hs);
        [exact (inv_place _ _ _ _ _ _ _ _ (co_cache _ _ _ _ _ _ _ _ _ H3) d Hd)|].
      pose proof (geo sizeof_vma o al n Hg Hs). unfold sizeof_slab_descriptor, PAGE_SIZE in *. lia.
    - intros ->. apply Hp, elem_of_app. right. eapply used_page; [exact Hat|exact H3|exact Hv|unfold sizeof_vma; lia]. }
  exists k, R', fl'. split; [done|]. split; [done|]. split; [done|]. split_and!; [|done|done|done].
  split; [split; by apply Hk|done| | | |by eapply same_leaves_frames].
  - eapply (vma_words (vma_heap s)); done.
  - intros y Hy. specialize (H5 y Hy). rewrite HU in H5. apply elem_of_cons in H5 as [E|?]; [by destruct (Hne y Hy)|done].
  - eapply pt_inv_perm; [|exact Hi]. by rewrite HP.
Qed.
End release.

(** ** The entries are cleared *)

(** The state with TLB flushes added. *)
Definition flushed (l : list Z) (s : kstate) : kstate :=
  mk_kstate (k_mem s) (k_buddy s) (k_locks s) (k_rflags s) (k_cpuid_ebx s) (phys_map_offset s)
    (l ++ k_invlpg s) (k_slab_caches s).

(** Page [k] of the range that starts at [a]. *)
Definition nth_page (a k : Z) : Z := u64 (a + u64 (k * PAGE_SIZE)).

Section range.
Context {client : AllocClient} (root pa va num : Z) (mh mw : string).
Local Abbreviation page := (nth_page va).
Local Abbreviation here v := (pt_path v, VIRT_TO_PT_IDX v).

(** The table of [v] has an entry that is not one of the range. *)
Definition kept_entry (m : mem) (v : Z) : Prop :=
  exists j, idx_ok j /\ leaf m root (pt_path v) j <> 0 /\
    forall k, 0 <= k < num -> here (page k) <> (pt_path v, j).

(** The pages from the [a]th to before the [b]th are unmapped and nothing else. *)
Definition cleared (a b : Z) (m m' : mem) : Prop :=
  (forall k, a <= k < b -> pte m' root (page k) = 0) /\
  (forall q j, path_ok q -> idx_ok j -> (forall k, a <= k < b -> (q, j) <> here (page k)) ->
     leaf m' root q j = leaf m root q j).

Definition mapped_at (m : mem) (k : Z) : Prop :=
  exists pt, classify m root (nth_page pa k) (page k) = Mapped pt.

Lemma here_vpn v w : here v = here w <-> vpn v = vpn w.
Proof. by rewrite <- loc_vpn, pair_equal_spec. Qed.

(** One cleared entry leaves what the walk sees elsewhere. *)
Lemma classify_kept m m' F p v w pt :
  extended root F m F m' -> vpn w <> vpn v ->
  (forall q j, path_ok q -> idx_ok j ->
     leaf m' root q j = if decide (q = pt_path v /\ j = VIRT_TO_PT_IDX v) then 0 else leaf m root q j) ->
  classify m root p w = Mapped pt -> classify m' root p w = Mapped pt.
Proof.
  intros He Hne HL. unfold classify, pde, pte.
  rewrite !HL by (apply pd_path_ok || apply pt_path_ok || apply idx_land).
  rewrite (decide_False (P := pd_path w = _ /\ _)) by (intros [E _]; by apply (f_equal length) in E).
  rewrite (decide_False (P := pt_path w = _ /\ _)) by (by rewrite loc_vpn).
  do 3 (case_match; try done). destruct (tbl m root (pt_path w)) eqn:E; [|done].
  intros [= ->]. by rewrite (ex_tbl _ _ _ _ _ He _ _ (pt_path_ok w) E).
Qed.

Lemma unmap_range_spec N i s F :
  (forall k k', 0 <= k < num -> 0 <= k' < num -> k <> k' -> vpn (page k) <> vpn (page k')) ->
  tables (owns := buddy_owns) root s F -> 0 <= i -> i + Z.of_nat N <= num ->
  (forall k, i <= k < i + Z.of_nat N -> mapped_at (k_mem s) k /\ kept_entry (k_mem s) (page k)) ->
  exists m' l, unmap_loop N PAGE_SIZE i pa va (fun p v => unmap_small root p v mh mw) s =
      Ret tt (flushed l (set_mem m' s)) /\
    tables (owns := buddy_owns) root (flushed l (set_mem m' s)) F /\ extended root F (k_mem s) F m' /\
    cleared i (i + Z.of_nat N) (k_mem s) m' /\ forall v, v ∈ l <-> exists k, i <= k < i + Z.of_nat N /\ v = page k.
Proof.
  intros Hd. revert i s. induction N as [|N IH]; intros i s Ht Hi Hn Hall; cbn [unmap_loop].
  - exists (k_mem s), []. replace (flushed [] (set_mem (k_mem s) s)) with s by (by destruct s).
    split_and!; [done|done|apply extended_refl|split; [lia|done]|]. intros v. rewrite elem_of_nil. split; [done|].
    intros (k & ? & _). lia.
  - destruct (Hall i ltac:(lia)) as [[pt Hc] (j & Hj & Hnz & Hout)].
    assert (Hne : j <> VIRT_TO_PT_IDX (page i)) by (intros ->; by apply (Hout i ltac:(lia))).
    destruct (unmap_small_mapped root s F _ _ mh mw pt j Ht Hc Hj Hne Hnz) as (E & HT & HE & HL).
    set (m1 := (k_mem s).[_ <- 0]) in *. set (s1 := add_invlpg (page i) (set_mem m1 s)) in *.
    unfold bind at 1. fold (nth_page pa i) (page i). rewrite E.
    destruct (IH (i + 1) s1 HT ltac:(lia) ltac:(lia)) as (m' & l & E2 & HT2 & HE2 & [HC1 HC2] & Hl).
    { intros k Hk. destruct (Hall k ltac:(lia)) as [[pt' Hc'] (j' & Hj' & Hnz' & Hout')].
      assert (Hv : vpn (page k) <> vpn (page i)) by (apply Hd; lia). split.
      - exists pt'. by eapply classify_kept.
      - exists j'. split; [done|]. split; [|done]. change (k_mem s1) with m1.
        rewrite HL by (done || apply pt_path_ok). rewrite decide_False; [done|].
        intros [Eq Ej]. apply (Hout' i ltac:(lia)). by rewrite Eq, Ej. }
    exists m', (l ++ [page i]).
    assert (Es : flushed l (set_mem m' s1) = flushed (l ++ [page i]) (set_mem m' s))
      by (unfold flushed; cbn; by rewrite <- app_assoc).
    rewrite <- Es. split_and!; [exact E2|exact HT2|by eapply extended_trans| |].
    + change (k_mem s1) with m1 in HC2. split.
      * intros k Hk. destruct (decide (k = i)) as [->|Hki]; [|apply HC1; lia].
        unfold pte. rewrite HC2 by first [apply pt_path_ok | apply idx_land |
          intros k' Hk' Eq; apply here_vpn in Eq; revert Eq; apply Hd; lia].
        rewrite HL by (apply pt_path_ok || apply idx_land). by rewrite decide_True.
      * intros q j' Hq Hj' Hno. rewrite HC2 by first [done | intros k Hk; apply Hno; lia].
        rewrite HL by done. rewrite decide_False; [done|]. intros [-> ->]. by apply (Hno i ltac:(lia)).
    + intros v. rewrite elem_of_app, Hl, list_elem_of_singleton. split.
      * intros [(k & Hk & ->)| ->]; [exists k|exists i]; (split; [lia|done]).
      * intros (k & Hk & ->). destruct (decide (k = i)) as [->|]; [by right|left; exists k; split; [lia|done]].
Qed.
End range.

Lemma pages_apart va num k k' :
  num <= 2 ^ 36 -> 0 <= k < num -> 0 <= k' < num -> k <> k' -> vpn (nth_page va k) <> vpn (nth_page va k').
Proof.
  intros Hn Hk Hk' Hne. unfold nth_page. rewrite !(u64_small (_ * PAGE_SIZE)) by (unfold PAGE_SIZE; lia).
  rewrite !vpn_step. change (2 ^ 36) with 68719476736 in *. set (b := va / 2 ^ 12). clearbody b. dlia.
Qed.

Lemma mapped_at_same root pa va m m' k :
  same_leaves root m m' -> mapped_at root pa va m k -> mapped_at root pa va m' k.
Proof.
  intros Hl [pt Hc]. exists pt. rewrite <- Hc. unfold classify, pde, pte, pt_path.
  rewrite !tbl_leaf, !Hl by (apply pd_path_ok || apply (pt_path_ok (nth_page va k)) || apply idx_land). done.
Qed.

Lemma kept_entry_same root va num m m' v :
  same_leaves root m m' -> kept_entry root va num m v -> kept_entry root va num m' v.
Proof. intros Hl (j & Hj & Hnz & Hout). exists j. split; [done|]. by rewrite Hl by (done || apply pt_path_ok). Qed.

(** ** All together *)

Lemma wp_ext {S A} (c c' : cmd S A) Q s : c s = c' s -> wp c' Q s -> wp c Q s.
Proof. unfold wp. by intros ->. Qed.

Lemma bind_assoc3 {S A B C D} (c1 : cmd S A) (c2 : cmd S B) (c3 : cmd S C) (k : cmd S D) s :
  ((c1;; c2;; c3);; k) s = (c1;; c2;; c3;; k) s.
Proof. unfold bind. destruct (c1 s) as [? s1| |]; [|done..]. by destruct (c2 s1). Qed.

Lemma held_flushed id l s0 s : held id s0 s -> held id (flushed l s0) (flushed l s).
Proof. intros (H1 & H2 & H3 & H4 & H5 & H6 & H7). split_and!; try done. cbn. by rewrite H6. Qed.

Section kunmap.
Context {client : AllocClient} (img : kernel_image) (turns : nat) (o al n : Z).
Context (Hat : cache_at (vma_cache img) sizeof_vma o al n).

(** The result of a release: the area of [x] is gone, its struct is free, the
    entries of the range are zero and everything else is as it was. *)
Record area_dropped (x va num : Z) (s : pstate) (L : Z -> list ptr) (R : slab_class -> list ptr)
    (fl : ptr -> list ptr) (t : tree) (s' : pstate) (L' : Z -> list ptr) (R' : slab_class -> list ptr)
    (fl' : ptr -> list ptr) (t' : tree) : Prop := {
  ad_kvm : kvm img o al n s' L' R' fl' t';
  ad_root : kernel_pml4t s' = kernel_pml4t s;
  ad_frames : free_pages L' ≡ₚ free_pages L;
  ad_nodes : nodes t ≡ₚ x :: nodes t';
  ad_used : used_objects sizeof_vma al n R fl ≡ₚ vma_of x :: used_objects sizeof_vma al n R' fl';
  ad_others : forall y, y ∈ nodes t' -> vma_start (k_mem (p_k s')) y = vma_start (k_mem (p_k s)) y /\
    vma_end (k_mem (p_k s')) y = vma_end (k_mem (p_k s)) y;
  ad_cleared : cleared (kernel_pml4t s) va 0 num (k_mem (p_k s)) (k_mem (p_k s'));
}.

(** What stands after the area left the tree and its struct was freed, with the
    lock held. *)
Record dropping (x : ptr) (s : pstate) (L : Z -> list ptr) (R : slab_class -> list ptr) (fl : ptr -> list ptr)
    (t : tree) (s3 : pstate) (R' : slab_class -> list ptr) (fl' : ptr -> list ptr) (t' : tree) : Prop := {
  dr_kvm : kvm img o al n s3 L R' fl' t';
  dr_held : held kernel_page_lock (p_k s) (p_k s3);
  dr_root : kernel_pml4t s3 = kernel_pml4t s;
  dr_nodes : nodes t ≡ₚ x :: nodes t';
  dr_used : used_objects sizeof_vma al n R fl ≡ₚ vma_of x :: used_objects sizeof_vma al n R' fl';
  dr_leaves : same_leaves (kernel_pml4t s) (k_mem (p_k s)) (k_mem (p_k s3));
  dr_others : forall y k, y ∈ nodes t' -> 0 <= k < off_vma_node ->
    k_mem (p_k s3) (vma_of y + k) = k_mem (p_k s) (vma_of y + k);
}.

Lemma drop_area_wp s L R fl t x :
  kvm img o al n s L R fl t -> lock_free (p_k s) kernel_page_lock -> enough t turns -> x ∈ nodes t ->
  wp (lift (spinlock_acquire kernel_page_lock);; rb_remove_vma turns (vma_of x);;
      lift (kmem_cache_kfree (vma_cache img) (vma_of x)))
    (fun _ s3 => exists R' fl' t', dropping x s L R fl t s3 R' fl' t') s.
Proof using Hat.
  intros Hkv Hlk Hen Hx. pose proof (kv_lock _ _ _ _ _ _ _ _ _ Hkv) as [Hsl Hbl].
  wp_step. apply wp_lift. apply wp_acquire; [done|]. intros k1 Hh1 Em1 Eb1.
  assert (Hkv1 : kvm img o al n (set_k k1 s) L R fl t)
    by (apply (kvm_state _ _ _ _ _ k1 _ _ _ _ Hkv); [done|done|by apply Hh1|by apply Hh1]).
  wp_step. eapply wp_mono; [by eapply (remove_vma_wp img turns o al n Hat (set_k k1 s))|].
  cbv beta. intros _ s2 (m2 & r2 & t' & -> & Hkv2 & HN & Hl2 & Hf2). cbn [p_k set_k] in Hl2, Hf2. rewrite Em1 in Hl2, Hf2.
  assert (Hnd : NoDup (x :: nodes t')).
  { rewrite <- HN. apply (proj1 (vt_objects _ _ (kv_tree _ _ _ _ _ _ _ _ _ Hkv))). }
  assert (Hne : forall y, y ∈ nodes t' -> vma_of y <> vma_of x).
  { intros y Hy E. apply NoDup_cons in Hnd as [Hnx _]. apply Hnx. unfold vma_of in E. by replace x with y by lia. }
  eapply wp_mono; [apply (kfree_vma_wp img o al n Hat _ L R fl t' (vma_of x) Hkv2); [|done]|].
  { by apply (kv_used _ _ _ _ _ _ _ _ _ Hkv). }
  cbv beta. intros _ s3 (k3 & R' & fl' & -> & Hk3 & Hlk3 & Hkv3 & HU & Hl3 & Hf3).
  cbn [p_k set_k set_heap kernel_pml4t k_mem set_mem fst snd] in Hk3, Hlk3, Hl3, Hf3.
  exists R', fl', t'. split; cbn [p_k set_k set_heap kernel_pml4t]; [done| |done|done|done| |].
  - apply (held_keep _ _ (set_mem m2 k1)); [apply held_set_mem; exact Hh1|exact Hk3|exact Hlk3].
  - by eapply same_leaves_trans.
  - intros y k Hy Hk. rewrite Hf3 by (done || unfold off_vma_node, sizeof_vma in *; lia).
    apply Hf2; [rewrite HN; by right|done].
Qed.

Lemma kunmap_pages_wp pa va flags num s L R fl t x :
  let m := k_mem (p_k s) in let frame := Z.land pa (not64 (PAGE_SIZE - 1)) in
  kvm img o al n s L R fl t -> lock_free (p_k s) kernel_page_lock -> enough t turns ->
  x ∈ nodes t -> vma_start m x <= va < vma_end m x ->
  has_flag flags PTE_HUGE_PAGE = false -> 0 < num <= 2 ^ 36 ->
  (forall k, 0 <= k < num -> mapped_at (kernel_pml4t s) frame va m k /\
     kept_entry (kernel_pml4t s) va num m (nth_page va k)) ->
  wp (kunmap_pages img turns pa va flags num) (fun _ s' => exists l L' R' fl' t',
     kframe (flushed l (p_k s)) (p_k s') /\ (forall k, 0 <= k < num -> nth_page va k ∈ l) /\
     area_dropped x va num s L R fl t s' L' R' fl' t') s.
Proof using Hat.
  intros m frame Hkv Hlk Hen Hx Hin Hfl Hnum Hpages. set (root := kernel_pml4t s) in *.
  destruct (find_vma_spec (vma_heap s) t turns va (kv_tree _ _ _ _ _ _ _ _ _ Hkv) Hen) as (v & Ef & Hcase).
  destruct Hcase as [[_ Hno]|(y & Hy & -> & Hnn & _ & Huniq)]; [by destruct (Hno x Hx)|].
  assert (y = x) as -> by (symmetry; by apply Huniq). clear Huniq Hy.
  unfold kunmap_pages, find_vma. wp_steps. rewrite Ef. unfold of_loop. wp_steps.
  rewrite (proj2 (Z.eqb_neq (vma_of x) NULL)) by done.
  eapply wp_ext; [by rewrite <- bind_assoc3|]. wp_step.
  eapply wp_mono; [by eapply drop_area_wp|]. cbv beta. intros _ s3 (R' & fl' & t' & [Hkv3 Hh3 Er HN HU Hl Hf3]).
  destruct (unmap_range_spec root frame va num "TRIED TO UNMAP HUGE PAGE WITH REGULAR PAGE FLAGS IN UNMAP_PAGES"
    "TRIED TO UNMAP WRONG PAGES" (Z.to_nat num) 0 (p_k s3) (free_pages L)) as (m4 & l & E & HT & HE & HC & Hfl4).
  { intros k k' Hk Hk' Hkk. apply (pages_apart va num); lia. }
  { unfold root. rewrite <- Er. exact (kvm_owned _ _ _ _ _ _ _ _ _ Hkv3). }
  { lia. }
  { lia. }
  { intros k Hk. destruct (Hpages k ltac:(lia)) as [H1 H2].
    split; [by eapply mapped_at_same|by eapply kept_entry_same]. }
  rewrite Z2Nat.id, Z.add_0_l in HC, Hfl4 by lia. set (k4 := flushed l (set_mem m4 (p_k s3))) in *.
  assert (Hsl4 : lock_free k4 slab_lock) by (apply Hh3; [done|apply Hkv]).
  fold root in Er. rewrite <- Er in HT, HE.
  destruct (tables_kvm _ _ _ _ Hat s3 k4 (free_pages L) L R' fl' t' Hkv3 Hsl4 HT HE) as (L' & HF & Hkv4 & Hf4).
  wp_steps. apply wp_lift. rewrite Er.
  assert (Ek : unmap_pages root pa va flags num (p_k s3) = Ret tt k4).
  { unfold unmap_pages. rewrite (proj2 (Z.leb_gt num 0)), Hfl by lia. exact E. }
  unfold wp at 1. rewrite Ek. apply wp_lift. cbn [p_k set_k].
  eapply wp_release; [apply (held_flushed _ l), held_set_mem; exact Hh3|]. intros k5 Hk5 Em5 Eb5.
  exists l, L', R', fl', t'. cbn [p_k set_k]. split; [exact Hk5|]. split; [intros k Hk; apply Hfl4; eauto|].
  split; cbn [p_k set_k set_heap kernel_pml4t]; [|done|done|done|done| |].
  - eapply (kvm_state _ _ _ _ (set_k k4 _) k5); [exact Hkv4|done|done|apply Hk5; apply Hkv..].
  - intros y Hy. unfold vma_start, vma_end. rewrite Em5.
    rewrite !(Hf4 y), !Hf3 by (done || unfold off_vma_start, off_vma_end, sizeof_vma; lia). done.
  - rewrite Em5. destruct HC as [C1 C2]. split; [exact C1|].
    intros q j Hq Hj Hno. rewrite C2 by done. by apply Hl.
Qed.

(** C18. [kunmap_pages] of [num] mapped 4 KB pages inside an area, when the page
    table of each keeps an entry outside the range: it returns with the entries of
    these pages zero and their TLB entries flushed, every other entry as before;
    the area leaves the tree with the others as they were, its struct goes back to
    the cache, no frame changes hands, the invariant over all layers holds again
    and the locks and flags are as before.  An address no area holds is left alone. *)
Theorem kunmap_pages_correct pa va flags num s L R fl t :
  let m := k_mem (p_k s) in let frame := Z.land pa (not64 (PAGE_SIZE - 1)) in
  kvm img o al n s L R fl t -> lock_free (p_k s) kernel_page_lock -> enough t turns ->
  has_flag flags PTE_HUGE_PAGE = false -> 0 < num <= 2 ^ 36 ->
  ((forall x, x ∈ nodes t -> ~ vma_start m x <= va < vma_end m x) ->
     kunmap_pages img turns pa va flags num s = Ret tt s) /\
  (forall x, x ∈ nodes t -> vma_start m x <= va < vma_end m x ->
     (forall k, 0 <= k < num -> mapped_at (kernel_pml4t s) frame va m k /\
        kept_entry (kernel_pml4t s) va num m (nth_page va k)) ->
     exists s' l L' R' fl' t', kunmap_pages img turns pa va flags num s = Ret tt s' /\
       kframe (flushed l (p_k s)) (p_k s') /\ (forall k, 0 <= k < num -> nth_page va k ∈ l) /\
       area_dropped x va num s L R fl t s' L' R' fl' t').
Proof using Hat.
  intros m frame Hkv Hlk Hen Hfl Hnum. split.
  - intros Hno. destruct (find_vma_spec (vma_heap s) t turns va (kv_tree _ _ _ _ _ _ _ _ _ Hkv) Hen) as (v & Ef & Hcase).
    destruct Hcase as [[-> _]|(y & Hy & _ & _ & Hin & _)]; [|by destruct (Hno y Hy)].
    unfold kunmap_pages, find_vma, bind, gets, of_loop. by rewrite Ef.
  - intros x Hx Hin Hpages.
    destruct (wp_elim _ _ _ (kunmap_pages_wp pa va flags num s L R fl t x Hkv Hlk Hen Hx Hin Hfl Hnum Hpages))
      as ([] & s' & E & l & L' & R' & fl' & t' & H). by exists s', l, L', R', fl', t'.
Qed.
End kunmap.

(** ** A concrete address space with two pages in one area *)

Definition two_pages : pstate :=
  match kmap_pages demo_image 2 0x123000 0xffff800000200000 3 2 demo_space with Ret _ s => s | _ => demo_space end.

Lemma two_pages_kvm : exists L R fl t x, kvm demo_image 0 8 72 two_pages L R fl t /\ nodes t ≡ₚ [x] /\
  vma_start (k_mem (p_k two_pages)) x = 0xffff800000200000 /\ vma_end (k_mem (p_k two_pages)) x = 0xffff800000202000.
Proof.
  destruct (wpe_elim _ _ _ _ (kmap_pages_wpe demo_image 2 0 8 72 demo_image_cache 0x123000 0xffff800000200000 3 2
    demo_space demo_lists (fun _ => []) (fun _ => []) Leaf demo_kvm eq_refl ltac:(vm_compute; lia) eq_refl ltac:(done)
    ltac:(done) ltac:(done) ltac:(done) ltac:(by intros x ?%elem_of_nil)
    ltac:(intros i Hi; assert (i = 0 \/ i = 1) as [-> | ->] by lia; vm_compute; reflexivity)))
    as [([] & s' & E & _ & _ & _ & L & R & fl & t & Hkv & _ & x & HN & H1 & H2 & _)|(msg & E & _)].
  - unfold two_pages. rewrite E. exists L, R, fl, t, x. split_and!; [done|done|done|exact H2].
  - exfalso. assert (Hc : match kmap_pages demo_image 2 0x123000 0xffff800000200000 3 2 demo_space with
      | Panic _ => False | _ => True end) by (vm_compute; exact I). rewrite E in Hc. exact Hc.
Qed.

Lemma two_pages_lock : lock_free (p_k two_pages) kernel_page_lock.
Proof. vm_compute. reflexivity. Qed.

Lemma two_pages_first k : 0 <= k < 1 ->
  mapped_at (kernel_pml4t two_pages) 0x123000 0xffff800000200000 (k_mem (p_k two_pages)) k /\
  kept_entry (kernel_pml4t two_pages) 0xffff800000200000 1 (k_mem (p_k two_pages)) (nth_page 0xffff800000200000 k).
Proof.
  intros Hk. assert (k = 0) as -> by lia. split.
  - eexists. vm_compute. reflexivity.
  - exists 1. split; [done|]. split; [vm_compute; discriminate|].
    intros k Hk'. assert (k = 0) as -> by lia. vm_compute. discriminate.
Qed.

Lemma kunmap_pages_correct_witness :
  exists s', kunmap_pages demo_image 2 0x123000 0xffff800000200000 3 1 two_pages = Ret tt s' /\
    pte (k_mem (p_k s')) (kernel_pml4t two_pages) (nth_page 0xffff800000200000 0) = 0.
Proof.
  destruct two_pages_kvm as (L & R & fl & t & x & Hkv & HN & H1 & H2).
  assert (He : enough t 2) by (unfold enough; rewrite HN; vm_compute; lia).
  pose proof two_pages_lock as Hlk. pose proof two_pages_first as Hp.
  pose proof (kunmap_pages_correct demo_image 2 0 8 72 demo_image_cache 0x123000 0xffff800000200000 3 1 two_pages
    L R fl t Hkv Hlk He eq_refl) as H. clear Hkv Hlk. revert Hp H H1 H2. generalize two_pages. intros s Hp H H1 H2.
  destruct (H ltac:(done)) as [_ Hd]. assert (Hx : x ∈ nodes t) by (rewrite HN; left).
  destruct (Hd x Hx) as (s' & l & L' & R' & fl' & t' & E & _ & _ & Ha); [rewrite H1, H2; done|exact Hp|].
  exists s'. split; [exact E|]. apply (ad_cleared _ _ _ _ _ _ _ _ _ _ _ _ _ _ _ _ _ Ha). lia.
Defined.
