(* ===== verification/AddressSpace.v ===== *)
(** * Address spaces built from mapping requests

    A sequence of [kmap_pages] calls on ranges that do not overlap, and in which
    no 2 MB page shares its slot with 4 KB pages, builds an address space that
    translates exactly the requested ranges, each to the requested frames with
    the requested flags, and records exactly those ranges as areas. *)

From stdpp Require Import functions.
From S2P Require Import Prelude State Kmath Buddy FreeList BuddyInv BuddyDemo BuddyOps Slab SlabTheorems SlabRings.
From S2P Require Import PhysKmalloc SlabObjects SlabAlloc Mmu MmuInv MmuOps MmuTheorems RbTree RbRep RbInsert.
From S2P Require Import RbBalance RbTheorems Vm Paging LockFrame PagingInv PagingTheorems.

(** ** Requests *)

Record request : Type := mk_request { rq_pa : Z; rq_va : Z; rq_flags : Z; rq_num : Z }.

Definition rq_huge (r : request) : bool := has_flag (rq_flags r) PTE_HUGE_PAGE.
Definition rq_page (r : request) : Z := if rq_huge r then HUGE_PAGE_SIZE else PAGE_SIZE.
Definition rq_bytes (r : request) : Z := rq_num r * rq_page r.
Definition rq_last (r : request) : Z := rq_va r + rq_bytes r.

(** The two halves of the address space. *)
Definition canonical (v : Z) : Prop := 0 <= v < 2 ^ 47 \/ 2 ^ 64 - 2 ^ 47 <= v < 2 ^ 64.

Record request_ok (r : request) : Prop := {
  ro_num : 0 < rq_num r;
  ro_va : (rq_page r | rq_va r);
  ro_pa : (rq_page r | rq_pa r);
  ro_phys : 0 <= rq_pa r /\ rq_pa r + rq_bytes r <= 2 ^ 52;
  ro_half : 0 <= rq_va r /\ rq_last r <= 2 ^ 47 \/ 2 ^ 64 - 2 ^ 47 <= rq_va r /\ rq_last r < 2 ^ 64;
  ro_present : has_flag (rq_flags r) PTE_PRESENT = true;
  ro_flags : Z.land (rq_flags r) PTE_ADDR_MASK = 0;
}.

Definition inside (r : request) (v : Z) : Prop := rq_va r <= v < rq_last r.
(** The 2 MB slot of [v] holds a page of the range. *)
Definition in_slot (r : request) (v : Z) : Prop :=
  rq_va r / HUGE_PAGE_SIZE <= v / HUGE_PAGE_SIZE <= (rq_last r - 1) / HUGE_PAGE_SIZE.

(** Ranges apart, and slots apart where the page sizes differ. *)
Definition compatible (r r' : request) : Prop :=
  (rq_last r <= rq_va r' \/ rq_last r' <= rq_va r) /\
  (rq_huge r <> rq_huge r' ->
   (rq_last r - 1) / HUGE_PAGE_SIZE < rq_va r' / HUGE_PAGE_SIZE \/
   (rq_last r' - 1) / HUGE_PAGE_SIZE < rq_va r / HUGE_PAGE_SIZE).

(** ** Translation *)

Definition HUGE_ADDR_MASK : Z := 0x000FFFFFFFE00000.

(** What the processor makes of an address: the physical address and the bits of
    the entry that are not address bits. *)
Definition translate (m : mem) (root v : Z) : option (Z * Z) :=
  let e := pde m root v in
  if has_flag e PTE_PRESENT then
    if has_flag e PTE_HUGE_PAGE then
      Some (Z.land e HUGE_ADDR_MASK + v mod HUGE_PAGE_SIZE, Z.ldiff e PTE_ADDR_MASK)
    else
      let e := pte m root v in
      if has_flag e PTE_PRESENT then Some (Z.land e PTE_ADDR_MASK + v mod PAGE_SIZE, Z.ldiff e PTE_ADDR_MASK)
      else None
  else None.

(** The physical address and flags a request gives to an address of its range. *)
Definition target (r : request) (v : Z) : Z * Z := (rq_pa r + (v - rq_va r), rq_flags r).

(** ** Numbers *)

Lemma vpn_canonical v w : canonical v -> canonical w -> vpn v = vpn w -> v / PAGE_SIZE = w / PAGE_SIZE.
Proof.
  unfold canonical, vpn, PAGE_SIZE. change (2 ^ 12) with 4096. change (2 ^ 36) with 68719476736.
  change (2 ^ 47) with 140737488355328. change (2 ^ 64) with 18446744073709551616. intros. dlia.
Qed.

Lemma huge_vpn_canonical v w :
  canonical v -> canonical w -> huge_vpn v = huge_vpn w -> v / HUGE_PAGE_SIZE = w / HUGE_PAGE_SIZE.
Proof.
  unfold canonical, huge_vpn, HUGE_PAGE_SIZE. change (2 ^ 21) with 2097152. change (2 ^ 27) with 134217728.
  change (2 ^ 47) with 140737488355328. change (2 ^ 64) with 18446744073709551616. intros. dlia.
Qed.

(** An aligned address survives the masks of an entry, the flags do not. *)
Lemma aligned_mask k x : 0 <= k <= 52 -> 0 <= x < 2 ^ 52 -> (2 ^ k | x) -> Z.land x (Z.lxor (Z.ones 52) (Z.ones k)) = x.
Proof.
  intros Hk Hx [q ->]. apply Z.bits_inj'. intros i Hi.
  rewrite Z.land_spec, Z.lxor_spec, !Z.testbit_ones_nonneg by lia.
  destruct (Z.ltb_spec i k) as [Hlt|Hge].
  - rewrite Z.mul_pow2_bits_low by lia. done.
  - destruct (Z.ltb_spec i 52) as [H52|H52]; [by rewrite andb_true_r|]. cbn. rewrite andb_false_r.
    symmetry. destruct (decide (q * 2 ^ k = 0)) as [->|]; [apply Z.bits_0|].
    apply Z.bits_above_log2; [lia|]. enough (Z.log2 (q * 2 ^ k) < 52) by lia. apply Z.log2_lt_pow2; lia.
Qed.

Lemma land_disjoint_ldiff f a : Z.land f a = 0 -> Z.ldiff f a = f.
Proof.
  intros E. apply Z.bits_inj'. intros i Hi. rewrite Z.ldiff_spec.
  assert (Hb : Z.testbit (Z.land f a) i = false) by by rewrite E, Z.bits_0.
  rewrite Z.land_spec in Hb. by destruct (Z.testbit f i), (Z.testbit a i).
Qed.

Lemma land_inside_ldiff x a : Z.land x a = x -> Z.ldiff x a = 0.
Proof.
  intros E. apply Z.bits_inj'. intros i Hi. rewrite Z.ldiff_spec, Z.bits_0.
  assert (Hb : Z.testbit (Z.land x a) i = Z.testbit x i) by by rewrite E.
  rewrite Z.land_spec in Hb. by destruct (Z.testbit x i), (Z.testbit a i).
Qed.

Lemma ldiff_lor x f a : Z.ldiff (Z.lor x f) a = Z.lor (Z.ldiff x a) (Z.ldiff f a).
Proof. rewrite !Z.ldiff_land. apply Z.land_lor_distr_l. Qed.

(** An entry made from an aligned frame and flags: its address and its flags. *)
Lemma entry_parts k x f :
  k = 12 \/ k = 21 -> 0 <= x < 2 ^ 52 -> (2 ^ k | x) -> Z.land f PTE_ADDR_MASK = 0 ->
  Z.land (Z.lor x f) (Z.lxor (Z.ones 52) (Z.ones k)) = x /\ Z.ldiff (Z.lor x f) PTE_ADDR_MASK = f.
Proof.
  intros Hk Hx Hd Hf.
  assert (Hm : Z.land PTE_ADDR_MASK (Z.lxor (Z.ones 52) (Z.ones k)) = Z.lxor (Z.ones 52) (Z.ones k))
    by (destruct Hk as [-> | ->]; done).
  split.
  - rewrite Z.land_lor_distr_l, aligned_mask by (try lia; done). rewrite <- Hm, Z.land_assoc, Hf. apply Z.lor_0_r.
  - rewrite ldiff_lor, (land_disjoint_ldiff f) by done. rewrite land_inside_ldiff; [done|].
    change PTE_ADDR_MASK with (Z.lxor (Z.ones 52) (Z.ones 12)). apply aligned_mask; [lia|done|].
    destruct Hk as [-> | ->]; [done|]. by etrans; [|exact Hd]; exists 512.
Qed.

Lemma has_flag_lor x f g : has_flag f g = true -> has_flag (Z.lor x f) g = true.
Proof.
  unfold has_flag. rewrite Z.land_lor_distr_l, !negb_true_iff, !Z.eqb_neq. intros H E.
  by apply Z.lor_eq_0_iff in E as [_ E].
Qed.

(** A 4 KB entry lies in a table its 2 MB entry points to. *)
Lemma pte_link m root v : pte m root v <> 0 -> is_link (pde m root v) = true.
Proof.
  unfold pte, pde, leaf, pt_path. rewrite tbl_snoc. destruct (tbl m root (pd_path v)) as [pd|]; [|done].
  by destruct (is_link (m (entry pd (VIRT_TO_PD_IDX v)))).
Qed.

(** ** Ranges *)

Section ranges.
Context (r : request) (Hr : request_ok r).

Lemma page_pos : rq_page r = PAGE_SIZE \/ rq_page r = HUGE_PAGE_SIZE.
Proof using Type. unfold rq_page. destruct (rq_huge r); auto. Qed.

Lemma bytes_pos : 0 < rq_bytes r.
Proof using Hr.
  pose proof (ro_num _ Hr). unfold rq_bytes. destruct page_pos as [-> | ->]; unfold PAGE_SIZE, HUGE_PAGE_SIZE; lia.
Qed.

Lemma inside_canonical v : inside r v -> canonical v.
Proof using Hr. destruct (ro_half _ Hr); unfold inside, canonical; lia. Qed.

(** Page [i] of the range. *)
Lemma page_inside i : 0 <= i < rq_num r -> inside r (rq_va r + i * rq_page r).
Proof using Hr.
  intros Hi. unfold inside, rq_last, rq_bytes. destruct page_pos as [-> | ->]; unfold PAGE_SIZE, HUGE_PAGE_SIZE; nia.
Qed.

Lemma page_u64 i : 0 <= i < rq_num r -> u64 (rq_va r + i * rq_page r) = rq_va r + i * rq_page r.
Proof using Hr.
  intros Hi. pose proof (inside_canonical _ (page_inside i Hi)). apply u64_small. unfold canonical in *. lia.
Qed.

(** Every address of the range lies in one of its pages. *)
Lemma inside_page v :
  inside r v -> exists i, 0 <= i < rq_num r /\ v / rq_page r = (rq_va r + i * rq_page r) / rq_page r /\
    v = rq_va r + i * rq_page r + v mod rq_page r.
Proof using Hr.
  unfold inside, rq_last, rq_bytes. intros Hv. exists ((v - rq_va r) / rq_page r).
  pose proof (ro_va _ Hr) as [q Hq]. set (va := rq_va r) in *. set (n := rq_num r) in *. clearbody va n.
  destruct page_pos as [Ep|Ep]; rewrite Ep in *; unfold PAGE_SIZE, HUGE_PAGE_SIZE in *; split_and!; dlia.
Qed.

Lemma page_of_inside v i :
  0 <= i < rq_num r -> v / rq_page r = (rq_va r + i * rq_page r) / rq_page r -> inside r v.
Proof using Hr.
  unfold inside, rq_last, rq_bytes. intros Hi E.
  pose proof (ro_va _ Hr) as [q Hq]. set (va := rq_va r) in *. set (n := rq_num r) in *. clearbody va n.
  destruct page_pos as [Ep|Ep]; rewrite Ep in *; unfold PAGE_SIZE, HUGE_PAGE_SIZE in *; dlia.
Qed.

Lemma inside_slot v : inside r v -> in_slot r v.
Proof using Type. unfold inside, in_slot, HUGE_PAGE_SIZE. intros. split; dlia. Qed.
End ranges.

(** ** The invariant *)

(** The areas of the tree: bounds and entry. *)
Definition areas (m : mem) (t : tree) : list (Z * Z * Z) :=
  (fun x => (vma_start m x, vma_end m x, m (vma_of x + off_vma_pte))) <$> nodes t.
Definition area_of (r : request) : Z * Z * Z := (rq_va r, rq_last r, Z.lor (rq_pa r) (rq_flags r)).

Section space.
Context {client : AllocClient} (img : kernel_image) (turns : nat) (o al n : Z).
Context (Hat : cache_at (vma_cache img) sizeof_vma o al n).
Implicit Types (s : pstate) (l : list request) (r : request) (L : Z -> list ptr).

(** The page tables after the requests [l]. *)
Record tables_of (m : mem) (root : ptr) l : Prop := {
  to_small : forall r i, r ∈ l -> rq_huge r = false -> 0 <= i < rq_num r ->
    pte m root (rq_va r + i * PAGE_SIZE) = Z.lor (rq_pa r + i * PAGE_SIZE) (rq_flags r);
  to_huge : forall r i, r ∈ l -> rq_huge r = true -> 0 <= i < rq_num r ->
    pde m root (rq_va r + i * HUGE_PAGE_SIZE) = Z.lor (rq_pa r + i * HUGE_PAGE_SIZE) (rq_flags r);
  to_nosmall : forall v, canonical v -> (forall r, r ∈ l -> rq_huge r = false -> ~ inside r v) -> pte m root v = 0;
  to_nohuge : forall v, canonical v -> (forall r, r ∈ l -> rq_huge r = true -> ~ inside r v) ->
    huge_leaf m root (pd_path v) (VIRT_TO_PD_IDX v) = 0;
  to_nolink : forall v, canonical v -> (forall r, r ∈ l -> rq_huge r = false -> ~ in_slot r v) ->
    is_link (pde m root v) = false;
  to_empty : forall v, canonical v -> (forall r, r ∈ l -> rq_huge r = false -> ~ in_slot r v) ->
    (forall r, r ∈ l -> rq_huge r = true -> ~ inside r v) -> pde m root v = 0;
}.

Record space s L l : Prop := {
  sp_kvm : exists R fl t, kvm img o al n s L R fl t /\ areas (k_mem (p_k s)) t ≡ₚ (area_of <$> l);
  sp_lock : lock_free (p_k s) kernel_page_lock;
  sp_tables : tables_of (k_mem (p_k s)) (kernel_pml4t s) l;
}.

(** *** Consequences *)

(** An entry written for page [i] of a request stays when another page is
    written, and an address outside is not the page's. *)
Lemma small_apart r v i :
  request_ok r -> rq_huge r = false -> canonical v -> ~ inside r v -> 0 <= i < rq_num r ->
  vpn v <> vpn (u64 (rq_va r + i * PAGE_SIZE)).
Proof using Type.
  intros Hr Hs Hv Hn Hi E. assert (Ep : rq_page r = PAGE_SIZE) by (unfold rq_page; by rewrite Hs).
  pose proof (page_u64 r Hr i Hi) as Eu. rewrite Ep in Eu. rewrite Eu in E.
  apply Hn. eapply (page_of_inside r Hr v i Hi). rewrite Ep. apply vpn_canonical; [done| |done].
  rewrite <- Ep. by apply (inside_canonical r Hr), page_inside.
Qed.

Lemma huge_apart r v i :
  request_ok r -> rq_huge r = true -> canonical v -> ~ inside r v -> 0 <= i < rq_num r ->
  huge_vpn v <> huge_vpn (u64 (rq_va r + i * HUGE_PAGE_SIZE)).
Proof using Type.
  intros Hr Hs Hv Hn Hi E. assert (Ep : rq_page r = HUGE_PAGE_SIZE) by (unfold rq_page; by rewrite Hs).
  pose proof (page_u64 r Hr i Hi) as Eu. rewrite Ep in Eu. rewrite Eu in E.
  apply Hn. eapply (page_of_inside r Hr v i Hi). rewrite Ep. apply huge_vpn_canonical; [done| |done].
  rewrite <- Ep. by apply (inside_canonical r Hr), page_inside.
Qed.

Lemma slot_apart r v i :
  request_ok r -> canonical v -> ~ in_slot r v -> 0 <= i < rq_num r -> rq_huge r = false ->
  huge_vpn v <> huge_vpn (u64 (rq_va r + i * PAGE_SIZE)).
Proof using Type.
  intros Hr Hv Hn Hi Hs E. assert (Ep : rq_page r = PAGE_SIZE) by (unfold rq_page; by rewrite Hs).
  pose proof (page_u64 r Hr i Hi) as Eu. pose proof (page_inside r Hr i Hi) as Hin. rewrite Ep in *. rewrite Eu in E.
  pose proof (inside_slot r _ Hin) as Hslot. apply Hn. unfold in_slot in *.
  rewrite (huge_vpn_canonical _ _ Hv (inside_canonical r Hr _ Hin) E). done.
Qed.

Lemma compatible_outside r r' v : compatible r r' -> inside r' v -> ~ inside r v.
Proof using Type. unfold compatible, inside. intros [H _]. lia. Qed.

Lemma compatible_slots r r' v :
  compatible r r' -> rq_huge r <> rq_huge r' -> in_slot r' v -> ~ in_slot r v.
Proof using Type. unfold compatible, in_slot. intros [_ H] Hne. specialize (H Hne). lia. Qed.

Lemma space_range_free s L l r R fl t :
  kvm img o al n s L R fl t -> areas (k_mem (p_k s)) t ≡ₚ (area_of <$> l) -> Forall (compatible r) l ->
  range_free (k_mem (p_k s)) t (rq_va r) (rq_bytes r).
Proof using Type.
  intros _ Ha Hc x Hx. assert (Hin : (vma_start (k_mem (p_k s)) x, vma_end (k_mem (p_k s)) x,
    k_mem (p_k s) (vma_of x + off_vma_pte)) ∈ area_of <$> l).
  { rewrite <- Ha. apply list_elem_of_fmap. by exists x. }
  apply list_elem_of_fmap in Hin as (r' & E & Hr'). injection E as -> -> _.
  rewrite Forall_forall in Hc. destruct (Hc r' Hr') as [H _]. unfold rq_last in *. lia.
Qed.

Lemma areas_added s s' t t' r l :
  area_added (rq_va r) (rq_bytes r) (Z.lor (rq_pa r) (rq_flags r)) s s' t t' ->
  areas (k_mem (p_k s)) t ≡ₚ (area_of <$> l) -> areas (k_mem (p_k s')) t' ≡ₚ (area_of <$> (r :: l)).
Proof using Type.
  intros (x & HN & E1 & E2 & E3 & Hk) Ha. unfold areas in *. rewrite HN. rewrite !fmap_cons, E1, E2, E3.
  apply perm_skip. rewrite <- Ha. erewrite list_fmap_ext; [done|]. intros i y Hy%list_elem_of_lookup_2. cbv beta.
  unfold vma_start, vma_end. rewrite !Hk by done. done.
Qed.

(** *** One more request *)

Lemma phys_u64 r i : request_ok r -> 0 <= i < rq_num r -> u64 (rq_pa r + i * rq_page r) = rq_pa r + i * rq_page r.
Proof using Type.
  intros Hr Hi. apply u64_small. pose proof (ro_phys _ Hr) as [H1 H2]. unfold rq_bytes in H2.
  destruct (page_pos r) as [Ep|Ep]; rewrite Ep in *; unfold PAGE_SIZE, HUGE_PAGE_SIZE in *; nia.
Qed.

Lemma small_page r : rq_huge r = false -> rq_page r = PAGE_SIZE.
Proof using Type. unfold rq_page. by intros ->. Qed.
Lemma huge_page r : rq_huge r = true -> rq_page r = HUGE_PAGE_SIZE.
Proof using Type. unfold rq_page. by intros ->. Qed.

Section step.
Context (m m' : mem) (root : ptr) (r : request) (l : list request).
Context (Hr : request_ok r) (Hl : Forall request_ok l) (Hc : Forall (compatible r) l) (Ht : tables_of m root l).

(** A page of an earlier request is canonical and outside the new one. *)
Lemma earlier_page r' i :
  r' ∈ l -> 0 <= i < rq_num r' ->
  let v := rq_va r' + i * rq_page r' in canonical v /\ inside r' v /\ ~ inside r v.
Proof using Hl Hc.
  intros Hr' Hi v. rewrite Forall_forall in Hl, Hc. pose proof (page_inside r' (Hl r' Hr') i Hi) as Hin.
  split_and!; [by eapply inside_canonical; [apply (Hl r' Hr')|]|done|].
  by eapply compatible_outside; [apply (Hc r' Hr')|].
Qed.

Lemma tables_small :
  rq_huge r = false -> pages_mapped root (rq_pa r) (rq_va r) (rq_flags r) (rq_num r) m m' -> tables_of m' root (r :: l).
Proof using Hr Hl Hc Ht.
  intros Hs (Hd & Hsh & Hp & Ho). destruct Ht as [T1 T2 T3 T4 T5 T6].
  assert (Hslot : forall v, canonical v -> ~ in_slot r v -> pde m' root v = pde m root v).
  { intros v Hv Hn. apply Hd. intros i Hi. by apply slot_apart. }
  split.
  - intros r' i [->|Hr']%elem_of_cons Hs' Hi.
    + pose proof (page_u64 r Hr i Hi) as Eu. pose proof (phys_u64 r i Hr Hi) as Ep. pose proof (ro_pa _ Hr) as Hal.
      rewrite (small_page r Hs) in *. rewrite <- Eu, Hp by done. apply Z.mod_divide in Hal; [|done].
      by rewrite Hal, Z.sub_0_r, Ep.
    + destruct (earlier_page r' i Hr' Hi) as (Hca & Hin & Hout). rewrite (small_page r' Hs') in *.
      rewrite Ho; [by apply T1|]. intros j Hj. by apply small_apart.
  - intros r' i [->|Hr']%elem_of_cons Hs' Hi; [congruence|].
    destruct (earlier_page r' i Hr' Hi) as (Hca & Hin & Hout). rewrite (huge_page r' Hs') in *.
    rewrite Hd; [by apply T2|]. intros j Hj. apply slot_apart; try done.
    rewrite Forall_forall in Hc. eapply compatible_slots; [by apply Hc|congruence|by apply inside_slot].
  - intros v Hv Hn. rewrite Ho; [apply T3; [done|]; intros r' Hr'; apply Hn; by right|].
    intros i Hi. apply small_apart; try done. apply Hn; [left|done].
  - intros v Hv Hn. rewrite Hsh by (apply pd_path_ok || apply idx_land || done).
    apply T4; [done|]. intros r' Hr'. apply Hn. by right.
  - intros v Hv Hn. rewrite Hslot by (done || by apply Hn; [left|]).
    apply T5; [done|]. intros r' Hr'. apply Hn. by right.
  - intros v Hv Hn Hh. rewrite Hslot by (done || by apply Hn; [left|]).
    apply T6; [done|intros r' Hr'; apply Hn; by right|intros r' Hr'; apply Hh; by right].
Qed.

Lemma tables_huge :
  rq_huge r = true ->
  (forall v, pte m' root v = pte m root v) ->
  (forall i, 0 <= i < rq_num r -> pde m' root (u64 (rq_va r + i * HUGE_PAGE_SIZE)) =
     Z.lor (u64 (rq_pa r + i * HUGE_PAGE_SIZE)) (rq_flags r)) ->
  (forall v, (forall i, 0 <= i < rq_num r -> huge_vpn v <> huge_vpn (u64 (rq_va r + i * HUGE_PAGE_SIZE))) ->
     pde m' root v = pde m root v) ->
  tables_of m' root (r :: l).
Proof using Hr Hl Hc Ht.
  intros Hs Hp Hi' Ho. destruct Ht as [T1 T2 T3 T4 T5 T6].
  assert (Hout : forall v, canonical v -> ~ inside r v -> pde m' root v = pde m root v).
  { intros v Hv Hn. apply Ho. intros i Hi. by apply huge_apart. }
  split.
  - intros r' i [->|Hr']%elem_of_cons Hs' Hi; [congruence|]. rewrite Hp. by apply T1.
  - intros r' i [->|Hr']%elem_of_cons Hs' Hi.
    + pose proof (page_u64 r Hr i Hi) as Eu. pose proof (phys_u64 r i Hr Hi) as Ep.
      rewrite (huge_page r Hs) in *. by rewrite <- Eu, Hi', Ep by done.
    + destruct (earlier_page r' i Hr' Hi) as (Hca & Hin & Hno). rewrite (huge_page r' Hs') in *.
      rewrite Hout by done. by apply T2.
  - intros v Hv Hn. rewrite Hp. apply T3; [done|]. intros r' Hr'. apply Hn. by right.
  - intros v Hv Hn. assert (Hnr : ~ inside r v) by (apply Hn; [left|done]).
    unfold huge_leaf. fold (pde m' root v). rewrite Hout by done. apply T4; [done|]. intros r' Hr'. apply Hn. by right.
  - intros v Hv Hn. destruct (decide (rq_va r <= v < rq_last r)) as [Hin|Hno].
    + destruct (inside_page r Hr v Hin) as (i & Hi & Ev & _). rewrite (huge_page r Hs) in Ev.
      pose proof (page_u64 r Hr i Hi) as Eu. rewrite (huge_page r Hs) in Eu.
      assert (Epde : pde m' root v = pde m' root (rq_va r + i * HUGE_PAGE_SIZE)).
      { unfold pde. assert (E : huge_vpn v = huge_vpn (rq_va r + i * HUGE_PAGE_SIZE))
          by (unfold huge_vpn; unfold HUGE_PAGE_SIZE in *; change (2 ^ 21) with 0x200000; by rewrite Ev).
        apply huge_loc_vpn in E as [-> ->]. done. }
      rewrite Epde, <- Eu, Hi' by done. by apply huge_entry_nolink.
    + rewrite Hout by done. apply T5; [done|]. intros r' Hr'. apply Hn. by right.
  - intros v Hv Hn Hh. rewrite Hout by (done || by apply Hh; [left|]).
    apply T6; [done|intros r' Hr'; apply Hn; by right|intros r' Hr'; apply Hh; by right].
Qed.
End step.

(** ** Running requests *)

(** Frames a request may take: the tables of each page and one slab. *)
Definition cost (r : request) : nat :=
  ((if rq_huge r then 2 else 3) * Z.to_nat (rq_num r) + Z.to_nat (2 ^ o))%nat.

Definition kmap_request (r : request) : cmd pstate unit :=
  kmap_pages img turns (rq_pa r) (rq_va r) (rq_flags r) (rq_num r).

Lemma vma_slab_page : o = 0.
Proof using Hat.
  destruct Hat as [Hg _ _]. assert (E : geometry sizeof_vma = Some (0, 8, 72)) by (vm_compute; reflexivity).
  rewrite E in Hg. by injection Hg.
Qed.

Lemma no_block_no_page L : (forall j, o <= j <= MAX_ORDER -> L j = []) -> free_pages L = [].
Proof using Hat.
  rewrite vma_slab_page. intros HL. unfold free_pages.
  assert (Hall : forall k, k ∈ seqZ 0 (MAX_ORDER + 1) -> L k ≫= pages_of k = []).
  { intros k Hk%elem_of_seqZ. rewrite HL by lia. done. }
  induction (seqZ 0 (MAX_ORDER + 1)) as [|k ks IH]; [done|]. rewrite bind_cons, Hall by left.
  apply IH. intros k' Hk'. apply Hall. by right.
Qed.

Lemma cost_pos r : (0 < cost r)%nat.
Proof using Hat. unfold cost. rewrite vma_slab_page. simpl. lia. Qed.

Lemma out_of_memory_cost L r msg :
  out_of_memory o L ((if rq_huge r then 2 else 3) * Z.to_nat (rq_num r)) msg -> (length (free_pages L) < cost r)%nat.
Proof using Hat.
  intros [(_ & H%no_block_no_page)|(_ & H)]; [rewrite H; apply cost_pos|done].
Qed.

(** What a run of requests leaves as it was, and the frames it may have taken. *)
Record grown (s : pstate) (L : Z -> list ptr) (c : nat) (s' : pstate) (L' : Z -> list ptr) : Prop := {
  gr_frame : kframe (p_k s) (p_k s');
  gr_root : kernel_pml4t s' = kernel_pml4t s;
  gr_frames : (length (free_pages L) <= length (free_pages L') + c)%nat;
}.

Lemma grown_trans s1 L1 c1 s2 L2 c2 s3 L3 :
  grown s1 L1 c1 s2 L2 -> grown s2 L2 c2 s3 L3 -> grown s1 L1 (c1 + c2) s3 L3.
Proof using Type. intros [? ? ?] [? ? ?]. split; [by etrans|congruence|lia]. Qed.

Lemma kmap_request_wpe s L l r :
  space s L l -> request_ok r -> Forall request_ok l -> Forall (compatible r) l ->
  (2 * Nat.log2 (length l + 1) <= turns)%nat ->
  wpe (kmap_request r) (fun _ s' => exists L', space s' L' (r :: l) /\ grown s L (cost r) s' L')
    (fun _ => length (free_pages L) < cost r)%nat s.
Proof using Hat.
  intros [(R & fl & t & Hkv & Ha) Hlk Ht] Hr Hl Hc Hen.
  assert (Hen' : enough t turns).
  { unfold enough. pose proof (Permutation_length Ha) as E. unfold areas in E. rewrite !length_fmap in E. by rewrite E. }
  pose proof (space_range_free s L l r R fl t Hkv Ha Hc) as Hfree. pose proof (ro_num _ Hr) as Hnum.
  pose proof (ro_half _ Hr) as Hhalf. pose proof (ro_phys _ Hr) as [Hpa1 Hpa2]. unfold rq_last, rq_bytes in *.
  unfold kmap_request. destruct (rq_huge r) eqn:Hs.
  - rewrite (huge_page r Hs) in *. unfold HUGE_PAGE_SIZE in Hhalf, Hpa2.
    eapply wpe_mono; [apply (kmap_huge_pages_wpe img turns o al n Hat _ _ _ _ s L R fl t Hkv Hlk Hen' Hs); try (unfold HUGE_PAGE_SIZE; lia); try done| |].
    + intros i Hi. pose proof (page_u64 r Hr i Hi) as Eu. rewrite (huge_page r Hs) in Eu. rewrite Eu.
      pose proof (page_inside r Hr i Hi) as Hin. rewrite (huge_page r Hs) in Hin.
      apply (to_nolink _ _ _ Ht); [by apply (inside_canonical r Hr)|]. intros r' Hr' Hs'.
      rewrite Forall_forall in Hc. intros Hsl. eapply (compatible_slots r r'); [by apply Hc|congruence|exact Hsl|].
      by apply inside_slot.
    + cbv beta. intros _ s' (Hk & Er & (Hp & Hi & Ho) & L' & R' & fl' & t' & Hkv' & Hlen & Har).
      exists L'. split; [|split; [done|done|unfold cost; rewrite Hs; lia]]. split; [|by apply Hk|].
      * exists R', fl', t'. split; [done|]. eapply areas_added; [|exact Ha]. unfold rq_bytes. by rewrite (huge_page r Hs).
      * rewrite Er. by eapply tables_huge.
    + intros msg Hmsg. eapply (out_of_memory_cost L r msg). by rewrite Hs.
  - rewrite (small_page r Hs) in *. unfold PAGE_SIZE in Hhalf, Hpa2.
    eapply wpe_mono; [apply (kmap_pages_wpe img turns o al n Hat _ _ _ _ s L R fl t Hkv Hlk Hen' Hs); try (unfold PAGE_SIZE; lia); try done| |].
    + intros i Hi. pose proof (page_u64 r Hr i Hi) as Eu. rewrite (small_page r Hs) in Eu. cbv zeta. rewrite Eu.
      pose proof (page_inside r Hr i Hi) as Hin. rewrite (small_page r Hs) in Hin.
      apply (to_nohuge _ _ _ Ht); [by apply (inside_canonical r Hr)|]. intros r' Hr' Hs' Hin'.
      rewrite Forall_forall in Hc. by eapply (compatible_outside r r'); [apply Hc|..].
    + cbv beta. intros _ s' (Hk & Er & Hp & L' & R' & fl' & t' & Hkv' & Hlen & Har).
      exists L'. split; [|split; [done|done|unfold cost; rewrite Hs; lia]]. split; [|by apply Hk|].
      * exists R', fl', t'. split; [done|]. eapply areas_added; [|exact Ha]. unfold rq_bytes. by rewrite (small_page r Hs).
      * rewrite Er. by eapply tables_small.
    + intros msg Hmsg. eapply (out_of_memory_cost L r msg). by rewrite Hs.
Qed.

Fixpoint run_requests (rs : list request) : cmd pstate unit :=
  match rs with [] => ret tt | r :: rs => kmap_request r;; run_requests rs end.

Definition costs (rs : list request) : nat := sum_list_with cost rs.

(** Requests that fit together. *)
Definition plan_ok (l : list request) : Prop := Forall request_ok l /\ ForallOrdPairs compatible l.

Lemma compatible_sym r r' : compatible r r' -> compatible r' r.
Proof using Type. unfold compatible. intros [H1 H2]. split; [lia|]. intros Hne. specialize (H2 ltac:(congruence)). lia. Qed.

Lemma plan_ok_perm l l' : l ≡ₚ l' -> plan_ok l -> plan_ok l'.
Proof using Type.
  intros HP [H1 H2]. split; [by rewrite <- HP|]. clear H1. induction HP as [|r l l' HP IH|r r' l|l1 l2 l3 _ IH1 _ IH2].
  - constructor.
  - inversion H2; subst. constructor; [by rewrite <- HP|auto].
  - inversion H2 as [|? ? Ha Hb]; subst. inversion Hb as [|? ? Hc Hd]; subst. apply Forall_cons in Ha as [Hx Ha].
    constructor; [|constructor; done]. constructor; [by apply compatible_sym|done].
  - auto.
Qed.

Lemma space_perm s L l l' : l ≡ₚ l' -> space s L l -> space s L l'.
Proof using Type.
  intros HP [(R & fl & t & Hkv & Ha) Hlk [T1 T2 T3 T4 T5 T6]].
  assert (Hin : forall r, r ∈ l <-> r ∈ l') by (intros r; by rewrite HP).
  split; [|done|split].
  - exists R, fl, t. split; [done|]. by rewrite Ha, HP.
  - intros r i Hr. by apply T1, Hin.
  - intros r i Hr. by apply T2, Hin.
  - intros v Hv Hn. apply T3; [done|]. intros r Hr. by apply Hn, Hin.
  - intros v Hv Hn. apply T4; [done|]. intros r Hr. by apply Hn, Hin.
  - intros v Hv Hn. apply T5; [done|]. intros r Hr. by apply Hn, Hin.
  - intros v Hv Hn Hh. apply T6; [done|intros r Hr; by apply Hn, Hin|intros r Hr; by apply Hh, Hin].
Qed.

Lemma log2_fuel (a b : nat) : (a <= b)%nat -> (2 * Nat.log2 (b + 1) <= turns)%nat -> (2 * Nat.log2 (a + 1) <= turns)%nat.
Proof using Type. intros Hab. pose proof (Nat.log2_le_mono (a + 1) (b + 1)). lia. Qed.

Lemma run_requests_wpe rs s L l :
  space s L l -> plan_ok (rs ++ l) -> (2 * Nat.log2 (length (rs ++ l) + 1) <= turns)%nat ->
  wpe (run_requests rs) (fun _ s' => exists L', space s' L' (rs ++ l) /\ grown s L (costs rs) s' L')
    (fun _ => length (free_pages L) < costs rs)%nat s.
Proof using Hat.
  revert s L l. induction rs as [|r rs IH]; intros s L l Hsp Hok Hf; cbn [run_requests].
  { apply wpe_wp, wp_ret. exists L. split; [done|]. split; [reflexivity|done|]. cbn. lia. }
  assert (HP : rs ++ r :: l ≡ₚ (r :: rs) ++ l) by by rewrite <- Permutation_middle.
  pose proof Hok as [Hr Hc]. cbn [app] in Hr, Hc. apply Forall_cons in Hr as [Hr Hl]. apply Forall_app in Hl as [_ Hl].
  inversion Hc as [|? ? Hcr _]; subst. apply Forall_app in Hcr as [_ Hcr].
  apply wpe_bind. eapply wpe_mono; [apply (kmap_request_wpe s L l r Hsp Hr Hl Hcr)| |].
  - eapply log2_fuel; [|exact Hf]. rewrite length_app. lia.
  - cbv beta. intros _ s1 (L1 & Hsp1 & Hg1).
    eapply wpe_mono; [apply (IH s1 L1 (r :: l) Hsp1)| |].
    + eapply plan_ok_perm; [|exact Hok]. by rewrite HP.
    + by rewrite HP.
    + cbv beta. intros _ s2 (L2 & Hsp2 & Hg2). exists L2. split; [by eapply space_perm|].
      by eapply grown_trans.
    + intros msg Hlt. pose proof (gr_frames _ _ _ _ _ Hg1). cbn [costs sum_list_with]. unfold costs in Hlt. lia.
  - intros msg Hlt. cbv beta in Hlt. cbn [costs sum_list_with]. unfold costs. cbn. lia.
Qed.
End space.

(** ** What the processor sees *)

Section translation.
Context (m : mem) (root : ptr) (l : list request) (Hl : Forall request_ok l) (Ht : tables_of m root l).

Lemma pte_vpn v w : vpn v = vpn w -> pte m root v = pte m root w.
Proof using Type. unfold pte. by intros [-> ->]%loc_vpn. Qed.
Lemma pde_vpn v w : huge_vpn v = huge_vpn w -> pde m root v = pde m root w.
Proof using Type. unfold pde. by intros [-> ->]%huge_loc_vpn. Qed.

Lemma translate_inside r v : r ∈ l -> inside r v -> translate m root v = Some (target r v).
Proof using Hl Ht.
  intros Hin Hv. rewrite Forall_forall in Hl. pose proof (Hl r Hin) as Hr.
  destruct (inside_page r Hr v Hv) as (i & Hi & Ev & Ed). pose proof (ro_present _ Hr) as Hpr.
  pose proof (ro_pa _ Hr) as Hal. pose proof (ro_phys _ Hr) as [Hp1 Hp2]. pose proof (ro_flags _ Hr) as Hfl.
  unfold translate, target, rq_bytes in *. destruct (rq_huge r) eqn:Hs.
  - rewrite (huge_page r Hs) in *.
    assert (E : pde m root v = Z.lor (rq_pa r + i * HUGE_PAGE_SIZE) (rq_flags r)).
    { rewrite <- (to_huge _ _ _ Ht) by done. apply pde_vpn. unfold huge_vpn, HUGE_PAGE_SIZE in *.
      change (2 ^ 21) with 0x200000. by rewrite Ev. }
    rewrite E, (has_flag_lor _ _ PTE_PRESENT), (has_flag_lor _ _ PTE_HUGE_PAGE) by done.
    destruct (entry_parts 21 (rq_pa r + i * HUGE_PAGE_SIZE) (rq_flags r)) as [E1 E2]; [by right| |  |done|].
    { unfold HUGE_PAGE_SIZE in *. nia. }
    { apply Z.divide_add_r; [done|apply Z.divide_factor_r]. }
    change HUGE_ADDR_MASK with (Z.lxor (Z.ones 52) (Z.ones 21)). rewrite E1, E2. f_equal. f_equal. lia.
  - rewrite (small_page r Hs) in *.
    assert (E : pte m root v = Z.lor (rq_pa r + i * PAGE_SIZE) (rq_flags r)).
    { rewrite <- (to_small _ _ _ Ht) by done. apply pte_vpn. unfold vpn, PAGE_SIZE in *.
      change (2 ^ 12) with 0x1000. by rewrite Ev. }
    assert (Hp : has_flag (pte m root v) PTE_PRESENT = true) by (rewrite E; by apply has_flag_lor).
    assert (Hlink : is_link (pde m root v) = true) by (apply pte_link; intros E0; by rewrite E0 in Hp).
    unfold is_link in Hlink. apply andb_true_iff in Hlink as [-> Hh%negb_true_iff]. rewrite Hh, Hp, E.
    destruct (entry_parts 12 (rq_pa r + i * PAGE_SIZE) (rq_flags r)) as [E1 E2]; [by left| | |done|].
    { unfold PAGE_SIZE in *. nia. }
    { apply Z.divide_add_r; [done|apply Z.divide_factor_r]. }
    change (Z.land (Z.lor (rq_pa r + i * PAGE_SIZE) (rq_flags r)) PTE_ADDR_MASK)
      with (Z.land (Z.lor (rq_pa r + i * PAGE_SIZE) (rq_flags r)) (Z.lxor (Z.ones 52) (Z.ones 12))).
    rewrite E1, E2. f_equal. f_equal. lia.
Qed.

Lemma translate_outside v : canonical v -> (forall r, r ∈ l -> ~ inside r v) -> translate m root v = None.
Proof using Ht.
  intros Hv Hn. unfold translate. pose proof (to_nohuge _ _ _ Ht v Hv ltac:(auto)) as Hh.
  pose proof (to_nosmall _ _ _ Ht v Hv ltac:(auto)) as Hs. unfold huge_leaf in Hh. fold (pde m root v) in Hh. rewrite Hs.
  destruct (has_flag (pde m root v) PTE_PRESENT) eqn:Hp; [|done].
  destruct (has_flag (pde m root v) PTE_HUGE_PAGE); [|done]. cbn in Hh. by rewrite Hh in Hp.
Qed.
End translation.
