(* ===== verification/UnmapHuge.v ===== *)
(** * Huge pages: release

    Unmapping 2 MB pages down to the tables: a directory that has lost its last
    entry is unlinked and its frame goes back to the page allocator, and so is
    the table above it.  The frames are released on a bitmap that is right about
    single pages (BuddyFresh), so the release finds the buddies it announces. *)

From stdpp Require Import functions.
From S2P Require Import Prelude State Kmath Buddy FreeList BuddyInv BuddyOps BuddyFresh Slab SlabTheorems SlabRings.
From S2P Require Import PhysKmalloc SlabObjects SlabAlloc Mmu MmuInv MmuOps MmuTheorems RbTree RbRep RbInsert.
From S2P Require Import RbBalance RbTheorems Vm Paging LockFrame PagingInv PagingTheorems Kunmap AddressSpace.

(** ** Clearing the link to an empty table *)

Section unlink_entry.
Context (m : mem) (root : ptr) (F : list Z) (Hi : pt_inv m root F).
Context (p0 : list Z) (t0 i0 x : Z).
Hypothesis (Hp0 : path_ok p0) (Hi0 : idx_ok i0) (Hl0 : (length p0 < 3)%nat) (Ht0 : tbl m root p0 = Some t0)
  (Hx : tbl m root (p0 ++ [i0]) = Some x) (Hz : forall j, idx_ok j -> m (entry x j) = 0).
Let m' : mem := m.[entry t0 i0 <- 0].

Lemma unlink_tbl q : path_ok q -> tbl m' root q = if decide (q = p0 ++ [i0]) then None else tbl m root q.
Proof using Hi Hp0 Hi0 Ht0 Hx Hz.
  intros Hq.
  assert (Hat : tbl m' root (p0 ++ [i0]) = None) by (unfold m'; by rewrite (set_entry_at m root F)).
  destruct (decide (q = p0 ++ [i0])) as [->|Hne]; [done|].
  destruct (decide ((p0 ++ [i0]) `prefix_of` q)) as [[r ->]|Hpre].
  - destruct r as [|j r]; [by rewrite app_nil_r in Hne|].
    rewrite !(tbl_app _ root (p0 ++ [i0])), Hat, Hx. cbn [tbl]. rewrite Hz; [done|].
    destruct Hq as [Hq _]. by apply Forall_app in Hq as [_ [? _]%Forall_cons].
  - by apply (set_entry_tbl m root F Hi p0 t0 i0 _ Hp0 Hi0 Ht0 q Hq).
Qed.

Lemma unlink_leaf q j :
  path_ok q -> idx_ok j -> leaf m' root q j = if decide (q = p0 /\ j = i0) then 0 else leaf m root q j.
Proof using Hi Hp0 Hi0 Ht0 Hx Hz.
  intros Hq Hj. unfold leaf. rewrite unlink_tbl by done. destruct (decide (q = p0 ++ [i0])) as [->|Hne].
  - rewrite Hx, Hz by done. by destruct (decide _).
  - destruct (decide (q = p0 /\ j = i0)) as [[-> ->]|Hne2]; [rewrite Ht0; apply upd_eq|].
    destruct (tbl m root q) as [t|] eqn:E; [|done].
    by apply (set_entry_other m root F Hi p0 t0 i0 _ Hp0 Hi0 Ht0 q).
Qed.

Lemma unlink_pt_inv : pt_inv m' root (x :: F).
Proof using Hi Hp0 Hi0 Hl0 Ht0 Hx Hz.
  assert (Hpx : path_ok (p0 ++ [i0])) by (by apply path_ok_snoc_2). split.
  - intros p t Hp. rewrite unlink_tbl by done. destruct (decide _) as [|Hne]; [done|]. intros E.
    destruct (pi_frame _ _ _ Hi p t Hp E) as [Hf Hn]. split; [done|]. intros [->|?]%elem_of_cons; [|done].
    apply Hne. by eapply (pi_inj _ _ _ Hi).
  - intros p q t Hp Hq. rewrite !unlink_tbl by done. destruct (decide (p = _)), (decide (q = _)); try done.
    by apply (pi_inj _ _ _ Hi).
  - intros p t i Hp Hl Hidx. rewrite unlink_tbl by done. destruct (decide _); [done|]. intros E.
    destruct (decide (p = p0 /\ i = i0)) as [[-> ->]|Hne].
    + rewrite Ht0 in E. injection E as <-. unfold m'. by rewrite upd_eq.
    + unfold m'. rewrite (set_entry_other m root F Hi p0 t0 i0 _ Hp0 Hi0 Ht0 p) by done. by apply (pi_nogiant _ _ _ Hi p).
Qed.
End unlink_entry.

(** ** Giving a table back *)

Section shrink.
Context (root : ptr) (W : list Z).

(** Page tables over the page allocator's region, beside the frames [W]. *)
Record region (s : kstate) (L : Z -> list ptr) : Prop := {
  rg_buddy : buddy_inv (k_mem s) (k_buddy s) L;
  rg_lock : lock_free s buddy_lock;
  rg_tables : pt_inv (k_mem s) root (free_pages L ++ W);
  rg_inside : forall q t, path_ok q -> tbl (k_mem s) root q = Some t -> block_ok (k_buddy s) 0 t;
}.

(** No table is new, and [D] are the frames of exactly those that are gone. *)
Record given_back (m m' : mem) (D : list Z) : Prop := {
  gb_tables : forall q t, path_ok q -> tbl m' root q = Some t -> tbl m root q = Some t;
  gb_gone : forall f, f ∈ D <-> exists q, path_ok q /\ tbl m root q = Some f /\ tbl m' root q = None;
}.

Lemma given_back_refl m : given_back m m [].
Proof using Type.
  split; [done|]. intros f. rewrite elem_of_nil. split; [done|]. intros (q & _ & E1 & E2). congruence.
Qed.

Lemma given_back_trans m1 m2 m3 D1 D2 : given_back m1 m2 D1 -> given_back m2 m3 D2 -> given_back m1 m3 (D2 ++ D1).
Proof using Type.
  intros [A1 A2] [B1 B2]. split; [auto|]. intros f. rewrite elem_of_app, A2, B2. split.
  - intros [(q & Hq & E1 & E2)|(q & Hq & E1 & E2)]; exists q; [by auto|]. split_and!; [done|done|].
    destruct (tbl m3 root q) eqn:E; [|done]. apply B1 in E; [congruence|done].
  - intros (q & Hq & E1 & E2). destruct (tbl m2 root q) as [t|] eqn:E; [left|right]; exists q; [|done].
    pose proof (A1 q t Hq E). split_and!; congruence.
Qed.

(** What is the same before and after is the same for the tables. *)
Lemma given_back_ext m1 m1' m2 m2' D :
  (forall q, path_ok q -> tbl m1' root q = tbl m1 root q) -> (forall q, path_ok q -> tbl m2' root q = tbl m2 root q) ->
  given_back m1 m2 D -> given_back m1' m2' D.
Proof using Type.
  intros H1 H2 [A1 A2]. split; [intros q t Hq; rewrite H1, H2 by done; auto|]. intros f. rewrite A2.
  split; intros (q & Hq & E1 & E2); exists q; rewrite ?H1, ?H2 in * by done; done.
Qed.

(** Tables were given back; the entries of the lowest two levels are the same. *)
Record shrunk (s : kstate) (L : Z -> list ptr) (s' : kstate) (L' : Z -> list ptr) : Prop := {
  sk_region : region s' L';
  sk_frame : kframe s s';
  sk_frames : exists D, free_pages L' ≡ₚ D ++ free_pages L /\ given_back (k_mem s) (k_mem s') D;
  sk_leaves : forall q j, path_ok q -> (1 < length q)%nat -> idx_ok j -> leaf (k_mem s') root q j = leaf (k_mem s) root q j;
  sk_mem : forall a, page_of a ∉ free_pages L -> (forall q, path_ok q -> tbl (k_mem s) root q <> Some (page_of a)) ->
    k_mem s' a = k_mem s a;
}.

Lemma sk_tables s L s' L' q t :
  shrunk s L s' L' -> path_ok q -> tbl (k_mem s') root q = Some t -> tbl (k_mem s) root q = Some t.
Proof using Type. intros [_ _ (D & _ & [H _]) _ _]. apply H. Qed.

Lemma sk_free s L s' L' x :
  shrunk s L s' L' -> x ∈ free_pages L' -> x ∈ free_pages L \/ exists q, path_ok q /\ tbl (k_mem s) root q = Some x.
Proof using Type.
  intros [_ _ (D & HP & [_ H]) _ _]. rewrite HP, elem_of_app, H. intros [(q & Hq & E & _)|Hx]; [right; by exists q|by left].
Qed.

Lemma shrunk_refl s L : region s L -> shrunk s L s L.
Proof using Type. intros Hr. split; auto; [reflexivity|]. exists []. split; [done|apply given_back_refl]. Qed.

Lemma shrunk_trans s1 L1 s2 L2 s3 L3 : shrunk s1 L1 s2 L2 -> shrunk s2 L2 s3 L3 -> shrunk s1 L1 s3 L3.
Proof using Type.
  intros HA HB. pose proof (sk_free s1 L1 s2 L2) as A4. pose proof (sk_tables s1 L1 s2 L2) as A3.
  pose proof HA as [A1 A2 (D1 & HP1 & HG1) A5 A6]. destruct HB as [B1 B2 (D2 & HP2 & HG2) B5 B6]. split; [done|by etrans| | |].
  - exists (D2 ++ D1). split; [by rewrite HP2, HP1, app_assoc|by eapply given_back_trans].
  - intros q j Hq Hl Hj. by rewrite B5, A5.
  - intros a Ha Ht. rewrite B6; [by apply A6| |].
    + intros Hin. destruct (A4 _ HA Hin) as [H|(q & Hq & E)]; [done|]. by apply (Ht q).
    + intros q Hq E. by apply (Ht q Hq), A3.
Qed.

Lemma drop_table_wp p0 t0 i0 x s L :
  region s L -> settled (k_buddy s) L -> path_ok p0 -> idx_ok i0 -> (length p0 < 2)%nat ->
  tbl (k_mem s) root p0 = Some t0 -> tbl (k_mem s) root (p0 ++ [i0]) = Some x ->
  (forall j, idx_ok j -> k_mem s (entry x j) = 0) ->
  wp (store (entry t0 i0) 0;; phys_kfree x PAGE_SIZE BUDDY_ALLOC) (fun _ s' => exists L',
    shrunk s L s' L' /\ (fresh (k_buddy s) L -> settled (k_buddy s') L') /\
    (forall q, path_ok q -> q <> p0 ++ [i0] -> tbl (k_mem s') root q = tbl (k_mem s) root q) /\
    tbl (k_mem s') root (p0 ++ [i0]) = None) s.
Proof using Type.
  intros [Hb Hlk Hi Hin] Hs Hp0 Hi0 Hl0 Ht0 Hx Hz. kwp. cbn [phys_kfree].
  assert (Hpx : path_ok (p0 ++ [i0])) by (apply path_ok_snoc_2; [done|done|lia]).
  pose proof (unlink_pt_inv _ _ _ Hi p0 t0 i0 x Hp0 Hi0 ltac:(lia) Ht0 Hx Hz) as Hi1.
  pose proof (unlink_tbl _ _ _ Hi p0 t0 i0 x Hp0 Hi0 Ht0 Hx Hz) as HT.
  pose proof (unlink_leaf _ _ _ Hi p0 t0 i0 x Hp0 Hi0 Ht0 Hx Hz) as HL.
  destruct (pi_frame _ _ _ Hi p0 t0 Hp0 Ht0) as [Hft Hnt]. destruct (pi_frame _ _ _ Hi _ x Hpx Hx) as [Hfx Hnx].
  set (m1 := (k_mem s).[entry t0 i0 <- 0]) in *.
  assert (Hb1 : buddy_inv m1 (k_buddy s) L).
  { eapply buddy_inv_local; [exact Hb|]. intros a Ha. apply upd_ne. intros ->. rewrite entry_page in Ha by done.
    apply Hnt, elem_of_app. by left. }
  assert (HnL : x ∉ free_pages L) by (intros ?; apply Hnx, elem_of_app; by left).
  pose proof (Hin _ _ Hpx Hx) as Hbx.
  eapply wp_mono; [apply (kfree_page_wp x (set_mem m1 s) L); done|]. cbv beta. intros _ s' [Hk (L' & Hf)].
  exists L'. assert (Hset : fresh (k_buddy s) L -> settled (k_buddy s') L').
  { intros Hfr. by apply (release_settled x (set_mem m1 s) L). }
  destruct Hf as [Hb' HP Hfr [Er1 Er2] _]. rewrite pages_of_0 in HP, Hfr. cbn [k_mem set_mem k_buddy] in Hfr, Er1, Er2.
  assert (Hfr' : mem_frame (x :: free_pages L ++ W) m1 (k_mem s')).
  { intros a Ha. apply Hfr. set_solver. }
  assert (HT' : forall q, path_ok q -> tbl (k_mem s') root q = if decide (q = p0 ++ [i0]) then None else tbl (k_mem s) root q).
  { intros q Hq. by rewrite (tbl_frame _ _ _ _ q Hi1 Hfr' Hq), HT. }
  split; [|split_and!; [exact Hset|intros q Hq Hne; by rewrite HT', decide_False|by rewrite HT', decide_True]].
  split.
  - split; [done|by apply Hk| |].
    + eapply pt_inv_frame; [exact Hi1|exact Hfr'|]. intros y. rewrite HP. set_solver.
    + intros q t Hq. rewrite HT' by done. destruct (decide _); [done|]. intros E. unfold block_ok.
      rewrite Er1, Er2. by apply (Hin q).
  - etrans; [|exact Hk]. by apply kframe_set_mem, kframe_refl.
  - exists [x]. split; [done|]. split; [intros q t Hq; rewrite HT' by done; by destruct (decide _)|].
    intros f. rewrite list_elem_of_singleton. split.
    + intros ->. exists (p0 ++ [i0]). by rewrite HT', decide_True.
    + intros (q & Hq & E1 & E2). rewrite HT' in E2 by done. destruct (decide (q = p0 ++ [i0])) as [->|]; congruence.
  - intros q j Hq Hl Hj. rewrite (leaf_frame _ _ _ _ q j Hi1 Hfr' Hq Hj), HL by done.
    rewrite decide_False; [done|]. intros [-> _]. lia.
  - intros a Ha Hta. rewrite Hfr.
    + apply upd_ne. intros ->. apply (Hta p0 Hp0). by rewrite entry_page.
    + intros [E|?]%elem_of_cons; [|done]. apply (Hta _ Hpx). by rewrite E.
Qed.
End shrink.

(** ** One page *)

Section page.
Context (root : ptr) (W : list Z).

(** The walk, up to the store: the outcome by case. *)
Lemma unmap_huge_walk s F paddr v ms mw :
  pt_inv (k_mem s) root F ->
  let e := pde (k_mem s) root v in
  unmap_huge root paddr v ms mw s =
  if negb (has_flag e PTE_PRESENT) then Ret tt s else
  if negb (has_flag e PTE_HUGE_PAGE) then Panic ms else
  if negb (Z.land e PTE_ADDR_MASK =? paddr) then Panic mw else
  match tbl (k_mem s) root [VIRT_TO_PML4_IDX v], tbl (k_mem s) root (pd_path v) with
  | Some pdpt, Some pd =>
      (store (entry pd (VIRT_TO_PD_IDX v)) 0;;
       invlpg v;;
       drop_if_empty pd (entry pdpt (VIRT_TO_PDPT_IDX v)) (drop_if_empty pdpt (entry root (VIRT_TO_PML4_IDX v)) (ret tt))) s
  | _, _ => Ret tt s
  end.
Proof using Type.
  intros Hi e.
  assert (P4 : path_ok [VIRT_TO_PML4_IDX v])
    by (apply (path_ok_snoc_2 []); [apply path_ok_nil|apply idx_land|simpl; lia]).
  pose proof (walk_step _ root F [] root (VIRT_TO_PML4_IDX v) Hi path_ok_nil ltac:(simpl; lia) (idx_land _) eq_refl) as W4.
  cbn [app] in W4. unfold e, unmap_huge, pde, leaf, load, gets. unfold bind at 1.
  set (e4 := k_mem s (entry root (VIRT_TO_PML4_IDX v))) in *.
  destruct (has_flag e4 PTE_PRESENT) eqn:H4; cbn [negb].
  2:{ assert (tbl (k_mem s) root (pd_path v) = None) as E2.
      { unfold pd_path. change [?a; ?b] with ([a] ++ [b]). by rewrite tbl_snoc, W4. }
      by rewrite E2. }
  pose proof (walk_step _ root F [VIRT_TO_PML4_IDX v] _ (VIRT_TO_PDPT_IDX v) Hi P4 ltac:(simpl; lia) (idx_land _) W4) as W3.
  cbn [app] in W3. fold (pd_path v) in W3. unfold bind at 1. set (pdpt := Z.land e4 PTE_ADDR_MASK) in *.
  destruct (has_flag (k_mem s (entry pdpt (VIRT_TO_PDPT_IDX v))) PTE_PRESENT) eqn:H3; cbn [negb]; rewrite W3; [|done].
  unfold bind at 1. rewrite W4. by repeat (destruct (negb _); [done|]).
Qed.

Lemma drop_if_empty_wp p0 t0 i0 x kont Q s L :
  region root W s L -> settled (k_buddy s) L -> path_ok p0 -> idx_ok i0 -> (length p0 < 2)%nat ->
  tbl (k_mem s) root p0 = Some t0 -> tbl (k_mem s) root (p0 ++ [i0]) = Some x ->
  ((exists j, idx_ok j /\ k_mem s (entry x j) <> 0) -> Q tt s) ->
  (forall s' L', shrunk root W s L s' L' -> (fresh (k_buddy s) L -> settled (k_buddy s') L') ->
     (forall q, path_ok q -> q <> p0 ++ [i0] -> tbl (k_mem s') root q = tbl (k_mem s) root q) ->
     tbl (k_mem s') root (p0 ++ [i0]) = None -> wp kont Q s') ->
  wp (drop_if_empty x (entry t0 i0) kont) Q s.
Proof using Type.
  intros Hr Hs Hp0 Hi0 Hl0 Ht0 Hx Hkeep Hdrop. unfold drop_if_empty, table_is_empty. kwp.
  destruct (is_empty 512 (k_mem s) x 0) eqn:He.
  - eapply wp_ext; [by rewrite <- bind_assoc|]. apply wp_bind.
    eapply wp_mono; [by apply (drop_table_wp root W p0 t0 i0 x s L); try done; intros j Hj; apply (proj1 (is_empty_spec _ _ _ _) He)|].
    cbv beta. intros _ s' (L' & H1 & H2 & H3 & H4). by eapply Hdrop.
  - kwp. apply Hkeep. apply not_true_iff_false in He. rewrite is_empty_spec in He.
    assert (Hex : exists j, j ∈ seqZ 0 512 /\ k_mem s (entry x j) <> 0).
    { apply Exists_exists. apply not_Forall_Exists; [intros ?; apply _|]. rewrite Forall_forall. intros Hall. apply He.
      intros j Hj. apply Hall, elem_of_seqZ. lia. }
    destruct Hex as (j & Hj%elem_of_seqZ & Hne). exists j. split; [unfold idx_ok; lia|done].
Qed.

(** The directory at [P] and the table above it, where they exist, have an entry. *)
Definition no_empty (m : mem) (P : list Z) : Prop :=
  forall q t, q = take 1 P \/ q = P -> tbl m root q = Some t -> exists j, idx_ok j /\ m (entry t j) <> 0.

Lemma linked_entry m p i t x : tbl m root p = Some t -> tbl m root (p ++ [i]) = Some x -> m (entry t i) <> 0.
Proof using Type. intros Ht. rewrite tbl_snoc, Ht. intros Hx E. by rewrite E in Hx. Qed.

(** The directory entry of [v] maps a huge page at [paddr]. *)
Definition maps_huge (m : mem) (paddr v : Z) : Prop :=
  let e := pde m root v in
  has_flag e PTE_PRESENT = true /\ has_flag e PTE_HUGE_PAGE = true /\ Z.land e PTE_ADDR_MASK = paddr.

Lemma maps_huge_tables m paddr v :
  maps_huge m paddr v -> exists pdpt pd, tbl m root [VIRT_TO_PML4_IDX v] = Some pdpt /\ tbl m root (pd_path v) = Some pd /\
    m (entry pd (VIRT_TO_PD_IDX v)) = pde m root v /\ is_link (pde m root v) = false.
Proof using Type.
  intros (H1 & H2 & _). unfold pde in *. assert (Hl : is_link (leaf m root (pd_path v) (VIRT_TO_PD_IDX v)) = false)
    by (unfold is_link; by rewrite H1, H2). rewrite Hl. unfold leaf in *.
  destruct (tbl m root (pd_path v)) as [pd|] eqn:E; [|done]. pose proof E as T. unfold pd_path in T.
  change [?a; ?b] with ([a] ++ [b]) in T. rewrite tbl_snoc in T.
  destruct (tbl m root [VIRT_TO_PML4_IDX v]) as [pdpt|] eqn:E4; [|done]. by exists pdpt, pd.
Qed.

(** The same tables, and the same memory outside them. *)
Record entries_only (m m' : mem) : Prop := {
  eo_tables : forall q, path_ok q -> tbl m' root q = tbl m root q;
  eo_memory : forall a, (forall q, path_ok q -> tbl m root q <> Some (page_of a)) -> m' a = m a;
}.

Lemma entries_only_trans m1 m2 m3 : entries_only m1 m2 -> entries_only m2 m3 -> entries_only m1 m3.
Proof using Type.
  intros [A1 A2] [B1 B2]. split; [intros q Hq; by rewrite B1, A1|].
  intros a Ha. rewrite B2; [by apply A2|]. intros q Hq. rewrite A1 by done. by apply Ha.
Qed.

(** Clearing that entry is no concern of the allocator. *)
Lemma clear_huge s L paddr v pd :
  region root W s L -> maps_huge (k_mem s) paddr v -> tbl (k_mem s) root (pd_path v) = Some pd ->
  let m' := (k_mem s).[entry pd (VIRT_TO_PD_IDX v) <- 0] in
  region root W (add_invlpg v (set_mem m' s)) L /\ entries_only (k_mem s) m' /\
  forall q j, path_ok q -> idx_ok j ->
    leaf m' root q j = if decide (q = pd_path v /\ j = VIRT_TO_PD_IDX v) then 0 else leaf (k_mem s) root q j.
Proof using Type.
  intros [Hb Hlk Hi Hin] Hm T m'. destruct (maps_huge_tables _ _ _ Hm) as (pdpt & pd' & T4 & T' & Ee & Hl).
  rewrite T in T'. injection T' as <-. rewrite <- Ee in Hl.
  destruct (set_leaf_extended (k_mem s) root (free_pages L ++ W) (pd_path v) pd (VIRT_TO_PD_IDX v) 0 Hi (pd_path_ok v)
    (idx_land _) T ltac:(simpl; lia) (or_intror (conj eq_refl Hl))) as (HI & _ & HL).
  pose proof (set_entry_nolink (k_mem s) root _ Hi (pd_path v) pd (VIRT_TO_PD_IDX v) 0 (pd_path_ok v) (idx_land _) T
    (or_intror (conj eq_refl Hl))) as HT. fold m' in HI, HL, HT.
  destruct (pi_frame _ _ _ Hi _ _ (pd_path_ok v) T) as [Hf Hn].
  split_and!; [|split; [done|]|done].
  2:{ intros a Ha. apply upd_ne. intros ->. apply (Ha _ (pd_path_ok v)). by rewrite entry_page by (done || apply idx_land). }
  split; cbn [k_mem k_buddy add_invlpg set_mem]; [|done|done|].
  - eapply buddy_inv_local; [exact Hb|]. intros a Ha. apply upd_ne. intros ->.
    rewrite entry_page in Ha by (done || apply idx_land).
    apply Hn, elem_of_app. by left.
  - intros q t Hq. rewrite HT by done. by apply Hin.
Qed.

(** Up to the tests of the tables. *)
Lemma unmap_huge_clears s L paddr v ms mw pdpt pd :
  region root W s L -> maps_huge (k_mem s) paddr v ->
  tbl (k_mem s) root [VIRT_TO_PML4_IDX v] = Some pdpt -> tbl (k_mem s) root (pd_path v) = Some pd ->
  unmap_huge root paddr v ms mw s =
  drop_if_empty pd (entry pdpt (VIRT_TO_PDPT_IDX v)) (drop_if_empty pdpt (entry root (VIRT_TO_PML4_IDX v)) (ret tt))
    (add_invlpg v (set_mem (k_mem s).[entry pd (VIRT_TO_PD_IDX v) <- 0] s)).
Proof using Type.
  intros Hr (H1 & H2 & H3) T4 T. rewrite (unmap_huge_walk s (free_pages L ++ W)) by apply Hr. cbv zeta.
  rewrite H1, H2, H3, Z.eqb_refl, T4, T. done.
Qed.

(** A directory with another entry stays. *)
Lemma unmap_huge_kept s L paddr v ms mw j :
  region root W s L -> maps_huge (k_mem s) paddr v ->
  idx_ok j -> j <> VIRT_TO_PD_IDX v -> leaf (k_mem s) root (pd_path v) j <> 0 ->
  exists pd, tbl (k_mem s) root (pd_path v) = Some pd /\ unmap_huge root paddr v ms mw s =
    Ret tt (add_invlpg v (set_mem (k_mem s).[entry pd (VIRT_TO_PD_IDX v) <- 0] s)).
Proof using Type.
  intros Hr Hm Hj Hne Hnz. destruct (maps_huge_tables _ _ _ Hm) as (pdpt & pd & T4 & T & _). exists pd. split; [done|].
  rewrite (unmap_huge_clears s L _ _ _ _ pdpt pd) by done. unfold leaf in Hnz. rewrite T in Hnz.
  set (m' := (k_mem s).[_ <- 0]). assert (Hem : is_empty 512 m' pd 0 = false).
  { destruct (is_empty 512 m' pd 0) eqn:E; [|done]. apply is_empty_spec with (j := j) in E.
    - destruct Hnz. rewrite <- E. symmetry. apply upd_ne. unfold entry. lia.
    - unfold idx_ok in Hj. lia. }
  unfold drop_if_empty at 1, table_is_empty, gets, bind. cbn [k_mem set_mem add_invlpg]. by rewrite Hem.
Qed.

Lemma unmap_huge_wp s L paddr v ms mw :
  region root W s L -> fresh (k_buddy s) L -> maps_huge (k_mem s) paddr v ->
  exists pd, tbl (k_mem s) root (pd_path v) = Some pd /\
  wp (unmap_huge root paddr v ms mw) (fun _ s' => no_empty (k_mem s') (pd_path v) /\ exists L',
    shrunk root W (add_invlpg v (set_mem (k_mem s).[entry pd (VIRT_TO_PD_IDX v) <- 0] s)) L s' L') s.
Proof using Type.
  intros Hr Hf Hm. destruct (maps_huge_tables _ _ _ Hm) as (pdpt & pd & T4 & T & _). exists pd. split; [done|].
  destruct (clear_huge s L paddr v pd Hr Hm T) as (Hr1 & [HT _] & _).
  unfold wp. rewrite (unmap_huge_clears s L _ _ _ _ pdpt pd) by done. set (m' := (k_mem s).[_ <- 0]) in *.
  set (s1 := add_invlpg v (set_mem m' s)) in *.
  assert (P4 : path_ok [VIRT_TO_PML4_IDX v])
    by (apply (path_ok_snoc_2 []); [apply path_ok_nil|apply idx_land|simpl; lia]).
  rewrite <- HT in T4, T by (done || apply pd_path_ok).
  match goal with |- match ?c s1 with _ => _ end =>
    change (wp c (fun _ s' => no_empty (k_mem s') (pd_path v) /\ exists L', shrunk root W s1 L s' L') s1) end.
  apply (drop_if_empty_wp [VIRT_TO_PML4_IDX v] pdpt (VIRT_TO_PDPT_IDX v) pd _ _ s1 L); try done.
  - by apply fresh_settled.
  - apply idx_land.
  - simpl; lia.
  - intros Hne. split; [|exists L; by apply shrunk_refl]. intros q t [-> | ->] E.
    + change (tbl m' root [VIRT_TO_PML4_IDX v] = Some t) in E. rewrite T4 in E. injection E as <-.
      exists (VIRT_TO_PDPT_IDX v). split; [apply idx_land|]. by eapply (linked_entry _ [VIRT_TO_PML4_IDX v]).
    + change (tbl m' root (pd_path v) = Some t) in E. rewrite T in E. by injection E as <-.
  - intros s2 L2 Hs2 Hset HT2 Hg2. rewrite <- HT2 in T4 by done.
    assert (N2 : forall t, tbl (k_mem s2) root (pd_path v) <> Some t) by (intros t E; change (pd_path v) with ([VIRT_TO_PML4_IDX v] ++ [VIRT_TO_PDPT_IDX v]) in E; by rewrite Hg2 in E).
    apply (drop_if_empty_wp [] root (VIRT_TO_PML4_IDX v) pdpt _ _ s2 L2); try done.
    + apply Hs2.
    + by apply Hset.
    + apply path_ok_nil.
    + apply idx_land.
    + simpl; lia.
    + intros Hne. split; [|by exists L2]. intros q t [-> | ->] E; [|by destruct (N2 t)].
      change (take 1 (pd_path v)) with [VIRT_TO_PML4_IDX v] in E. rewrite T4 in E. by injection E as <-.
    + intros s3 L3 Hs3 _ HT3 Hg3. apply wp_ret. split; [|exists L3; by eapply shrunk_trans].
      intros q t [-> | ->] E; [|destruct (N2 t); by rewrite <- HT3 by (apply pd_path_ok || done)].
      change (take 1 (pd_path v)) with ([] ++ [VIRT_TO_PML4_IDX v]) in E. by rewrite Hg3 in E.
Qed.
End page.

(** ** A range in one directory *)

(** Huge page [k] of the range that starts at [a]. *)
Definition nth_huge (a k : Z) : Z := u64 (a + u64 (k * HUGE_PAGE_SIZE)).

Section range.
Context (root : ptr) (W : list Z) (pa va num : Z) (P : list Z) (ms mw : string).
Context (Hdir : forall k, 0 <= k < num -> pd_path (nth_huge va k) = P).
Context (Hapart : forall k k', 0 <= k < num -> 0 <= k' < num -> k <> k' ->
  VIRT_TO_PD_IDX (nth_huge va k) <> VIRT_TO_PD_IDX (nth_huge va k')).
Local Abbreviation page := (nth_huge va).

(** The huge pages from the [a]th to before the [b]th are unmapped and nothing else
    in the lowest two levels. *)
Definition huge_cleared (a b : Z) (m m' : mem) : Prop :=
  (forall k, a <= k < b -> pde m' root (page k) = 0) /\
  (forall q j, path_ok q -> (1 < length q)%nat -> idx_ok j ->
     (forall k, a <= k < b -> ~ (q = P /\ j = VIRT_TO_PD_IDX (page k))) -> leaf m' root q j = leaf m root q j).

(** Pages unmapped, the TLB entries in [l] flushed, and tables perhaps given back. *)
Definition huge_unmapped (a b : Z) (s : kstate) (L : Z -> list ptr) (s' : kstate) (L' : Z -> list ptr) : Prop :=
  exists m l, huge_cleared a b (k_mem s) m /\ entries_only root (k_mem s) m /\
    (forall k, a <= k < b -> page k ∈ l) /\ no_empty root (k_mem s') P /\
    shrunk root W (flushed l (set_mem m s)) L s' L'.

Lemma unmap_huge_range N i s L :
  region root W s L -> fresh (k_buddy s) L -> 0 <= i -> i + Z.of_nat (S N) <= num ->
  (forall k, i <= k < i + Z.of_nat (S N) -> maps_huge root (k_mem s) (nth_huge pa k) (page k)) ->
  wp (unmap_loop (S N) HUGE_PAGE_SIZE i pa va (fun p v => unmap_huge root p v ms mw))
    (fun _ s' => exists L', huge_unmapped i (i + Z.of_nat (S N)) s L s' L') s.
Proof using Hdir Hapart.
  revert i s. induction N as [|N IH]; intros i s Hr Hf Hi Hn Hall.
  - cbn [unmap_loop]. apply wp_bind. fold (nth_huge pa i) (page i).
    pose proof (Hall i ltac:(lia)) as Hm.
    destruct (unmap_huge_wp root W s L (nth_huge pa i) (page i) ms mw Hr Hf Hm) as (pd & T & Hwp).
    destruct (clear_huge root W s L _ _ pd Hr Hm T) as (_ & HE & HL).
    eapply wp_mono; [exact Hwp|]. cbv beta. intros _ s' (Hne & L' & Hs). apply wp_ret. exists L'.
    rewrite (Hdir i) in Hne by lia.
    set (m1 := (k_mem s).[_ <- 0]) in *. exists m1, [page i]. split_and!; [split|done| |exact Hne|exact Hs].
    + intros k Hk. assert (k = i) as -> by lia. unfold pde. rewrite HL by (apply pd_path_ok || apply idx_land).
      by rewrite decide_True.
    + intros q j Hq Hlq Hj Hno. rewrite HL by done. rewrite decide_False; [done|]. intros [-> ->].
      apply (Hno i ltac:(lia)). split; [apply Hdir; lia|done].
    + intros k Hk. assert (k = i) as -> by lia. left.
  - set (N' := S N) in *. cbn [unmap_loop]. apply wp_bind. fold (nth_huge pa i) (page i).
    pose proof (Hall i ltac:(lia)) as Hm. pose proof (Hall (i + 1) ltac:(lia)) as Hm2.
    assert (Hne : VIRT_TO_PD_IDX (page (i + 1)) <> VIRT_TO_PD_IDX (page i)) by (apply Hapart; lia).
    destruct (unmap_huge_kept root W s L _ _ ms mw (VIRT_TO_PD_IDX (page (i + 1))) Hr Hm (idx_land _) Hne) as (pd & T & E).
    { rewrite Hdir, <- (Hdir (i + 1)) by lia. intros E0. destruct Hm2 as [Hp _]. unfold pde in Hp. by rewrite E0 in Hp. }
    destruct (clear_huge root W s L _ _ pd Hr Hm T) as (Hr1 & HE & HL).
    eapply wp_intro; [exact E|]. set (m1 := (k_mem s).[_ <- 0]) in *. set (s1 := add_invlpg _ _) in *.
    eapply wp_mono; [apply (IH (i + 1) s1 Hr1 Hf); [lia|lia|]|].
    + intros k Hk. pose proof (Hall k ltac:(lia)) as Hmk. unfold maps_huge, pde in *. cbn [k_mem s1 add_invlpg set_mem].
      rewrite HL by (apply pd_path_ok || apply idx_land). rewrite decide_False; [done|]. intros [_ Ex]. revert Ex. apply Hapart; lia.
    + cbv beta. intros _ s' (L' & m2 & l & [C1 C2] & HE2 & Hl & Hnone & Hs). exists L', m2, (l ++ [page i]).
      cbn [k_mem s1 add_invlpg set_mem] in C2, HE2. split_and!.
      * split.
        -- intros k Hk. destruct (decide (k = i)) as [->|Hki]; [|apply C1; lia]. unfold pde.
           rewrite C2 by first [apply pd_path_ok | apply idx_land | simpl; lia |
             intros k' Hk' [_ Ex]; revert Ex; apply Hapart; lia].
           rewrite HL by (apply pd_path_ok || apply idx_land). by rewrite decide_True.
        -- intros q j Hq Hlq Hj Hno. rewrite C2 by first [done | intros k Hk; apply Hno; lia].
           rewrite HL by done. rewrite decide_False; [done|]. intros [-> ->].
           apply (Hno i ltac:(lia)). split; [apply Hdir; lia|done].
      * by eapply entries_only_trans.
      * intros k Hk. apply elem_of_app. destruct (decide (k = i)) as [->|]; [right; left|left; apply Hl; lia].
      * exact Hnone.
      * assert (Es : flushed l (set_mem m2 s1) = flushed (l ++ [page i]) (set_mem m2 s))
          by (unfold flushed; cbn; by rewrite <- app_assoc).
        by rewrite <- Es.
Qed.
End range.

(** The pages of a range that stays within a gigabyte. *)
Section gigabyte.
Context (va num : Z) (H0 : 0 <= va) (H1 : va + num * HUGE_PAGE_SIZE < 2 ^ 64).
Context (Hgb : va mod 2 ^ 30 + num * HUGE_PAGE_SIZE <= 2 ^ 30).

Lemma nth_huge_small k : 0 <= k < num -> nth_huge va k = va + k * HUGE_PAGE_SIZE.
Proof using H0 H1.
  intros Hk. unfold nth_huge, HUGE_PAGE_SIZE in *. rewrite (u64_small (k * _)) by lia. apply u64_small. lia.
Qed.

Lemma gigabyte_directory k : 0 <= k < num -> pd_path (nth_huge va k) = pd_path va.
Proof using H0 H1 Hgb.
  intros Hk. rewrite nth_huge_small by done. unfold HUGE_PAGE_SIZE in *.
  unfold pd_path, VIRT_TO_PML4_IDX, VIRT_TO_PDPT_IDX. rewrite !idx_mod by lia.
  assert (E : (va + k * 0x200000) / 2 ^ 30 = va / 2 ^ 30) by (change (2 ^ 30) with 1073741824 in *; dlia).
  change 39 with (30 + 9). rewrite !Z.pow_add_r, <- !Z.div_div by (try apply Z.pow_nonzero; lia). by rewrite E.
Qed.

Lemma gigabyte_apart k k' :
  0 <= k < num -> 0 <= k' < num -> k <> k' -> VIRT_TO_PD_IDX (nth_huge va k) <> VIRT_TO_PD_IDX (nth_huge va k').
Proof using H0 H1 Hgb.
  intros Hk Hk' Hne. rewrite !nth_huge_small by done. unfold HUGE_PAGE_SIZE, VIRT_TO_PD_IDX in *. rewrite !idx_mod by lia.
  change (2 ^ 21) with 0x200000. change (2 ^ 30) with 1073741824 in *. dlia.
Qed.
End gigabyte.

(** ** Over all the layers *)

Section kunmap_huge.
Context (md0 : buddy_metadata) (img : kernel_image) (turns : nat) (o al n : Z).
Context (Hat : cache_at (vma_cache img) sizeof_vma o al n).
Local Abbreviation fresh_kvm := (kvm (client := fresh_client md0) img o al n).

Lemma kvm_region s L R fl t :
  fresh_kvm s L R fl t -> region (kernel_pml4t s) (slab_pages o R) (p_k s) L /\ fresh (k_buddy (p_k s)) L.
Proof using Type.
  intros [[_ Hl] [Hb _ _ (Hf & E1 & E2) _] _ _ Ht Hfr]. split; [|done]. split; [done|done|done|].
  intros q tb Hq E. specialize (Hfr q tb Hq E). cbn in Hfr. unfold block_ok in *. by rewrite E1, E2.
Qed.

(** Unmapping touches the tables and the free pages only. *)
Lemma unmapped_kvm P va num s k L L' R fl t :
  fresh_kvm s L R fl t -> huge_unmapped (kernel_pml4t s) (slab_pages o R) va P 0 num (p_k s) L k L' ->
  kvm (client := any_client) img o al n (set_k k s) L' R fl t /\
  forall x a, x ∈ nodes t -> vma_of x <= a < vma_of x + sizeof_vma -> k_mem k a = k_mem (p_k s) a.
Proof using Hat.
  intros [[H1 H2] H3 H4 H5 H6 H7] (m & l & _ & [E1 E2] & _ & _ & Hsh). pose proof (fun x => sk_free _ _ _ _ _ _ x Hsh) as B7.
  destruct Hsh as [[B1 B2 B3 _] B5 _ _ B9].
  pose proof Hat as [Hg Hs Hc]. pose proof H3 as [C1 C2 C3 C4 C5]. set (root := kernel_pml4t s) in *. cbn [k_mem flushed set_mem] in B7, B9.
  assert (Hkeep : forall a, page_of a ∈ slab_pages o R \/ 2 ^ 48 <= a -> k_mem k a = k_mem (p_k s) a).
  { intros a Ha.
    assert (Hnt : forall q, path_ok q -> tbl (k_mem (p_k s)) root q <> Some (page_of a)).
    { intros q Hq Et. destruct (pi_frame _ _ _ H6 q _ Hq Et) as [[_ Hf] Hn]. destruct Ha as [Ha|Ha].
      - apply Hn, elem_of_app. by right.
      - unfold page_of, PAGE_SIZE in Hf. dlia. }
    rewrite B9; [by apply E2| |intros q Hq; rewrite E1 by done; by apply Hnt].
    intros Hf. destruct Ha as [Ha|Ha].
    - apply list_elem_of_bind in Ha as (d & Hd & Hds). by eapply C3.
    - eapply (high_page _ _ _ a C1); done. }
  assert (Hobj : forall x a, x ∈ nodes t -> vma_of x <= a < vma_of x + sizeof_vma -> k_mem k a = k_mem (p_k s) a).
  { intros x a Hx Ha. apply Hkeep. left. eapply (used_page (client := fresh_client md0)); [exact Hat|exact H3|by apply H5|done]. }
  split; [|done]. split; [split; [by apply B5|done]| | |done|done|done].
  - split; [done| | |done|done].
    + eapply (cache_inv_same _ _ _ _ _ Hg Hs); [|exact C2].
      intros a [Ha|(d & Hd & Ha)]; apply Hkeep; [right; lia|left].
      apply list_elem_of_bind. exists d. split; [|done]. apply (slab_page sizeof_vma o al n Hg Hs); [|done].
      exact (inv_place _ _ _ _ _ _ _ _ C2 d Hd).
    + intros d pg Hd Hpg Hf. destruct (B7 pg Hf) as [Hin|(q & Hq & E)]; [by eapply C3|].
      rewrite E1 in E by done. destruct (pi_frame _ _ _ H6 q _ Hq E) as [_ Hn]. apply Hn, elem_of_app. right.
      apply list_elem_of_bind. by exists d.
  - eapply (vma_words (vma_heap s)); [done| |done]. intros x j Hx Hj. apply (Hobj x); [done|lia].
Qed.

(** The result of a release: the area of [x] is gone, the directory entries of the
    range are zero, every other entry of the lowest two levels is as it was; the
    frames that became free are those of the tables that are gone, and neither the
    directory of the range nor the table above it is left empty. *)
Record huge_dropped (x va num : Z) (s : pstate) (L : Z -> list ptr) (t : tree)
    (s' : pstate) (L' : Z -> list ptr) (R' : slab_class -> list ptr) (fl' : ptr -> list ptr) (t' : tree) : Prop := {
  hd_kvm : kvm (client := any_client) img o al n s' L' R' fl' t';
  hd_root : kernel_pml4t s' = kernel_pml4t s;
  hd_nodes : nodes t ≡ₚ x :: nodes t';
  hd_others : forall y k, y ∈ nodes t' -> 0 <= k < off_vma_node ->
    k_mem (p_k s') (vma_of y + k) = k_mem (p_k s) (vma_of y + k);
  hd_cleared : huge_cleared (kernel_pml4t s) va (pd_path va) 0 num (k_mem (p_k s)) (k_mem (p_k s'));
  hd_given : exists D, free_pages L' ≡ₚ D ++ free_pages L /\
    given_back (kernel_pml4t s) (k_mem (p_k s)) (k_mem (p_k s')) D;
  hd_none : no_empty (kernel_pml4t s) (k_mem (p_k s')) (pd_path va);
}.

Lemma maps_huge_same root m m' p v : same_leaves root m m' -> maps_huge root m p v -> maps_huge root m' p v.
Proof using Type. intros Hs. unfold maps_huge, pde. by rewrite Hs by (apply pd_path_ok || apply idx_land). Qed.

Lemma kunmap_huge_wp pa va flags num s L R fl t x :
  let m := k_mem (p_k s) in let frame := Z.land pa (not64 (HUGE_PAGE_SIZE - 1)) in
  fresh_kvm s L R fl t -> lock_free (p_k s) kernel_page_lock -> enough t turns ->
  x ∈ nodes t -> vma_start m x <= va < vma_end m x -> has_flag flags PTE_HUGE_PAGE = true ->
  0 < num -> 0 <= va -> va + num * HUGE_PAGE_SIZE < 2 ^ 64 -> va mod 2 ^ 30 + num * HUGE_PAGE_SIZE <= 2 ^ 30 ->
  (forall k, 0 <= k < num -> maps_huge (kernel_pml4t s) m (nth_huge frame k) (nth_huge va k)) ->
  wp (kunmap_pages img turns pa va flags num) (fun _ s' => exists l L' R' fl' t',
     kframe (flushed l (p_k s)) (p_k s') /\ (forall k, 0 <= k < num -> nth_huge va k ∈ l) /\
     huge_dropped x va num s L t s' L' R' fl' t') s.
Proof using Hat.
  intros m frame Hkv Hlk Hen Hx Hin Hfl Hnum Hva0 Hva1 Hgb Hpages. set (root := kernel_pml4t s) in *.
  destruct (find_vma_spec (vma_heap s) t turns va (kv_tree _ _ _ _ _ _ _ _ _ Hkv) Hen) as (v & Ef & Hcase).
  destruct Hcase as [[_ Hno]|(y & Hy & -> & Hnn & _ & Huniq)]; [by destruct (Hno x Hx)|].
  assert (y = x) as -> by (symmetry; by apply Huniq). clear Huniq Hy.
  unfold kunmap_pages, find_vma. wp_steps. rewrite Ef. unfold of_loop. wp_steps.
  rewrite (proj2 (Z.eqb_neq (vma_of x) NULL)) by done.
  eapply wp_ext; [by rewrite <- bind_assoc3|]. wp_step.
  eapply wp_mono; [by eapply (drop_area_wp (client := fresh_client md0))|].
  cbv beta. intros _ s3 (R' & fl' & t' & [Hkv3 Hh3 Er HN HU Hl Hf3]). fold root in Er, Hl. wp_steps. apply wp_lift.
  destruct (kvm_region _ _ _ _ _ Hkv3) as [Hr Hfr]. rewrite Er in Hr |- *.
  unfold unmap_pages. rewrite (proj2 (Z.leb_gt num 0)), Hfl by lia.
  assert (exists N, Z.to_nat num = S N) as [N EN] by (exists (pred (Z.to_nat num)); lia). rewrite EN.
  assert (En : 0 + Z.of_nat (S N) = num) by lia.
  eapply wp_mono; [apply (keeps_wp kernel_page_lock);
    [apply unmap_loop_keeps; [done|intros; by apply unmap_huge_keeps]|]; eapply (unmap_huge_range root _ frame va num (pd_path va)
      _ _ (gigabyte_directory va num Hva0 Hva1 Hgb) (gigabyte_apart va num Hva0 Hva1 Hgb) N 0 (p_k s3) L Hr Hfr); try lia|].
  { rewrite En. intros k Hk. by eapply maps_huge_same, Hpages. }
  cbv beta. rewrite En. intros _ k4 [(L' & Hu) Hlk4]. rewrite <- Er in Hu.
  destruct (unmapped_kvm (pd_path va) va num s3 k4 L L' R' fl' t' Hkv3 Hu) as [Hkv4 Hf4]. rewrite Er in Hu.
  destruct Hu as (m4 & l & [C1 C2] & [E1 _] & Hl4 & Hnone & [_ K4 (D & HP & HG) B8 _]). cbn [k_mem flushed set_mem] in HG, B8.
  apply wp_lift. cbn [p_k set_k].
  eapply wp_release; [apply (held_keep _ _ (flushed l (set_mem m4 (p_k s3)))); [|exact K4|exact Hlk4];
    apply (held_flushed _ l), held_set_mem; exact Hh3|].
  intros k5 Hk5 Em5 Eb5. exists l, L', R', fl', t'. cbn [p_k set_k]. split; [exact Hk5|]. split; [exact Hl4|].
  pose proof (kv_lock _ _ _ _ _ _ _ _ _ Hkv) as [Hsl Hbl].
  split; cbn [p_k set_k kernel_pml4t]; [|done|done| | | |by rewrite Em5].
  - eapply (kvm_state _ _ _ _ (set_k k4 _) k5); [exact Hkv4|done|done|by apply Hk5|by apply Hk5].
  - intros y k Hy Hk. rewrite Em5, (Hf4 y), Hf3 by (done || unfold off_vma_node, sizeof_vma in *; lia). done.
  - fold root. rewrite Em5. split.
    + intros k Hk. unfold pde. rewrite B8 by (apply pd_path_ok || apply idx_land || (simpl; lia)). by apply C1.
    + intros q j Hq Hlq Hj Hno. rewrite B8, C2 by done. by apply Hl.
  - exists D. split; [exact HP|]. rewrite Em5. fold root. eapply given_back_ext; [|done|exact HG].
    intros q Hq. rewrite E1 by done. symmetry. by apply same_leaves_tbl.
Qed.
End kunmap_huge.

(** ** Taking a request back *)

Section unrequest.
Context (img : kernel_image) (turns : nat) (o al n : Z).
Context (Hat : cache_at (vma_cache img) sizeof_vma o al n).
Implicit Types (s : pstate) (l : list request) (L : Z -> list ptr).

Section tables.
Context (m m' : mem) (root : ptr) (r : request) (l : list request).
Context (Hr : request_ok r) (Hs : rq_huge r = true) (Hl : Forall request_ok l) (Hc : Forall (compatible r) l).
Context (Hgb : rq_va r mod 2 ^ 30 + rq_bytes r <= 2 ^ 30).
Context (Ht : tables_of m root (r :: l)) (Hcl : huge_cleared root (rq_va r) (pd_path (rq_va r)) 0 (rq_num r) m m').

Lemma request_range : 0 <= rq_va r /\ rq_va r + rq_num r * HUGE_PAGE_SIZE < 2 ^ 64.
Proof using Hr Hs.
  pose proof (ro_half _ Hr) as H. unfold rq_last, rq_bytes in H. rewrite (huge_page r Hs) in H. lia.
Qed.

Lemma request_page k : 0 <= k < rq_num r -> nth_huge (rq_va r) k = rq_va r + k * HUGE_PAGE_SIZE.
Proof using Hr Hs. destruct request_range. by apply nth_huge_small. Qed.

(** Entries outside the range are the same, those inside are gone. *)
Lemma cleared_pte v : pte m' root v = pte m root v.
Proof using Hcl.
  destruct Hcl as [_ C]. apply C; [apply pt_path_ok|simpl; lia|apply idx_land|].
  intros k _ [E _]. by apply (f_equal length) in E.
Qed.

Lemma cleared_pde v : canonical v -> pde m' root v = if decide (rq_va r <= v < rq_last r) then 0 else pde m root v.
Proof using Hr Hs Hgb Hcl.
  intros Hv. destruct request_range as [R1 R2]. destruct Hcl as [C1 C2]. destruct (decide _) as [Hin|Hout].
  - destruct (inside_page r Hr v Hin) as (i & Hi & Ev & _). rewrite (huge_page r Hs) in Ev.
    rewrite <- (C1 i Hi), request_page by done. unfold pde.
    assert (E : huge_vpn v = huge_vpn (rq_va r + i * HUGE_PAGE_SIZE)).
    { unfold huge_vpn, HUGE_PAGE_SIZE in *. change (2 ^ 21) with 0x200000. by rewrite Ev. }
    by apply huge_loc_vpn in E as [-> ->].
  - apply C2; [apply pd_path_ok|simpl; lia|apply idx_land|]. intros k Hk [E1 E2].
    unfold rq_bytes in Hgb. rewrite (huge_page r Hs) in Hgb.
    rewrite <- (gigabyte_directory (rq_va r) (rq_num r) R1 R2 Hgb k Hk) in E1.
    assert (E : huge_vpn v = huge_vpn (nth_huge (rq_va r) k)) by (by apply huge_loc_vpn).
    pose proof (page_u64 r Hr k Hk) as Eu. rewrite (huge_page r Hs) in Eu. rewrite request_page, <- Eu in E by done.
    revert E. by apply huge_apart.
Qed.

Lemma tables_without : tables_of m' root l.
Proof using Hr Hs Hl Hc Hgb Ht Hcl.
  destruct Ht as [T1 T2 T3 T4 T5 T6]. rewrite Forall_forall in Hl, Hc. split.
  - intros r' i Hr' Hs' Hi. rewrite cleared_pte. apply T1; [by right|done|done].
  - intros r' i Hr' Hs' Hi. pose proof (page_inside r' (Hl r' Hr') i Hi) as Hin. rewrite (huge_page r' Hs') in Hin.
    rewrite cleared_pde by (by apply (inside_canonical r' (Hl r' Hr'))). rewrite decide_False; [apply T2; [by right|done|done]|].
    by eapply (compatible_outside r r'); [apply Hc|].
  - intros v Hv Hn. rewrite cleared_pte. apply T3; [done|]. intros r' [->|Hr']%elem_of_cons Hs'; [congruence|by apply Hn].
  - intros v Hv Hn. unfold huge_leaf. fold (pde m' root v). rewrite cleared_pde by done. destruct (decide _) as [|Hout]; [done|].
    apply T4; [done|]. intros r' [->|Hr']%elem_of_cons Hs'; [done|by apply Hn].
  - intros v Hv Hn. rewrite cleared_pde by done. destruct (decide _) as [|Hout]; [done|].
    apply T5; [done|]. intros r' [->|Hr']%elem_of_cons Hs'; [congruence|by apply Hn].
  - intros v Hv Hn Hh. rewrite cleared_pde by done. destruct (decide _) as [|Hout]; [done|].
    apply T6; [done| |]; intros r' [->|Hr']%elem_of_cons Hs'; [congruence|by apply Hn|done|by apply Hh].
Qed.
End tables.

(** The frames of a request, as the release computes them. *)
Lemma request_frame r k :
  request_ok r -> rq_huge r = true -> 0 <= k < rq_num r ->
  nth_huge (Z.land (rq_pa r) (not64 (HUGE_PAGE_SIZE - 1))) k = rq_pa r + k * HUGE_PAGE_SIZE.
Proof using Type.
  intros Hr Hs Hk. pose proof (ro_phys _ Hr) as [P1 P2]. pose proof (ro_pa _ Hr) as Ha. unfold rq_bytes in P2.
  rewrite (huge_page r Hs) in *.
  assert (E : Z.land (rq_pa r) (not64 (HUGE_PAGE_SIZE - 1)) = rq_pa r).
  { rewrite huge_mask by (unfold HUGE_PAGE_SIZE in *; lia). apply Z.mod_divide in Ha; [lia|done]. }
  rewrite E. apply (nth_huge_small (rq_pa r) (rq_num r)); [done| |done]. unfold HUGE_PAGE_SIZE in *. lia.
Qed.

Lemma request_maps m root r l k :
  request_ok r -> rq_huge r = true -> tables_of m root (r :: l) -> 0 <= k < rq_num r ->
  maps_huge root m (nth_huge (Z.land (rq_pa r) (not64 (HUGE_PAGE_SIZE - 1))) k) (nth_huge (rq_va r) k).
Proof using Type.
  intros Hr Hs Ht Hk. rewrite request_frame, request_page by done. unfold maps_huge.
  rewrite (to_huge _ _ _ Ht r k ltac:(left) Hs Hk). pose proof (ro_phys _ Hr) as [P1 P2]. pose proof (ro_pa _ Hr) as Ha.
  unfold rq_bytes in P2. rewrite (huge_page r Hs) in *.
  split_and!; [apply has_flag_lor; by apply ro_present|by apply has_flag_lor|].
  apply (entry_parts 12 (rq_pa r + k * HUGE_PAGE_SIZE) (rq_flags r)); [by left| | |by apply ro_flags].
  - unfold HUGE_PAGE_SIZE in *. nia.
  - etrans; [by exists 512|]. apply Z.divide_add_r; [exact Ha|apply Z.divide_factor_r].
Qed.

(** The area of the request is in the tree; without it the others are left. *)
Lemma request_area m t r l :
  areas m t ≡ₚ (area_of <$> (r :: l)) -> exists x, x ∈ nodes t /\ vma_start m x = rq_va r /\ vma_end m x = rq_last r /\
    m (vma_of x + off_vma_pte) = Z.lor (rq_pa r) (rq_flags r).
Proof using Type.
  intros Ha. assert (Hin : area_of r ∈ areas m t) by (rewrite Ha; left).
  apply list_elem_of_fmap in Hin as (x & E & Hx). injection E as E1 E2 E3. by exists x.
Qed.

Lemma areas_without m m' t t' x r l :
  areas m t ≡ₚ (area_of <$> (r :: l)) -> nodes t ≡ₚ x :: nodes t' -> vma_start m x = rq_va r -> vma_end m x = rq_last r ->
  m (vma_of x + off_vma_pte) = Z.lor (rq_pa r) (rq_flags r) ->
  (forall y k, y ∈ nodes t' -> 0 <= k < off_vma_node -> m' (vma_of y + k) = m (vma_of y + k)) ->
  areas m' t' ≡ₚ (area_of <$> l).
Proof using Type.
  intros Ha HN E1 E2 E3 Hk. unfold areas in *. rewrite HN, !fmap_cons, E1, E2, E3 in Ha. fold (area_of r) in Ha.
  apply (Permutation_cons_inv (a := area_of r)) in Ha. rewrite <- Ha. erewrite list_fmap_ext; [done|].
  intros i y Hy%list_elem_of_lookup_2. cbv beta. unfold vma_start, vma_end. rewrite !Hk by done. done.
Qed.

(** A directory none of whose slots is requested is gone. *)
Lemma directory_gone m root va l :
  canonical va -> tables_of m root l -> no_empty root m (pd_path va) ->
  (forall r, r ∈ l -> (rq_last r - 1) / 2 ^ 30 < va / 2 ^ 30 \/ va / 2 ^ 30 < rq_va r / 2 ^ 30) ->
  tbl m root (pd_path va) = None.
Proof using Type.
  intros Hva [_ _ _ _ _ T6] Hne Hl. destruct (tbl m root (pd_path va)) as [t|] eqn:E; [exfalso|done].
  destruct (Hne _ t (or_intror eq_refl) E) as (j & Hj & Hnz). unfold idx_ok in Hj.
  set (v := va / 2 ^ 30 * 2 ^ 30 + j * 2 ^ 21).
  assert (Hg : v / 2 ^ 30 = va / 2 ^ 30) by (unfold v; change (2 ^ 30) with 1073741824; change (2 ^ 21) with 2097152; dlia).
  assert (Hv : canonical v).
  { unfold canonical, v in *. change (2 ^ 30) with 1073741824. change (2 ^ 21) with 2097152.
    change (2 ^ 47) with 140737488355328 in *. change (2 ^ 64) with 18446744073709551616 in *. dlia. }
  assert (Ep : pd_path v = pd_path va).
  { unfold pd_path, VIRT_TO_PML4_IDX, VIRT_TO_PDPT_IDX. rewrite !idx_mod by lia.
    change 39 with (30 + 9). rewrite !Z.pow_add_r, <- !Z.div_div by (try apply Z.pow_nonzero; lia). by rewrite Hg. }
  assert (Ej : VIRT_TO_PD_IDX v = j).
  { unfold VIRT_TO_PD_IDX. rewrite idx_mod by lia. unfold v. change (2 ^ 30) with 1073741824. change (2 ^ 21) with 2097152. dlia. }
  assert (Hno : forall r, r ∈ l -> ~ in_slot r v).
  { intros r Hr. specialize (Hl r Hr). unfold in_slot, HUGE_PAGE_SIZE. rewrite <- Hg in Hl. change (2 ^ 30) with 1073741824 in Hl.
    clear -Hl. generalize (rq_last r - 1) (rq_va r) v Hl. intros a b c H. dlia. }
  assert (Hz : pde m root v = 0).
  { apply T6; [done|by auto|]. intros r Hr _ Hin. by apply (Hno r Hr), inside_slot. }
  unfold pde in Hz. rewrite Ep, Ej in Hz. unfold leaf in Hz. by rewrite E in Hz.
Qed.

(** [kunmap_pages] takes a request for huge pages of one gigabyte back: the address
    space is the one of the other requests. *)
Lemma kunmap_request_wp md0 s L r l l0 :
  space (client := fresh_client md0) img o al n s L l0 -> l0 ≡ₚ r :: l -> plan_ok l0 -> rq_huge r = true ->
  rq_va r mod 2 ^ 30 + rq_bytes r <= 2 ^ 30 -> (2 * Nat.log2 (length l0 + 1) <= turns)%nat ->
  wp (kunmap_pages img turns (rq_pa r) (rq_va r) (rq_flags r) (rq_num r)) (fun _ s' => exists fl L',
    kframe (flushed fl (p_k s)) (p_k s') /\ (forall k, 0 <= k < rq_num r -> rq_va r + k * HUGE_PAGE_SIZE ∈ fl) /\
    kernel_pml4t s' = kernel_pml4t s /\ space (client := any_client) img o al n s' L' l /\
    no_empty (kernel_pml4t s) (k_mem (p_k s')) (pd_path (rq_va r)) /\
    exists D, free_pages L' ≡ₚ D ++ free_pages L /\ given_back (kernel_pml4t s) (k_mem (p_k s)) (k_mem (p_k s')) D) s.
Proof using Hat.
  intros Hsp HP Hok Hs Hgb Hen. apply (space_perm _ _ _ _ _ _ _ _ HP) in Hsp. apply (plan_ok_perm _ _ HP) in Hok.
  destruct Hsp as [(R & fl & t & Hkv & Ha) Hlk Ht]. destruct Hok as [[Hr Hl]%Forall_cons Hc]. inversion Hc as [|? ? Hcr _]; subst.
  destruct (request_area _ _ _ _ Ha) as (x & Hx & E1 & E2 & E3). destruct (request_range r Hr Hs) as [R1 R2].
  pose proof (bytes_pos r Hr) as Hb. pose proof (ro_num _ Hr) as Hnum.
  assert (Hen' : enough t turns).
  { unfold enough. pose proof (Permutation_length Ha) as E. unfold areas in E. rewrite !length_fmap, <- HP in E. by rewrite E. }
  eapply wp_mono; [eapply (kunmap_huge_wp md0 img turns o al n Hat _ _ _ _ s L R fl t x Hkv Hlk Hen' Hx); try done|].
  - rewrite E1, E2. unfold rq_last. lia.
  - unfold rq_bytes in Hgb. by rewrite (huge_page r Hs) in Hgb.
  - intros k Hk. by eapply request_maps.
  - cbv beta. intros _ s' (l' & L' & R' & fl' & t' & Hk & Hfl & [D1 D2 D3 D4 D5 D6 D7]). exists l', L'.
    split; [done|]. split; [intros k Hk'; rewrite <- request_page by done; by apply Hfl|]. split; [done|]. split; [|done]. split.
    + exists R', fl', t'. split; [done|]. by eapply areas_without.
    + apply Hk. exact Hlk.
    + rewrite D2. by eapply tables_without.
Qed.

(** The processor sees the range gone and the rest as before. *)
Lemma without_translates m m' root r l :
  plan_ok (r :: l) -> tables_of m root (r :: l) -> tables_of m' root l ->
  (forall v, inside r v -> translate m' root v = None) /\
  (forall v, canonical v -> ~ inside r v -> translate m' root v = translate m root v).
Proof using Type.
  intros [Hok Hc] Ht Ht'. pose proof Hok as [Hr Hl]%Forall_cons. inversion Hc as [|? ? Hcr _]; subst.
  rewrite Forall_forall in Hcr. split.
  - intros v Hv. apply (translate_outside m' root l Ht'); [by apply (inside_canonical r Hr)|].
    intros r' Hr' Hi. by apply (compatible_outside r r' v (Hcr r' Hr') Hi).
  - intros v Hv Hn. destruct (decide (Exists (fun r => rq_va r <= v < rq_last r) l)) as [Hex|Hno].
    + apply Exists_exists in Hex as (r' & Hr' & Hi). rewrite (translate_inside m' root l Hl Ht' r' v Hr' Hi).
      symmetry. apply (translate_inside m root (r :: l) Hok Ht); [by right|done].
    + assert (Hno' : forall r', r' ∈ l -> ~ inside r' v) by (intros r' Hr' Hi; apply Hno, Exists_exists; by exists r').
      rewrite (translate_outside m' root l Ht') by done. symmetry. apply (translate_outside m root (r :: l) Ht); [done|].
      by intros r' [->|Hr']%elem_of_cons; [|apply Hno'].
Qed.

(** A range of 2 MB pages has a directory. *)
Lemma request_directory m root r l :
  request_ok r -> rq_huge r = true -> tables_of m root (r :: l) -> exists t, tbl m root (pd_path (rq_va r)) = Some t.
Proof using Type.
  intros Hr Hs Ht. pose proof (ro_num _ Hr) as Hn. pose proof (request_maps m root r l 0 Hr Hs Ht ltac:(lia)) as Hm.
  destruct (maps_huge_tables _ _ _ _ Hm) as (_ & pd & _ & T & _). exists pd. rewrite request_page in T by (done || lia).
  by rewrite Z.mul_0_l, Z.add_0_r in T.
Qed.

(** C19. [kunmap_pages] of a recorded range of 2 MB pages that stays within one
    gigabyte, on a page allocator that has only given out single pages and blocks
    of four: it returns; every page of the range is flushed from the TLB and not
    translated any more, every other address is translated as before, the tree of
    areas holds exactly the other ranges, the invariant over all layers holds again
    and the locks and flags are as before.  The frames the page allocator gains are
    exactly those of the tables that are gone, no table is new, and neither the
    directory of the range nor the table above it is left empty: where no other
    range lies in the gigabyte, the directory is given back. *)
Theorem kunmap_huge_request_correct md0 s L r l l0 :
  space (client := fresh_client md0) img o al n s L l0 -> l0 ≡ₚ r :: l -> plan_ok l0 -> rq_huge r = true ->
  rq_va r mod 2 ^ 30 + rq_bytes r <= 2 ^ 30 -> (2 * Nat.log2 (length l0 + 1) <= turns)%nat ->
  exists s' fl L' D, kunmap_pages img turns (rq_pa r) (rq_va r) (rq_flags r) (rq_num r) s = Ret tt s' /\
    kframe (flushed fl (p_k s)) (p_k s') /\ (forall k, 0 <= k < rq_num r -> rq_va r + k * HUGE_PAGE_SIZE ∈ fl) /\
    space (client := any_client) img o al n s' L' l /\ kernel_pml4t s' = kernel_pml4t s /\
    let m := k_mem (p_k s) in let m' := k_mem (p_k s') in let root := kernel_pml4t s in let P := pd_path (rq_va r) in
    (forall v, inside r v -> translate m' root v = None) /\
    (forall v, canonical v -> ~ inside r v -> translate m' root v = translate m root v) /\
    free_pages L' ≡ₚ D ++ free_pages L /\ given_back root m m' D /\ no_empty root m' P /\
    ((forall r', r' ∈ l -> (rq_last r' - 1) / 2 ^ 30 < rq_va r / 2 ^ 30 \/ rq_va r / 2 ^ 30 < rq_va r' / 2 ^ 30) ->
     exists t, tbl m root P = Some t /\ tbl m' root P = None /\ t ∈ D).
Proof using Hat.
  intros Hsp HP Hok Hs Hgb Hen.
  destruct (wp_elim _ _ _ (kunmap_request_wp md0 s L r l l0 Hsp HP Hok Hs Hgb Hen))
    as ([] & s' & E & fl & L' & Hk & Hf & Er & Hsp' & Hne & D & HD & HG).
  apply (space_perm _ _ _ _ _ _ _ _ HP) in Hsp. apply (plan_ok_perm _ _ HP) in Hok.
  pose proof (sp_tables _ _ _ _ _ _ _ Hsp') as Ht'. pose proof (sp_tables _ _ _ _ _ _ _ Hsp) as Ht. rewrite Er in Ht'.
  pose proof Hok as [[Hr _]%Forall_cons _]. destruct (without_translates _ _ _ r l Hok Ht Ht') as [T1 T2].
  exists s', fl, L', D. cbv zeta. split_and!; try done. intros Halone. destruct (request_directory _ _ _ _ Hr Hs Ht) as [t T].
  assert (Hgone : tbl (k_mem (p_k s')) (kernel_pml4t s) (pd_path (rq_va r)) = None).
  { apply (directory_gone _ _ _ l); try done. apply (inside_canonical r Hr). unfold inside. split; [lia|].
    pose proof (bytes_pos r Hr). unfold rq_last. lia. }
  exists t. split_and!; [done|done|]. apply (gb_gone _ _ _ _ HG). exists (pd_path (rq_va r)). split; [apply pd_path_ok|done].
Qed.
End unrequest.
