(* ===== verification/InitMmu.v ===== *)
(** * The first address space of the kernel

    [__init_mmu] as the requests it makes: the sections of the image, the stack,
    the direct map, the boot loader's low memory and the frame buffer.  From a
    page allocator in order it either returns with exactly those ranges
    translated and recorded, CR3 loaded and the direct map in force, or stops in
    a PANIC that names a shortage of memory. *)

From stdpp Require Import functions.
From S2P Require Import Prelude State Kmath Buddy FreeList BuddyInv BuddyDemo BuddyOps Slab SlabTheorems SlabRings.
From S2P Require Import PhysKmalloc SlabObjects SlabAlloc Mmu MmuInv MmuOps MmuTheorems RbTree RbRep RbInsert.
From S2P Require Import RbBalance RbTheorems Vm Paging LockFrame PagingInv PagingTheorems AddressSpace.

(** ** The plan *)

Definition section_request (first last flags : Z) : request :=
  mk_request (u64 (first - KERNEL_IMAGE_START)) first flags (u64 (last - first) / PAGE_SIZE).

Definition RODATA_FLAGS : Z := Z.lor (Z.lor PTE_PRESENT PTE_NX) PTE_GLOBAL.

(** The sections, and the four pages behind them. *)
Definition image_plan (img : kernel_image) : list request :=
  let data := section_request (data_start_addr img) (kernel_end_addr img) PTE_FLAGS_KERNEL_DATA in
  let vaddr := u64 (data_start_addr img + u64 (rq_num data * PAGE_SIZE)) in
  [section_request (kernel_start_addr img) (text_end_addr img) PTE_FLAGS_KERNEL_CODE;
   section_request (rodata_start_addr img) (rodata_end_addr img) RODATA_FLAGS;
   data;
   mk_request (u64 (vaddr - KERNEL_IMAGE_START)) vaddr (Z.lor RODATA_FLAGS PTE_WRITABLE) 4].

Definition stack_request (p : ptr) : request := mk_request p KERNEL_STACKS_START PTE_FLAGS_KERNEL_DATA 4.

Definition direct_small (first count : Z) : request :=
  mk_request first (u64 (DIRECT_MAP_START + first)) PTE_FLAGS_DIRECT_MAP count.
Definition direct_huge (first count : Z) : request :=
  mk_request first (u64 (DIRECT_MAP_START + first)) (Z.lor PTE_FLAGS_DIRECT_MAP PTE_HUGE_PAGE) count.

(** The calls for one entry of the memory map. *)
Definition direct_plan (e : mmap_entry_0xe820) : list request :=
  if negb (me_type e =? 1) then [] else
  let base_addr := me_base_address e in
  let last_addr := u64 (base_addr + me_chunk_size e) in
  let first := Z.land (u64 (base_addr + PAGE_SIZE - 1)) (not64 (PAGE_SIZE - 1)) in
  let last := Z.land last_addr (not64 (PAGE_SIZE - 1)) in
  if first >=? last then [] else
  let hb := Z.land (u64 (first + HUGE_PAGE_SIZE - 1)) (not64 (HUGE_PAGE_SIZE - 1)) in
  let he := Z.land last (not64 (HUGE_PAGE_SIZE - 1)) in
  if hb >=? he then [direct_small first (u64 (last - first) / PAGE_SIZE)]
  else
    (if first <? hb then [direct_small first (u64 (hb - first) / PAGE_SIZE)] else []) ++
    direct_huge hb (u64 (he - hb) / HUGE_PAGE_SIZE) ::
    (if u64 (last - he) / PAGE_SIZE >? 0 then [direct_small he (u64 (last - he) / PAGE_SIZE)] else []).

Definition boot_request : request := mk_request 0 0 boot_flags 8.

Definition framebuffer_request (img : kernel_image) : request :=
  let fb := framebuffer_address img in
  let fb_last := u64 (fb + u32 (pitch img * height_px img) - 1) in
  let base := Z.land fb (not64 (PAGE_SIZE - 1)) in
  let last := Z.land (u64 (fb_last + PAGE_SIZE)) (not64 (PAGE_SIZE - 1)) in
  mk_request base (u64 (DIRECT_MAP_START + base)) (Z.lor PTE_FLAGS_DIRECT_MAP PTE_PWT) (u64 (last - base) / PAGE_SIZE).

Definition late_plan (img : kernel_image) : list request :=
  (mmap_bios_entries img ≫= direct_plan) ++ [boot_request; framebuffer_request img].

(** Everything [__init_mmu] maps, with the stack in the frames at [p]. *)
Definition mmu_plan (img : kernel_image) (p : ptr) : list request :=
  late_plan img ++ stack_request p :: image_plan img.

(** ** The calls are the plan *)

Section calls.
Context (img : kernel_image) (turns : nat).

Lemma run_app l1 l2 s : run_requests img turns (l1 ++ l2) s = (run_requests img turns l1;; run_requests img turns l2) s.
Proof.
  revert s. induction l1 as [|r l1 IH]; intros s; [done|]. cbn [app run_requests]. rewrite bind_assoc.
  apply bind_ext. intros _ s'. apply IH.
Qed.

Lemma run_single r s : run_requests img turns [r] s = kmap_request img turns r s.
Proof. cbn [run_requests]. apply bind_ret_tt. Qed.

Lemma run_optional (b : bool) r s :
  run_requests img turns (if b then [r] else []) s = (if b then kmap_request img turns r else ret tt) s.
Proof. destruct b; [apply run_single|done]. Qed.

Lemma bind_cong {A B} (c c' : cmd pstate A) (k k' : A -> cmd pstate B) s :
  c s = c' s -> (forall a s', k a s' = k' a s') -> bind c k s = bind c' k' s.
Proof. intros E H. unfold bind. rewrite E. destruct (c' s); auto. Qed.

Lemma map_direct_entry_plan e s : map_direct_entry img turns e s = run_requests img turns (direct_plan e) s.
Proof.
  unfold map_direct_entry, direct_plan. destruct (negb (me_type e =? 1)); [done|]. cbv zeta.
  destruct (_ >=? _); [done|]. destruct (_ >=? _); [by rewrite run_single|].
  rewrite run_app. apply bind_cong; [by rewrite run_optional|]. intros _ s1. cbn [run_requests].
  apply bind_ext. intros _ s2. by rewrite run_optional.
Qed.

Lemma map_entries_plan es s : map_entries img turns es s = run_requests img turns (es ≫= direct_plan) s.
Proof.
  revert s. induction es as [|e es IH]; intros s; [done|]. rewrite bind_cons, run_app. cbn [map_entries].
  apply bind_cong; [apply map_direct_entry_plan|]. intros _. apply IH.
Qed.

(** The calls after the stack. *)
Lemma late_calls {A} (k : cmd pstate A) s :
  (map_direct_mapping img turns;; map_boot_memory img turns;; map_framebuffer img turns;; k) s =
  (run_requests img turns (late_plan img);; k) s.
Proof.
  unfold late_plan, map_direct_mapping.
  transitivity (((run_requests img turns (mmap_bios_entries img ≫= direct_plan);;
    run_requests img turns [boot_request; framebuffer_request img]);; k) s).
  2:{ apply bind_cong; [symmetry; apply run_app|done]. }
  rewrite bind_assoc. apply bind_cong; [apply map_entries_plan|]. intros _ s1. cbn [run_requests].
  rewrite bind_assoc. apply bind_ext. intros _ s2. rewrite bind_assoc. by apply bind_ext.
Qed.

(** The calls before it. *)
Lemma image_calls {A} (k : cmd pstate A) s :
  (let! _ := map_section img turns (kernel_start_addr img) (text_end_addr img) PTE_FLAGS_KERNEL_CODE in
   let! _ := map_section img turns (rodata_start_addr img) (rodata_end_addr img)
              (Z.lor (Z.lor PTE_PRESENT PTE_NX) PTE_GLOBAL) in
   let! num_pages := map_section img turns (data_start_addr img) (kernel_end_addr img) PTE_FLAGS_KERNEL_DATA in
   let vaddr := u64 (data_start_addr img + u64 (num_pages * PAGE_SIZE)) in
   kmap_pages img turns (u64 (vaddr - KERNEL_IMAGE_START)) vaddr
    (Z.lor (Z.lor (Z.lor PTE_PRESENT PTE_NX) PTE_GLOBAL) PTE_WRITABLE) 4;;
   k) s = (run_requests img turns (image_plan img);; k) s.
Proof.
  unfold image_plan. cbn [run_requests]. unfold map_section. cbv zeta.
  rewrite !bind_assoc. apply bind_ext. intros _ s1. unfold bind at 1. cbn [ret].
  rewrite !bind_assoc. apply bind_ext. intros _ s2. unfold bind at 1. cbn [ret].
  rewrite !bind_assoc. apply bind_ext. intros _ s3. unfold bind at 1. cbn [ret].
  rewrite !bind_assoc. by apply bind_ext.
Qed.
End calls.

(** ** The empty space *)

(** A cleared frame is a tree of tables without entries. *)
Lemma fresh_root m x F :
  frame_ok x -> x ∉ F -> (forall j, idx_ok j -> m (entry x j) = 0) ->
  pt_inv m x F /\ forall q j, path_ok q -> idx_ok j -> leaf m x q j = 0.
Proof.
  intros Hx HF Hz.
  assert (Ht : forall q, path_ok q -> tbl m x q = if decide (q = []) then Some x else None).
  { intros [|i q] [Hq _]; [done|]. apply Forall_cons in Hq as [Hi _]. cbn [tbl]. by rewrite (Hz i Hi). }
  split; [split|].
  - intros p t Hp. rewrite Ht by done. destruct (decide _); [|done]. by intros [= <-].
  - intros p q t Hp Hq. rewrite !Ht by done. destruct (decide (p = [])), (decide (q = [])); congruence.
  - intros p t i Hp _ Hi. rewrite Ht by done. destruct (decide _); [|done]. intros [= <-]. by rewrite Hz.
  - intros q j Hq Hj. unfold leaf. rewrite Ht by done. destruct (decide _); [by apply Hz|done].
Qed.

Lemma empty_tables m root : (forall q j, path_ok q -> idx_ok j -> leaf m root q j = 0) -> tables_of m root [].
Proof.
  intros Hz. split; try (intros r i Hr; by apply elem_of_nil in Hr); intros v _ _; unfold pte, pde, huge_leaf;
    rewrite Hz by (apply pd_path_ok || apply pt_path_ok || apply idx_land); done.
Qed.

Lemma empty_tree m : vma_tree (m, NULL) Leaf.
Proof.
  split; [split; [done|done|done|]|split; [done|exists O; constructor]|..|]; cbn [nodes app ctx_nodes]; try done.
  - split_and!; [constructor|by intros x ?%elem_of_nil|by intros x y ?%elem_of_nil].
  - split_and!; [constructor|by intros x ?%elem_of_nil|by intros x y ?%elem_of_nil].
  - split; [by intros x ?%elem_of_nil|by intros x y ?%elem_of_nil].
Qed.

Section boot.
Context {client : AllocClient} (img : kernel_image) (turns : nat) (o al n : Z).
Context (Hat : cache_at (vma_cache img) sizeof_vma o al n).
Context (Hco : ac_order o) (Hco2 : ac_order 2).
Abbreviation space := (space img o al n).

Definition no_pml4t : string := "FAILED TO ALLOCATE PML4T ROOT FOR THE KERNEL".

(** The lock, the cache of areas and the root table. *)
Definition init_root : cmd pstate unit :=
  lift (spinlock_init kernel_page_lock);;
  let! _ := lift (kmem_cache_create_sl (vma_cache img) sizeof_vma) in
  let! pml4t := lift (phys_kmalloc PAGE_SIZE BUDDY_ALLOC) in
  modify (set_pml4t pml4t);;
  if pml4t =? NULL then panic no_pml4t else lift (memset_pg pml4t).

Lemma kframe_page_lock k : kframe k (set_lock kernel_page_lock (mk_spinlock 0 0 0xffffffff 0) (k_rflags k) k).
Proof. split; try done. intros id Hid. unfold lock_free in *. simpl. by case_decide. Qed.

Lemma init_root_wpe s L :
  buddy_inv (k_mem (p_k s)) (k_buddy (p_k s)) L -> ac_inv (k_buddy (p_k s)) L -> lock_free (p_k s) slab_lock -> lock_free (p_k s) buddy_lock ->
  kernel_rb_root s = NULL ->
  wpe init_root (fun _ s' => exists L', space s' L' [] /\ kframe (p_k s) (p_k s') /\
      (length (free_pages L) <= length (free_pages L') + 1)%nat)
    (fun _ => free_pages L = []) s.
Proof using Hat Hco.
  intros Hb Hcl Hsl Hbl Hroot. pose proof Hat as [Hg Hs Hc]. unfold init_root.
  apply wpe_bind, wpe_lift, wpe_wp. unfold spinlock_init. apply wp_modify. cbn [p_k set_k].
  set (k0 := set_lock kernel_page_lock _ _ _). assert (Hk0 : kframe (p_k s) k0) by apply kframe_page_lock.
  apply wpe_bind, wpe_lift, wpe_wp. cbn [p_k set_k]. apply create_sl_wp; [done|by apply Hk0|].
  intros k1 Hk1 Eb1 Hr Hout. cbn [p_k set_k].
  assert (Hb1 : buddy_inv (k_mem k1) (k_buddy k1) L).
  { rewrite Eb1. eapply buddy_inv_local; [exact Hb|]. intros a Ha. apply Hout.
    destruct (decide (a < vma_cache img)); [by left|]. exfalso. eapply (high_page _ _ _ a Hb); [lia|exact Ha]. }
  assert (Ho1 : buddy_owns k1 (free_pages L)) by (exists L; split_and!; [done|by apply Hk1, Hk0|done|by rewrite Eb1]).
  apply wpe_bind, wpe_lift, wpe_wp. cbn [p_k set_k].
  eapply wp_mono; [apply (frame_alloc k1 (free_pages L) Ho1)|]. cbv beta.
  intros x k2 (Hk2 & Hf & [(-> & HF & _)|(Hx & F' & HP & Ho2)]).
  { apply wpe_bind, wpe_wp, wp_modify. by rewrite Z.eqb_refl. }
  apply wpe_bind, wpe_wp, wp_modify. rewrite (proj2 (Z.eqb_neq x NULL)) by done. apply wpe_lift, wpe_wp.
  unfold memset_pg, on_mem. apply wp_modify. cbn [p_k set_k set_pml4t k_mem].
  destruct (cleared_frame k1 (free_pages L) x k2 F' Ho1 HP Hf Ho2) as (Hfx & HxF & Hfm & (L' & Hb' & Hbl' & HF' & Hcl') & Hz).
  set (m := fill (k_mem k2) x PAGE_SIZE 0) in *.
  assert (Hk02 : kframe k0 (set_mem m k2)) by (apply kframe_set_mem; by etrans).
  assert (Hkf : kframe (p_k s) (set_mem m k2)) by by etrans.
  destruct (fresh_root m x (free_pages L' ++ slab_pages o (fun _ => [])) Hfx) as [Hpt Hlv].
  { change (slab_pages o (fun _ => [])) with (@nil Z). by rewrite app_nil_r, <- HF'. }
  { exact Hz. }
  exists L'. cbn [p_k set_k set_pml4t]. split; [|split; [done|rewrite HP, <- HF'; simpl; lia]].
  split; [|by apply Hk02|by apply empty_tables].
  - exists (fun _ => []), (fun _ => []), Leaf. split; [|done]. split; cbn [p_k set_k set_pml4t kernel_pml4t].
    + split; apply Hkf; done.
    + apply ready_cache_owns; [done| |done|done|done]. cbn [k_mem set_mem].
      apply (cache_ready_frame (k_mem k1) m _ _ 0 (2 ^ 48)); [exact Hr| |right; lia].
      intros a Ha. apply Hfm. intros Hin. destruct Ha as [Ha|Ha]; [|by eapply (high_page _ _ _ a Hb1)].
      destruct (free_page_frame _ _ _ _ Hb1 Hin) as [_ Hp]. unfold page_of, PAGE_SIZE in Hp. dlia.
    + unfold vma_heap. cbn [p_k set_k set_pml4t kernel_rb_root]. rewrite Hroot. apply empty_tree.
    + by intros y ?%elem_of_nil.
    + done.
    + intros q t Hq E. apply (ac_free _ _ L _ Hb1); [by rewrite Eb1|]. rewrite HP.
      destruct q as [|i q] using rev_ind; [injection E as <-; left|]. apply path_ok_snoc in Hq as (Hq & Hi & _).
      cbn [p_k set_k set_pml4t kernel_pml4t k_mem set_mem] in E. rewrite tbl_leaf, Hlv in E by done. done.
Qed.

(** *** The stack *)

Lemma clear_pages_spec c p i k :
  0 <= i -> exists m, clear_pages c p i k = Ret tt (set_mem m k) /\
    (forall a, p + i * PAGE_SIZE <= a < p + (i + Z.of_nat c) * PAGE_SIZE -> m a = 0) /\
    (forall a, ~ p + i * PAGE_SIZE <= a < p + (i + Z.of_nat c) * PAGE_SIZE -> m a = k_mem k a).
Proof using Type.
  revert i k. induction c as [|c IH]; intros i k Hi.
  { exists (k_mem k). split; [by destruct k|]. split; [lia|done]. }
  destruct (IH (i + 1) (set_mem (fill (k_mem k) (p + i * PAGE_SIZE) PAGE_SIZE 0) k) ltac:(lia)) as (m & E & Hin & Hout).
  exists m. split; [cbn [clear_pages]; unfold bind, memset_pg, on_mem, modify; by rewrite E|]. unfold PAGE_SIZE in *.
  cbn [k_mem set_mem] in Hout. split; intros a Ha.
  - destruct (decide (a < p + (i + 1) * 4096)); [|apply Hin; lia]. rewrite Hout by lia. apply fill_in. lia.
  - rewrite Hout by lia. apply fill_out. lia.
Qed.

Lemma tables_of_leaves m m' root l :
  (forall q j, path_ok q -> idx_ok j -> leaf m' root q j = leaf m root q j) -> tables_of m root l -> tables_of m' root l.
Proof using Type.
  intros Hl [T1 T2 T3 T4 T5 T6].
  assert (E1 : forall v, pte m' root v = pte m root v) by (intros v; apply Hl; [apply pt_path_ok|apply idx_land]).
  assert (E2 : forall v, pde m' root v = pde m root v) by (intros v; apply Hl; [apply pd_path_ok|apply idx_land]).
  split; intros; rewrite ?E1, ?E2; auto. unfold huge_leaf. fold (pde m' root v). rewrite E2. by apply T4.
Qed.

Lemma least_order_stack k : least_order (4 * PAGE_SIZE) k -> k = 2.
Proof using Type.
  intros (H0 & H1 & H2). assert (Hk : ~ k < 2).
  { intros Hk. assert (k = 0 \/ k = 1) as [-> | ->] by lia; unfold PAGE_SIZE in H1; simpl in H1; lia. }
  destruct (decide (k = 2)) as [|Hne]; [done|]. specialize (H2 2 ltac:(lia)). unfold PAGE_SIZE in H2. simpl in H2. lia.
Qed.

(** Frames taken off the free list and written leave the space alone. *)
Lemma space_taken s L l k L' :
  space s L l -> kframe (p_k s) k -> buddy_inv (k_mem k) (k_buddy k) L' -> ac_inv (k_buddy k) L' ->
  (forall x, x ∈ free_pages L' -> x ∈ free_pages L) -> mem_frame (free_pages L) (k_mem (p_k s)) (k_mem k) ->
  exists L2, free_pages L' ≡ₚ free_pages L2 /\ space (set_k k s) L2 l.
Proof using Hat.
  intros [(R & fl & t & Hkv & Ha) Hlk Ht] Hk Hb Hcl Hsub Hf.
  pose proof (kvm_owned _ _ _ _ _ _ _ _ _ Hkv) as [Hpt _]. pose proof (kv_lock _ _ _ _ _ _ _ _ _ Hkv) as [Hl1 Hl2].
  assert (Hpt' : pt_inv (k_mem k) (kernel_pml4t s) (free_pages L')) by (eapply pt_inv_frame; [exact Hpt|exact Hf|done]).
  assert (Hex : extended (kernel_pml4t s) (free_pages L) (k_mem (p_k s)) (free_pages L') (k_mem k)).
  { split; [|done| |].
    - intros q tb Hq E. by rewrite (tbl_frame _ _ _ _ q Hpt Hf Hq).
    - intros q tb Hq E. left. by rewrite (tbl_frame _ _ _ _ q Hpt Hf Hq) in E.
    - intros a Hna _. by apply Hf. }
  destruct (tables_kvm img o al n Hat s k (free_pages L') L R fl t Hkv) as (L2 & HP & Hkv' & Hw).
  { by apply Hk. }
  { split; [done|]. exists L'. split_and!; [done|by apply Hk|done|done]. }
  { exact Hex. }
  exists L2. split; [done|]. split; [|by apply Hk|].
  - exists R, fl, t. split; [exact Hkv'|]. cbn [p_k set_k]. rewrite <- Ha. unfold areas. erewrite list_fmap_ext; [done|].
    intros i y Hy%list_elem_of_lookup_2. cbv beta. unfold vma_start, vma_end.
    rewrite !(Hw y) by (done || unfold off_vma_start, off_vma_end, off_vma_pte, sizeof_vma; lia). done.
  - cbn [p_k set_k kernel_pml4t]. eapply tables_of_leaves; [|exact Ht]. intros q j Hq Hj. by eapply leaf_frame.
Qed.

Definition no_stack : string := "Failed to allocate 16KiB page for stack".

(** Four cleared frames in a row for the stack. *)
Definition take_stack : cmd pstate ptr :=
  let! p := lift (phys_kmalloc (4 * PAGE_SIZE) BUDDY_ALLOC) in
  if p =? NULL then panic no_stack else
  lift (clear_pages 4 p 0);;
  ret p.

Lemma take_stack_wpe s L l :
  space s L l ->
  wpe take_stack (fun p s' => exists L', space s' L' l /\ grown s L 4 s' L' /\
      page_aligned p /\ 0 < p /\ p + 4 * PAGE_SIZE <= 2 ^ 48)
    (fun msg => msg = no_stack /\ forall j, 2 <= j <= MAX_ORDER -> L j = []) s.
Proof using Hat Hco2.
  intros Hsp. pose proof Hsp as [(R & fl & t & Hkv & Ha) Hlk Ht].
  pose proof (kv_lock _ _ _ _ _ _ _ _ _ Hkv) as [Hl1 Hl2].
  pose proof (co_buddy _ _ _ _ _ _ _ _ _ (kv_cache _ _ _ _ _ _ _ _ _ Hkv)) as Hb.
  pose proof (co_client _ _ _ _ _ _ _ _ _ (kv_cache _ _ _ _ _ _ _ _ _ Hkv)) as Hcl.
  unfold take_stack. apply wpe_bind, wpe_lift, wpe_wp. cbn [phys_kmalloc].
  eapply wp_mono; [apply (kalloc_wp (4 * PAGE_SIZE) (p_k s) L Hb Hl2); unfold PAGE_SIZE; lia|]. cbv beta.
  intros p k1 (Hk1 & ord & Hord%least_order_stack & Hcase). subst ord.
  destruct Hcase as [(-> & _ & _ & HL)|(Hp & _ & L' & Hall)]; [by rewrite Z.eqb_refl|].
  pose proof (ac_alloc 2 (p_k s) L p k1 L' Hb Hco2 Hcl Hall) as Hcl'. destruct Hall as [Hb1 Hblk HP Hf _ _ _].
  rewrite (proj2 (Z.eqb_neq p NULL)) by done.
  destruct (block_ok_range _ 2 p _ _ Hb ltac:(lia) Hblk) as [Hp0 Hp1]. change (2 ^ 2) with 4 in Hp1.
  pose proof (block_aligned _ 2 p ltac:(lia) Hblk) as Hal.
  assert (Hown : forall a, p <= a < p + 4 * PAGE_SIZE -> page_of a ∈ pages_of 2 p).
  { intros a Ha'. apply page_range_elem. exists ((a - p) / PAGE_SIZE). unfold page_aligned, page_of, PAGE_SIZE in *.
    change (2 ^ 2) with 4. split; dlia. }
  destruct (clear_pages_spec 4 p 0 k1 ltac:(lia)) as (m & E & Hin & Hout).
  apply wpe_bind, wpe_lift, wpe_wp. cbn [p_k set_k]. eapply wp_intro; [exact E|]. apply wpe_wp, wp_ret.
  assert (Hnd : NoDup (pages_of 2 p ++ free_pages L')) by (rewrite <- HP; by eapply bi_nodup).
  assert (Hm : forall a, page_of a ∈ free_pages L' -> m a = k_mem k1 a).
  { intros a Ha'. apply Hout. intros Hr. apply NoDup_app in Hnd as (_ & Hd & _). eapply Hd; [|exact Ha'].
    apply Hown. lia. }
  destruct (space_taken s L l (set_mem m k1) L' Hsp) as (L2 & HP2 & Hsp2).
  - by apply kframe_set_mem.
  - eapply buddy_inv_local; [exact Hb1|exact Hm].
  - exact Hcl'.
  - intros x Hx. rewrite HP. apply elem_of_app. by right.
  - intros a Ha'. cbn [k_mem set_mem]. rewrite Hout; [by apply Hf|]. intros Hr. apply Ha'. rewrite HP.
    apply elem_of_app. left. apply Hown. lia.
  - exists L2. split_and!; [exact Hsp2| |done|done|done]. split; [by apply kframe_set_mem|done|].
    rewrite HP, HP2, length_app. unfold pages_of, page_range. rewrite length_fmap, length_seqZ. simpl. lia.
Qed.

(** *** Everything *)

(** [__init_mmu] in these terms. *)
Lemma init_mmu_calls s :
  __init_mmu img turns s =
  (init_root;;
   run_requests img turns (image_plan img);;
   let! p := take_stack in
   kmap_request img turns (stack_request p);;
   run_requests img turns (late_plan img);;
   load_pmlt_cr3;;
   lift (modify (set_phys_map_offset DIRECT_MAP_START));;
   vesa_set_fb_virtual (u64 (DIRECT_MAP_START + framebuffer_address img));;
   ret (KERNEL_STACKS_START + 4 * PAGE_SIZE - 8)) s.
Proof using Type.
  unfold __init_mmu, init_root. rewrite bind_assoc. apply bind_ext. intros _ s1. rewrite bind_assoc.
  apply bind_ext. intros _ s2. rewrite bind_assoc. apply bind_ext. intros x s3. rewrite bind_assoc.
  apply bind_ext. intros _ s4. destruct (x =? NULL); [done|]. apply bind_ext. intros _ s5.
  rewrite image_calls. apply bind_ext. intros _ s6. unfold map_stacks, take_stack. rewrite !bind_assoc.
  apply bind_ext. intros p s7. destruct (p =? NULL); [done|]. rewrite !bind_assoc. apply bind_ext. intros _ s8.
  match goal with |- _ = bind (ret p) ?k s8 => change (bind (ret p) k s8) with (k p s8) end. cbv beta.
  rewrite bind_assoc. apply bind_ext. intros _ s9. apply late_calls.
Qed.

(** The frames at [p] do not matter to how the plan fits together. *)
Lemma plan_ok_stack p :
  plan_ok (mmu_plan img 0) -> page_aligned p -> 0 < p -> p + 4 * PAGE_SIZE <= 2 ^ 48 -> plan_ok (mmu_plan img p).
Proof using Type.
  intros Hok Ha Hp Hp'. assert (HP : forall q, stack_request q :: late_plan img ++ image_plan img ≡ₚ mmu_plan img q)
    by (intros q; by rewrite Permutation_middle).
  apply (plan_ok_perm _ _ (HP p)). apply (plan_ok_perm _ _ (symmetry (HP 0))) in Hok as [H1 H2].
  apply Forall_cons in H1 as [[R1 R2 R3 R4 R5 R6 R7] H1]. inversion H2 as [|? ? Hc Hd]; subst. split.
  - apply Forall_cons. split; [|done]. split; try done.
    + apply Z.mod_divide; [done|exact Ha].
    + change (rq_bytes (stack_request p)) with (4 * PAGE_SIZE). cbn [rq_pa stack_request].
      assert (2 ^ 48 <= 2 ^ 52) by done. lia.
  - by constructor.
Qed.

Definition boot_budget : nat :=
  (1 + costs o (image_plan img) + 4 + cost o (stack_request 0) + costs o (late_plan img))%nat.

(** The first address space, with the stack in the frames at [p]. *)
Record first_space (s' : pstate) (p : ptr) : Prop := {
  fs_cr3 : p_cr3 s' = kernel_pml4t s';
  fs_offset : phys_map_offset (p_k s') = DIRECT_MAP_START;
  fs_screen : p_fb_virtual s' = u64 (DIRECT_MAP_START + framebuffer_address img);
  fs_space : exists L', space s' L' (mmu_plan img p);
  fs_mapped : forall r v, r ∈ mmu_plan img p -> inside r v ->
    translate (k_mem (p_k s')) (p_cr3 s') v = Some (target r v);
  fs_unmapped : forall v, canonical v -> (forall r, r ∈ mmu_plan img p -> ~ inside r v) ->
    translate (k_mem (p_k s')) (p_cr3 s') v = None;
}.

Lemma space_offset s L l off : space s L l -> space (set_k (set_phys_map_offset off (p_k s)) s) L l.
Proof using Type.
  intros [(R & fl & t & Hkv & Ha) Hlk Ht]. split; [|done|done]. exists R, fl, t. split; [|done].
  pose proof (kv_lock _ _ _ _ _ _ _ _ _ Hkv) as [? ?]. by eapply kvm_state.
Qed.

Lemma first_space_final s L p :
  plan_ok (mmu_plan img p) -> space s L (mmu_plan img p) ->
  first_space (mk_pstate (set_phys_map_offset DIRECT_MAP_START (p_k s)) (kernel_pml4t s) (kernel_rb_root s)
    (kernel_pml4t s) (u64 (DIRECT_MAP_START + framebuffer_address img))) p.
Proof using Type.
  intros [Hok _] Hsp. pose proof (space_offset _ _ _ DIRECT_MAP_START Hsp) as Hsp'.
  pose proof (sp_tables _ _ _ _ _ _ _ Hsp') as Ht. split; try done.
  - exists L. destruct Hsp' as [(R & fl & t & [K1 K2 K3 K4 K5 K6] & Ha) Hlk _]. split; [|done|exact Ht].
    exists R, fl, t. split; [by split|done].
  - intros r v. by apply translate_inside.
  - intros v. by apply translate_outside.
Qed.

Lemma init_mmu_wpe s L :
  buddy_inv (k_mem (p_k s)) (k_buddy (p_k s)) L -> ac_inv (k_buddy (p_k s)) L -> lock_free (p_k s) slab_lock -> lock_free (p_k s) buddy_lock ->
  kernel_rb_root s = NULL -> plan_ok (mmu_plan img 0) ->
  (2 * Nat.log2 (length (mmu_plan img 0) + 1) <= turns)%nat ->
  wpe (__init_mmu img turns) (fun rsp s' => rsp = KERNEL_STACKS_START + 4 * PAGE_SIZE - 8 /\
      exists p, page_aligned p /\ 0 < p /\ p + 4 * PAGE_SIZE <= 2 ^ 48 /\ first_space s' p)
    (fun msg => length (free_pages L) < boot_budget \/ msg = no_stack)%nat s.
Proof using Hat Hco Hco2.
  intros Hb Hcl Hl1 Hl2 Hroot Hok Hfuel. eapply wpe_ext; [apply init_mmu_calls|].
  assert (Hlen : forall p, length (mmu_plan img p) = length (mmu_plan img 0)).
  { intros p. unfold mmu_plan. by rewrite !length_app. }
  assert (Himg : plan_ok (image_plan img)).
  { destruct Hok as [H1 H2]. unfold mmu_plan in *. apply Forall_app in H1 as [_ [_ H1]%Forall_cons].
    split; [done|]. clear -H2. induction (late_plan img) as [|r l IH]; [by inversion H2|]. inversion H2; auto. }
  apply wpe_bind. eapply wpe_mono; [apply (init_root_wpe s L Hb Hcl Hl1 Hl2 Hroot)| |].
  2:{ intros msg ->. left. unfold boot_budget. simpl. lia. }
  cbv beta. intros _ s1 (L1 & Hsp1 & _ & Hlen1).
  apply wpe_bind. eapply wpe_mono; [apply (run_requests_wpe img turns o al n Hat (image_plan img) s1 L1 [] Hsp1)| |].
  { by rewrite app_nil_r. }
  { eapply log2_fuel; [|exact Hfuel]. rewrite app_nil_r. unfold mmu_plan. rewrite length_app. simpl. lia. }
  2:{ intros msg Hlt. cbv beta in Hlt. left. unfold boot_budget. lia. }
  cbv beta. rewrite app_nil_r. intros _ s2 (L2 & Hsp2 & Hg2). pose proof (gr_frames _ _ _ _ _ Hg2).
  apply wpe_bind. eapply wpe_mono; [apply (take_stack_wpe s2 L2 _ Hsp2)| |].
  2:{ intros msg [-> _]. by right. }
  cbv beta. intros p s3 (L3 & Hsp3 & Hg3 & Hp1 & Hp2 & Hp3). pose proof (gr_frames _ _ _ _ _ Hg3).
  pose proof (plan_ok_stack p Hok Hp1 Hp2 Hp3) as Hokp.
  assert (Hst : request_ok (stack_request p) /\ Forall (compatible (stack_request p)) (image_plan img)).
  { destruct Hokp as [H1 H2]. unfold mmu_plan in *. apply Forall_app in H1 as [_ [H1 _]%Forall_cons]. split; [done|].
    clear -H2. induction (late_plan img) as [|r l IH]; [by inversion H2|]. inversion H2; auto. }
  apply wpe_bind. eapply wpe_mono; [apply (kmap_request_wpe img turns o al n Hat s3 L3 _ _ Hsp3 (proj1 Hst) (proj1 Himg) (proj2 Hst))| |].
  { eapply log2_fuel; [|exact Hfuel]. unfold mmu_plan. rewrite length_app. simpl. lia. }
  2:{ intros msg Hlt. cbv beta in Hlt. left. unfold boot_budget. change (cost o (stack_request p)) with (cost o (stack_request 0)) in Hlt. lia. }
  cbv beta. intros _ s4 (L4 & Hsp4 & Hg4). pose proof (gr_frames _ _ _ _ _ Hg4).
  apply wpe_bind. eapply wpe_mono; [apply (run_requests_wpe img turns o al n Hat (late_plan img) s4 L4 _ Hsp4 Hokp)| |].
  { fold (mmu_plan img p). by rewrite Hlen. }
  2:{ intros msg Hlt. cbv beta in Hlt. left. unfold boot_budget.
      change (cost o (stack_request p)) with (cost o (stack_request 0)) in *. lia. }
  cbv beta. intros _ s5 (L5 & Hsp5 & _). apply wpe_wp. unfold load_pmlt_cr3, vesa_set_fb_virtual.
  wp_steps. apply wp_lift. wp_steps. split; [done|]. exists p. split_and!; try done.
  by apply (first_space_final s5 L5 p Hokp).
Qed.
End boot.

(** ** The direct map *)

(** The whole pages of a region of the memory map. *)
Definition first_page (e : mmap_entry_0xe820) : Z := (me_base_address e + PAGE_SIZE - 1) / PAGE_SIZE * PAGE_SIZE.
Definition last_page (e : mmap_entry_0xe820) : Z := (me_base_address e + me_chunk_size e) / PAGE_SIZE * PAGE_SIZE.

(** A run of pages of the direct map reaches the frames it starts at. *)
Lemma direct_request_covers first count flags pa page :
  0 <= first -> 0 <= count -> page = (if has_flag flags PTE_HUGE_PAGE then HUGE_PAGE_SIZE else PAGE_SIZE) ->
  first <= pa < first + count * page -> first + count * page <= DIRECT_MAP_END - DIRECT_MAP_START ->
  let r := mk_request first (u64 (DIRECT_MAP_START + first)) flags count in
  inside r (DIRECT_MAP_START + pa) /\ target r (DIRECT_MAP_START + pa) = (pa, flags).
Proof.
  intros H0 Hc -> Hpa Hend r. unfold inside, target, rq_last, rq_bytes, rq_page, rq_huge, r.
  cbn [rq_va rq_pa rq_num rq_flags].
  assert (E : u64 (DIRECT_MAP_START + first) = DIRECT_MAP_START + first).
  { apply u64_small. unfold DIRECT_MAP_START, DIRECT_MAP_END in *. lia. }
  rewrite E. split; [lia|]. f_equal. lia.
Qed.

Definition direct_flags (flags : Z) : Prop :=
  flags = PTE_FLAGS_DIRECT_MAP \/ flags = Z.lor PTE_FLAGS_DIRECT_MAP PTE_HUGE_PAGE.

Lemma direct_small_covers x y pa :
  0 <= x <= pa -> pa < y -> y <= DIRECT_MAP_END - DIRECT_MAP_START -> x mod PAGE_SIZE = 0 -> y mod PAGE_SIZE = 0 ->
  let r := direct_small x (u64 (y - x) / PAGE_SIZE) in
  inside r (DIRECT_MAP_START + pa) /\ exists flags, direct_flags flags /\ target r (DIRECT_MAP_START + pa) = (pa, flags).
Proof.
  change (DIRECT_MAP_END - DIRECT_MAP_START) with 0x3C0000000000. intros H1 H2 H3 H4 H5.
  assert (D : 0 <= u64 (y - x) / PAGE_SIZE /\ x + u64 (y - x) / PAGE_SIZE * PAGE_SIZE = y).
  { rewrite u64_small by lia. unfold PAGE_SIZE in *. dlia. }
  destruct (direct_request_covers x (u64 (y - x) / PAGE_SIZE) PTE_FLAGS_DIRECT_MAP pa PAGE_SIZE) as [I T]; try done; try lia.
  { change (DIRECT_MAP_END - DIRECT_MAP_START) with 0x3C0000000000. lia. }
  cbv zeta. split; [exact I|]. eexists. split; [by left|exact T].
Qed.

Lemma direct_plan_covers e pa :
  me_type e = 1 -> 0 <= me_base_address e -> 0 <= me_chunk_size e ->
  me_base_address e + me_chunk_size e <= DIRECT_MAP_END - DIRECT_MAP_START ->
  first_page e <= pa < last_page e ->
  exists r, r ∈ direct_plan e /\ inside r (DIRECT_MAP_START + pa) /\ exists flags, direct_flags flags /\
    target r (DIRECT_MAP_START + pa) = (pa, flags).
Proof.
  intros Hty Hb Hz Hend Hpa. unfold direct_plan. rewrite Hty. cbn [Z.eqb negb Pos.eqb]. cbv zeta.
  change (DIRECT_MAP_END - DIRECT_MAP_START) with 0x3C0000000000 in Hend.
  set (b := me_base_address e) in *. set (z := me_chunk_size e) in *.
  rewrite (u64_small (b + z)), (u64_small (b + PAGE_SIZE - 1)) by (unfold PAGE_SIZE; lia).
  rewrite !page_mask by (unfold PAGE_SIZE; lia).
  replace (b + PAGE_SIZE - 1 - (b + PAGE_SIZE - 1) mod PAGE_SIZE) with (first_page e)
    by (unfold first_page; fold b; unfold PAGE_SIZE; dlia).
  replace (b + z - (b + z) mod PAGE_SIZE) with (last_page e) by (unfold last_page; fold b z; unfold PAGE_SIZE; dlia).
  assert (Hr : 0 <= first_page e /\ last_page e <= 0x3C0000000000 /\ first_page e mod PAGE_SIZE = 0 /\ last_page e mod PAGE_SIZE = 0)
    by (unfold first_page, last_page; fold b z; unfold PAGE_SIZE; split_and!; dlia).
  set (f := first_page e) in *. set (l := last_page e) in *. clearbody f l.
  rewrite Z.geb_leb, (proj2 (Z.leb_gt l f)) by lia. destruct Hr as (Hr1 & Hr2 & Hr3 & Hr4).
  rewrite (u64_small (f + HUGE_PAGE_SIZE - 1)) by (unfold HUGE_PAGE_SIZE; lia).
  rewrite !huge_mask by (unfold HUGE_PAGE_SIZE; lia).
  set (hb := f + HUGE_PAGE_SIZE - 1 - (f + HUGE_PAGE_SIZE - 1) mod HUGE_PAGE_SIZE).
  set (he := l - l mod HUGE_PAGE_SIZE).
  assert (Hhb : f <= hb < f + HUGE_PAGE_SIZE /\ hb mod HUGE_PAGE_SIZE = 0) by (unfold hb, HUGE_PAGE_SIZE; dlia).
  assert (Hhe : he <= l < he + HUGE_PAGE_SIZE /\ he mod HUGE_PAGE_SIZE = 0) by (unfold he, HUGE_PAGE_SIZE; dlia).
  clearbody hb he. unfold HUGE_PAGE_SIZE in Hhb, Hhe.
  rewrite Z.geb_leb. destruct (Z.leb_spec he hb) as [Hle|Hlt].
  { eexists. split; [left|]. apply direct_small_covers; try done; unfold DIRECT_MAP_END, DIRECT_MAP_START; lia. }
  destruct (Z_lt_ge_dec pa hb) as [C1|C1]; [|destruct (Z_lt_ge_dec pa he) as [C2|C2]].
  - rewrite (proj2 (Z.ltb_lt f hb)) by lia. eexists. split; [left|]. apply direct_small_covers; try done;
      try (unfold DIRECT_MAP_END, DIRECT_MAP_START; lia).
    unfold PAGE_SIZE. dlia.
  - eexists. split; [apply elem_of_app; right; left|]. rewrite (u64_small (he - hb)) by lia.
    destruct (direct_request_covers hb ((he - hb) / HUGE_PAGE_SIZE) (Z.lor PTE_FLAGS_DIRECT_MAP PTE_HUGE_PAGE) pa HUGE_PAGE_SIZE)
      as [I T]; try done; try (unfold HUGE_PAGE_SIZE; dlia).
    { change (DIRECT_MAP_END - DIRECT_MAP_START) with 0x3C0000000000. unfold HUGE_PAGE_SIZE. dlia. }
    split; [exact I|]. eexists. split; [by right|exact T].
  - assert (Hpos : u64 (l - he) / PAGE_SIZE > 0) by (rewrite u64_small by lia; unfold PAGE_SIZE in *; dlia).
    rewrite (proj2 (Z.gtb_lt _ 0)) by lia. eexists. split; [apply elem_of_app; right; right; left|].
    apply direct_small_covers; try done;
      try (unfold DIRECT_MAP_END, DIRECT_MAP_START; lia). unfold PAGE_SIZE. dlia.
Qed.

(** ** Checking a plan *)

(** The conditions on a plan, as a program. *)
Definition request_check (r : request) : bool :=
  (0 <? rq_num r) && (rq_va r mod rq_page r =? 0) && (rq_pa r mod rq_page r =? 0) &&
  (0 <=? rq_pa r) && (rq_pa r + rq_bytes r <=? 2 ^ 52) &&
  ((0 <=? rq_va r) && (rq_last r <=? 2 ^ 47) || (2 ^ 64 - 2 ^ 47 <=? rq_va r) && (rq_last r <? 2 ^ 64)) &&
  has_flag (rq_flags r) PTE_PRESENT && (Z.land (rq_flags r) PTE_ADDR_MASK =? 0).

Definition compatible_check (r r' : request) : bool :=
  ((rq_last r <=? rq_va r') || (rq_last r' <=? rq_va r)) &&
  (eqb (rq_huge r) (rq_huge r') ||
   ((rq_last r - 1) / HUGE_PAGE_SIZE <? rq_va r' / HUGE_PAGE_SIZE) ||
   ((rq_last r' - 1) / HUGE_PAGE_SIZE <? rq_va r / HUGE_PAGE_SIZE)).

Fixpoint plan_check (l : list request) : bool :=
  match l with [] => true | r :: l => request_check r && forallb (compatible_check r) l && plan_check l end.

Lemma request_check_ok r : request_check r = true -> request_ok r.
Proof.
  unfold request_check. rewrite !andb_true_iff, orb_true_iff, !andb_true_iff, !Z.leb_le, !Z.ltb_lt, !Z.eqb_eq.
  assert (Hp : rq_page r <> 0) by (unfold rq_page; destruct (rq_huge r); done).
  intros H. destruct_and! H. split; try done; by apply Z.mod_divide.
Qed.

Lemma compatible_check_ok r r' : compatible_check r r' = true -> compatible r r'.
Proof.
  unfold compatible_check, compatible. rewrite andb_true_iff, !orb_true_iff, !Z.leb_le, !Z.ltb_lt, eqb_true_iff.
  intros [H1 H2]. split; [done|]. tauto.
Qed.

Lemma plan_check_ok l : plan_check l = true -> plan_ok l.
Proof.
  induction l as [|r l IH]; [by repeat constructor|]. cbn [plan_check]. rewrite !andb_true_iff. intros [[H1 H2] H3].
  destruct (IH H3) as [I1 I2]. split; [constructor; [by apply request_check_ok|done]|].
  constructor; [|done]. rewrite forallb_forall in H2. apply Forall_forall. intros r' Hr'.
  apply compatible_check_ok, H2. by apply list_elem_of_In.
Qed.

(** ** Consequences for the first address space *)

Definition writable (flags : Z) : bool := has_flag flags PTE_WRITABLE.
Definition executable (flags : Z) : bool := negb (has_flag flags PTE_NX).

(** Every request but the one for the boot loader's memory is either not
    writable or not executable. *)
Lemma plan_wx img p r :
  r ∈ mmu_plan img p -> r = boot_request \/ writable (rq_flags r) && executable (rq_flags r) = false.
Proof.
  assert (Hd : forall e r, r ∈ direct_plan e -> direct_flags (rq_flags r)).
  { intros e r' Hr'. unfold direct_plan in Hr'. cbv zeta in Hr'. repeat case_match; set_unfold in Hr';
      intuition subst; by (left + right). }
  unfold mmu_plan, late_plan. rewrite !elem_of_app, !elem_of_cons, elem_of_nil.
  intros [[(e & Hr & _)%list_elem_of_bind|[->|[->|[]]]]|[->|Hr]]; [|by left|right..]; try done.
  - right. by destruct (Hd e r Hr) as [-> | ->].
  - unfold image_plan in Hr. set_unfold in Hr. by intuition subst.
Qed.

Section consequences.
Context {client : AllocClient} (img : kernel_image) (o al n : Z) (s' : pstate) (p : ptr).
Context (Hfs : first_space img o al n s' p).
Abbreviation tr := (translate (k_mem (p_k s')) (p_cr3 s')).

(** What is translated was requested. *)
Lemma translated_requested v pa flags :
  canonical v -> tr v = Some (pa, flags) ->
  exists r, r ∈ mmu_plan img p /\ inside r v /\ pa = rq_pa r + (v - rq_va r) /\ flags = rq_flags r.
Proof using Hfs.
  intros Hv E. destruct (decide (Exists (fun r => rq_va r <= v < rq_last r) (mmu_plan img p))) as [Hex|Hno].
  - apply Exists_exists in Hex as (r & Hr & Hin). exists r. rewrite (fs_mapped _ _ _ _ _ _ Hfs r v Hr Hin) in E.
    by injection E as <- <-.
  - rewrite (fs_unmapped _ _ _ _ _ _ Hfs v Hv) in E; [done|]. intros r Hr Hin. apply Hno.
    apply Exists_exists. by exists r.
Qed.

Lemma space_wx v pa flags :
  canonical v -> ~ 0 <= v < 8 * HUGE_PAGE_SIZE -> tr v = Some (pa, flags) -> writable flags && executable flags = false.
Proof using Hfs.
  intros Hv Hlow E. destruct (translated_requested v pa flags Hv E) as (r & Hr & Hin & _ & ->).
  destruct (plan_wx img p r Hr) as [->|H]; [|exact H]. exfalso. apply Hlow. exact Hin.
Qed.

Lemma space_direct e pa :
  e ∈ mmap_bios_entries img -> me_type e = 1 -> 0 <= me_base_address e -> 0 <= me_chunk_size e ->
  me_base_address e + me_chunk_size e <= DIRECT_MAP_END - DIRECT_MAP_START ->
  first_page e <= pa < last_page e ->
  exists flags, direct_flags flags /\ tr (DIRECT_MAP_START + pa) = Some (pa, flags).
Proof using Hfs.
  intros He H1 H2 H3 H4 H5. destruct (direct_plan_covers e pa H1 H2 H3 H4 H5) as (r & Hr & Hin & flags & Hf & Ht).
  exists flags. split; [done|]. rewrite (fs_mapped _ _ _ _ _ _ Hfs r _); [by rewrite Ht| |done].
  unfold mmu_plan, late_plan. apply elem_of_app. left. apply elem_of_app. left. apply list_elem_of_bind. by exists e.
Qed.

Lemma space_stack v :
  KERNEL_STACKS_START <= v < KERNEL_STACKS_START + 4 * PAGE_SIZE ->
  tr v = Some (p + (v - KERNEL_STACKS_START), PTE_FLAGS_KERNEL_DATA).
Proof using Hfs.
  intros Hv. rewrite (fs_mapped _ _ _ _ _ _ Hfs (stack_request p) v); [done| |exact Hv].
  unfold mmu_plan. apply elem_of_app. right. left.
Qed.
End consequences.

(** ** The theorems *)

Section theorems.
Context (img : kernel_image) (turns : nat) (o al n : Z) (s : pstate) (L : Z -> list ptr).
Context (Hat : cache_at (vma_cache img) sizeof_vma o al n).
Context (Hb : buddy_inv (k_mem (p_k s)) (k_buddy (p_k s)) L).
Context (Hl1 : lock_free (p_k s) slab_lock) (Hl2 : lock_free (p_k s) buddy_lock).
Context (Hroot : kernel_rb_root s = NULL) (Hok : plan_ok (mmu_plan img 0)).
Context (Hfuel : (2 * Nat.log2 (length (mmu_plan img 0) + 1) <= turns)%nat).

(** C3. [__init_mmu], from a page allocator in order and an image whose ranges
    fit together, builds the first address space of the kernel: it returns the
    top of the stack with CR3 pointing to page tables that translate exactly the
    requested ranges (the sections, the stack, the usable memory at the direct
    map, the boot loader's low memory, the frame buffer), each address to the
    requested frame with the requested flags and every other address to nothing;
    the tree of areas records exactly those ranges, and the direct map is in
    force.  Otherwise it stops in PANIC, and then the page allocator had fewer
    frames than the budget of the plan or no 16 KB block for the stack. *)
Theorem init_mmu_correct :
  (exists s' p, __init_mmu img turns s = Ret (KERNEL_STACKS_START + 4 * PAGE_SIZE - 8) s' /\
     page_aligned p /\ 0 < p /\ p + 4 * PAGE_SIZE <= 2 ^ 48 /\ first_space img o al n s' p) \/
  (exists msg, __init_mmu img turns s = Panic msg /\
     ((length (free_pages L) < boot_budget img o)%nat \/ msg = no_stack)).
Proof using Hat Hb Hl1 Hl2 Hroot Hok Hfuel.
  destruct (wpe_elim _ _ _ _ (init_mmu_wpe (client := any_client) img turns o al n Hat I I s L Hb I Hl1 Hl2 Hroot Hok Hfuel))
    as [(rsp & s' & E & -> & p & Hp)|(msg & E & HP)]; [left|right; by exists msg].
  exists s', p. split; [exact E|]. exact Hp.
Qed.

(** C10. In the address space [__init_mmu] leaves behind, every byte of every whole
    page of usable memory is reachable at its physical address plus the start of
    the direct map; the stack pointer it returns lies in a mapped, writable page;
    and no address above the boot loader's 16 MB is both writable and executable. *)
Theorem init_mmu_space rsp s' :
  __init_mmu img turns s = Ret rsp s' ->
  (forall e pa, e ∈ mmap_bios_entries img -> me_type e = 1 -> 0 <= me_base_address e -> 0 <= me_chunk_size e ->
     me_base_address e + me_chunk_size e <= DIRECT_MAP_END - DIRECT_MAP_START -> first_page e <= pa < last_page e ->
     exists flags, direct_flags flags /\
       translate (k_mem (p_k s')) (p_cr3 s') (DIRECT_MAP_START + pa) = Some (pa, flags)) /\
  (exists pa, translate (k_mem (p_k s')) (p_cr3 s') rsp = Some (pa, PTE_FLAGS_KERNEL_DATA)) /\
  (forall v pa flags, canonical v -> ~ 0 <= v < 8 * HUGE_PAGE_SIZE ->
     translate (k_mem (p_k s')) (p_cr3 s') v = Some (pa, flags) -> writable flags && executable flags = false).
Proof using Hat Hb Hl1 Hl2 Hroot Hok Hfuel.
  intros E. destruct (wpe_elim _ _ _ _ (init_mmu_wpe (client := any_client) img turns o al n Hat I I s L Hb I Hl1 Hl2 Hroot Hok Hfuel))
    as [(rsp' & s2 & E' & -> & p & _ & _ & _ & Hfs)|(msg & E' & _)]; rewrite E in E'; [|done].
  injection E' as -> <-. split_and!.
  - intros e pa. by apply (space_direct _ _ _ _ _ _ Hfs).
  - eexists. apply (space_stack _ _ _ _ _ _ Hfs). unfold PAGE_SIZE. lia.
  - intros v pa flags. by apply (space_wx _ _ _ _ _ _ Hfs).
Qed.
End theorems.

(** ** A concrete boot *)

Definition boot_image : kernel_image :=
  mk_kernel_image 0xffffffff80040000 0xffffffff80013000 0xffffffff8001a000 0xffffffff80015000
    0xffffffff80015000 0xffffffff80016000 0xffffffff80016000
    [mk_mmap_entry 0 0x9f000 1 0; mk_mmap_entry 0xf0000 0x10000 2 0; mk_mmap_entry 0x100000 0xb00000 1 0]
    0xfd000000 4096 2.
Definition boot_pstate : pstate := mk_pstate demo_state NULL NULL NULL 0.

Lemma boot_image_cache : cache_at (vma_cache boot_image) sizeof_vma 0 8 72.
Proof. split; [vm_compute; reflexivity|done|done]. Qed.

Lemma boot_image_plan : plan_ok (mmu_plan boot_image 0).
Proof. apply plan_check_ok. vm_compute. reflexivity. Qed.

Lemma boot_image_fuel : (2 * Nat.log2 (length (mmu_plan boot_image 0) + 1) <= 8)%nat.
Proof. vm_compute. lia. Qed.

Lemma boot_image_returns :
  match __init_mmu boot_image 8 boot_pstate with Ret rsp _ => rsp = 0xFFFFFC0000603FF8 | _ => False end.
Proof. vm_compute. reflexivity. Qed.

Lemma init_mmu_correct_witness :
  exists s' p, __init_mmu boot_image 8 boot_pstate = Ret 0xFFFFFC0000603FF8 s' /\ first_space boot_image 0 8 72 s' p.
Proof.
  destruct (init_mmu_correct boot_image 8 0 8 72 boot_pstate demo_lists boot_image_cache demo_inv eq_refl eq_refl eq_refl
    boot_image_plan boot_image_fuel) as [(s' & p & E & _ & _ & _ & H)|(msg & E & _)].
  - exists s', p. split; [exact E|exact H].
  - exfalso. pose proof boot_image_returns as Hr. rewrite E in Hr. exact Hr.
Defined.

Lemma init_mmu_space_witness :
  exists s', __init_mmu boot_image 8 boot_pstate = Ret 0xFFFFFC0000603FF8 s' /\
    exists flags, direct_flags flags /\
      translate (k_mem (p_k s')) (p_cr3 s') (DIRECT_MAP_START + 0x512345) = Some (0x512345, flags).
Proof.
  pose proof boot_image_returns as Hr. destruct (__init_mmu boot_image 8 boot_pstate) as [rsp s'| |] eqn:E; [|destruct Hr..].
  rewrite Hr in E. exists s'. split; [by rewrite Hr|].
  destruct (init_mmu_space boot_image 8 0 8 72 boot_pstate demo_lists boot_image_cache demo_inv eq_refl eq_refl eq_refl
    boot_image_plan boot_image_fuel _ s' E) as [H _].
  apply (H (mk_mmap_entry 0x100000 0xb00000 1 0)); try (vm_compute; intuition congruence).
  right. right. left.
Defined.
