(* ===== verification/Layout.v ===== *)
(** * mmu.h: the layout of the kernel's address space

    The regions of the kernel half, the stack slots, the parts of a page-table
    entry and of a virtual address.  The constants the other files use are in
    PhysKmalloc, Mmu and Paging; here are the rest of the header's, and what they
    promise together. *)

From S2P Require Import Prelude State Kmath Buddy Slab PhysKmalloc Mmu MmuInv RbTree Vm Paging AddressSpace.

Definition AVATAR_THE_LAST_VIRTUAL_ADDRESS : Z := 0xFFFFFFFFFFFFFFFF.
Definition PML5_KERNEL_HALF_BASE : Z := 0xFF00000000000000.
Definition GUARD_HOLE_SIZE : Z := 0x200000.
Definition DIRECT_MAP_SIZE : Z := 0x400000000000.
Definition VIRT_KMALLOC_START : Z := 0xFFFFBC0000400000.
Definition VIRT_KMALLOC_END : Z := 0xFFFFFC0000400000.
Definition VIRT_KMALLOC_SIZE : Z := 0x40000000000.
Definition KERNEL_STACKS_END : Z := 0xFFFFFE0000600000.
Definition KERNEL_STACKS_SIZE : Z := 0x20000000000.
Definition KERNEL_STACK_SLOT_SIZE : Z := 0x8000.
Definition KERNEL_STACK_SIZE : Z := 0x4000.
Definition KERNEL_STACK_GUARD_SIZE : Z := 0x1000.
Definition MODULE_REGION_START : Z := 0xFFFFFEFFFFE00000.
Definition MODULE_REGION_END : Z := 0xFFFFFF7FFFE00000.
Definition MODULE_REGION_SIZE : Z := 0x80000000.
Definition KERNEL_PHYS_BASE : Z := 0x13000.
Definition KERNEL_BASED_PHYS_TO_VIRT (p : Z) : Z := u64 (u64 (p - KERNEL_PHYS_BASE) + KERNEL_IMAGE_START).
Definition PHYS_KERNEL_START : Z := 0x13000.
Definition KERNEL_VIRT_OFFSET : Z := u64 (KERNEL_IMAGE_START - KERNEL_PHYS_BASE).
Definition PHYS_TO_VIRT (p : Z) : Z := u64 (p + KERNEL_VIRT_OFFSET).

Definition PTE_USER : Z := 0x4.
Definition PTE_CACHE_DISABLE : Z := 0x10.
Definition PTE_ACCESSED : Z := 0x20.
Definition PTE_DIRTY : Z := 0x40.
Definition PTE_GUARD_PAGE : Z := 0x4000000000000000.
Definition GET_PA_FROM_PTE (pte : Z) : Z := Z.land pte PTE_ADDR_MASK.
Definition GET_FLAGS_FROM_PTE (pte : Z) : Z := Z.land pte (not64 PTE_ADDR_MASK).
Definition VIRT_TO_PML5_IDX (virt : Z) : Z := Z.land (Z.shiftr virt 48) 0x1FF.
Definition PTE_FLAGS_KERNEL_MODULES : Z := Z.lor PTE_PRESENT PTE_GLOBAL.
Definition PTE_FLAGS_GUARD : Z := PTE_GUARD_PAGE.
Definition PTE_FLAGS_USER_DATA : Z := Z.lor (Z.lor (Z.lor PTE_PRESENT PTE_WRITABLE) PTE_USER) PTE_NX.
Definition PTE_FLAGS_USER_CODE : Z := Z.lor PTE_PRESENT PTE_USER.

(** ** Regions *)

(** The regions from the bottom up, as first address and the address behind, by the
    START and END macros. *)
Definition regions : list (Z * Z) :=
  [(DIRECT_MAP_START, DIRECT_MAP_END); (VIRT_KMALLOC_START, VIRT_KMALLOC_END);
   (KERNEL_STACKS_START, KERNEL_STACKS_END); (MODULE_REGION_START, MODULE_REGION_END);
   (KERNEL_IMAGE_START, AVATAR_THE_LAST_VIRTUAL_ADDRESS + 1)].

Definition in_region (a : Z) (r : Z * Z) : Prop := r.1 <= a < r.2.

(** Each region lies in the kernel half, begins on a 2 MB boundary, and starts at
    least a guard hole above [low], the end of what is below. *)
Fixpoint stacked (low : Z) (l : list (Z * Z)) : bool :=
  match l with
  | [] => true
  | (a, b) :: l =>
      (low + GUARD_HOLE_SIZE <=? a) && (a <? b) && (a mod HUGE_PAGE_SIZE =? 0) && (b <=? 2 ^ 64) && stacked b l
  end.

Lemma stacked_above low l a r : stacked low l = true -> r ∈ l -> in_region a r -> low + GUARD_HOLE_SIZE <= a.
Proof.
  revert low. induction l as [|[x y] l IH]; intros low Hs Hr Ha; [by apply elem_of_nil in Hr|].
  cbn [stacked] in Hs. rewrite !andb_true_iff, !Z.leb_le, Z.ltb_lt in Hs. destruct Hs as ((((H1 & H2) & _) & _) & Hs).
  apply elem_of_cons in Hr as [->|Hr]; [unfold in_region in Ha; simpl in Ha; lia|].
  specialize (IH y Hs Hr Ha). unfold GUARD_HOLE_SIZE in *. lia.
Qed.

(** Two addresses closer than a guard hole are in the same region. *)
Lemma stacked_unique low l a a' r r' :
  stacked low l = true -> r ∈ l -> r' ∈ l -> in_region a r -> in_region a' r' -> Z.abs (a - a') < GUARD_HOLE_SIZE -> r = r'.
Proof.
  revert low. induction l as [|[x y] l IH]; intros low Hs Hr Hr' Ha Ha' Hd; [by apply elem_of_nil in Hr|].
  cbn [stacked] in Hs. rewrite !andb_true_iff in Hs. destruct Hs as (_ & Hs).
  assert (Hup : forall b s, s ∈ l -> in_region b s -> y + GUARD_HOLE_SIZE <= b) by (intros b s; by apply stacked_above).
  apply elem_of_cons in Hr as [->|Hr]; apply elem_of_cons in Hr' as [->|Hr']; [done| | |by eapply IH].
  - specialize (Hup _ _ Hr' Ha'). unfold in_region in Ha. simpl in Ha. lia.
  - specialize (Hup _ _ Hr Ha). unfold in_region in Ha'. simpl in Ha'. lia.
Qed.

Lemma regions_stacked : stacked PML4_KERNEL_HALF_BASE regions = true.
Proof. vm_compute. reflexivity. Qed.

(** The slots of the stack region: a slot holds a stack and its guard page. *)
Definition stack_slot (i : Z) : Z := KERNEL_STACKS_START + i * KERNEL_STACK_SLOT_SIZE.
Definition stack_slots : Z := KERNEL_STACKS_SIZE / KERNEL_STACK_SLOT_SIZE.

(** The layout, with the regions from their START to their END macros: every region
    lies in the kernel half, and addresses less than a guard hole apart never belong
    to two regions, so no access of up to 2 MB runs from one region into another; the
    direct map takes each physical address below END - START to an address of its
    region; each of the stack slots has room
    for a stack and a guard page, and the slots fill the region without overlap. *)
Theorem kernel_regions_apart :
  (forall a r, r ∈ regions -> in_region a r -> PML4_KERNEL_HALF_BASE + GUARD_HOLE_SIZE <= a < 2 ^ 64) /\
  (forall a a' r r', r ∈ regions -> r' ∈ regions -> in_region a r -> in_region a' r' ->
     Z.abs (a - a') < GUARD_HOLE_SIZE -> r = r') /\
  (forall p, 0 <= p < DIRECT_MAP_END - DIRECT_MAP_START ->
     in_region (directmap_p2v DIRECT_MAP_START p) (DIRECT_MAP_START, DIRECT_MAP_END)) /\
  (KERNEL_STACK_SIZE + KERNEL_STACK_GUARD_SIZE <= KERNEL_STACK_SLOT_SIZE) /\
  (forall i a, 0 <= i -> stack_slot i <= a < stack_slot (i + 1) ->
     (in_region a (KERNEL_STACKS_START, KERNEL_STACKS_END) <-> i < stack_slots)).
Proof.
  split_and!.
  - intros a r Hr Ha. split; [by eapply stacked_above; [apply regions_stacked| |]|].
    assert (Hall : Forall (fun r => r.2 <= 2 ^ 64) regions) by (repeat constructor; vm_compute; discriminate).
    rewrite Forall_forall in Hall. specialize (Hall r Hr). unfold in_region in Ha. lia.
  - intros a a' r r'. apply (stacked_unique _ _ _ _ _ _ regions_stacked).
  - intros p Hp. unfold directmap_p2v, in_region, DIRECT_MAP_START, DIRECT_MAP_END, PML4_KERNEL_HALF_BASE in *. simpl in *.
    destruct (Z.ltb_spec p 0xFFFF800000000000); [|lia]. rewrite u64_small; lia.
  - done.
  - intros i a Hi Ha. change stack_slots with 67108864.
    unfold in_region, stack_slot, KERNEL_STACKS_START, KERNEL_STACKS_END, KERNEL_STACK_SLOT_SIZE in *. simpl. lia.
Qed.

(** The SIZE macros are not those differences, except for the stacks: by its size the
    direct map would run over the start of the allocator region, whose own size is a
    sixteenth of what lies between its bounds, and that of the modules a 256th. *)
Example region_sizes_disagree :
  VIRT_KMALLOC_START < DIRECT_MAP_START + DIRECT_MAP_SIZE /\ DIRECT_MAP_END - DIRECT_MAP_START = 60 * 2 ^ 40 /\
  VIRT_KMALLOC_END - VIRT_KMALLOC_START = 16 * VIRT_KMALLOC_SIZE /\
  KERNEL_STACKS_END - KERNEL_STACKS_START = KERNEL_STACKS_SIZE /\
  MODULE_REGION_END - MODULE_REGION_START = 256 * MODULE_REGION_SIZE.
Proof. split_and!; reflexivity. Qed.

(** ** Virtual addresses *)

(** The addresses of a 57-bit space, and the value with its top bit [n - 1] copied up. *)
Definition canonical57 (v : Z) : Prop := 0 <= v < 2 ^ 56 \/ 2 ^ 64 - 2 ^ 56 <= v < 2 ^ 64.
Definition sign_extend (n x : Z) : Z := if x <? 2 ^ (n - 1) then x else x + 2 ^ 64 - 2 ^ n.

(** The four indices and the offset, put together. *)
Definition join_indices (v : Z) : Z :=
  VIRT_TO_PML4_IDX v * 2 ^ 39 + VIRT_TO_PDPT_IDX v * 2 ^ 30 + VIRT_TO_PD_IDX v * 2 ^ 21 + VIRT_TO_PT_IDX v * 2 ^ 12 +
  v mod PAGE_SIZE.

Lemma index_div v n : 0 <= n -> Z.land (Z.shiftr v n) 0x1FF = v / 2 ^ n mod 512.
Proof. intros Hn. change 0x1FF with (Z.ones 9). by rewrite Z.land_ones, Z.shiftr_div_pow2 by lia. Qed.

Lemma join_indices_mod v : join_indices v = v mod 2 ^ 48.
Proof.
  unfold join_indices, VIRT_TO_PML4_IDX, VIRT_TO_PDPT_IDX, VIRT_TO_PD_IDX, VIRT_TO_PT_IDX, PAGE_SIZE.
  rewrite !index_div by lia. dlia.
Qed.

(** ** Entries *)

(** The flags the header prepares. *)
Definition flag_presets : list Z :=
  [PTE_FLAGS_DIRECT_MAP; PTE_FLAGS_KERNEL_MODULES; PTE_FLAGS_GUARD; PTE_FLAGS_KERNEL_CODE; PTE_FLAGS_KERNEL_DATA;
   PTE_FLAGS_USER_DATA; PTE_FLAGS_USER_CODE].

Lemma pte_parts pa flags :
  frame_ok pa -> 0 <= flags < 2 ^ 64 -> Z.land flags PTE_ADDR_MASK = 0 ->
  GET_PA_FROM_PTE (Z.lor pa flags) = pa /\ GET_FLAGS_FROM_PTE (Z.lor pa flags) = flags.
Proof.
  intros Hpa Hf Hd. unfold GET_PA_FROM_PTE, GET_FLAGS_FROM_PTE.
  assert (Hm : forall x, Z.land x (not64 PTE_ADDR_MASK) = Z.ldiff (x mod 2 ^ 64) PTE_ADDR_MASK).
  { intros x. unfold not64, u64. rewrite <- !(Z.land_ones _ 64) by lia. rewrite Z.ldiff_land.
    by rewrite <- Z.land_assoc, (Z.land_comm (Z.ones 64)). }
  rewrite Hm, <- Z.land_ones, !Z.land_lor_distr_l by lia. rewrite (land_frame_mask pa Hpa), Hd, Z.lor_0_r. split; [done|].
  destruct Hpa as [Ha Hb]. rewrite !Z.land_ones, !Z.mod_small by lia. apply Z.bits_inj'. intros n Hn.
  rewrite Z.ldiff_spec, Z.lor_spec. pose proof (f_equal (fun x => Z.testbit x n) (land_frame_mask pa (conj Ha Hb))) as E1.
  pose proof (f_equal (fun x => Z.testbit x n) Hd) as E2. cbv beta in *. rewrite Z.land_spec in E1, E2. rewrite Z.bits_0 in E2.
  destruct (Z.testbit pa n), (Z.testbit flags n), (Z.testbit PTE_ADDR_MASK n); done.
Qed.

(** C31. Taking apart and putting together: the table indices and the page offset of a
    canonical address determine it, in a walk of four levels and in one of five,
    so distinct pages never share an entry; and a page-table entry made of a frame
    and one of the prepared flag sets gives back that frame and those flags. *)
Theorem walk_and_entry_roundtrip v pa flags :
  (canonical v -> sign_extend 48 (join_indices v) = v) /\
  (canonical57 v -> sign_extend 57 (VIRT_TO_PML5_IDX v * 2 ^ 48 + join_indices v) = v) /\
  (frame_ok pa -> flags ∈ flag_presets ->
     GET_PA_FROM_PTE (Z.lor pa flags) = pa /\ GET_FLAGS_FROM_PTE (Z.lor pa flags) = flags).
Proof.
  unfold sign_extend. rewrite join_indices_mod. split_and!.
  - intros Hv. unfold canonical in Hv. destruct (Z.ltb_spec (v mod 2 ^ 48) (2 ^ (48 - 1))); dlia.
  - intros Hv. unfold canonical57 in Hv. unfold VIRT_TO_PML5_IDX. rewrite index_div by lia.
    destruct (Z.ltb_spec (v / 2 ^ 48 mod 512 * 2 ^ 48 + v mod 2 ^ 48) (2 ^ (57 - 1))); dlia.
  - intros Hpa Hf. assert (Hall : Forall (fun f => 0 <= f < 2 ^ 64 /\ Z.land f PTE_ADDR_MASK = 0) flag_presets).
    { repeat (apply Forall_cons; split; [by vm_compute|]). apply Forall_nil_2. }
    rewrite Forall_forall in Hall. destruct (Hall flags Hf). by apply pte_parts.
Qed.

Lemma walk_and_entry_roundtrip_witness :
  sign_extend 48 (join_indices 0xFFFFFC0000603123) = 0xFFFFFC0000603123 /\
  GET_PA_FROM_PTE (Z.lor 0x13000 PTE_FLAGS_KERNEL_CODE) = 0x13000.
Proof.
  destruct (walk_and_entry_roundtrip 0xFFFFFC0000603123 0x13000 PTE_FLAGS_KERNEL_CODE) as (H1 & _ & H3).
  split; [apply H1; right; done|]. refine (proj1 (H3 _ _)); [done|]. refine (bool_decide_unpack _ _). vm_compute. exact I.
Defined.

(** The two macros that take a physical address of the image to its virtual address
    do not agree with the link address: kernel.ld links the byte loaded at
    [KERNEL_PHYS_BASE] to [KERNEL_IMAGE_START + KERNEL_PHYS_BASE]. *)
Lemma phys_to_virt_off p :
  0 <= p < 2 ^ 31 ->
  KERNEL_BASED_PHYS_TO_VIRT p = PHYS_TO_VIRT p /\
  (KERNEL_PHYS_BASE <= p -> PHYS_TO_VIRT p = KERNEL_IMAGE_START + p - KERNEL_PHYS_BASE).
Proof.
  intros Hp. unfold KERNEL_BASED_PHYS_TO_VIRT, PHYS_TO_VIRT, KERNEL_VIRT_OFFSET, KERNEL_IMAGE_START, KERNEL_PHYS_BASE, u64.
  change (2 ^ 64) with 18446744073709551616. split; [|intros]; dlia.
Qed.
