(* ===== verification/Screen.v ===== *)
(** * vesa_graphics_lib.c: text on the frame buffer

    The frame buffer is 32-bit pixels in memory, addressed as the code does with
    32-bit indices from its base.  The font is the file the assembler includes:
    its bytes are a parameter.  Characters of a message are its bytes up to the
    first zero. *)

From S2P Require Import Prelude Buddy.
From Stdlib Require Import Ascii String.
Open Scope Z_scope.

Definition VESA_LAST_ROW : Z := 83.

Record boot_vbe_handoff : Type := mk_vbe {
  vbe_framebuffer_address : Z;
  vbe_pitch : Z;
  vbe_width_px : Z;
  vbe_height_px : Z;
}.

(** [s_vbe_info], [s_fb_virt] and the memory the pixels are in. *)
Record screen : Type := mk_screen {
  s_vbe_info : boot_vbe_handoff;
  s_fb_virt : Z;
  s_mem : mem;
}.

Definition get_fb (s : screen) : Z :=
  if negb (s_fb_virt s =? 0) then s_fb_virt s else vbe_framebuffer_address (s_vbe_info s).

Definition pitch_in_pixels (s : screen) : Z := vbe_pitch (s_vbe_info s) / 4.

Definition __init_vbe_handoff (handoff : boot_vbe_handoff) (s : screen) : screen :=
  mk_screen handoff (s_fb_virt s) (s_mem s).

(** [fb[idx] = color] *)
Definition put_pixel (idx color : Z) (s : screen) : screen :=
  mk_screen (s_vbe_info s) (s_fb_virt s) (s_mem s).[get_fb s + 4 * idx <- color].

(** ** The font *)

Section font.
Context (font_data : Z -> Z).

Definition is_psf2 : bool := (font_data 0 =? 0x72) && (font_data 1 =? 0xB5).

(** A 32-bit field of the packed header. *)
Definition font_word (off : Z) : Z :=
  font_data off + 2 ^ 8 * font_data (off + 1) + 2 ^ 16 * font_data (off + 2) + 2 ^ 24 * font_data (off + 3).

Definition psf_charheight : Z := if is_psf2 then font_word 24 else font_data 3.

(** The offset of a glyph in the font. *)
Definition psf_glyph (c : Z) : Z :=
  if is_psf2 then font_word 8 + u32 (c * font_word 20) else 4 + c * font_data 3.

(** ** Text *)

(** [for (c = 0; c < 8; c++)] *)
Fixpoint draw_cols (turns : nat) (c bits px_x line : Z) (s : screen) : screen :=
  match turns with
  | O => s
  | S t =>
      let color := if negb (Z.land bits (Z.shiftr 0x80 c) =? 0) then 0x00FFFFFF else 0 in
      draw_cols t (c + 1) bits px_x line (put_pixel (u32 (line + u32 (px_x + c))) color s)
  end.

(** [for (r = 0; r < charheight; r++)] *)
Fixpoint draw_rows (turns : nat) (r glyph px_x px_y : Z) (s : screen) : screen :=
  match turns with
  | O => s
  | S t =>
      let line := u32 (u32 (px_y + r) * pitch_in_pixels s) in
      draw_rows t (r + 1) glyph px_x px_y (draw_cols 8 0 (font_data (glyph + r)) px_x line s)
  end.

(** [for (i = 0; nt_s[i] != '\0'; i++, cur_col++)] *)
Fixpoint vesa_nt_println (nt_s : list Z) (row cur_col : Z) (s : screen) : screen :=
  match nt_s with
  | [] => s
  | ch :: rest =>
      if ch =? 0 then s else
      let px_x := u32 (u32 cur_col * 8) in
      let px_y := u32 (u32 row * psf_charheight) in
      let s := draw_rows (Z.to_nat psf_charheight) 0 (psf_glyph ch) px_x px_y s in
      vesa_nt_println rest row (cur_col + 1) s
  end.

(** ** Filling *)

Fixpoint fill_line (turns : nat) (x line color : Z) (s : screen) : screen :=
  match turns with
  | O => s
  | S t => fill_line t (x + 1) line color (put_pixel (u32 (line + x)) color s)
  end.

(** [for (y = ...; y < height_px; y++) for (x = 0; x < width_px; x++)] *)
Fixpoint fill_screen (turns : nat) (y color : Z) (s : screen) : screen :=
  match turns with
  | O => s
  | S t =>
      fill_screen t (y + 1) color
        (fill_line (Z.to_nat (vbe_width_px (s_vbe_info s))) 0 (u32 (y * pitch_in_pixels s)) color s)
  end.

Definition vbe_blue_screen (s : screen) : screen :=
  fill_screen (Z.to_nat (vbe_height_px (s_vbe_info s))) 0 0x00ADD8E6 s.
Definition vbe_black_screen (s : screen) : screen :=
  fill_screen (Z.to_nat (vbe_height_px (s_vbe_info s))) 0 0 s.
Definition vesa_clear_lower_half (s : screen) : screen :=
  let half_row_px := u32 ((VESA_LAST_ROW / 2 + 1) * psf_charheight) in
  fill_screen (Z.to_nat (vbe_height_px (s_vbe_info s) - half_row_px)) half_row_px 0 s.

(** ** Numbers *)

Definition hex : list Z := [48; 49; 50; 51; 52; 53; 54; 55; 56; 57; 65; 66; 67; 68; 69; 70].

(** [hex[(val >> (60 - i * 4)) & 0xF]] *)
Definition hex_digit (val i : Z) : Z := nth (Z.to_nat (Z.land (Z.shiftr val (60 - i * 4)) 0xF)) hex 0.

(** The 19 bytes of the buffer. *)
Definition uint64_to_hex (val : Z) : list Z :=
  [48; 120] ++ (hex_digit val <$> seqZ 0 16) ++ [0].

Definition vesa_print_virt_addr (addr row col : Z) (s : screen) : screen :=
  vesa_nt_println (uint64_to_hex addr) row col s.

Definition bytes_of (m : string) : list Z := (fun c => Z.of_nat (nat_of_ascii c)) <$> list_ascii_of_string m.

Definition mmap_type_str (type : Z) : string :=
  if type =? 1 then "Usable RAM  "
  else if type =? 2 then "Reserved    "
  else if type =? 3 then "ACPI Reclaim"
  else if type =? 4 then "ACPI NVS    "
  else if type =? 5 then "Bad Memory  "
  else "Unknown     ".

(** [for (i = 0; i < mmap_entry_count; i++)] *)
Fixpoint vesa_print_mmap (entries : list mmap_entry_0xe820) (i row col : Z) (s : screen) : screen :=
  match entries with
  | [] => s
  | e :: rest =>
      let c := col in
      let s := vesa_nt_println [u8 (48 + i / 10); u8 (48 + i mod 10); 0] row c s in
      let c := c + 3 in
      let s := vesa_nt_println (bytes_of "Base:") row c s in
      let c := c + 5 in
      let s := vesa_nt_println (uint64_to_hex (me_base_address e)) row c s in
      let c := c + 19 in
      let s := vesa_nt_println (bytes_of "Size:") row c s in
      let c := c + 5 in
      let s := vesa_nt_println (uint64_to_hex (me_chunk_size e)) row c s in
      let c := c + 19 in
      let s := vesa_nt_println (bytes_of "Type:") row c s in
      let c := c + 5 in
      let s := vesa_nt_println (bytes_of (mmap_type_str (me_type e))) row c s in
      vesa_print_mmap rest (i + 1) (row + 1) col s
  end.
(** ** What is painted *)

(** [f] gives the new colour of the pixel with an index, where there is one;
    no other word of memory changes. *)
Record painted (s s' : screen) (f : Z -> option Z) : Prop := {
  pa_info : s_vbe_info s' = s_vbe_info s;
  pa_virt : s_fb_virt s' = s_fb_virt s;
  pa_new : forall i c, f i = Some c -> s_mem s' (get_fb s + 4 * i) = c;
  pa_old : forall a, (forall i c, f i = Some c -> a <> get_fb s + 4 * i) -> s_mem s' a = s_mem s a;
}.

Lemma painted_fb s s' f : painted s s' f -> get_fb s' = get_fb s /\ pitch_in_pixels s' = pitch_in_pixels s.
Proof. intros [H1 H2 _ _]. unfold get_fb, pitch_in_pixels. by rewrite H1, H2. Qed.

Lemma painted_none s : painted s s (fun _ => None).
Proof. by split. Qed.

Lemma painted_ext s s' f g : (forall i, g i = f i) -> painted s s' f -> painted s s' g.
Proof. intros E [H1 H2 H3 H4]. split; [done|done|intros i c; rewrite E; auto|]. intros a Ha. apply H4. intros i c Hi. apply (Ha i c). by rewrite E. Qed.

(** The later painting is on top. *)
Lemma painted_over s s1 s2 f g :
  painted s s1 f -> painted s1 s2 g ->
  painted s s2 (fun i => match g i with Some c => Some c | None => f i end).
Proof.
  intros Hf Hg. destruct (painted_fb _ _ _ Hf) as [Efb _]. destruct Hf as [F1 F2 F3 F4], Hg as [G1 G2 G3 G4].
  rewrite Efb in *. split; [congruence|congruence| |].
  - intros i c Hi. destruct (g i) as [c'|] eqn:E; [by simplify_eq; apply G3|].
    rewrite G4; [by apply F3|]. intros j c' Hj Ej. assert (j = i) by lia. congruence.
  - intros a Ha. rewrite G4, F4; [done| |].
    + intros i c Hi Ea. destruct (g i) as [c'|] eqn:E; apply (Ha i (default c (g i))); rewrite ?E; done.
    + intros i c Hi. apply (Ha i c). by rewrite Hi.
Qed.

Lemma painted_pixel idx color s :
  painted s (put_pixel idx color s) (fun i => if i =? idx then Some color else None).
Proof.
  split; [done|done| |].
  - intros i c. destruct (Z.eqb_spec i idx) as [->|]; [intros [= <-]; apply upd_eq|done].
  - intros a Ha. apply upd_ne. apply (Ha idx color). by rewrite Z.eqb_refl.
Qed.

(** The colour of column [c] of a row of a glyph. *)
Definition bit_color (bits c : Z) : Z := if negb (Z.land bits (Z.shiftr 0x80 c) =? 0) then 0x00FFFFFF else 0.

Definition inside (a b x : Z) : bool := (a <=? x) && (x <? b).
Lemma inside_spec a b x : BoolSpec (a <= x < b) (~ a <= x < b) (inside a b x).
Proof. unfold inside. destruct (Z.leb_spec a x), (Z.ltb_spec x b); constructor; lia. Qed.

Lemma draw_cols_painted turns c bits px_x line s :
  0 <= c -> 0 <= px_x -> 0 <= line -> line + px_x + c + Z.of_nat turns <= 2 ^ 32 ->
  painted s (draw_cols turns c bits px_x line s)
    (fun i => if inside (line + px_x + c) (line + px_x + c + Z.of_nat turns) i
              then Some (bit_color bits (i - line - px_x)) else None).
Proof.
  revert c s. induction turns as [|t IH]; intros c s Hc Hx Hl Hb; cbn [draw_cols].
  - eapply painted_ext; [|apply painted_none]. intros i. destruct (inside_spec (line + px_x + c) (line + px_x + c + Z.of_nat 0) i); [lia|done].
  - rewrite (u32_small (px_x + c)), (u32_small (line + _)) by lia.
    eapply painted_ext; [|eapply painted_over; [apply painted_pixel|apply (IH (c + 1)); lia]].
    intros i. cbv beta. destruct (inside_spec (line + px_x + c) (line + px_x + c + Z.of_nat (S t)) i),
      (inside_spec (line + px_x + (c + 1)) (line + px_x + (c + 1) + Z.of_nat t) i); try done; try lia.
    + assert (i = line + (px_x + c)) as -> by lia. rewrite Z.eqb_refl.
      fold (bit_color bits c). do 2 f_equal. lia.
    + rewrite (proj2 (Z.eqb_neq i _)) by lia. done.
Qed.
(** The pixels of rows [r0 .. r1 - 1] of a glyph at [(px_x, px_y)]. *)
Definition cell (W glyph px_x px_y r0 r1 i : Z) : option Z :=
  let x := i mod W in let y := i / W in
  if inside px_x (px_x + 8) x && inside (px_y + r0) (px_y + r1) y
  then Some (bit_color (font_data (glyph + (y - px_y))) (x - px_x)) else None.

(** Eight pixels of line [y0] from column [px_x], in indices and in coordinates. *)
Lemma inside_line W y0 px_x i :
  0 <= px_x -> px_x + 8 <= W ->
  y0 * W + px_x <= i < y0 * W + px_x + 8 <-> i / W = y0 /\ px_x <= i mod W < px_x + 8.
Proof.
  intros Hx HW. pose proof (Z.div_mod i W ltac:(lia)) as E. pose proof (Z.mod_pos_bound i W ltac:(lia)).
  set (y := i / W) in *. set (x := i mod W) in *. clearbody x y.
  split; [|intros [-> ?]; lia]. intros Hi.
  assert (y = y0) as -> by (destruct (Z.lt_total y y0) as [?|[?|?]]; [nia|done|nia]). lia.
Qed.

Lemma draw_rows_painted turns r glyph px_x px_y s :
  let W := pitch_in_pixels s in
  0 <= r -> 0 <= px_x -> px_x + 8 <= W -> 0 <= px_y -> (px_y + r + Z.of_nat turns) * W <= 2 ^ 32 ->
  painted s (draw_rows turns r glyph px_x px_y s) (cell W glyph px_x px_y r (r + Z.of_nat turns)).
Proof.
  intros W. revert r s W. induction turns as [|t IH]; intros r s W Hr Hx HW Hy Hb; cbn [draw_rows].
  - eapply painted_ext; [|apply painted_none]. intros i. unfold cell.
    destruct (inside_spec (px_y + r) (px_y + (r + Z.of_nat 0)) (i / W)); [lia|]. by rewrite andb_false_r.
  - fold W. rewrite (u32_small (px_y + r)), (u32_small ((px_y + r) * W)) by nia.
    pose proof (draw_cols_painted 8 0 (font_data (glyph + r)) px_x ((px_y + r) * W) s ltac:(lia) Hx ltac:(nia)
      ltac:(nia)) as P1.
    set (s1 := draw_cols _ _ _ _ _ _) in *. destruct (painted_fb _ _ _ P1) as [_ EW].
    assert (P2 := IH (r + 1) s1). cbv zeta in P2. rewrite EW in P2. fold W in P2.
    specialize (P2 ltac:(lia) Hx HW Hy ltac:(nia)).
    eapply painted_ext; [|eapply painted_over; [exact P1|exact P2]]. intros i. cbv beta. unfold cell.
    pose proof (inside_line W (px_y + r) px_x i Hx HW) as Hline.
    destruct (inside_spec px_x (px_x + 8) (i mod W)),
      (inside_spec (px_y + r) (px_y + (r + Z.of_nat (S t))) (i / W)),
      (inside_spec (px_y + (r + 1)) (px_y + (r + 1 + Z.of_nat t)) (i / W)),
      (inside_spec ((px_y + r) * W + px_x + 0) ((px_y + r) * W + px_x + 0 + Z.of_nat 8) i); cbn [andb]; try done; try lia.
    assert (i / W = px_y + r) as E by lia. pose proof (Z.div_mod i W ltac:(lia)) as Ei. rewrite E in Ei |- *.
    do 2 f_equal; [do 2 f_equal; lia|]. lia.
Qed.

(** The pixels of a message from column [col] of row [row]. *)
Definition text_pixel (W : Z) (msg : list Z) (row col i : Z) : option Z :=
  let x := i mod W in let y := i / W in
  if inside (col * 8) ((col + Z.of_nat (Datatypes.length msg)) * 8) x &&
     inside (row * psf_charheight) ((row + 1) * psf_charheight) y
  then Some (bit_color (font_data (psf_glyph (nth (Z.to_nat (x / 8 - col)) msg 0) + (y - row * psf_charheight))) (x mod 8))
  else None.

Lemma println_painted msg row col s :
  let W := pitch_in_pixels s in let ch := psf_charheight in
  0 <= ch -> Forall (fun b => b <> 0) msg -> 0 <= row < 2 ^ 32 -> 0 <= col -> (col + Z.of_nat (Datatypes.length msg)) * 8 <= W -> W < 2 ^ 32 ->
  (row + 1) * ch * W <= 2 ^ 32 ->
  painted s (vesa_nt_println msg row col s) (text_pixel W msg row col).
Proof.
  intros W ch Hch. revert col s W. induction msg as [|b msg IH]; intros col s W Hnz Hrow Hcol HW HW32 Hb; cbn [vesa_nt_println].
  - eapply painted_ext; [|apply painted_none]. intros i. unfold text_pixel. cbn [Datatypes.length].
    destruct (inside_spec (col * 8) ((col + Z.of_nat 0) * 8) (i mod W)); [lia|done].
  - apply Forall_cons in Hnz as [Hnb Hnz]. rewrite (proj2 (Z.eqb_neq b 0)) by done. cbn [Datatypes.length] in HW.
    fold ch. assert (E1 : 0 <= row * ch /\ row * ch + ch = (row + 1) * ch) by nia.
    assert (E2 : (row + 1) * ch * 8 <= (row + 1) * ch * W) by (apply Z.mul_le_mono_nonneg_l; nia).
    rewrite (u32_small col), (u32_small (col * 8)), (u32_small row), (u32_small (row * ch)) by lia.
    pose proof (draw_rows_painted (Z.to_nat ch) 0 (psf_glyph b) (col * 8) (row * ch) s) as P1. cbv zeta in P1.
    rewrite Z2Nat.id in P1 by done. fold W in P1. specialize (P1 ltac:(lia) ltac:(lia) ltac:(lia) ltac:(lia) ltac:(nia)).
    set (s1 := draw_rows _ _ _ _ _ _) in *. destruct (painted_fb _ _ _ P1) as [_ EW].
    assert (P2 := IH (col + 1) s1). cbv zeta in P2. rewrite EW in P2. fold W in P2.
    specialize (P2 Hnz Hrow ltac:(lia) ltac:(lia) HW32 Hb).
    eapply painted_ext; [|eapply painted_over; [exact P1|exact P2]]. intros i. cbv beta.
    unfold cell, text_pixel. fold ch. cbn [Datatypes.length]. rewrite !Z.add_0_r, Z.add_0_l, (proj2 E1).
    set (x := i mod W). set (y := i / W).
    destruct (inside_spec (row * ch) ((row + 1) * ch) y); [|by rewrite !andb_false_r]. rewrite !andb_true_r.
    destruct (inside_spec (col * 8) ((col + Z.of_nat (S (Datatypes.length msg))) * 8) x),
      (inside_spec ((col + 1) * 8) ((col + 1 + Z.of_nat (Datatypes.length msg)) * 8) x),
      (inside_spec (col * 8) (col * 8 + 8) x); try done; try lia.
    + assert (x / 8 - col = Z.succ (x / 8 - (col + 1))) as -> by lia.
      rewrite Z2Nat.inj_succ by (assert (col + 1 <= x / 8) by (apply Z.div_le_lower_bound; lia); lia). done.
    + assert (x / 8 = col) as -> by dlia. rewrite Z.sub_diag. cbn [nth Z.to_nat].
      do 2 f_equal. dlia.
Qed.
End font.
