(* ===== verification/RbPrint.v ===== *)
(** * rb_tree.c: printing a tree

    [rb_print_tree] prints the tree turned on its side: one row for each node,
    the largest first, indented by depth. *)

From S2P Require Import Prelude State RbTree RbRep RbInsert RbBalance RbTheorems Vm Screen.

Section print.
Context (font_data : Z -> Z) (addr_of_node : ptr -> Z).

(** The row left in [*row] and the screen. *)
Fixpoint rb_print_tree (depth : nat) (m : mem) (x : ptr) (row col : Z) (s : screen) : option (Z * screen) :=
  if x =? NULL then Some (row, s) else
  match depth with
  | O => None
  | S d =>
      match rb_print_tree d m (right_of m x) row (col + 4) s with
      | None => None
      | Some (row, s) =>
          let s := vesa_print_virt_addr font_data (addr_of_node x) row col s in
          rb_print_tree d m (left_of m x) (row + 1) (col + 4) s
      end
  end.

(** The reference: the addresses with their columns, printed row by row. *)
Fixpoint lines_of (t : tree) (col : Z) : list (ptr * Z) :=
  match t with
  | Leaf => []
  | Node l x _ r => lines_of r (col + 4) ++ (x, col) :: lines_of l (col + 4)
  end.

Fixpoint print_lines (l : list (ptr * Z)) (row : Z) (s : screen) : screen :=
  match l with
  | [] => s
  | (x, col) :: l' => print_lines l' (row + 1) (vesa_print_virt_addr font_data (addr_of_node x) row col s)
  end.

Lemma print_lines_app l1 l2 row s :
  print_lines (l1 ++ l2) row s = print_lines l2 (row + Z.of_nat (length l1)) (print_lines l1 row s).
Proof using Type.
  revert row s. induction l1 as [|[x c] l1 IH]; intros row s; cbn [print_lines length app]; [f_equal; lia|].
  rewrite IH. f_equal. lia.
Qed.

Lemma lines_of_nodes t col : (lines_of t col).*1 = reverse (nodes t).
Proof using Type.
  revert col. induction t as [|l IHl x c r IHr]; intros col; cbn [lines_of nodes]; [done|].
  by rewrite fmap_app, fmap_cons, IHl, IHr, reverse_app, reverse_cons, <- app_assoc.
Qed.

Lemma print_tree_spec depth h k t row col s :
  focus h k t -> (height t <= depth)%nat ->
  rb_print_tree depth h.1 (ptr_of t) row col s =
    Some (row + Z.of_nat (length (nodes t)), print_lines (lines_of t col) row s).
Proof using Type.
  revert k t row col s. induction depth as [|d IH]; intros k t row col s Hf Hh;
    (destruct t as [|l x c r]; [by cbn; rewrite Z.add_0_r|]); [simpl in Hh; lia|].
  destruct (focus_step h k l x c r Hf) as (Hx & Hfl & Hfr & El & Er). simpl in Hh.
  cbn [rb_print_tree ptr_of nodes lines_of]. rewrite (proj2 (Z.eqb_neq x NULL)), El, Er by done.
  rewrite (IH _ r _ _ _ Hfr), (IH _ l _ _ _ Hfl) by lia.
  assert (E : length (lines_of r (col + 4)) = length (nodes r)).
  { rewrite <- (length_fmap fst), lines_of_nodes. apply length_reverse. }
  rewrite print_lines_app, E. cbn [print_lines]. f_equal. f_equal.
  rewrite length_app. simpl. lia.
Qed.

(** [rb_print_tree] of a red-black tree prints every node once, the largest first,
    in consecutive rows and four columns further right for each level, and leaves
    the row behind the last; its recursion is at most [2 * log2 (n + 1)] deep. *)
Theorem rb_print_tree_correct h t depth row col s :
  heap_tree h t -> rbtree t -> enough t depth ->
  rb_print_tree depth h.1 h.2 row col s =
    Some (row + Z.of_nat (length (nodes t)), print_lines (lines_of t col) row s) /\
  (lines_of t col).*1 = reverse (nodes t).
Proof using Type.
  intros Hf Hrb He. split; [|apply lines_of_nodes]. assert (h.2 = ptr_of t) as -> by apply Hf.
  apply (print_tree_spec depth h [] t); [done|by apply enough_height].
Qed.
End print.
