(* ===== verification/ScreenTheorems.v ===== *)
(** * The screen: theorems

    Where text appears, what the fills cover, and the printed form of numbers. *)

From S2P Require Import Prelude Buddy Screen.
From Stdlib Require Import Ascii String.
Open Scope Z_scope.

Section theorems.
Context (font_data : Z -> Z).

Abbreviation println := (vesa_nt_println font_data).
Abbreviation charheight := (psf_charheight font_data).

(** The pixel in column [x] of line [y]. *)
Definition pixel (s : screen) (x y : Z) : Z := s_mem s (get_fb s + 4 * (y * pitch_in_pixels s + x)).

Lemma println_stops msg rest row col s : Forall (fun b => b <> 0) msg -> println (msg ++ 0 :: rest) row col s = println msg row col s.
Proof.
  revert col s. induction msg as [|b msg IH]; intros col s; simpl; [done|].
  intros [Hb Hm]%Forall_cons. rewrite (proj2 (Z.eqb_neq b 0)) by done. auto.
Qed.

Lemma index_coords W x y : 0 <= x < W -> (y * W + x) mod W = x /\ (y * W + x) / W = y.
Proof.
  intros Hx. rewrite Z.add_comm, Z.mod_add, Z.div_add by lia. rewrite Z.mod_small, Z.div_small by lia. done.
Qed.

Lemma painted_at s s' f x y :
  painted s s' f -> pixel s' x y = default (pixel s x y) (f (y * pitch_in_pixels s + x)).
Proof.
  intros Hp. destruct (painted_fb _ _ _ Hp) as [E1 E2]. unfold pixel. rewrite E1, E2.
  destruct Hp as [_ _ H3 H4]. destruct (f _) as [c|] eqn:E; simpl; [by apply H3|].
  apply H4. intros i c Hi Ea. assert (i = y * pitch_in_pixels s + x) as -> by lia. congruence.
Qed.

(** C25. [vesa_nt_println] of a message that fits its row and column shows exactly
    the message: the pixels of its cells take the colours of the glyphs of its
    characters, bit by bit, up to the terminating zero; every other pixel of the
    screen and every word of memory outside the frame buffer is unchanged. *)
Theorem vesa_nt_println_correct msg rest row col s :
  let W := pitch_in_pixels s in let H := vbe_height_px (s_vbe_info s) in
  let s' := println (msg ++ 0 :: rest) row col s in
  Forall (fun b => b <> 0) msg -> 0 < charheight -> 0 <= row < 2 ^ 32 -> (row + 1) * charheight <= H ->
  0 <= col -> (col + Z.of_nat (Datatypes.length msg)) * 8 <= W -> W < 2 ^ 32 -> W * H <= 2 ^ 32 ->
  (forall x y, 0 <= x < W -> 0 <= y < H ->
     pixel s' x y =
       if inside (col * 8) ((col + Z.of_nat (Datatypes.length msg)) * 8) x &&
          inside (row * charheight) ((row + 1) * charheight) y
       then bit_color (font_data (psf_glyph font_data (nth (Z.to_nat (x / 8 - col)) msg 0) + (y - row * charheight))) (x mod 8)
       else pixel s x y) /\
  (forall a, a < get_fb s \/ get_fb s + 4 * (W * H) <= a -> s_mem s' a = s_mem s a).
Proof.
  intros W H s' Hnz Hch Hrow Hfit Hcol Hlen HW HWH. unfold s'. rewrite println_stops by done. clear s'.
  assert (HWpos : 0 <= W) by lia.
  assert (Hp : painted s (println msg row col s) (text_pixel font_data W msg row col)).
  { apply println_painted; try done; [lia|]. transitivity (H * W); [|lia]. by apply Z.mul_le_mono_nonneg_r. }
  split.
  - intros x y Hx Hy. rewrite (painted_at _ _ _ _ _ Hp). unfold text_pixel. fold W.
    destruct (index_coords W x y Hx) as [-> ->]. by destruct (_ && _).
  - intros a Ha. apply (pa_old _ _ _ Hp). intros i c Hi ->. revert Hi. unfold text_pixel.
    destruct (inside_spec (col * 8) ((col + Z.of_nat (Datatypes.length msg)) * 8) (i mod W)),
      (inside_spec (row * charheight) ((row + 1) * charheight) (i / W)); cbn [andb]; try done. intros _.
    pose proof (Z.div_mod i W ltac:(lia)). pose proof (Z.mod_pos_bound i W ltac:(lia)). nia.
Qed.

(** Row [VESA_LAST_ROW], where PANIC and the interrupt handlers print, is on
    the screen only from a height of 84 characters: on a lower one (1344 lines
    of pixels with the 16-line font, so every mode up to 2560 x 1328) a message
    there changes no pixel of the screen and is written behind the frame buffer
    instead. *)
Theorem last_row_off_screen msg rest col s :
  let W := pitch_in_pixels s in let H := vbe_height_px (s_vbe_info s) in
  let s' := println (msg ++ 0 :: rest) VESA_LAST_ROW col s in
  Forall (fun b => b <> 0) msg -> 0 < charheight -> H <= VESA_LAST_ROW * charheight ->
  0 <= col -> (col + Z.of_nat (Datatypes.length msg)) * 8 <= W -> W < 2 ^ 32 -> 84 * charheight * W <= 2 ^ 32 ->
  (forall x y, 0 <= x < W -> 0 <= y < H -> pixel s' x y = pixel s x y) /\
  (forall x y, col * 8 <= x < (col + Z.of_nat (Datatypes.length msg)) * 8 -> 0 <= y < charheight ->
     let a := get_fb s + 4 * ((VESA_LAST_ROW * charheight + y) * W + x) in
     get_fb s + 4 * (W * H) <= a /\
     s_mem s' a = bit_color (font_data (psf_glyph font_data (nth (Z.to_nat (x / 8 - col)) msg 0) + y)) (x mod 8)).
Proof.
  intros W H s' Hnz Hch HH Hcol Hlen HW Hwrap. unfold s'. rewrite println_stops by done. clear s'. unfold VESA_LAST_ROW in *.
  assert (Hp : painted s (println msg 83 col s) (text_pixel font_data W msg 83 col)) by (apply println_painted; (done || lia)).
  split.
  - intros x y Hx Hy. rewrite (painted_at _ _ _ _ _ Hp). unfold text_pixel. fold W.
    destruct (index_coords W x y Hx) as [-> ->].
    destruct (inside_spec (83 * charheight) ((83 + 1) * charheight) y); [lia|]. by rewrite andb_false_r.
  - intros x y Hx Hy. cbv zeta. split; [nia|]. apply (pa_new _ _ _ Hp). unfold text_pixel.
    destruct (index_coords W x (83 * charheight + y) ltac:(lia)) as [-> ->].
    destruct (inside_spec (col * 8) ((col + Z.of_nat (Datatypes.length msg)) * 8) x); [|lia].
    destruct (inside_spec (83 * charheight) ((83 + 1) * charheight) (83 * charheight + y)); [|lia].
    cbn [andb]. do 3 f_equal. lia.
Qed.

(** ** Fills *)

Lemma fill_line_painted turns x line color s :
  0 <= x -> 0 <= line -> line + x + Z.of_nat turns <= 2 ^ 32 ->
  painted s (fill_line turns x line color s)
    (fun i => if inside (line + x) (line + x + Z.of_nat turns) i then Some color else None).
Proof.
  revert x s. induction turns as [|t IH]; intros x s Hx Hl Hb; cbn [fill_line].
  - eapply painted_ext; [|apply painted_none]. intros i.
    destruct (inside_spec (line + x) (line + x + Z.of_nat 0) i); [lia|done].
  - rewrite (u32_small (line + x)) by lia.
    eapply painted_ext; [|eapply painted_over; [apply painted_pixel|apply (IH (x + 1)); lia]].
    intros i. cbv beta. destruct (inside_spec (line + x) (line + x + Z.of_nat (S t)) i),
      (inside_spec (line + (x + 1)) (line + (x + 1) + Z.of_nat t) i), (Z.eqb_spec i (line + x)); try done; lia.
Qed.

Lemma fill_screen_painted turns y color s :
  let W := pitch_in_pixels s in let w := vbe_width_px (s_vbe_info s) in
  0 <= y -> 0 <= w <= W -> (y + Z.of_nat turns) * W <= 2 ^ 32 ->
  painted s (fill_screen turns y color s)
    (fun i => if inside 0 w (i mod W) && inside y (y + Z.of_nat turns) (i / W) then Some color else None).
Proof.
  intros W w. revert y s W w. induction turns as [|t IH]; intros y s W w Hy Hw Hb; cbn [fill_screen].
  - eapply painted_ext; [|apply painted_none]. intros i.
    destruct (inside_spec y (y + Z.of_nat 0) (i / W)); [lia|]. by rewrite andb_false_r.
  - fold W w. rewrite (u32_small (y * W)) by nia.
    pose proof (fill_line_painted (Z.to_nat w) 0 (y * W) color s ltac:(lia) ltac:(nia) ltac:(nia)) as P1.
    rewrite Z2Nat.id in P1 by lia. set (s1 := fill_line _ _ _ _ _) in *.
    destruct (painted_fb _ _ _ P1) as [_ EW]. pose proof (pa_info _ _ _ P1) as Ei.
    assert (P2 := IH (y + 1) s1). cbv zeta in P2. rewrite EW, Ei in P2. fold W w in P2.
    specialize (P2 ltac:(lia) Hw ltac:(nia)).
    eapply painted_ext; [|eapply painted_over; [exact P1|exact P2]]. intros i. cbv beta.
    destruct (Z.eq_dec W 0) as [E0|HW0].
    { assert (w = 0) as -> by lia. rewrite !Z.add_0_r.
      destruct (inside_spec 0 0 (i mod W)); [lia|]. cbn [andb]. destruct (inside_spec (y * W) (y * W) i); [lia|done]. }
    pose proof (Z.div_mod i W HW0). pose proof (Z.mod_pos_bound i W ltac:(lia)).
    destruct (inside_spec 0 w (i mod W)), (inside_spec y (y + Z.of_nat (S t)) (i / W)),
      (inside_spec (y + 1) (y + 1 + Z.of_nat t) (i / W)), (inside_spec (y * W + 0) (y * W + 0 + w) i);
      cbn [andb]; try done; exfalso; try lia; try nia.
Qed.
End theorems.

(** The fills cover the screen: [vbe_black_screen] makes every visible pixel
    black, [vbe_blue_screen] blue, and neither writes a word outside the visible
    part of the frame buffer. *)
Theorem screen_fills_correct s :
  let W := pitch_in_pixels s in let H := vbe_height_px (s_vbe_info s) in let w := vbe_width_px (s_vbe_info s) in
  0 <= w <= W -> 0 < W -> 0 <= H -> W * H <= 2 ^ 32 ->
  (forall x y, 0 <= x < w -> 0 <= y < H ->
     pixel (vbe_black_screen s) x y = 0 /\ pixel (vbe_blue_screen s) x y = 0xADD8E6) /\
  (forall a, (forall x y, 0 <= x < w -> 0 <= y < H -> a <> get_fb s + 4 * (y * W + x)) ->
     s_mem (vbe_black_screen s) a = s_mem s a /\ s_mem (vbe_blue_screen s) a = s_mem s a).
Proof.
  intros W H w Hw HW HH Hb.
  assert (Hp : forall color, painted s (fill_screen (Z.to_nat H) 0 color s)
    (fun i => if inside 0 w (i mod W) && inside 0 H (i / W) then Some color else None)).
  { intros color. pose proof (fill_screen_painted (Z.to_nat H) 0 color s) as P. cbv zeta in P.
    fold W w in P. rewrite Z2Nat.id in P by done. apply P; lia. }
  split.
  - intros x y Hx Hy. unfold vbe_black_screen, vbe_blue_screen. fold H.
    rewrite !(painted_at _ _ _ _ _ (Hp _)). fold W. destruct (index_coords W x y ltac:(lia)) as [-> ->].
    destruct (inside_spec 0 w x), (inside_spec 0 H y); (done || lia).
  - intros a Ha. unfold vbe_black_screen, vbe_blue_screen. fold H.
    assert (Hi : forall i, inside 0 w (i mod W) && inside 0 H (i / W) = true -> a <> get_fb s + 4 * i).
    { intros i. destruct (inside_spec 0 w (i mod W)), (inside_spec 0 H (i / W)); try done. intros _.
      pose proof (Z.div_mod i W ltac:(lia)). specialize (Ha (i mod W) (i / W) ltac:(lia) ltac:(lia)). lia. }
    split; apply (pa_old _ _ _ (Hp _)); intros i c E; apply Hi; by destruct (_ && _).
Qed.

(** ** Numbers *)

(** The value of a hexadecimal digit and of a string of them. *)
Definition digit_value (d : Z) : Z := if d <=? 57 then d - 48 else d - 55.
Definition hex_value (l : list Z) : Z := fold_left (fun acc d => 16 * acc + digit_value d) l 0.

Lemma digit_value_nth k : 0 <= k < 16 -> digit_value (nth (Z.to_nat k) hex 0) = k /\ nth (Z.to_nat k) hex 0 <> 0.
Proof.
  intros Hk. assert (H : forallb (fun k => (digit_value (nth (Z.to_nat k) hex 0) =? k) && negb (nth (Z.to_nat k) hex 0 =? 0)) (seqZ 0 16) = true)
    by reflexivity.
  rewrite forallb_forall in H. specialize (H k). rewrite andb_true_iff, Z.eqb_eq, negb_true_iff, Z.eqb_neq in H.
  apply H, list_elem_of_In, elem_of_seqZ. lia.
Qed.

Lemma hex_nibble v i : 0 <= i < 16 -> 0 <= Z.land (Z.shiftr v (60 - i * 4)) 0xF < 16 /\
  Z.land (Z.shiftr v (60 - i * 4)) 0xF = (v / 16 ^ (15 - i)) mod 16.
Proof.
  intros Hi. change 0xF with (Z.ones 4). rewrite Z.land_ones, Z.shiftr_div_pow2 by lia. change (2 ^ 4) with 16.
  split; [apply Z.mod_pos_bound; lia|]. replace (60 - i * 4) with (4 * (15 - i)) by lia.
  rewrite Z.pow_mul_r by lia. done.
Qed.

Lemma hex_prefix v k : 0 <= v -> (k <= 16)%nat ->
  hex_value (hex_digit v <$> seqZ 0 (Z.of_nat k)) = (v / 16 ^ (16 - Z.of_nat k)) mod 16 ^ Z.of_nat k.
Proof.
  intros Hv. induction k as [|k IH]; intros Hk; [simpl; symmetry; apply Z.mod_1_r|].
  rewrite seqZ_S, fmap_app, Nat2Z.inj_succ. unfold hex_value in *. rewrite fold_left_app, IH by lia.
  cbn [fold_left fmap list_fmap]. rewrite Z.add_0_l. unfold hex_digit at 1.
  destruct (hex_nibble v (Z.of_nat k) ltac:(lia)) as [Hn En]. destruct (digit_value_nth _ Hn) as [-> _]. rewrite En.
  replace (16 - Z.succ (Z.of_nat k)) with (15 - Z.of_nat k) by lia.
  replace (16 - Z.of_nat k) with (Z.succ (15 - Z.of_nat k)) by lia. rewrite !Z.pow_succ_r by lia.
  rewrite (Z.mul_comm 16 (16 ^ (15 - _))), <- Z.div_div by lia.
  set (q := v / 16 ^ (15 - Z.of_nat k)). set (p := 16 ^ Z.of_nat k).
  assert (0 < p) by (apply Z.pow_pos_nonneg; lia). rewrite (Z.rem_mul_r q 16 p) by lia. lia.
Qed.

(** Printed addresses can be read back: [uint64_to_hex] writes [0x], sixteen
    digits whose value is the number, and a terminating zero, without a zero
    byte before it. *)
Theorem uint64_to_hex_round_trip v :
  0 <= v < 2 ^ 64 ->
  exists digits, uint64_to_hex v = [48; 120] ++ digits ++ [0] /\ Datatypes.length digits = 16%nat /\
    hex_value digits = v /\ Forall (fun b => b <> 0) ([48; 120] ++ digits).
Proof.
  intros Hv. exists (hex_digit v <$> seqZ 0 16). split; [done|]. split; [done|]. split.
  - pose proof (hex_prefix v 16 ltac:(lia) ltac:(lia)) as E. change (Z.of_nat 16) with 16 in E. rewrite E.
    change (16 - 16) with 0. rewrite Z.pow_0_r, Z.div_1_r. apply Z.mod_small. change (16 ^ 16) with (2 ^ 64). done.
  - repeat (apply Forall_cons; split; [done|]). apply Forall_forall. intros b (i & -> & Hi%elem_of_seqZ)%list_elem_of_fmap.
    destruct (hex_nibble v i ltac:(lia)) as [Hn _]. by apply digit_value_nth.
Qed.

(** ** Examples *)

(** The header of default8x16.psfu; all glyph rows alternate. *)
Definition demo_font (o : Z) : Z :=
  if o =? 0 then 0x72 else if o =? 1 then 0xB5 else if o =? 8 then 32 else if o =? 20 then 16 else if o =? 24 then 16
  else if o <? 32 then 0 else 0xAA.
Definition demo_screen (w h : Z) : screen := mk_screen (mk_vbe 0xfd000000 (4 * w) w h) 0 (fun _ => 7).

Lemma vesa_nt_println_correct_witness :
  pixel (vesa_nt_println demo_font ([72; 105] ++ [0]) 2 3 (demo_screen 1280 720)) 24 40 = 0xFFFFFF.
Proof.
  refine (eq_trans (proj1 (vesa_nt_println_correct demo_font [72; 105] [] 2 3 (demo_screen 1280 720)
    ltac:(by repeat constructor) ltac:(done) ltac:(done) ltac:(done) ltac:(done) ltac:(done) ltac:(done) ltac:(done))
    24 40 ltac:(done) ltac:(done)) _). reflexivity.
Defined.

Lemma last_row_off_screen_witness :
  s_mem (vesa_nt_println demo_font ([72; 105] ++ [0]) VESA_LAST_ROW 0 (demo_screen 1280 720))
    (0xfd000000 + 4 * ((VESA_LAST_ROW * 16 + 0) * 1280 + 0)) = 0xFFFFFF.
Proof.
  refine (eq_trans (proj2 (proj2 (last_row_off_screen demo_font [72; 105] [] 0 (demo_screen 1280 720)
    ltac:(by repeat constructor) ltac:(done) ltac:(done) ltac:(done) ltac:(done) ltac:(done) ltac:(done))
    0 0 ltac:(done) ltac:(done))) _). reflexivity.
Defined.

Lemma screen_fills_correct_witness : pixel (vbe_black_screen (demo_screen 1280 720)) 5 7 = 0.
Proof.
  exact (proj1 (proj1 (screen_fills_correct (demo_screen 1280 720) ltac:(done) ltac:(done) ltac:(done) ltac:(done))
    5 7 ltac:(done) ltac:(done))).
Defined.

Lemma uint64_to_hex_round_trip_witness :
  exists digits, uint64_to_hex 0xffff800000200000 = [48; 120] ++ digits ++ [0] /\ hex_value digits = 0xffff800000200000.
Proof.
  destruct (uint64_to_hex_round_trip 0xffff800000200000 ltac:(done)) as (d & E & _ & H & _). exists d. split; [exact E|exact H].
Defined.
