(* ===== verification/Interrupts.v ===== *)
(** * Interrupts: idt.c and isr_dispatch.c

    The gate descriptors and the table [__init_idt] and [_reload_idt_virtual]
    build, the bytes sent to the interrupt controllers, and the dispatch of a
    vector to its message.  The addresses of the assembly stubs [isr0] to
    [isr31] and of the table are the linker's: parameters. *)

From S2P Require Import Prelude Buddy Screen.
From Stdlib Require Import Ascii String.
Open Scope Z_scope.

(** ** The table *)

Record IDT_gate_descriptor_64bit : Type := mk_gate {
  offset_low : Z;
  selector : Z;
  zero : Z;
  type_attr : Z;
  offset_mid : Z;
  offset_high : Z;
  zero2 : Z;
}.

Record idtr_t : Type := mk_idtr { limit : Z; base : Z }.

(** [idt], [idtr], the register [lidt] loads, and the bytes written to ports,
    last first. *)
Record istate : Type := mk_istate {
  i_idt : Z -> IDT_gate_descriptor_64bit;
  i_idtr : idtr_t;
  i_loaded : idtr_t;
  i_ports : list (Z * Z);
}.

Definition set_idtr (r : idtr_t) (s : istate) : istate := mk_istate (i_idt s) r (i_loaded s) (i_ports s).
Definition idt_load (s : istate) : istate := mk_istate (i_idt s) (i_idtr s) (i_idtr s) (i_ports s).
Definition outb (port v : Z) (s : istate) : istate := mk_istate (i_idt s) (i_idtr s) (i_loaded s) ((port, v) :: i_ports s).

Definition idt_set_gate (num base sel flags : Z) (s : istate) : istate :=
  let gate := mk_gate (Z.land base 0xFFFF) sel 0 flags (Z.land (Z.shiftr base 16) 0xFFFF)
                (Z.land (Z.shiftr base 32) 0xFFFFFFFF) 0 in
  mk_istate (i_idt s).[num <- gate] (i_idtr s) (i_loaded s) (i_ports s).

Section idt.
Context (isr_entry : Z -> Z) (idt : ptr).

(** The table of the stubs; [isr_entry n] is the address of [isr]n. *)
Definition isr_stubs (i : Z) : Z :=
  nth (Z.to_nat i)
    [isr_entry 0; isr_entry 1; isr_entry 2; isr_entry 3; isr_entry 4; isr_entry 5; isr_entry 6; isr_entry 7;
     isr_entry 8; isr_entry 9; isr_entry 10; isr_entry 11; isr_entry 12; isr_entry 13; isr_entry 14; isr_entry 15;
     isr_entry 16; isr_entry 17; isr_entry 18; isr_entry 19; isr_entry 20; isr_entry 21; isr_entry 22; isr_entry 23;
     isr_entry 24; isr_entry 25; isr_entry 26; isr_entry 27; isr_entry 28; isr_entry 29; isr_entry 30; isr_entry 31] 0.

(** [for (i = ...; i < 32; i++) idt_set_gate(i, isr_stubs[i], 0x08, flags i)] *)
Fixpoint set_gates (turns : nat) (i : Z) (flags : Z -> Z) (s : istate) : istate :=
  match turns with
  | O => s
  | S t => set_gates t (i + 1) flags (idt_set_gate i (isr_stubs i) 0x08 (flags i) s)
  end.

Definition __init_idt (s : istate) : istate :=
  let s := set_idtr (mk_idtr (256 * 16 - 1) idt) s in
  let s := idt_set_gate 0 (isr_stubs 0) 0x08 0x8e s in
  let s := idt_set_gate 1 (isr_stubs 1) 0x08 0x8e s in
  let s := idt_set_gate 2 (isr_stubs 2) 0x08 0x8e s in
  let s := idt_set_gate 3 (isr_stubs 3) 0x08 0x8f s in
  let s := set_gates 28 4 (fun _ => 0x8e) s in
  let s := outb 0x20 0x11 s in
  let s := outb 0xA0 0x11 s in
  let s := outb 0x21 0x20 s in
  let s := outb 0xA1 0x28 s in
  let s := outb 0x21 0x04 s in
  let s := outb 0xA1 0x02 s in
  let s := outb 0x21 0x01 s in
  let s := outb 0xA1 0x01 s in
  let s := outb 0x21 0xFF s in
  let s := outb 0xA1 0xFF s in
  idt_load s.

Definition _reload_idt_virtual (s : istate) : istate :=
  let s := set_idtr (mk_idtr (limit (i_idtr s)) idt) s in
  let s := set_gates 32 0 (fun i => if i =? 3 then 0x8f else 0x8e) s in
  idt_load s.
End idt.

(** ** Dispatch *)

(** The messages of the cases 0 to 15, and of the cases 16 to 31 and the default. *)
Definition isr_message_low (vec : Z) : string :=
  match vec with
  | 0 => "#DE  Divide Error, vector: 0x00"
  | 1 => "#DB  Debug, vector: 0x01"
  | 2 => "NMI  Non-Maskable Interrupt, vector: 0x02"
  | 3 => "#BP  Breakpoint, vector: 0x03"
  | 4 => "#OF  Overflow, vector: 0x04"
  | 5 => "#BR  BOUND Range Exceeded, vector: 0x05"
  | 6 => "#UD  Invalid Opcode, vector: 0x06"
  | 7 => "#NM  Device Not Available, vector: 0x07"
  | 8 => "#DF  Double Fault, vector: 0x08"
  | 9 => "Coprocessor Segment Overrun, vector: 0x09"
  | 10 => "#TS  Invalid TSS, vector: 0x0A"
  | 11 => "#NP  Segment Not Present, vector: 0x0B"
  | 12 => "#SS  Stack-Segment Fault, vector: 0x0C"
  | 13 => "#GP  General Protection fault, vector: 0x0D"
  | 14 => "#PF  Page Fault, vector: 0x0E"
  | 15 => "Reserved, vector: 0x0F"
  | _ => ""
  end.
Definition isr_message_high (vec : Z) : string :=
  match vec with
  | 16 => "#MF  x87 FPU Error, vector: 0x10"
  | 17 => "#AC  Alignment Check, vector: 0x11"
  | 18 => "#MC  Machine Check, vector: 0x12"
  | 19 => "#XM  SIMD Floating-Point Exception, vector: 0x13"
  | 20 => "#VE  Virtualization Exception, vector: 0x14"
  | 21 => "#CP  Control Protection, vector: 0x15"
  | 22 => "Reserved, vector: 0x16"
  | 23 => "Reserved, vector: 0x17"
  | 24 => "Reserved, vector: 0x18"
  | 25 => "Reserved, vector: 0x19"
  | 26 => "Reserved, vector: 0x1A"
  | 27 => "Reserved, vector: 0x1B"
  | 28 => "#HV  Hypervisor Injection Exception, vector: 0x1C"
  | 29 => "#VC  VMM Communication Exception, vector: 0x1D"
  | 30 => "#SX  Security Exception, vector: 0x1E"
  | 31 => "Reserved, vector: 0x1F"
  | _ => "Unhandled Interrupt"
  end.
Definition isr_message (vec : Z) : string :=
  if (0 <=? vec) && (vec <? 16) then isr_message_low vec else isr_message_high vec.

Section dispatch.
Context (font_data : Z -> Z).

(** The faulting address is in CR2. *)
Definition pf_handler (error_code cr2 : Z) (s : screen) : screen :=
  let s := vesa_clear_lower_half font_data s in
  let s := vesa_print_virt_addr font_data cr2 (VESA_LAST_ROW - 2) 0 s in
  vesa_print_virt_addr font_data error_code (VESA_LAST_ROW - 1) 0 s.

(** The screen on which [isr_dispatch] halts: every case ends in [while (1) hlt]. *)
Definition isr_dispatch (vec error_code cr2 : Z) (s : screen) : screen :=
  let s := if vec =? 14 then pf_handler error_code cr2 s else s in
  let s := vesa_nt_println font_data (bytes_of (isr_message vec)) VESA_LAST_ROW 0 s in
  if vec =? 13 then vesa_print_virt_addr font_data error_code (VESA_LAST_ROW - 2) 0 s else s.
End dispatch.
