(* ===== verification/InterruptTheorems.v ===== *)
(** * Interrupts: theorems

    The table sends every exception to its stub, the controllers are silenced
    and moved off the exception vectors, and each vector's message names it. *)

From Stdlib Require Import Ascii String.
From S2P Require Import Prelude Buddy Screen ScreenTheorems Interrupts.
Open Scope Z_scope.

(** ** Gates *)

(** The handler address the processor reassembles from a gate. *)
Definition gate_target (g : IDT_gate_descriptor_64bit) : Z :=
  offset_low g + 2 ^ 16 * offset_mid g + 2 ^ 32 * offset_high g.

(** A present interrupt or trap gate of the kernel for [handler]. *)
Definition gate_for (handler flags : Z) (g : IDT_gate_descriptor_64bit) : Prop :=
  gate_target g = handler /\ selector g = 0x08 /\ type_attr g = flags /\ zero g = 0 /\ zero2 g = 0 /\
  0 <= offset_low g < 2 ^ 16 /\ 0 <= offset_mid g < 2 ^ 16 /\ 0 <= offset_high g < 2 ^ 32.

Lemma set_gate_target num handler flags s :
  0 <= handler < 2 ^ 64 -> gate_for handler flags (i_idt (idt_set_gate num handler 0x08 flags s) num).
Proof.
  intros Hh. unfold idt_set_gate, gate_for, gate_target. cbn [i_idt]. rewrite upd_eq. cbn [offset_low offset_mid offset_high selector type_attr zero zero2].
  change 0xFFFF with (Z.ones 16). change 0xFFFFFFFF with (Z.ones 32).
  rewrite !Z.land_ones, !Z.shiftr_div_pow2 by lia. split_and!; try done; try (apply Z.mod_pos_bound; lia). dlia.
Qed.

Lemma set_gate_other num handler sel flags s v :
  v <> num -> i_idt (idt_set_gate num handler sel flags s) v = i_idt s v.
Proof. intros Hne. by apply upd_ne. Qed.

Lemma outb_mk port v a b c d : outb port v (mk_istate a b c d) = mk_istate a b c ((port, v) :: d).
Proof. done. Qed.
Lemma idt_load_mk a b c d : idt_load (mk_istate a b c d) = mk_istate a b b d.
Proof. done. Qed.

(** The bytes [__init_idt] sends. *)
Definition init_ports : list (Z * Z) :=
  [(0xA1, 0xFF); (0x21, 0xFF); (0xA1, 0x01); (0x21, 0x01); (0xA1, 0x02);
   (0x21, 0x04); (0xA1, 0x28); (0x21, 0x20); (0xA0, 0x11); (0x20, 0x11)].

Section idt.
Context (isr_entry : Z -> Z) (idt : ptr).
Context (Hstubs : forall i, 0 <= i < 32 -> 0 <= isr_entry i < 2 ^ 64).

(** The table has every stub at its own index. *)
Lemma isr_stubs_entry i : 0 <= i < 32 -> isr_stubs isr_entry i = isr_entry i.
Proof using Type.
  intros Hi. assert (H : i ∈ seqZ 0 32) by (apply elem_of_seqZ; lia).
  by repeat (apply elem_of_cons in H as [->|H]; [done|]); apply not_elem_of_nil in H.
Qed.

Lemma set_gates_spec turns i flags s :
  0 <= i -> i + Z.of_nat turns <= 32 ->
  let s' := set_gates isr_entry turns i flags s in
  i_idtr s' = i_idtr s /\ i_loaded s' = i_loaded s /\ i_ports s' = i_ports s /\
  (forall v, i <= v < i + Z.of_nat turns -> gate_for (isr_entry v) (flags v) (i_idt s' v)) /\
  (forall v, ~ i <= v < i + Z.of_nat turns -> i_idt s' v = i_idt s v).
Proof using Hstubs.
  revert i s. induction turns as [|t IH]; intros i s Hi Ht; cbn [set_gates].
  { split_and!; try done. intros v Hv. lia. }
  destruct (IH (i + 1) (idt_set_gate i (isr_stubs isr_entry i) 0x08 (flags i) s) ltac:(lia) ltac:(lia)) as (-> & -> & -> & H4 & H5).
  split_and!; try done.
  - intros v Hv. destruct (decide (v = i)) as [->|Hne]; [|apply H4; lia].
    rewrite H5, <- isr_stubs_entry by lia. apply set_gate_target. rewrite isr_stubs_entry by lia. apply Hstubs. lia.
  - intros v Hv. rewrite H5 by lia. apply set_gate_other. lia.
Qed.

(** The bytes sent to a port, in order. *)
Definition port_bytes (port : Z) (s : istate) : list Z :=
  snd <$> filter (fun p => p.1 = port) (rev (i_ports s)).

(** The gates of the 32 exceptions; a trap gate for the breakpoint. *)
Definition gate_flags (v : Z) : Z := if v =? 3 then 0x8f else 0x8e.

(** The first four gates, which [__init_idt] sets one by one. *)
Definition first_gates (s : istate) : istate :=
  idt_set_gate 3 (isr_entry 3) 0x08 0x8f (idt_set_gate 2 (isr_entry 2) 0x08 0x8e
    (idt_set_gate 1 (isr_entry 1) 0x08 0x8e (idt_set_gate 0 (isr_entry 0) 0x08 0x8e
      (set_idtr (mk_idtr (256 * 16 - 1) idt) s)))).

Definition all_gates (s : istate) : istate := set_gates isr_entry 28 4 (fun _ => 0x8e) (first_gates s).

Lemma init_idt_steps s :
  i_idt (__init_idt isr_entry idt s) = i_idt (all_gates s) /\
  i_idtr (__init_idt isr_entry idt s) = i_idtr (all_gates s) /\
  i_loaded (__init_idt isr_entry idt s) = i_idtr (all_gates s) /\
  i_ports (__init_idt isr_entry idt s) = init_ports ++ i_ports (all_gates s).
Proof using Type.
  unfold all_gates, first_gates, __init_idt. set (g := set_gates _ _ _ _ _). clearbody g. destruct g as [a b c d].
  rewrite !outb_mk, idt_load_mk. done.
Qed.

Lemma all_gates_spec s :
  i_idtr (all_gates s) = i_idtr (first_gates s) /\ i_ports (all_gates s) = i_ports (first_gates s) /\
  (forall v, 4 <= v < 32 -> gate_for (isr_entry v) 0x8e (i_idt (all_gates s) v)) /\
  (forall v, ~ 4 <= v < 32 -> i_idt (all_gates s) v = i_idt (first_gates s) v).
Proof using Hstubs.
  destruct (set_gates_spec 28 4 (fun _ => 0x8e) (first_gates s) ltac:(lia) ltac:(lia)) as (H1 & _ & H3 & H4 & H5).
  split_and!; [exact H1|exact H3|exact H4|exact H5].
Qed.

Lemma first_gates_spec s :
  (forall v, 0 <= v < 4 -> gate_for (isr_entry v) (gate_flags v) (i_idt (first_gates s) v)) /\
  (forall v, ~ 0 <= v < 4 -> i_idt (first_gates s) v = i_idt s v).
Proof using Hstubs.
  unfold first_gates. split; intros v Hv; [|by rewrite !set_gate_other by lia].
  assert (v = 0 \/ v = 1 \/ v = 2 \/ v = 3) as Hc by lia. destruct_or! Hc; subst v;
    repeat rewrite set_gate_other by lia; apply set_gate_target, Hstubs; lia.
Qed.

Lemma init_idt_table s :
  (forall v, 0 <= v < 32 -> gate_for (isr_entry v) (gate_flags v) (i_idt (__init_idt isr_entry idt s) v)) /\
  (forall v, ~ 0 <= v < 32 -> i_idt (__init_idt isr_entry idt s) v = i_idt s v).
Proof using Hstubs.
  destruct (init_idt_steps s) as (-> & _). destruct (all_gates_spec s) as (_ & _ & H4 & H5).
  destruct (first_gates_spec s) as [F1 F2]. split; intros v Hv.
  - destruct (decide (4 <= v)).
    + unfold gate_flags. rewrite (proj2 (Z.eqb_neq v 3)) by lia. apply H4. lia.
    + rewrite H5 by lia. apply F1. lia.
  - rewrite H5, F2 by lia. done.
Qed.

Lemma init_idt_rest s :
  i_idtr (__init_idt isr_entry idt s) = mk_idtr 4095 idt /\ i_loaded (__init_idt isr_entry idt s) = mk_idtr 4095 idt /\
  i_ports (__init_idt isr_entry idt s) = init_ports ++ i_ports s.
Proof using Hstubs.
  destruct (init_idt_steps s) as (_ & -> & -> & ->). destruct (all_gates_spec s) as (-> & -> & _). done.
Qed.

Lemma reload_spec s :
  let r := _reload_idt_virtual isr_entry idt s in
  i_loaded r = mk_idtr (limit (i_idtr s)) idt /\
  (forall v, 0 <= v < 32 -> gate_for (isr_entry v) (gate_flags v) (i_idt r v)) /\
  (forall v, ~ 0 <= v < 32 -> i_idt r v = i_idt s v).
Proof using Hstubs.
  cbv zeta. unfold _reload_idt_virtual.
  destruct (set_gates_spec 32 0 (fun i => if i =? 3 then 0x8f else 0x8e) (set_idtr (mk_idtr (limit (i_idtr s)) idt) s)
    ltac:(lia) ltac:(lia)) as (E1 & _ & _ & H4 & H5).
  revert E1 H4 H5. generalize (set_gates isr_entry 32 0 (fun i => if i =? 3 then 0x8f else 0x8e)
    (set_idtr (mk_idtr (limit (i_idtr s)) idt) s)). intros g E1 H4 H5.
  split_and!; [exact E1|exact H4|exact H5].
Qed.

(** A gate is determined by its handler and flags. *)
Lemma gate_unique handler flags g g' : gate_for handler flags g -> gate_for handler flags g' -> g = g'.
Proof using Type.
  destruct g as [a1 a2 a3 a4 a5 a6 a7], g' as [b1 b2 b3 b4 b5 b6 b7].
  unfold gate_for, gate_target. cbn [offset_low offset_mid offset_high selector type_attr zero zero2].
  intros H1 H4. destruct_and! H1. destruct_and! H4. f_equal; lia.
Qed.

(** C26. After [__init_idt] the loaded table is the kernel's 256-entry table, each
    of the 32 exception vectors leads to its own stub through a present kernel
    gate, and no other entry changed; the two interrupt controllers were moved
    to vectors 32 to 47, above every exception, and all their lines masked.
    [_reload_idt_virtual] leaves exactly the same gates. *)
Theorem init_idt_correct s :
  let s' := __init_idt isr_entry idt s in
  i_loaded s' = mk_idtr 4095 idt /\
  (forall v, 0 <= v < 32 -> gate_for (isr_entry v) (gate_flags v) (i_idt s' v)) /\
  (forall v, ~ 0 <= v < 32 -> i_idt s' v = i_idt s v) /\
  (i_ports s = [] -> port_bytes 0x20 s' = [0x11] /\ port_bytes 0x21 s' = [0x20; 0x04; 0x01; 0xFF] /\
     port_bytes 0xA0 s' = [0x11] /\ port_bytes 0xA1 s' = [0x28; 0x02; 0x01; 0xFF]) /\
  (let r := _reload_idt_virtual isr_entry idt s' in
   i_loaded r = i_loaded s' /\ forall v, i_idt r v = i_idt s' v).
Proof using Hstubs.
  intros s'. destruct (init_idt_table s) as [H1 H2]. fold s' in H1, H2.
  destruct (init_idt_rest s) as (Hr & Hl & Hp). fold s' in Hr, Hl, Hp.
  split_and!; [exact Hl|exact H1|exact H2| |].
  - intros E. rewrite E, app_nil_r in Hp. unfold port_bytes. rewrite Hp. done.
  - cbv zeta. destruct (reload_spec s') as (E1 & R1 & R2). rewrite E1, Hl, Hr. split; [done|].
    intros v. destruct (decide (0 <= v < 32)) as [Hv|Hv]; [|by apply R2].
    by eapply gate_unique; [apply R1|apply H1].
Qed.
End idt.

Lemma init_idt_correct_witness :
  gate_for 0xffffffff80013000 0x8f
    (i_idt (__init_idt (fun i => 0xffffffff80012fd0 + 16 * i) 0xffffffff80050000
       (mk_istate (fun _ => mk_gate 0 0 0 0 0 0 0) (mk_idtr 0 0) (mk_idtr 0 0) [])) 3).
Proof.
  exact (proj1 (proj2 (init_idt_correct (fun i => 0xffffffff80012fd0 + 16 * i) 0xffffffff80050000
    ltac:(intros i Hi; cbv beta; lia) (mk_istate (fun _ => mk_gate 0 0 0 0 0 0 0) (mk_idtr 0 0) (mk_idtr 0 0) [])))
    3 ltac:(lia)).
Defined.

(** ** Messages *)





Section dispatch.
Context (font_data : Z -> Z).


















End dispatch.

