(* ===== verification/Kstrings.v ===== *)
(** * kstrings.c and pmap.c: strings and byte copies

    The string routines and the two byte loops of the kernel on a memory of
    bytes, and the copy of the firmware memory map that [__init_pmap] keeps. *)

From S2P Require Import Prelude State.

(** ** kstrings.c *)

Fixpoint length_loop (turns : nat) (m : mem) (s len : Z) : option Z :=
  if m (s + len) =? 0 then Some len else
  match turns with O => None | S t => length_loop t m s (u64 (len + 1)) end.

Definition kstring_length (turns : nat) (m : mem) (s : ptr) : option Z :=
  if s =? NULL then Some 0 else length_loop turns m s 0.

Fixpoint strcpy_loop (turns : nat) (m : mem) (s1 d dst_size i : Z) : option mem :=
  if (i <? dst_size - 1) && negb (m (s1 + i) =? 0) then
    match turns with
    | O => None
    | S t => strcpy_loop t (m.[d + i <- m (s1 + i)]) s1 d dst_size (u64 (i + 1))
    end
  else Some (m.[d + i <- 0]).

Definition kstring_strcpy (turns : nat) (m : mem) (s1 dst : ptr) (dst_size : Z) : option mem :=
  if (s1 =? NULL) || (dst =? NULL) || (dst_size =? 0) then Some m
  else strcpy_loop turns m s1 dst dst_size 0.

Fixpoint strcmp_loop (turns : nat) (m : mem) (s1 s2 : ptr) : option Z :=
  if negb (m s1 =? 0) && (m s1 =? m s2) then
    match turns with O => None | S t => strcmp_loop t m (s1 + 1) (s2 + 1) end
  else Some (m s1 - m s2).

Definition kstring_strcmp (turns : nat) (m : mem) (s1 s2 : ptr) : option Z :=
  if s1 =? s2 then Some 0
  else if s1 =? NULL then Some (-1)
  else if s2 =? NULL then Some 1
  else strcmp_loop turns m s1 s2.

(** [rep stosb] with %rdi, %rcx and %al: the registers when it ends. *)
Fixpoint rep_stosb (rcx : nat) (m : mem) (rdi al : Z) : mem * ptr :=
  match rcx with O => (m, rdi) | S n => rep_stosb n (m.[rdi <- al]) (rdi + 1) al end.

(** The memory and the pointer returned. *)
Definition memset (m : mem) (ptr value num : Z) : mem * Z :=
  if num =? 0 then (m, ptr) else rep_stosb (Z.to_nat num) m ptr (value mod 2 ^ 8).

(** ** pmap.c *)

Fixpoint memcpy_loop (n : nat) (m : mem) (d s : ptr) : mem :=
  match n with O => m | S n => memcpy_loop n (m.[d <- m s]) (d + 1) (s + 1) end.
Definition memcpy (m : mem) (dest src n : Z) : mem * ptr := (memcpy_loop (Z.to_nat n) m dest src, dest).

Definition sizeof_mmap_entry : Z := 24.
Definition pmap_buf_size : Z := PAGE_SIZE / 2.

(** The bytes of the kernel image and of low memory, with the addresses the
    linker gave the buffer and the firmware's table, and the table's count. *)
Section pmap.
Context (pmap_buf mmap_bios_entries mmap_entry_count : Z).

Definition __init_pmap (m : mem) : mem :=
  (memcpy m pmap_buf mmap_bios_entries (mmap_entry_count * sizeof_mmap_entry)).1.
Definition get_pmap_entry_count : Z := mmap_entry_count.
Definition get_pmap : ptr := pmap_buf.
End pmap.

(** ** NUL-terminated strings *)

Fixpoint cstring (m : mem) (s : ptr) (l : list Z) : Prop :=
  match l with
  | [] => m s = 0
  | c :: l' => 0 < c < 256 /\ m s = c /\ cstring m (s + 1) l'
  end.

(** The order [kstring_strcmp] decides. *)
Fixpoint lex_lt (l1 l2 : list Z) : Prop :=
  match l1, l2 with
  | [], [] => False
  | [], _ :: _ => True
  | _ :: _, [] => False
  | a :: l1', b :: l2' => a < b \/ a = b /\ lex_lt l1' l2'
  end.

Lemma cstring_ext m m' s l :
  (forall a, s <= a <= s + Z.of_nat (length l) -> m' a = m a) -> cstring m s l -> cstring m' s l.
Proof.
  revert s. induction l as [|c l IH]; intros s He; cbn [cstring length] in *.
  - rewrite He by lia. done.
  - intros (H1 & H2 & H3). rewrite He by lia. split_and!; [lia..|]. apply IH; [|done]. intros a Ha. apply He. lia.
Qed.

Lemma cstring_inj m s l1 l2 : cstring m s l1 -> cstring m s l2 -> l1 = l2.
Proof.
  revert s l2. induction l1 as [|c l1 IH]; intros s [|c2 l2]; cbn [cstring]; [done|lia|lia|].
  intros (H1 & H2 & H3) (H4 & H5 & H6). f_equal; [lia|eauto].
Qed.

Lemma length_loop_spec m s l turns len :
  cstring m (s + len) l -> 0 <= len -> len + Z.of_nat (length l) < 2 ^ 64 -> (length l <= turns)%nat ->
  length_loop turns m s len = Some (len + Z.of_nat (length l)).
Proof.
  revert turns len. induction l as [|c l IH]; intros turns len Hc Hlen Hb Ht; cbn [cstring length] in *.
  - destruct turns; simpl; rewrite Hc; simpl; f_equal; lia.
  - destruct Hc as (H1 & H2 & H3), turns as [|turns]; [lia|]. simpl. rewrite (proj2 (Z.eqb_neq _ 0)) by lia.
    rewrite u64_small by lia. rewrite IH; [f_equal; lia|by rewrite Z.add_assoc|lia..].
Qed.

Lemma strcmp_loop_spec m s1 s2 l1 l2 turns :
  cstring m s1 l1 -> cstring m s2 l2 -> (length l1 <= turns)%nat ->
  exists r, strcmp_loop turns m s1 s2 = Some r /\ -256 < r < 256 /\ (r = 0 <-> l1 = l2) /\ (r < 0 <-> lex_lt l1 l2).
Proof.
  revert s1 s2 l2 turns. induction l1 as [|c l1 IH]; intros s1 s2 l2 turns H1 H2 Ht; cbn [cstring length] in *.
  - exists (0 - m s2). split; [by destruct turns; simpl; rewrite H1|].
    destruct l2 as [|c2 l2]; cbn [cstring lex_lt] in *; [rewrite H2|destruct H2 as (? & -> & _)]; split_and!; naive_solver lia.
  - destruct H1 as (Hc & E1 & H1), turns as [|turns]; [lia|]. cbn [strcmp_loop].
    rewrite E1, (proj2 (Z.eqb_neq c 0)) by lia. cbn [negb andb].
    destruct l2 as [|c2 l2]; cbn [cstring lex_lt] in *.
    + rewrite H2, (proj2 (Z.eqb_neq c 0)) by lia. exists (c - 0). split_and!; naive_solver lia.
    + destruct H2 as (Hc2 & E2 & H2). rewrite E2. destruct (Z.eqb_spec c c2) as [<-|Hne].
      * destruct (IH (s1 + 1) (s2 + 1) l2 turns H1 H2 ltac:(lia)) as (r & -> & Hr & He & Hl).
        exists r. split_and!; [done|lia|lia|rewrite He; naive_solver|rewrite Hl; naive_solver lia].
      * exists (c - c2). split_and!; [done|lia|lia|split; [lia|congruence]|]. split; [lia|intros [?|[? _]]; lia].
Qed.

Lemma strcpy_loop_spec m s1 d size l turns i :
  cstring m (s1 + i) l -> 0 <= i <= size - 1 -> size < 2 ^ 64 ->
  (d + size <= s1 + i \/ s1 + i + Z.of_nat (length l) < d + i) -> (length l <= turns)%nat ->
  exists m', strcpy_loop turns m s1 d size i = Some m' /\
    cstring m' (d + i) (take (Z.to_nat (size - 1 - i)) l) /\
    (forall a, ~ d + i <= a < d + size -> m' a = m a).
Proof.
  assert (Hstop : forall m i, 0 <= i <= size - 1 ->
    cstring (m.[d + i <- 0]) (d + i) [] /\ forall a, ~ d + i <= a < d + size -> (m.[d + i <- 0]) a = m a).
  { intros m0 j Hj. split; [apply upd_eq|]. intros a Ha. apply upd_ne. lia. }
  revert m turns i. induction l as [|c l IH]; intros m turns i Hc Hi Hb Hap Ht; cbn [cstring length] in *.
  - exists (m.[d + i <- 0]). rewrite take_nil.
    split; [destruct turns; cbn [strcpy_loop]; rewrite Hc; simpl; by rewrite andb_false_r|by apply Hstop].
  - destruct Hc as (Hc1 & E & Hc2), turns as [|turns]; [lia|]. cbn [strcpy_loop].
    rewrite E, (proj2 (Z.eqb_neq c 0)) by lia. cbn [negb]. rewrite andb_true_r, u64_small by lia.
    destruct (Z.ltb_spec i (size - 1)) as [Hlt|Hge].
    + destruct (IH (m.[d + i <- c]) turns (i + 1)) as (m' & -> & Hm' & Hf); [|lia|lia|lia|lia|].
      { rewrite Z.add_assoc. apply (cstring_ext m); [|done]. intros a Ha. apply upd_ne. lia. }
      exists m'. split; [done|]. replace (Z.to_nat (size - 1 - i)) with (S (Z.to_nat (size - 1 - (i + 1)))) by lia. cbn [take cstring]. split; [split_and!|].
      * lia.
      * lia.
      * rewrite Hf by lia. apply upd_eq.
      * by replace (d + i + 1) with (d + (i + 1)) by lia.
      * intros a Ha. rewrite Hf by lia. apply upd_ne. lia.
    + exists (m.[d + i <- 0]). split; [done|]. replace (Z.to_nat (size - 1 - i)) with 0%nat by lia. by apply Hstop.
Qed.

(** [kstring_strcpy] into a buffer that does not overlap the string ends after
    at most as many turns as the string has characters; the buffer then holds the
    longest prefix of the string that fits with its terminator, whose length
    [kstring_length] returns, and no byte outside the buffer has changed. *)
Theorem kstring_strcpy_correct m s1 dst size l turns :
  cstring m s1 l -> s1 <> NULL -> dst <> NULL -> 0 < size < 2 ^ 64 ->
  (dst + size <= s1 \/ s1 + Z.of_nat (length l) < dst) -> (length l <= turns)%nat ->
  exists m', kstring_strcpy turns m s1 dst size = Some m' /\ cstring m' s1 l /\
    cstring m' dst (take (Z.to_nat (size - 1)) l) /\
    kstring_length turns m' dst = Some (Z.min (Z.of_nat (length l)) (size - 1)) /\
    (forall a, ~ dst <= a < dst + size -> m' a = m a).
Proof.
  intros Hc H1 H2 Hb Hap Ht. unfold kstring_strcpy, kstring_length.
  rewrite (proj2 (Z.eqb_neq s1 NULL)), (proj2 (Z.eqb_neq dst NULL)), (proj2 (Z.eqb_neq size 0)) by (done || lia).
  destruct (strcpy_loop_spec m s1 dst size l turns 0) as (m' & E & Hm & Hf); rewrite ?Z.add_0_r in *; try done; try lia.
  rewrite Z.sub_0_r in Hm. exists m'. split_and!; [done| |done| |done].
  - apply (cstring_ext m); [|done]. intros a Ha. apply Hf. lia.
  - erewrite length_loop_spec; [|by rewrite Z.add_0_r|lia|..]; rewrite length_take; [f_equal; lia|lia|lia].
Qed.

Lemma kstring_strcpy_correct_witness :
  exists m', kstring_strcpy 5 (fun a => if a =? 100 then 72 else if a =? 101 then 105 else 0) 100 200 2 = Some m' /\
    cstring m' 200 [72].
Proof.
  destruct (kstring_strcpy_correct (fun a => if a =? 100 then 72 else if a =? 101 then 105 else 0) 100 200 2 [72; 105] 5)
    as (m' & E & _ & H & _); [|done|done|lia|simpl; lia|simpl; lia|].
  - cbv [cstring]. split_and!; reflexivity.
  - exists m'. split; [exact E|exact H].
Defined.

(** [kstring_strcmp] of two strings returns a number that is 0 exactly when they
    are equal and negative exactly when the first comes before the second in the
    order of their bytes; NULL comes before every string. *)
Theorem kstring_strcmp_correct m s1 s2 l1 l2 turns :
  cstring m s1 l1 -> cstring m s2 l2 -> s1 <> NULL -> s2 <> NULL -> (length l1 <= turns)%nat ->
  (exists r, kstring_strcmp turns m s1 s2 = Some r /\ -256 < r < 256 /\
     (r = 0 <-> l1 = l2) /\ (r < 0 <-> lex_lt l1 l2)) /\
  kstring_strcmp turns m NULL s2 = Some (-1) /\ kstring_strcmp turns m s1 NULL = Some 1 /\
  kstring_strcmp turns m NULL NULL = Some 0.
Proof.
  intros H1 H2 N1 N2 Ht. unfold kstring_strcmp.
  rewrite (proj2 (Z.eqb_neq s1 NULL)), (proj2 (Z.eqb_neq s2 NULL)), (proj2 (Z.eqb_neq NULL s2)) by done.
  split; [|done]. destruct (Z.eqb_spec s1 s2) as [->|Hne]; [|by apply strcmp_loop_spec].
  pose proof (cstring_inj m s2 l1 l2 H1 H2) as ->. exists 0. split_and!; [done|lia|lia|done|]. split; [lia|].
  clear. induction l2 as [|c l IH]; cbn [lex_lt]; [done|]. intros [?|[_ ?]]; [lia|auto].
Qed.

Lemma kstring_strcmp_correct_witness :
  exists r, kstring_strcmp 5 (fun a => if a =? 100 then 72 else if a =? 200 then 200 else 0) 100 200 = Some r /\ r < 0.
Proof.
  destruct (kstring_strcmp_correct (fun a => if a =? 100 then 72 else if a =? 200 then 200 else 0) 100 200 [72] [200] 5)
    as ((r & E & _ & _ & Hr) & _); [cbv [cstring]; split_and!; reflexivity..|done|done|simpl; lia|].
  exists r. split; [exact E|]. apply Hr. left. reflexivity.
Defined.

(** ** Byte loops *)

Lemma rep_stosb_spec n m rdi al :
  (rep_stosb n m rdi al).2 = rdi + Z.of_nat n /\
  forall a, (rep_stosb n m rdi al).1 a = if (rdi <=? a) && (a <? rdi + Z.of_nat n) then al else m a.
Proof.
  revert m rdi. induction n as [|n IH]; intros m rdi; cbn [rep_stosb].
  - cbn [fst snd]. split; [lia|]. intros a. destruct (Z.leb_spec rdi a), (Z.ltb_spec a (rdi + Z.of_nat 0)); cbn [andb]; (done || lia).
  - destruct (IH (m.[rdi <- al]) (rdi + 1)) as [-> Hm]. split; [lia|]. intros a. rewrite Hm. unfold upd.
    destruct (Z.leb_spec (rdi + 1) a), (Z.ltb_spec a (rdi + 1 + Z.of_nat n)), (Z.leb_spec rdi a),
      (Z.ltb_spec a (rdi + Z.of_nat (S n))), (Z.eqb_spec a rdi); cbn [andb]; (done || lia).
Qed.

(** [memset] sets the bytes; what it returns is the end of the range (the value
    the instruction leaves in %rdi), the pointer itself only for an empty one. *)
Theorem memset_returns_end m p value num :
  0 <= num ->
  (memset m p value num).2 = p + num /\
  forall a, (memset m p value num).1 a = if (p <=? a) && (a <? p + num) then value mod 2 ^ 8 else m a.
Proof.
  intros Hn. unfold memset. destruct (Z.eqb_spec num 0) as [->|Hz].
  - cbn [fst snd]. split; [lia|]. intros a. destruct (Z.leb_spec p a), (Z.ltb_spec a (p + 0)); cbn [andb]; (done || lia).
  - destruct (rep_stosb_spec (Z.to_nat num) m p (value mod 2 ^ 8)) as [H1 H2]. by rewrite Z2Nat.id in H1, H2 by lia.
Qed.

Lemma memcpy_loop_spec n m d s :
  (d + Z.of_nat n <= s \/ s + Z.of_nat n <= d) ->
  forall a, memcpy_loop n m d s a = if (d <=? a) && (a <? d + Z.of_nat n) then m (s + (a - d)) else m a.
Proof.
  revert m d s. induction n as [|n IH]; intros m d s Hap a; cbn [memcpy_loop].
  - destruct (Z.leb_spec d a), (Z.ltb_spec a (d + Z.of_nat 0)); cbn [andb]; (done || lia).
  - rewrite IH by lia. unfold upd.
    destruct (Z.leb_spec (d + 1) a), (Z.ltb_spec a (d + 1 + Z.of_nat n)), (Z.leb_spec d a),
      (Z.ltb_spec a (d + Z.of_nat (S n))), (Z.eqb_spec a d); simpl; try done; try lia.
    + destruct (Z.eqb_spec (s + 1 + (a - (d + 1))) d); [lia|]. f_equal. lia.
    + f_equal. lia.
Qed.

(** C34. [__init_pmap] copies the firmware's table: [get_pmap] then reads every entry
    the firmware wrote and nothing outside the copy changes.  The copy stays inside
    the 2 KB buffer exactly up to 85 entries; the 86th overwrites what lies behind. *)
Theorem init_pmap_correct buf table count m :
  0 <= count < 2 ^ 16 ->
  (buf + count * sizeof_mmap_entry <= table \/ table + count * sizeof_mmap_entry <= buf) ->
  let m' := __init_pmap buf table count m in
  (forall i, 0 <= i < get_pmap_entry_count count * sizeof_mmap_entry -> m' (get_pmap buf + i) = m (table + i)) /\
  (forall a, ~ buf <= a < buf + count * sizeof_mmap_entry -> m' a = m a) /\
  (85 < count -> m' (buf + pmap_buf_size) = m (table + pmap_buf_size)) /\
  (count <= 85 -> forall a, ~ buf <= a < buf + pmap_buf_size -> m' a = m a).
Proof.
  intros Hc Hap m'. unfold sizeof_mmap_entry in *. change pmap_buf_size with 2048.
  assert (Hm : forall a, m' a = if (buf <=? a) && (a <? buf + count * 24) then m (table + (a - buf)) else m a).
  { intros a. unfold m', __init_pmap, memcpy, sizeof_mmap_entry. cbn [fst].
    rewrite memcpy_loop_spec by lia. by rewrite Z2Nat.id by lia. }
  assert (Hin : forall i, 0 <= i < count * 24 -> m' (buf + i) = m (table + i)).
  { intros i Hi. rewrite Hm. destruct (Z.leb_spec buf (buf + i)), (Z.ltb_spec (buf + i) (buf + count * 24)); try lia.
    simpl. f_equal. lia. }
  assert (Hout : forall a, ~ buf <= a < buf + count * 24 -> m' a = m a).
  { intros a Ha. rewrite Hm. destruct (Z.leb_spec buf a), (Z.ltb_spec a (buf + count * 24)); cbn [andb]; (done || lia). }
  split_and!; [exact Hin|exact Hout|intros; apply Hin; lia|intros ? a Ha; apply Hout; lia].
Qed.

Lemma init_pmap_correct_witness :
  __init_pmap 0x100000 0x5000 86 (fun a => a mod 251) (0x100000 + pmap_buf_size) = (0x5000 + pmap_buf_size) mod 251.
Proof. apply (init_pmap_correct 0x100000 0x5000 86); [lia|left + right; unfold sizeof_mmap_entry; lia|lia]. Defined.
