(* ===== verification/Kasm.v ===== *)
(** * kasm-expanded.h: instructions with C operands

    The wrappers around single instructions: register moves, model-specific
    registers, atomic operations, bit strings and bit manipulation.  An
    instruction is what the processor does with its operands, written as the
    loop the manual gives where it is one; an output operand that the
    instruction writes in part keeps what the register held before. *)

From S2P Require Import Prelude.

(** ** Registers *)

Inductive gpr : Set :=
  | RAX | RBX | RCX | RDX | RSI | RDI | RSP | RBP | R8 | R9 | R10 | R11 | R12 | R13 | R14 | R15.
Inductive sreg : Set := CS | DS | ES | FS | GS | SS.
(** The two parts of IDTR and GDTR are registers of their own. *)
Inductive reg : Set :=
  | Gpr (r : gpr) | Cr (n : Z) | Dr (n : Z) | Seg (s : sreg)
  | Rflags | Msr (n : Z) | Xcr (n : Z)
  | IdtrLimit | IdtrBase | GdtrLimit | GdtrBase | Ldtr | Tr.

#[export] Instance gpr_eq_dec : EqDecision gpr.
Proof. solve_decision. Defined.
#[export] Instance sreg_eq_dec : EqDecision sreg.
Proof. solve_decision. Defined.
#[export] Instance reg_eq_dec : EqDecision reg.
Proof. solve_decision. Defined.

(** The registers, the values sent to ports (width in bytes, port, value; latest
    first) and what the TLB was told to forget: everything ([None]) or an address. *)
Record xstate : Type := mk_xstate {
  x_regs : reg -> Z;
  x_out : list (Z * Z * Z);
  x_tlb : list (option Z);
}.

Definition mov_from (r : reg) (s : xstate) : Z := x_regs s r.
Definition mov_to (r : reg) (v : Z) (s : xstate) : xstate :=
  mk_xstate (fun r' => if decide (r' = r) then v else x_regs s r') (x_out s) (x_tlb s).

(** [read_rax] to [read_r15], [write_rax] to [write_r15] (RSP and RBP have no
    write). *)
Definition read_gpr (r : gpr) (s : xstate) : Z := mov_from (Gpr r) s.
Definition write_gpr (r : gpr) (v : Z) (s : xstate) : xstate := mov_to (Gpr r) (u64 v) s.
Definition read_cr (n : Z) (s : xstate) : Z := mov_from (Cr n) s.
Definition invalidate (a : option Z) (s : xstate) : xstate :=
  mk_xstate (x_regs s) (x_out s) (a :: x_tlb s).
(** A move to CR3 flushes the TLB. *)
Definition write_cr (n v : Z) (s : xstate) : xstate :=
  let s := mov_to (Cr n) (u64 v) s in
  if n =? 3 then invalidate None s else s.
Definition invlpg (addr : Z) (s : xstate) : xstate := invalidate (Some addr) s.
Definition flush_tlb (s : xstate) : xstate := write_cr 3 (read_cr 3 s) s.
Definition read_dr (n : Z) (s : xstate) : Z := mov_from (Dr n) s.
Definition write_dr (n v : Z) (s : xstate) : xstate := mov_to (Dr n) (u64 v) s.
Definition read_seg (r : sreg) (s : xstate) : Z := u16 (mov_from (Seg r) s).
Definition write_seg (r : sreg) (v : Z) (s : xstate) : xstate := mov_to (Seg r) (u16 (u32 v)) s.

Definition MSR_FS_BASE : Z := 0xC0000100.
Definition MSR_GS_BASE : Z := 0xC0000101.
Definition MSR_KERNEL_GS_BASE : Z := 0xC0000102.
(** The base registers are the model-specific registers of that name. *)
Definition read_fsbase (s : xstate) : Z := mov_from (Msr MSR_FS_BASE) s.
Definition read_gsbase (s : xstate) : Z := mov_from (Msr MSR_GS_BASE) s.
Definition write_fsbase (v : Z) (s : xstate) : xstate := mov_to (Msr MSR_FS_BASE) (u64 v) s.
Definition write_gsbase (v : Z) (s : xstate) : xstate := mov_to (Msr MSR_GS_BASE) (u64 v) s.
Definition swapgs (s : xstate) : xstate :=
  mov_to (Msr MSR_GS_BASE) (mov_from (Msr MSR_KERNEL_GS_BASE) s)
    (mov_to (Msr MSR_KERNEL_GS_BASE) (mov_from (Msr MSR_GS_BASE) s) s).

(** ** Flags *)

Definition RFLAGS_CF : Z := 2 ^ 0.
Definition RFLAGS_PF : Z := 2 ^ 2.
Definition RFLAGS_AF : Z := 2 ^ 4.
Definition RFLAGS_ZF : Z := 2 ^ 6.
Definition RFLAGS_SF : Z := 2 ^ 7.
Definition RFLAGS_TF : Z := 2 ^ 8.
Definition RFLAGS_IF : Z := 2 ^ 9.
Definition RFLAGS_DF : Z := 2 ^ 10.
Definition RFLAGS_OF : Z := 2 ^ 11.
Definition RFLAGS_IOPL : Z := 3 * 2 ^ 12.
Definition RFLAGS_NT : Z := 2 ^ 14.
Definition RFLAGS_RF : Z := 2 ^ 16.
Definition RFLAGS_VM : Z := 2 ^ 17.
Definition RFLAGS_AC : Z := 2 ^ 18.
Definition RFLAGS_VIF : Z := 2 ^ 19.
Definition RFLAGS_VIP : Z := 2 ^ 20.
Definition RFLAGS_ID : Z := 2 ^ 21.

(** POPFQ at privilege level 0 loads these bits, keeps VM, VIF and VIP, and
    clears RF; bit 1 is always set. *)
Definition popf_loads : Z :=
  foldr Z.lor 0 [RFLAGS_CF; RFLAGS_PF; RFLAGS_AF; RFLAGS_ZF; RFLAGS_SF; RFLAGS_TF; RFLAGS_IF; RFLAGS_DF;
                 RFLAGS_OF; RFLAGS_IOPL; RFLAGS_NT; RFLAGS_AC; RFLAGS_ID].
Definition popf_keeps : Z := foldr Z.lor 0 [RFLAGS_VM; RFLAGS_VIF; RFLAGS_VIP].
Definition popf (old v : Z) : Z := Z.lor (Z.lor (Z.land old popf_keeps) (Z.land v popf_loads)) 2.
(** The image PUSHFQ stores has VM and RF clear. *)
Definition pushf (f : Z) : Z := Z.ldiff f (Z.lor RFLAGS_VM RFLAGS_RF).

Definition read_rflags (s : xstate) : Z := pushf (mov_from Rflags s).
Definition write_rflags (v : Z) (s : xstate) : xstate := mov_to Rflags (popf (mov_from Rflags s) (u64 v)) s.

(** ** Values in EDX:EAX *)

(** [((uint64_t)hi << 32) | lo] *)
Definition join32 (hi lo : Z) : Z := Z.lor (shl64 hi 32) lo.

(** The instruction leaves the halves in EDX and EAX. *)
Definition rdmsr (msr : Z) (s : xstate) : Z :=
  let v := mov_from (Msr msr) s in join32 (u32 (Z.shiftr v 32)) (u32 v).
(** The instruction takes them from there. *)
Definition wrmsr (msr val : Z) (s : xstate) : xstate :=
  let eax := u32 val in
  let edx := u32 (Z.shiftr val 32) in
  mov_to (Msr msr) (edx * 2 ^ 32 + eax) s.
Definition xgetbv (xcr : Z) (s : xstate) : Z :=
  let v := mov_from (Xcr xcr) s in join32 (u32 (Z.shiftr v 32)) (u32 v).
Definition xsetbv (xcr val : Z) (s : xstate) : xstate :=
  let eax := u32 val in
  let edx := u32 (Z.shiftr val 32) in
  mov_to (Xcr xcr) (edx * 2 ^ 32 + eax) s.

(** The counter and TSC_AUX are the processor's: arguments. *)
Definition rdtsc (tsc : Z) : Z := join32 (u32 (Z.shiftr tsc 32)) (u32 tsc).
Definition rdtscp (tsc tsc_aux aux_out : Z) (m : mem) : mem * Z :=
  (if aux_out =? NULL then m else m.[aux_out <- u32 tsc_aux], rdtsc tsc).

Record cpuid_result_t : Type := mk_cpuid { c_eax : Z; c_ebx : Z; c_ecx : Z; c_edx : Z }.
Section cpuid.
(** The processor's answer for a leaf in EAX and a subleaf in ECX. *)
Context (cpuid_hw : Z -> Z -> cpuid_result_t).
Definition cpuid_ex (leaf subleaf : Z) : cpuid_result_t := cpuid_hw (u32 leaf) (u32 subleaf).
Definition cpuid (leaf : Z) : cpuid_result_t := cpuid_hw (u32 leaf) 0.
End cpuid.

(** ** Descriptor tables *)

(** The ten packed bytes: a 16-bit limit and a 64-bit base. *)
Record desc_ptr_t : Type := mk_desc_ptr { d_limit : Z; d_base : Z }.
Definition lidt (p : desc_ptr_t) (s : xstate) : xstate := mov_to IdtrBase (d_base p) (mov_to IdtrLimit (d_limit p) s).
Definition lgdt (p : desc_ptr_t) (s : xstate) : xstate := mov_to GdtrBase (d_base p) (mov_to GdtrLimit (d_limit p) s).
Definition sidt (s : xstate) : desc_ptr_t := mk_desc_ptr (mov_from IdtrLimit s) (mov_from IdtrBase s).
Definition sgdt (s : xstate) : desc_ptr_t := mk_desc_ptr (mov_from GdtrLimit s) (mov_from GdtrBase s).
Definition lldt (sel : Z) (s : xstate) : xstate := mov_to Ldtr (u16 sel) s.
Definition ltr (sel : Z) (s : xstate) : xstate := mov_to Tr (u16 sel) s.
Definition sldt_r (s : xstate) : Z := u16 (mov_from Ldtr s).
Definition str_r (s : xstate) : Z := u16 (mov_from Tr s).

(** ** Ports *)

Definition out_port (w port v : Z) (s : xstate) : xstate :=
  mk_xstate (x_regs s) ((w, u16 port, v) :: x_out s) (x_tlb s).
Definition outb (port v : Z) : xstate -> xstate := out_port 1 port (u8 v).
Definition outw (port v : Z) : xstate -> xstate := out_port 2 port (u16 v).
Definition outl (port v : Z) : xstate -> xstate := out_port 4 port (u32 v).
Definition io_wait : xstate -> xstate := outb 0x80 0.
Section ports.
(** What the device behind a port answers to a read of [w] bytes. *)
Context (device : Z -> Z -> Z).
Definition inb (port : Z) : Z := u8 (device 1 (u16 port)).
Definition inw (port : Z) : Z := u16 (device 2 (u16 port)).
Definition inl (port : Z) : Z := u32 (device 4 (u16 port)).
End ports.

(** ** Atomic operations on a word of [w] bits *)

Section atomics.
Context (w : Z).
Definition xchg (m : mem) (addr val : Z) : mem * Z := (m.[addr <- val], m addr).
Definition cmpxchg (m : mem) (addr expected desired : Z) : mem * Z :=
  (if m addr =? expected then m.[addr <- desired] else m, m addr).
Definition xadd (m : mem) (addr inc : Z) : mem * Z := (m.[addr <- (m addr + inc) mod 2 ^ w], m addr).
End atomics.
Definition xadd64 : mem -> Z -> Z -> mem * Z := xadd 64.
Definition xadd32 : mem -> Z -> Z -> mem * Z := xadd 32.

(** ** Bit strings

    With a bit number in a register the instruction addresses a bit string that
    starts at [base]: the number is signed and selects the 64-bit word as well. *)

Definition s64 (x : Z) : Z := if u64 x <? 2 ^ 63 then u64 x else u64 x - 2 ^ 64.
Definition bit_word (base bit : Z) : Z := base + 8 * (s64 bit / 64).
Definition bit_index (bit : Z) : Z := s64 bit mod 64.

(** [setc %b0] writes the low byte of the result; [c] is what the register held. *)
Definition setc (c : Z) (cf : bool) : Z := Z.lor (Z.land c 0xFFFFFF00) (Z.b2z cf).

Definition bt64 (c : Z) (m : mem) (base bit : Z) : Z :=
  setc c (Z.testbit (m (bit_word base bit)) (bit_index bit)).
Definition bit_op (f : Z -> Z -> Z) (c : Z) (m : mem) (base bit : Z) : mem * Z :=
  let a := bit_word base bit in
  (m.[a <- f (m a) (2 ^ bit_index bit)], setc c (Z.testbit (m a) (bit_index bit))).
Definition bts64 : Z -> mem -> Z -> Z -> mem * Z := bit_op Z.lor.
Definition btr64 : Z -> mem -> Z -> Z -> mem * Z := bit_op Z.ldiff.
Definition btc64 : Z -> mem -> Z -> Z -> mem * Z := bit_op Z.lxor.

(** ** Scans and counts *)

(** [while (bit(src, temp) == 0) temp++] *)
Fixpoint scan_up (turns : nat) (v temp : Z) : Z :=
  match turns with O => temp | S t => if Z.testbit v temp then temp else scan_up t v (temp + 1) end.
(** [while (bit(src, temp) == 0) temp--] *)
Fixpoint scan_down (turns : nat) (v temp : Z) : Z :=
  match turns with O => temp | S t => if Z.testbit v temp then temp else scan_down t v (temp - 1) end.
(** [for (i = 0; i < w; i++) if (bit(src, i)) count++] *)
Fixpoint count_bits (turns : nat) (v i count : Z) : Z :=
  match turns with O => count | S t => count_bits t v (i + 1) (if Z.testbit v i then count + 1 else count) end.

Section scans.
Context (w : Z).
(** A zero source leaves the destination [r] as it was. *)
Definition bsf (r v : Z) : Z := if v =? 0 then r else scan_up (Z.to_nat w) v 0.
Definition bsr (r v : Z) : Z := if v =? 0 then r else scan_down (Z.to_nat w) v (w - 1).
Definition popcnt (v : Z) : Z := count_bits (Z.to_nat w) v 0 0.
Definition tzcnt (v : Z) : Z := scan_up (Z.to_nat w) v 0.
(** [while (temp >= 0 && bit(src, temp) == 0) { temp--; dest++; }] *)
Definition lzcnt (v : Z) : Z := w - 1 - scan_down (Z.to_nat w) v (w - 1).

(** The count is masked to five bits (six for a 64-bit operand). *)
Definition rot_count (n : Z) : Z := (if w =? 64 then Z.land n 63 else Z.land n 31) mod w.
Definition rol (v n : Z) : Z :=
  let c := rot_count n in Z.lor (Z.shiftl v c mod 2 ^ w) (Z.shiftr v (w - c)).
Definition ror (v n : Z) : Z :=
  let c := rot_count n in Z.lor (Z.shiftr v c) (Z.shiftl v (w - c) mod 2 ^ w).
End scans.

(** ** Byte order *)

Fixpoint bytes_le (n : nat) (v : Z) : list Z :=
  match n with O => [] | S n => v mod 256 :: bytes_le n (v / 256) end.
Fixpoint of_bytes_le (l : list Z) : Z := match l with [] => 0 | b :: l => b + 256 * of_bytes_le l end.
Definition bswap (n : nat) (v : Z) : Z := of_bytes_le (reverse (bytes_le n v)).
