(* ===== verification/KasmTheorems.v ===== *)
(** * Theorems on kasm-expanded.h

    The scans find the least and the greatest set bit, the count counts them,
    rotations and byte swaps are undone by their inverses, the bit-string
    operations change the addressed bit of the addressed word and nothing else,
    and what they return is the old bit in its low byte only. *)

From S2P Require Import Prelude Kasm.

(** ** Bits of a [w]-bit word *)

Lemma testbit_above v w i : 0 <= v < 2 ^ w -> w <= i -> Z.testbit v i = false.
Proof.
  intros Hv Hi. destruct (decide (v = 0)) as [->|]; [apply Z.bits_0|]. apply Z.bits_above_log2; [lia|].
  enough (Z.log2 v < w) by lia. apply Z.log2_lt_pow2; lia.
Qed.

Lemma log2_word v w : 0 < v < 2 ^ w -> 0 <= Z.log2 v < w.
Proof. intros. split; [apply Z.log2_nonneg|]. apply Z.log2_lt_pow2; lia. Qed.

Lemma word_eq x y w :
  0 <= x < 2 ^ w -> 0 <= y < 2 ^ w ->
  (forall i, 0 <= i < w -> Z.testbit x i = Z.testbit y i) -> x = y.
Proof.
  intros Hx Hy Heq. apply Z.bits_inj'. intros i Hi.
  destruct (Z_lt_ge_dec i w); [by apply Heq|]. by rewrite !(testbit_above _ w) by lia.
Qed.

(** ** Scans *)

Lemma scan_up_first t v i k :
  i <= k < i + Z.of_nat t -> Z.testbit v k = true ->
  (forall j, i <= j < k -> Z.testbit v j = false) -> scan_up t v i = k.
Proof.
  revert i. induction t as [|t IH]; intros i Hk Hset Hclear; cbn [scan_up]; [lia|].
  destruct (decide (i = k)) as [->|]; [by rewrite Hset|].
  rewrite Hclear by lia. apply IH; [lia|done|]. intros. apply Hclear. lia.
Qed.

Lemma scan_up_none t v i :
  (forall j, i <= j < i + Z.of_nat t -> Z.testbit v j = false) -> scan_up t v i = i + Z.of_nat t.
Proof.
  revert i. induction t as [|t IH]; intros i Hclear; cbn [scan_up]; [lia|].
  rewrite Hclear by lia. rewrite IH; [lia|]. intros. apply Hclear. lia.
Qed.

(** Where the upward scan stops: at the first set bit, if there is one. *)
Lemma scan_up_cases t v i :
  let r := scan_up t v i in
  i <= r <= i + Z.of_nat t /\ (forall j, i <= j < r -> Z.testbit v j = false) /\
  (r < i + Z.of_nat t -> Z.testbit v r = true).
Proof.
  revert i. induction t as [|t IH]; intros i; cbn [scan_up].
  - split; [lia|]. split; intros; lia.
  - destruct (Z.testbit v i) eqn:E; [split; [lia|]; split; [lia|done]|].
    destruct (IH (i + 1)) as (Hb & Hc & Hs). split; [lia|]. split; [|intros; apply Hs; lia].
    intros j Hj. destruct (decide (j = i)) as [->|]; [done|]. apply Hc. lia.
Qed.

Lemma scan_down_last t v i k :
  i - Z.of_nat t < k <= i -> Z.testbit v k = true ->
  (forall j, k < j <= i -> Z.testbit v j = false) -> scan_down t v i = k.
Proof.
  revert i. induction t as [|t IH]; intros i Hk Hset Hclear; cbn [scan_down]; [lia|].
  destruct (decide (i = k)) as [->|]; [by rewrite Hset|].
  rewrite Hclear by lia. apply IH; [lia|done|]. intros. apply Hclear. lia.
Qed.

Lemma scan_down_zero t i : scan_down t 0 i = i - Z.of_nat t.
Proof. revert i. induction t as [|t IH]; intros i; cbn [scan_down]; [|rewrite Z.bits_0, IH]; lia. Qed.

(** The downward scan of a word stops at its logarithm. *)
Lemma scan_down_log2 w v : 0 < v < 2 ^ w -> scan_down (Z.to_nat w) v (w - 1) = Z.log2 v.
Proof.
  intros Hv. pose proof (log2_word v w Hv). apply scan_down_last; [lia|apply Z.bit_log2; lia|].
  intros. apply Z.bits_above_log2; lia.
Qed.

Lemma tzcnt_least w v :
  0 < v < 2 ^ w ->
  0 <= tzcnt w v < w /\ Z.testbit v (tzcnt w v) = true /\
  (forall j, 0 <= j < tzcnt w v -> Z.testbit v j = false).
Proof.
  intros Hv. pose proof (log2_word v w Hv). unfold tzcnt.
  destruct (scan_up_cases (Z.to_nat w) v 0) as (Hb & Hc & Hs). cbv zeta in *.
  assert (scan_up (Z.to_nat w) v 0 < w).
  { apply Z.nle_gt. intros Hge. specialize (Hc (Z.log2 v)). rewrite Z.bit_log2 in Hc by lia.
    discriminate Hc. lia. }
  split; [lia|]. split; [apply Hs; lia|done].
Qed.

Lemma tzcnt_mod w v : 0 < v < 2 ^ w -> v mod 2 ^ tzcnt w v = 0.
Proof.
  intros Hv. destruct (tzcnt_least w v Hv) as (Hb & _ & Hc). apply Z.bits_inj'. intros i Hi.
  rewrite Z.bits_0. destruct (Z_lt_ge_dec i (tzcnt w v)).
  - rewrite Z.mod_pow2_bits_low by lia. apply Hc. lia.
  - apply Z.mod_pow2_bits_high. lia.
Qed.

(** ** Counting *)

Definition set_bits (w v : Z) : list Z := filter (fun i => Z.testbit v i = true) (seqZ 0 w).

Lemma count_bits_filter t v i c :
  count_bits t v i c =
  c + Z.of_nat (length (filter (fun j => Z.testbit v j = true) (seqZ i (Z.of_nat t)))).
Proof.
  revert i c. induction t as [|t IH]; intros i c; cbn [count_bits]; [by rewrite Z.add_0_r|].
  rewrite IH, (seqZ_cons i (Z.of_nat (S t))) by lia. replace (Z.pred (Z.of_nat (S t))) with (Z.of_nat t) by lia.
  replace (Z.succ i) with (i + 1) by lia.
  rewrite filter_cons. destruct (Z.testbit v i); case_decide; simpl; try done; lia.
Qed.

(** ** Rotations *)

Lemma rot_count_range w n : 0 < w -> 0 <= rot_count w n < w.
Proof. intros. unfold rot_count. apply Z.mod_pos_bound. lia. Qed.

Lemma log2_small x w : 0 < w -> 0 <= x < 2 ^ w -> Z.log2 x < w.
Proof.
  intros. destruct (decide (x = 0)) as [->|]; [simpl; lia|]. apply Z.log2_lt_pow2; lia.
Qed.

Lemma lor_word w x y : 0 < w -> 0 <= x < 2 ^ w -> 0 <= y < 2 ^ w -> 0 <= Z.lor x y < 2 ^ w.
Proof.
  intros Hw Hx Hy. assert (0 <= Z.lor x y) by (apply Z.lor_nonneg; lia). split; [done|].
  destruct (decide (Z.lor x y = 0)); [lia|]. apply Z.log2_lt_pow2; [lia|].
  rewrite Z.log2_lor by lia. apply Z.max_lub_lt; by apply log2_small.
Qed.

Lemma shiftr_word w v n : 0 <= n -> 0 <= v < 2 ^ w -> 0 <= Z.shiftr v n < 2 ^ w.
Proof.
  intros. rewrite Z.shiftr_div_pow2 by lia. pose proof (Z.pow_pos_nonneg 2 n). split.
  - apply Z.div_pos; lia.
  - apply Z.div_lt_upper_bound; nia.
Qed.

Lemma pow2_mod_word w v : 0 <= w -> 0 <= v mod 2 ^ w < 2 ^ w.
Proof. intros. apply Z.mod_pos_bound. lia. Qed.

Section rotations.
Context (w v n : Z) (Hw : 0 < w) (Hv : 0 <= v < 2 ^ w).

Lemma rol_word : 0 <= rol w v n < 2 ^ w.
Proof using Hw Hv.
  pose proof (rot_count_range w n Hw). unfold rol.
  apply lor_word; [done|apply pow2_mod_word; lia|apply shiftr_word; lia].
Qed.

Lemma ror_word : 0 <= ror w v n < 2 ^ w.
Proof using Hw Hv.
  pose proof (rot_count_range w n Hw). unfold ror.
  apply lor_word; [done|apply shiftr_word; lia|apply pow2_mod_word; lia].
Qed.

(** Bit [i] of a rotated word is the bit [c] places below it, around the end. *)
Lemma rol_bit i : 0 <= i < w -> Z.testbit (rol w v n) i = Z.testbit v ((i - rot_count w n) mod w).
Proof using Hw Hv.
  intros Hi. pose proof (rot_count_range w n Hw) as Hc. unfold rol. set (c := rot_count w n) in *. cbv zeta.
  rewrite Z.lor_spec, Z.mod_pow2_bits_low, Z.shiftl_spec, Z.shiftr_spec by lia.
  destruct (Z_lt_ge_dec i c).
  - rewrite (Z.testbit_neg_r v (i - c)) by lia. simpl. f_equal.
    apply (Z.mod_unique_pos _ _ (-1)); lia.
  - rewrite (testbit_above v w (i + (w - c))) by lia. rewrite orb_false_r. f_equal.
    symmetry. apply Z.mod_small. lia.
Qed.

Lemma ror_bit i : 0 <= i < w -> Z.testbit (ror w v n) i = Z.testbit v ((i + rot_count w n) mod w).
Proof using Hw Hv.
  intros Hi. pose proof (rot_count_range w n Hw) as Hc. unfold ror. set (c := rot_count w n) in *. cbv zeta.
  rewrite Z.lor_spec, Z.mod_pow2_bits_low, Z.shiftl_spec, Z.shiftr_spec by lia.
  destruct (Z_lt_ge_dec (i + c) w).
  - rewrite (Z.testbit_neg_r v (i - (w - c))) by lia. rewrite orb_false_r. f_equal.
    symmetry. apply Z.mod_small. lia.
  - rewrite (testbit_above v w (i + c)) by lia. simpl. f_equal.
    apply (Z.mod_unique_pos _ _ 1); lia.
Qed.
End rotations.

Lemma ror_rol w v n : 0 < w -> 0 <= v < 2 ^ w -> ror w (rol w v n) n = v.
Proof.
  intros Hw Hv. pose proof (rol_word w v n Hw Hv) as Hr.
  apply (word_eq _ _ w); [by apply ror_word|done|]. intros i Hi.
  rewrite ror_bit, rol_bit by (try apply Z.mod_pos_bound; lia).
  rewrite Zminus_mod_idemp_l, Z.add_simpl_r, Z.mod_small by lia. done.
Qed.

Lemma rol_ror w v n : 0 < w -> 0 <= v < 2 ^ w -> rol w (ror w v n) n = v.
Proof.
  intros Hw Hv. pose proof (ror_word w v n Hw Hv) as Hr.
  apply (word_eq _ _ w); [by apply rol_word|done|]. intros i Hi.
  rewrite rol_bit, ror_bit by (try apply Z.mod_pos_bound; lia).
  rewrite Zplus_mod_idemp_l, Z.sub_simpl_r, Z.mod_small by lia. done.
Qed.

(** ** Byte order *)

Lemma of_bytes_le_bytes n v : of_bytes_le (bytes_le n v) = v mod 256 ^ Z.of_nat n.
Proof.
  revert v. induction n as [|n IH]; intros v; cbn [bytes_le of_bytes_le]; [by rewrite Z.mod_1_r|].
  rewrite IH. rewrite Nat2Z.inj_succ, Z.pow_succ_r, Z.rem_mul_r by lia. lia.
Qed.

Definition is_byte (b : Z) : Prop := 0 <= b < 256.

Lemma bytes_le_bytes n v : Forall is_byte (bytes_le n v).
Proof.
  revert v. induction n as [|n IH]; intros v; constructor; [|apply IH]. apply Z.mod_pos_bound. lia.
Qed.

Lemma length_bytes_le n v : length (bytes_le n v) = n.
Proof. revert v. induction n as [|n IH]; intros v; [done|]. cbn. by rewrite IH. Qed.

Lemma bytes_le_of_bytes l : Forall is_byte l -> bytes_le (length l) (of_bytes_le l) = l.
Proof.
  induction 1 as [|b l Hb Hl IH]; [done|]. unfold is_byte in Hb. cbn [length bytes_le of_bytes_le].
  replace ((b + 256 * of_bytes_le l) mod 256) with b by dlia.
  replace ((b + 256 * of_bytes_le l) / 256) with (of_bytes_le l) by dlia. by rewrite IH.
Qed.

(** The bytes of a swapped word are the bytes of the word, in the other order. *)
Lemma bswap_bytes n v : bytes_le n (bswap n v) = reverse (bytes_le n v).
Proof.
  unfold bswap. rewrite <- (bytes_le_of_bytes (reverse (bytes_le n v))) at 2.
  - by rewrite length_reverse, length_bytes_le.
  - apply Forall_reverse, bytes_le_bytes.
Qed.

Lemma bswap_bswap n v : bswap n (bswap n v) = v mod 256 ^ Z.of_nat n.
Proof. unfold bswap at 1. by rewrite bswap_bytes, reverse_involutive, of_bytes_le_bytes. Qed.

(** ** Bit strings *)

(** Bit [bit] of the string at [base]. *)
Definition bit_at (m : mem) (base bit : Z) : bool := Z.testbit (m (bit_word base bit)) (bit_index bit).

Lemma bit_index_range bit : 0 <= bit_index bit < 64.
Proof. apply Z.mod_pos_bound. lia. Qed.

(** Word and index name the bit: two signed numbers with the same ones are equal. *)
Lemma bit_place base i j :
  bit_word base i = bit_word base j -> bit_index i = bit_index j -> s64 i = s64 j.
Proof. unfold bit_word, bit_index. intros. dlia. Qed.

(** An operation that acts on each bit of a word as [g] does, and leaves the bits
    alone where its second operand has none. *)
Definition bitwise (f : Z -> Z -> Z) (g : bool -> bool) : Prop :=
  forall a k i, 0 <= k -> 0 <= i ->
  Z.testbit (f a (2 ^ k)) i = if i =? k then g (Z.testbit a i) else Z.testbit a i.

Ltac bit_cases :=
  intros a k i Hk Hi; rewrite ?Z.lor_spec, ?Z.ldiff_spec, ?Z.lxor_spec, Z.pow2_bits_eqb by lia;
  rewrite (Z.eqb_sym k i); destruct (i =? k), (Z.testbit a i); done.

Lemma bitwise_lor : bitwise Z.lor (fun _ => true).
Proof. bit_cases. Qed.
Lemma bitwise_ldiff : bitwise Z.ldiff (fun _ => false).
Proof. bit_cases. Qed.
Lemma bitwise_lxor : bitwise Z.lxor negb.
Proof. bit_cases. Qed.

Lemma bit_op_bit f g c m base bit j :
  bitwise f g ->
  bit_at (bit_op f c m base bit).1 base j =
  if s64 j =? s64 bit then g (bit_at m base j) else bit_at m base j.
Proof.
  intros Hf. unfold bit_at, bit_op. cbn [fst]. pose proof (bit_index_range bit). pose proof (bit_index_range j).
  destruct (decide (bit_word base j = bit_word base bit)) as [Hw|Hw].
  - rewrite Hw, upd_eq, Hf by lia. destruct (Z.eqb_spec (s64 j) (s64 bit)) as [E|E].
    + unfold bit_index. by rewrite E, Z.eqb_refl.
    + rewrite (proj2 (Z.eqb_neq _ _)); [done|]. intros Hi. by apply E, (bit_place base).
  - rewrite upd_ne by done. rewrite (proj2 (Z.eqb_neq _ _)); [done|]. intros E.
    apply Hw. unfold bit_word. by rewrite E.
Qed.

Lemma bit_op_frame f c m base bit x :
  x <> bit_word base bit -> (bit_op f c m base bit).1 x = m x.
Proof. apply upd_ne. Qed.

Lemma setc_low c cf : u8 (setc c cf) = Z.b2z cf.
Proof.
  unfold u8, setc. rewrite <- Z.land_ones, Z.land_lor_distr_l, <- Z.land_assoc by lia.
  change (Z.land 0xFFFFFF00 (Z.ones 8)) with 0. rewrite Z.land_0_r. by destruct cf.
Qed.

Lemma setc_exact c cf : setc c cf = Z.b2z cf <-> Z.land c 0xFFFFFF00 = 0.
Proof.
  unfold setc. split; [|intros ->; done]. intros E. apply Z.bits_inj'. intros i Hi. rewrite Z.bits_0.
  assert (Hb : Z.testbit (Z.lor (Z.land c 0xFFFFFF00) (Z.b2z cf)) i = Z.testbit (Z.b2z cf) i) by by rewrite E.
  rewrite Z.lor_spec in Hb. rewrite Z.land_spec in *. destruct (decide (i = 0)) as [->|].
  - change (Z.testbit 0xFFFFFF00 0) with false. apply andb_false_r.
  - rewrite (testbit_above (Z.b2z cf) 1 i), orb_false_r in Hb by (destruct cf; simpl; lia). done.
Qed.

(** ** Atomic counters *)

(** [n] processors one after the other, in whatever order the bus serialises
    them: each adds one and keeps what it saw. *)
Fixpoint xadd_run (w : Z) (n : nat) (m : mem) (addr : Z) : mem * list Z :=
  match n with
  | O => (m, [])
  | S n => let '(m', t) := xadd w m addr 1 in let '(m'', ts) := xadd_run w n m' addr in (m'', t :: ts)
  end.

Lemma xadd_run_tickets w n m addr :
  0 <= w -> 0 <= m addr < 2 ^ w ->
  (xadd_run w n m addr).2 = map (fun i => (m addr + i) mod 2 ^ w) (seqZ 0 (Z.of_nat n)).
Proof.
  intros Hw. revert m. induction n as [|n IH]; intros m Hm; [done|].
  cbn [xadd_run xadd]. specialize (IH (m.[addr <- (m addr + 1) mod 2 ^ w])).
  destruct (xadd_run w n _ addr) as [m'' ts]. cbn [snd] in *. rewrite IH by (rewrite upd_eq; by apply pow2_mod_word).
  rewrite (seqZ_cons 0 (Z.of_nat (S n))) by lia. cbn [map]. rewrite Z.add_0_r, (Z.mod_small (m addr)) by done. f_equal.
  replace (Z.pred (Z.of_nat (S n))) with (Z.of_nat n) by lia. change (Z.succ 0) with (1 + 0).
  rewrite upd_eq, <- fmap_add_seqZ. unfold fmap. rewrite map_map. apply map_ext. intros i.
  rewrite Zplus_mod_idemp_l. f_equal. lia.
Qed.

Lemma xadd_tickets_distinct w n m addr :
  0 <= w -> 0 <= m addr < 2 ^ w -> Z.of_nat n <= 2 ^ w -> NoDup (xadd_run w n m addr).2.
Proof.
  intros Hw Hm Hn. rewrite xadd_run_tickets by done. apply NoDup_fmap_2_strong; [|apply NoDup_seqZ].
  intros i j Hi%elem_of_seqZ Hj%elem_of_seqZ E.
  assert (Hd : (i - j) mod 2 ^ w = 0).
  { replace (i - j) with ((m addr + i) - (m addr + j)) by lia.
    rewrite Zminus_mod, E, Z.sub_diag. apply Z.mod_0_l. lia. }
  apply Z.mod_divide in Hd as [q Hq]; [|lia]. assert (q = 0) by nia. nia.
Qed.

(** ** Registers *)

Lemma mov_to_same r v s : mov_from r (mov_to r v s) = v.
Proof. unfold mov_from, mov_to. cbn. by rewrite decide_True. Qed.

Lemma mov_to_other r r' v s : r' <> r -> mov_from r' (mov_to r v s) = mov_from r' s.
Proof. intros. unfold mov_from, mov_to. cbn. by rewrite decide_False. Qed.

Lemma join32_halves v : 0 <= v < 2 ^ 64 -> join32 (u32 (Z.shiftr v 32)) (u32 v) = v.
Proof.
  intros Hv. unfold join32, shl64. change (32 mod 64) with 32.
  assert (E : Z.shiftl (u32 (Z.shiftr v 32)) 32 = v - v mod 2 ^ 32).
  { rewrite Z.shiftl_mul_pow2, Z.shiftr_div_pow2 by lia. unfold u32. dlia. }
  rewrite E. rewrite u64_small by dlia. rewrite <- E. unfold u32 at 2.
  apply (word_eq _ _ 64); [|done|].
  - rewrite E. apply lor_word; dlia.
  - intros i Hi. rewrite Z.lor_spec, Z.shiftl_spec by lia. destruct (Z_lt_ge_dec i 32).
    + rewrite Z.testbit_neg_r, Z.mod_pow2_bits_low by lia. done.
    + rewrite Z.mod_pow2_bits_high, orb_false_r by lia. unfold u32.
      rewrite Z.mod_pow2_bits_low, Z.shiftr_spec by lia. f_equal. lia.
Qed.

Lemma halves_join v : 0 <= v < 2 ^ 64 -> u32 (Z.shiftr v 32) * 2 ^ 32 + u32 v = v.
Proof. intros. rewrite Z.shiftr_div_pow2 by lia. unfold u32. dlia. Qed.

(** A word written to a model-specific or extended control register through its
    two halves is the word read back, and no other register changes. *)
Lemma wide_registers_roundtrip n v s :
  0 <= v < 2 ^ 64 ->
  rdmsr n (wrmsr n v s) = v /\ xgetbv n (xsetbv n v s) = v /\
  (forall r, r <> Msr n -> mov_from r (wrmsr n v s) = mov_from r s) /\
  (forall r, r <> Xcr n -> mov_from r (xsetbv n v s) = mov_from r s) /\
  rdtsc v = v.
Proof.
  intros Hv. unfold rdmsr, wrmsr, xgetbv, xsetbv, rdtsc. rewrite halves_join, !mov_to_same, join32_halves by done.
  repeat split; intros; by apply mov_to_other.
Qed.

(** Flags outside virtual-8086 mode and single-instruction resumption: the ones
    POPFQ loads, and bit 1. *)
Definition plain_flags (f : Z) : Prop := f = Z.lor (Z.land f popf_loads) 2.

(** A mask that covers those bits keeps them. *)
Lemma plain_flags_mask f k :
  plain_flags f -> Z.land popf_loads k = popf_loads -> Z.land 2 k = 2 -> Z.land f k = f.
Proof.
  unfold plain_flags. intros Hf Hk H2. rewrite Hf. by rewrite Z.land_lor_distr_l, <- Z.land_assoc, Hk, H2.
Qed.

Lemma plain_flags_pushf f : plain_flags f -> pushf f = f.
Proof. intros. unfold pushf. rewrite Z.ldiff_land. by apply plain_flags_mask. Qed.

Lemma plain_flags_word f : plain_flags f -> u64 f = f.
Proof. intros. unfold u64. rewrite <- Z.land_ones by lia. by apply plain_flags_mask. Qed.

(** Flags saved before a critical section and written back after it are what
    they were, whatever the section did to them. *)
Lemma flags_restore s s' :
  plain_flags (mov_from Rflags s) -> plain_flags (mov_from Rflags s') ->
  mov_from Rflags (write_rflags (read_rflags s) s') = mov_from Rflags s.
Proof.
  intros Hs Hs'. unfold read_rflags, write_rflags. rewrite mov_to_same, plain_flags_pushf, plain_flags_word by done.
  unfold popf. rewrite Hs'. rewrite Z.land_lor_distr_l, <- Z.land_assoc.
  change (Z.land popf_loads popf_keeps) with 0. change (Z.land 2 popf_keeps) with 0.
  rewrite Z.land_0_r, !Z.lor_0_l. by rewrite <- Hs.
Qed.

(** ** The theorems *)

(** On every nonzero word BSF and TZCNT return the least set bit, BSR and
    LZCNT agree on the greatest one, which is the binary logarithm, and POPCNT
    counts the set bits; on zero the scans leave the destination alone and the
    counts return the width and zero. *)
Theorem scans_find_bits w v r :
  0 < w -> 0 <= v < 2 ^ w ->
  (v <> 0 ->
     bsf w r v = tzcnt w v /\ Z.testbit v (bsf w r v) = true /\
     (forall j, 0 <= j < bsf w r v -> Z.testbit v j = false) /\
     bsr w r v = Z.log2 v /\ lzcnt w v = w - 1 - bsr w r v) /\
  (v = 0 -> bsf w r v = r /\ bsr w r v = r /\ tzcnt w v = w /\ lzcnt w v = w) /\
  popcnt w v = Z.of_nat (length (set_bits w v)).
Proof.
  intros Hw Hv. unfold bsf, bsr, lzcnt. split; [|split].
  - intros Hv0. rewrite (proj2 (Z.eqb_neq v 0) Hv0). fold (tzcnt w v). rewrite scan_down_log2 by lia.
    destruct (tzcnt_least w v) as (_ & ? & ?); [lia|]. done.
  - intros ->. rewrite scan_down_zero. unfold tzcnt. rewrite scan_up_none by (intros; apply Z.bits_0).
    cbn [Z.eqb]. repeat split; lia.
  - unfold popcnt, set_bits. rewrite count_bits_filter, Z2Nat.id by lia. done.
Qed.

Lemma scans_find_bits_witness :
  bsf 64 0 0xF0 = 4 /\ bsr 64 0 0xF0 = 7 /\ lzcnt 64 0xF0 = 56 /\ popcnt 64 0xF0 = 4 /\
  popcnt 64 0xF0 = Z.of_nat (length (set_bits 64 0xF0)).
Proof.
  split; [reflexivity|]. split; [reflexivity|]. split; [reflexivity|]. split; [reflexivity|].
  apply (scans_find_bits 64 0xF0 0); lia.
Defined.

(** A rotation is undone by the opposite one with the same count, whatever
    the count (the processor masks it), and swapping the bytes of a word twice
    gives it back, the bytes of the swapped word being its bytes backwards. *)
Theorem rotate_swap_roundtrip w v n b :
  0 < w -> 0 <= v < 2 ^ w ->
  ror w (rol w v n) n = v /\ rol w (ror w v n) n = v /\
  bytes_le b (bswap b v) = reverse (bytes_le b v) /\
  (w = 8 * Z.of_nat b -> bswap b (bswap b v) = v).
Proof.
  intros Hw Hv. split; [by apply ror_rol|]. split; [by apply rol_ror|]. split; [apply bswap_bytes|].
  intros ->. rewrite bswap_bswap. apply Z.mod_small. by rewrite <- (Z.pow_mul_r 2 8) by lia.
Qed.

Lemma rotate_swap_roundtrip_witness :
  rol 32 0x12345678 8 = 0x34567812 /\ ror 32 (rol 32 0x12345678 40) 40 = 0x12345678 /\
  bswap 4 0x12345678 = 0x78563412 /\ bswap 4 (bswap 4 0x12345678) = 0x12345678.
Proof.
  split; [reflexivity|]. destruct (rotate_swap_roundtrip 32 0x12345678 40 4) as (H1 & _ & _ & H2); [lia|lia|].
  split; [exact H1|]. split; [reflexivity|]. by apply H2.
Defined.

(** BTS, BTR and BTC with a bit number in a register set, clear and flip
    exactly that bit of the string at the base (the number being a signed 64-bit
    one, so that the word before the base is reached too) and leave every other
    bit and word alone.  The low byte of what the wrapper returns is the bit's
    old value; the [int] itself is that value only when the register the
    compiler chose held zero in the bytes SETC does not write. *)
Theorem bit_string_operations c m base bit :
  (forall j, bit_at (bts64 c m base bit).1 base j = if s64 j =? s64 bit then true else bit_at m base j) /\
  (forall j, bit_at (btr64 c m base bit).1 base j = if s64 j =? s64 bit then false else bit_at m base j) /\
  (forall j, bit_at (btc64 c m base bit).1 base j =
             if s64 j =? s64 bit then negb (bit_at m base j) else bit_at m base j) /\
  (forall x, x <> bit_word base bit ->
     (bts64 c m base bit).1 x = m x /\ (btr64 c m base bit).1 x = m x /\ (btc64 c m base bit).1 x = m x) /\
  (let old := bit_at m base bit in
   forall r, r ∈ [bt64 c m base bit; (bts64 c m base bit).2; (btr64 c m base bit).2; (btc64 c m base bit).2] ->
   u8 r = Z.b2z old /\ (r = Z.b2z old <-> Z.land c 0xFFFFFF00 = 0)).
Proof.
  split; [intros; apply (bit_op_bit _ _ _ _ _ _ _ bitwise_lor)|].
  split; [intros; apply (bit_op_bit _ _ _ _ _ _ _ bitwise_ldiff)|].
  split; [intros; apply (bit_op_bit _ _ _ _ _ _ _ bitwise_lxor)|].
  split; [intros; repeat split; by apply bit_op_frame|].
  cbv zeta. intros r Hr. assert (r = setc c (bit_at m base bit)) as ->
    by (rewrite !elem_of_cons, elem_of_nil in Hr; intuition).
  split; [apply setc_low|apply setc_exact].
Qed.
