(* ===== verification/KasmTypes.v ===== *)
(** * kasm-expanded.h: every value has its C type

    The wrappers take and return fixed-width integers.  A register file in which
    each register holds a value of its width stays one under any sequence of the
    wrappers that write it, and what the reading wrappers return fits their
    result types. *)

From S2P Require Import Prelude Kasm KasmTheorems.

Definition fits (w v : Z) : Prop := 0 <= v < 2 ^ w.

(** Widths of the registers. *)
Definition reg_width (r : reg) : Z :=
  match r with
  | Seg _ | IdtrLimit | GdtrLimit | Ldtr | Tr => 16
  | _ => 64
  end.
Definition regs_typed (s : xstate) : Prop := forall r, fits (reg_width r) (mov_from r s).
Definition words_typed (w : Z) (m : mem) : Prop := forall a, fits w (m a).

(** ** Widths under the operations *)

Lemma fits_mod w v : 0 <= w -> fits w (v mod 2 ^ w).
Proof. intros. apply Z.mod_pos_bound. lia. Qed.
Lemma fits_u64 v : fits 64 (u64 v).
Proof. by apply fits_mod. Qed.
Lemma fits_u16 v : fits 16 (u16 v).
Proof. by apply fits_mod. Qed.
Lemma fits_mono w w' v : w <= w' -> fits w v -> fits w' v.
Proof. unfold fits. intros Hw Hv. destruct (Z.le_gt_cases 0 w); [|by rewrite Z.pow_neg_r in Hv; lia].
  pose proof (Z.pow_le_mono_r 2 w w'). lia. Qed.

(** A value fits [w] bits when it is its own low [w] bits. *)
Lemma fits_iff w v : 0 <= w -> fits w v <-> Z.land v (Z.ones w) = v.
Proof.
  intros Hw. rewrite Z.land_ones by done. split; [apply Z.mod_small|]. intros <-. by apply fits_mod.
Qed.

Lemma fits_lor w a b : 0 <= w -> fits w a -> fits w b -> fits w (Z.lor a b).
Proof. intros Hw. rewrite !fits_iff by done. intros Ha Hb. by rewrite Z.land_lor_distr_l, Ha, Hb. Qed.
Lemma fits_land w a b : 0 <= w -> fits w a -> fits w (Z.land a b).
Proof. intros Hw. rewrite !fits_iff by done. intros Ha. by rewrite <- Z.land_assoc, (Z.land_comm b), Z.land_assoc, Ha. Qed.
Lemma fits_ldiff w a b : 0 <= w -> fits w a -> fits w (Z.ldiff a b).
Proof. intros Hw Ha. rewrite Z.ldiff_land. by apply fits_land. Qed.
Lemma fits_lxor w a b : 0 <= w -> fits w a -> fits w b -> fits w (Z.lxor a b).
Proof.
  intros Hw. rewrite !fits_iff by done. intros Ha Hb. apply Z.bits_inj'. intros n Hn.
  rewrite Z.land_spec, Z.lxor_spec. apply (f_equal (fun x => Z.testbit x n)) in Ha, Hb. rewrite Z.land_spec in Ha, Hb.
  destruct (Z.testbit a n), (Z.testbit b n), (Z.testbit (Z.ones w) n); done.
Qed.
Lemma fits_bit w i : 0 <= i < w -> fits w (2 ^ i).
Proof. intros Hi. split; [lia|]. apply Z.pow_lt_mono_r; lia. Qed.

Create HintDb typing.
#[export] Hint Resolve fits_u64 fits_u16 fits_lor fits_land fits_ldiff fits_lxor : typing.
#[export] Hint Extern 1 (0 <= _) => lia : typing.

Lemma fits_join32 hi lo : fits 32 lo -> fits 64 (join32 hi lo).
Proof.
  intros Hlo. unfold join32, shl64. apply fits_lor; [lia|apply fits_u64|]. by eapply fits_mono; [|exact Hlo].
Qed.
Lemma fits_pair hi lo : fits 64 (u32 hi * 2 ^ 32 + u32 lo).
Proof. pose proof (fits_mod 32 hi ltac:(lia)). pose proof (fits_mod 32 lo ltac:(lia)). unfold fits, u32 in *. lia. Qed.

(** ** The wrappers that write registers *)

Inductive kasm_op : Type :=
  | WriteGpr (r : gpr) (v : Z) | WriteCr (n v : Z) | WriteDr (n v : Z) | WriteSeg (r : sreg) (v : Z)
  | WriteFsbase (v : Z) | WriteGsbase (v : Z) | Swapgs | WriteRflags (v : Z) | Wrmsr (n v : Z) | Xsetbv (n v : Z)
  | Lidt (p : desc_ptr_t) | Lgdt (p : desc_ptr_t) | Lldt (v : Z) | Ltr (v : Z) | Invlpg (a : Z) | FlushTlb
  | Outb (p v : Z) | Outw (p v : Z) | Outl (p v : Z) | IoWait.

Definition kasm_exec (op : kasm_op) : xstate -> xstate :=
  match op with
  | WriteGpr r v => write_gpr r v | WriteCr n v => write_cr n v | WriteDr n v => write_dr n v
  | WriteSeg r v => write_seg r v | WriteFsbase v => write_fsbase v | WriteGsbase v => write_gsbase v
  | Swapgs => swapgs | WriteRflags v => write_rflags v | Wrmsr n v => wrmsr n v | Xsetbv n v => xsetbv n v
  | Lidt p => lidt p | Lgdt p => lgdt p | Lldt v => lldt v | Ltr v => ltr v | Invlpg a => invlpg a
  | FlushTlb => flush_tlb | Outb p v => outb p v | Outw p v => outw p v | Outl p v => outl p v | IoWait => io_wait
  end.

(** A structure read from memory holds a limit and a base of their types. *)
Definition op_typed (op : kasm_op) : Prop :=
  match op with Lidt p | Lgdt p => fits 16 (d_limit p) /\ fits 64 (d_base p) | _ => True end.

Definition kasm_run (ops : list kasm_op) (s : xstate) : xstate := foldl (fun s op => kasm_exec op s) s ops.

Lemma mov_to_typed r v s : regs_typed s -> fits (reg_width r) v -> regs_typed (mov_to r v s).
Proof. intros Hs Hv r'. unfold mov_from, mov_to. simpl. destruct (decide (r' = r)) as [->|]; [done|apply Hs]. Qed.

Lemma popf_fits old v : fits 64 old -> fits 64 v -> fits 64 (popf old v).
Proof. intros Ho Hv. unfold popf. repeat (apply fits_lor; [lia| |]); [| |done]; by apply fits_land. Qed.

Lemma kasm_exec_typed op s : op_typed op -> regs_typed s -> regs_typed (kasm_exec op s).
Proof.
  intros Hop Hs. destruct op; cbn [kasm_exec]; try exact Hs; try (apply mov_to_typed; [done|cbn [reg_width]; auto with typing; fail]).
  - unfold write_cr. assert (H : regs_typed (mov_to (Cr n) (u64 v) s)) by (apply mov_to_typed; [done|apply fits_u64]).
    by destruct (n =? 3).
  - apply mov_to_typed; [apply mov_to_typed; [done|]|]; exact (Hs (Msr _)).
  - apply mov_to_typed; [done|]. apply popf_fits; [exact (Hs Rflags)|apply fits_u64].
  - apply mov_to_typed; [done|apply fits_pair].
  - apply mov_to_typed; [done|apply fits_pair].
  - destruct Hop. do 2 (apply mov_to_typed; [|done]). done.
  - destruct Hop. do 2 (apply mov_to_typed; [|done]). done.
Qed.

Lemma kasm_run_typed ops s : Forall op_typed ops -> regs_typed s -> regs_typed (kasm_run ops s).
Proof.
  revert s. induction ops as [|op ops IH]; intros s Hops Hs; [done|]. apply Forall_cons in Hops as [Hop Hops].
  apply IH; [done|by apply kasm_exec_typed].
Qed.

(** ** The wrappers of memory words *)

Lemma upd_typed w m a v : words_typed w m -> fits w v -> words_typed w (m.[a <- v]).
Proof. intros Hm Hv x. unfold upd. by destruct (x =? a). Qed.

Lemma setc_typed c cf : fits 32 c -> fits 32 (setc c cf).
Proof. intros Hc. unfold setc. apply fits_lor; [lia|by apply fits_land|]. destruct cf; done. Qed.

Lemma bit_op_typed f c m base bit :
  (forall a b, fits 64 a -> fits 64 b -> fits 64 (f a b)) -> fits 32 c -> words_typed 64 m ->
  words_typed 64 (bit_op f c m base bit).1 /\ fits 32 (bit_op f c m base bit).2.
Proof.
  intros Hf Hc Hm. unfold bit_op. cbn [fst snd]. split; [|by apply setc_typed]. apply upd_typed; [done|]. apply Hf; [done|].
  apply fits_bit. unfold bit_index. apply Z.mod_pos_bound. lia.
Qed.

(** The wrappers are well typed: whatever sequence of register writes,
    descriptor-table loads, flag, model-specific-register and port writes runs from
    a register file whose values have their widths, each register still holds a
    value of its width afterwards, and every reading wrapper returns a value of its
    C result type; the atomic and bit-string wrappers keep a memory of 64-bit
    words one and return values of their result types. *)
Theorem wrappers_well_typed ops s m addr v v' c base bit :
  Forall op_typed ops -> regs_typed s -> words_typed 64 m -> fits 64 v -> fits 64 v' -> fits 32 c ->
  let s' := kasm_run ops s in
  regs_typed s' /\
  (forall r, fits 64 (read_gpr r s')) /\ (forall n, fits 64 (read_cr n s') /\ fits 64 (read_dr n s')) /\
  (forall r, fits 16 (read_seg r s')) /\ fits 64 (read_fsbase s') /\ fits 64 (read_gsbase s') /\
  fits 64 (read_rflags s') /\ (forall n, fits 64 (rdmsr n s') /\ fits 64 (xgetbv n s')) /\
  fits 16 (d_limit (sidt s')) /\ fits 64 (d_base (sidt s')) /\ fits 16 (sldt_r s') /\ fits 16 (str_r s') /\
  Forall (fun r : mem * Z => words_typed 64 r.1 /\ fits 64 r.2)
    [xchg m addr v; cmpxchg m addr v v'; xadd64 m addr v] /\
  Forall (fun r : mem * Z => words_typed 64 r.1 /\ fits 32 r.2)
    [bts64 c m base bit; btr64 c m base bit; btc64 c m base bit].
Proof.
  intros Hops Hs Hm Hv Hv' Hc s'. assert (Hs' : regs_typed s') by by apply kasm_run_typed. clearbody s'.
  split_and!; try done.
  - intros r. exact (Hs' (Gpr r)).
  - intros n. exact (conj (Hs' (Cr n)) (Hs' (Dr n))).
  - intros r. apply fits_u16.
  - exact (Hs' (Msr MSR_FS_BASE)).
  - exact (Hs' (Msr MSR_GS_BASE)).
  - apply fits_ldiff; [lia|exact (Hs' Rflags)].
  - intros n. split; apply fits_join32; by apply fits_mod.
  - exact (Hs' IdtrLimit).
  - exact (Hs' IdtrBase).
  - apply fits_u16.
  - apply fits_u16.
  - repeat (apply Forall_cons; split); [| | |apply Forall_nil_2]; cbn [fst snd].
    + split; [by apply upd_typed|apply Hm].
    + unfold cmpxchg. cbn [fst snd]. split; [|apply Hm]. destruct (_ =? _); [by apply upd_typed|done].
    + split; [|apply Hm]. apply upd_typed; [done|by apply fits_mod].
  - repeat (apply Forall_cons; split); [| | |apply Forall_nil_2]; apply bit_op_typed; eauto with typing.
Qed.

Lemma wrappers_well_typed_witness :
  fits 64 (rdmsr MSR_GS_BASE (kasm_run [Wrmsr MSR_KERNEL_GS_BASE (-1); Swapgs] (mk_xstate (fun _ => 0) [] []))).
Proof.
  refine (proj1 (proj1 (proj2 (proj2 (proj2 (proj2 (proj2 (proj2 (proj2 (wrappers_well_typed
    [Wrmsr MSR_KERNEL_GS_BASE (-1); Swapgs] (mk_xstate (fun _ => 0) [] []) (fun _ => 0) 0 0 0 0 0 0
    _ _ _ _ _ _)))))))) MSR_GS_BASE)).
  - repeat (apply Forall_cons; split; [exact I|]). apply Forall_nil_2.
  - intros r. destruct r; done.
  - intros a. done.
  - done.
  - done.
  - done.
Defined.
