(* ===== verification/InlineAsm.v ===== *)
(** * Extended inline assembly

    A statement [__asm__ volatile("template" : outputs : inputs : clobbers)] as the
    compiler and the assembler treat it: the template is text in AT&T syntax, the
    operands have constraints and the width of their C types.  [assemble] reads the
    text and settles the operand sizes, by the suffix of a mnemonic or by the
    registers it names, and fails where the assembler would; [asm_exec] is what the
    processor then does.  The instructions themselves are those of Kasm.  Clobber
    lists only tell the compiler what is lost and have no counterpart here. *)

From S2P Require Import Prelude Kasm.
From Stdlib Require Import Ascii String.
Open Scope Z_scope.

(** ** Operands *)

(** A constraint string and the width of the C operand in bits. *)
Record opnd : Type := Op { o_con : string; o_width : Z }.

(** Where the compiler puts it: in any register, in a given one, in memory, or in
    the place of an earlier operand. *)
Inductive opnd_place : Set := AnyReg | Fixed (r : gpr) | Memory | Same (n : nat).
#[export] Instance place_eq_dec : EqDecision opnd_place.
Proof. solve_decision. Defined.

Definition place_of (c : string) : option opnd_place :=
  let c := match c with
           | String "=" c | String "+" c => c
           | _ => c
           end in
  if (c =? "r")%string || (c =? "rm")%string then Some AnyReg
  else if (c =? "a")%string then Some (Fixed RAX)
  else if (c =? "b")%string then Some (Fixed RBX)
  else if (c =? "c")%string then Some (Fixed RCX)
  else if (c =? "d")%string || (c =? "Nd")%string then Some (Fixed RDX)
  else if (c =? "m")%string then Some Memory
  else if (c =? "0")%string then Some (Same 0)
  else None.

(** ** Text *)

(** The pieces of a text between separators. *)
Fixpoint split_at (sep : ascii) (l acc : list ascii) : list (list ascii) :=
  match l with
  | [] => [reverse acc]
  | c :: l => if (c =? sep)%char then reverse acc :: split_at sep l [] else split_at sep l (c :: acc)
  end.
Fixpoint skip_spaces (l : list ascii) : list ascii :=
  match l with " "%char :: l => skip_spaces l | _ => l end.
Fixpoint first_word (l acc : list ascii) : list ascii * list ascii :=
  match l with
  | [] => (reverse acc, [])
  | c :: l => if (c =? " ")%char then (reverse acc, l) else first_word l (c :: acc)
  end.
Definition no_spaces (l : list ascii) : list ascii := filter (fun c => c <> " "%char) l.

(** ** Instructions *)

Inductive arg : Set :=
  | Slot (n : nat)          (* %n: the operand *)
  | SlotByte (n : nat)      (* %bn: its low byte *)
  | Deref (n : nat)         (* (%n): what it points to *)
  | Hard (r : reg) (w : Z). (* a register by name *)

Inductive opcode : Set :=
  | Mov | Bsf | Bsr | Popcnt | Lzcnt | Tzcnt | Bswap | Rol | Ror | Xchg | Cmpxchg | Xadd
  | Bt | Bts | Btr | Btc | Setc | Pushf | Popf | Push | Pop | Rdfsbase | Rdgsbase | Wrfsbase | Wrgsbase
  | Rdmsr | Wrmsr | Xgetbv | Xsetbv | Invlpg | Out | Lldt | Ltr | Sldt | Str.

Record asm_instr : Set := Instr { i_op : opcode; i_width : Z; i_args : list arg }.

Definition reg_names : list (string * (reg * Z)) :=
  [("rax", (Gpr RAX, 64)); ("rbx", (Gpr RBX, 64)); ("rcx", (Gpr RCX, 64)); ("rdx", (Gpr RDX, 64));
   ("rsi", (Gpr RSI, 64)); ("rdi", (Gpr RDI, 64)); ("rsp", (Gpr RSP, 64)); ("rbp", (Gpr RBP, 64));
   ("r8", (Gpr R8, 64)); ("r9", (Gpr R9, 64)); ("r10", (Gpr R10, 64)); ("r11", (Gpr R11, 64));
   ("r12", (Gpr R12, 64)); ("r13", (Gpr R13, 64)); ("r14", (Gpr R14, 64)); ("r15", (Gpr R15, 64));
   ("cl", (Gpr RCX, 8));
   ("cr0", (Cr 0, 64)); ("cr2", (Cr 2, 64)); ("cr3", (Cr 3, 64)); ("cr4", (Cr 4, 64)); ("cr8", (Cr 8, 64));
   ("dr0", (Dr 0, 64)); ("dr1", (Dr 1, 64)); ("dr2", (Dr 2, 64)); ("dr3", (Dr 3, 64)); ("dr6", (Dr 6, 64));
   ("dr7", (Dr 7, 64));
   ("cs", (Seg CS, 16)); ("ds", (Seg DS, 16)); ("es", (Seg ES, 16)); ("fs", (Seg FS, 16)); ("gs", (Seg GS, 16));
   ("ss", (Seg SS, 16))]%string.

Definition mnemonics : list (string * opcode) :=
  [("mov", Mov); ("bsf", Bsf); ("bsr", Bsr); ("popcnt", Popcnt); ("lzcnt", Lzcnt); ("tzcnt", Tzcnt);
   ("bswap", Bswap); ("rol", Rol); ("ror", Ror); ("xchg", Xchg); ("cmpxchg", Cmpxchg); ("xadd", Xadd);
   ("bt", Bt); ("bts", Bts); ("btr", Btr); ("btc", Btc); ("setc", Setc); ("pushf", Pushf); ("popf", Popf);
   ("push", Push); ("pop", Pop); ("rdfsbase", Rdfsbase); ("rdgsbase", Rdgsbase); ("wrfsbase", Wrfsbase);
   ("wrgsbase", Wrgsbase); ("rdmsr", Rdmsr); ("wrmsr", Wrmsr); ("xgetbv", Xgetbv); ("xsetbv", Xsetbv);
   ("invlpg", Invlpg); ("out", Out); ("lldt", Lldt); ("ltr", Ltr); ("sldt", Sldt); ("str", Str)]%string.

Fixpoint lookup_name {A} (name : string) (l : list (string * A)) : option A :=
  match l with [] => None | (n, a) :: l => if (n =? name)%string then Some a else lookup_name name l end.

(** A mnemonic, or one with a size suffix. *)
Definition suffix_width (c : ascii) : option Z :=
  if (c =? "b")%char then Some 8 else if (c =? "w")%char then Some 16
  else if (c =? "l")%char then Some 32 else if (c =? "q")%char then Some 64 else None.
Definition parse_mnemonic (l : list ascii) : option (opcode * option Z) :=
  match lookup_name (string_of_list_ascii l) mnemonics, reverse l with
  | Some op, _ => Some (op, None)
  | None, c :: l =>
      match lookup_name (string_of_list_ascii (reverse l)) mnemonics, suffix_width c with
      | Some op, Some w => Some (op, Some w)
      | _, _ => None
      end
  | None, [] => None
  end.

Definition digit (c : ascii) : option nat :=
  let n := nat_of_ascii c in if (Nat.leb 48 n && Nat.leb n 57)%bool then Some (n - 48)%nat else None.
Definition parse_arg (l : list ascii) : option arg :=
  match l with
  | ["%"; d]%char => Slot <$> digit d
  | ["%"; "b"; d]%char => SlotByte <$> digit d
  | ["("; "%"; d; ")"]%char => Deref <$> digit d
  | "%"%char :: "%"%char :: name =>
      (fun rw : reg * Z => Hard rw.1 rw.2) <$> lookup_name (string_of_list_ascii name) reg_names
  | _ => None
  end.

(** ** Operand sizes *)

Section sizes.
Context (ops : list opnd).

(** The width of a register operand; a memory operand has none. *)
Definition arg_width (a : arg) : option Z :=
  match a with
  | Slot n => match ops !! n with
              | Some o => match place_of (o_con o) with Some Memory => None | _ => Some (o_width o) end
              | None => None
              end
  | SlotByte _ => Some 8
  | Deref _ => None
  | Hard _ w => Some w
  end.
Definition register_widths (args : list arg) : list Z := omap arg_width args.
Definition all_are (w : Z) (l : list Z) : bool := forallb (fun x => x =? w) l.

(** One width for all register operands, that of the suffix if there is one. *)
Definition one_width (suffix : option Z) (args : list arg) : option Z :=
  match suffix, register_widths args with
  | Some w, l => if all_are w l then Some w else None
  | None, w :: l => if all_are w l then Some w else None
  | None, [] => None
  end.

Definition special (r : reg) : bool := match r with Gpr _ => false | _ => true end.

(** The size of the operation.  Moves to and from control and debug registers are 64
    bits wide, a segment register takes the size of the other operand, the count of
    a rotation is a byte, a port number a word; there are no 32-bit pushes and
    pops in 64-bit mode. *)
Definition op_width (op : opcode) (suffix : option Z) (args : list arg) : option Z :=
  match op, args with
  | Mov, [Hard (Seg _) _; a] | Mov, [a; Hard (Seg _) _] => one_width suffix [a]
  | Mov, [Hard r _; _] | Mov, [_; Hard r _] => one_width (if special r then Some 64 else suffix) args
  | Mov, [_; _] => one_width suffix args
  | Bsf, [_; _] | Bsr, [_; _] | Popcnt, [_; _] | Lzcnt, [_; _] | Tzcnt, [_; _] => one_width suffix args
  | Xchg, [_; _] | Cmpxchg, [_; _] | Xadd, [_; _] => one_width suffix args
  | Bt, [_; _] | Bts, [_; _] | Btr, [_; _] | Btc, [_; _] => one_width suffix args
  | Bswap, [_] => one_width suffix args
  | Rol, [Hard (Gpr RCX) 8; a] | Ror, [Hard (Gpr RCX) 8; a] => one_width suffix [a]
  | Setc, [SlotByte _] => Some 8
  | Pushf, [] | Popf, [] | Push, [_] | Pop, [_] =>
      match one_width suffix args with Some 64 => Some 64 | _ => None end
  | Rdfsbase, [_] | Rdgsbase, [_] | Wrfsbase, [_] | Wrgsbase, [_] => one_width suffix args
  | Rdmsr, [] | Wrmsr, [] | Xgetbv, [] | Xsetbv, [] => Some 32
  | Invlpg, [Deref _] => Some 64
  | Out, [a; p] => match arg_width p with Some 16 => one_width suffix [a] | _ => None end
  | Lldt, [_] | Ltr, [_] | Sldt, [_] | Str, [_] => one_width suffix args
  | _, _ => None
  end.

(** One statement of the template. *)
Definition parse_instr (l : list ascii) : option asm_instr :=
  let '(word, rest) := first_word (skip_spaces l) [] in
  let '(word, rest) := if (string_of_list_ascii word =? "lock")%string then first_word (skip_spaces rest) [] else (word, rest) in
  match parse_mnemonic word, no_spaces rest with
  | Some (op, suffix), [] => (fun w => Instr op w []) <$> op_width op suffix []
  | Some (op, suffix), rest =>
      match mapM parse_arg (split_at "," rest []) with
      | Some args => (fun w => Instr op w args) <$> op_width op suffix args
      | None => None
      end
  | None, _ => None
  end.

Definition assemble (template : string) : option (list asm_instr) :=
  mapM parse_instr (split_at ";" (list_ascii_of_string template) []).
End sizes.

(** ** Execution *)

(** The processor and the memory. *)
Definition core : Type := xstate * mem.

(** What the operands hold (the address, for an operand in memory), the carry flag and
    the words pushed. *)
Record asm_state : Type := mk_asm {
  a_slots : list Z;
  a_cpu : xstate;
  a_mem : mem;
  a_carry : bool;
  a_stack : list Z;
}.
Definition set_slot (n : nat) (v : Z) (s : asm_state) : asm_state :=
  mk_asm (<[n := v]> (a_slots s)) (a_cpu s) (a_mem s) (a_carry s) (a_stack s).
Definition set_cpu (x : xstate) (s : asm_state) : asm_state :=
  mk_asm (a_slots s) x (a_mem s) (a_carry s) (a_stack s).
Definition set_word (a v : Z) (s : asm_state) : asm_state :=
  mk_asm (a_slots s) (a_cpu s) (a_mem s).[a <- v] (a_carry s) (a_stack s).
Definition set_carry (b : bool) (s : asm_state) : asm_state :=
  mk_asm (a_slots s) (a_cpu s) (a_mem s) b (a_stack s).
Definition set_stack (l : list Z) (s : asm_state) : asm_state :=
  mk_asm (a_slots s) (a_cpu s) (a_mem s) (a_carry s) l.

Section execution.
Context (ops : list opnd).

Definition place_at (n : nat) : option opnd_place := ops !! n ≫= fun o => place_of (o_con o).
(** The operand the compiler put in register [r], if there is one. *)
Definition pinned (r : gpr) : option nat :=
  fst <$> list_find (fun o => place_of (o_con o) = Some (Fixed r)) ops.

Definition slot_value (n : nat) (s : asm_state) : Z := nth n (a_slots s) 0.

(** The general registers hold the operands pinned to them. *)
Definition gpr_value (r : gpr) (s : asm_state) : Z :=
  match pinned r with Some n => slot_value n s | None => mov_from (Gpr r) (a_cpu s) end.
Definition set_gpr (r : gpr) (v : Z) (s : asm_state) : asm_state :=
  match pinned r with Some n => set_slot n v s | None => set_cpu (mov_to (Gpr r) v (a_cpu s)) s end.

Definition read_arg (w : Z) (a : arg) (s : asm_state) : Z :=
  match a with
  | Slot n => match place_at n with Some Memory => a_mem s (slot_value n s) | _ => slot_value n s end mod 2 ^ w
  | SlotByte n => slot_value n s mod 2 ^ 8
  | Deref n => slot_value n s
  | Hard (Gpr r) w' => gpr_value r s mod 2 ^ w'
  | Hard r w' => mov_from r (a_cpu s) mod 2 ^ w'
  end.
(** A byte is written into the register that holds the operand; a move to CR3 empties
    the TLB. *)
Definition write_arg (w : Z) (a : arg) (v : Z) (s : asm_state) : asm_state :=
  match a with
  | Slot n => match place_at n with
              | Some Memory => set_word (slot_value n s) (v mod 2 ^ w) s
              | _ => set_slot n (v mod 2 ^ w) s
              end
  | SlotByte n => set_slot n (Z.lor (Z.ldiff (slot_value n s) 0xFF) (v mod 2 ^ 8)) s
  | Deref n => set_word (slot_value n s) (v mod 2 ^ w) s
  | Hard (Gpr r) w' => set_gpr r (v mod 2 ^ w') s
  | Hard (Cr n) w' => set_cpu (write_cr n (v mod 2 ^ w') (a_cpu s)) s
  | Hard r w' => set_cpu (mov_to r (v mod 2 ^ w') (a_cpu s)) s
  end.

(** A bit of the string that starts at a memory operand, by a signed number in a register. *)
Definition bit_string (f : option (Z -> Z -> Z)) (bit a : arg) (s : asm_state) : asm_state :=
  match a with
  | Slot n =>
      let i := read_arg 64 bit s in
      let word := bit_word (slot_value n s) i in
      let old := a_mem s word in
      let s := set_carry (Z.testbit old (bit_index i)) s in
      match f with Some f => set_word word (f old (2 ^ bit_index i)) s | None => s end
  | _ => s
  end.

(** The accumulator, the counter and the data register of the instructions that name none. *)
Definition edx_eax (s : asm_state) : Z := u32 (gpr_value RDX s) * 2 ^ 32 + u32 (gpr_value RAX s).
Definition set_edx_eax (v : Z) (s : asm_state) : asm_state :=
  set_gpr RDX (u32 (Z.shiftr v 32)) (set_gpr RAX (u32 v) s).

Definition asm_exec (i : asm_instr) (s : asm_state) : asm_state :=
  let w := i_width i in
  match i_op i, i_args i with
  | Mov, [src; dst] => write_arg w dst (read_arg w src s) s
  | Bsf, [src; dst] => write_arg w dst (bsf w (read_arg w dst s) (read_arg w src s)) s
  | Bsr, [src; dst] => write_arg w dst (bsr w (read_arg w dst s) (read_arg w src s)) s
  | Popcnt, [src; dst] => write_arg w dst (popcnt w (read_arg w src s)) s
  | Lzcnt, [src; dst] => write_arg w dst (lzcnt w (read_arg w src s)) s
  | Tzcnt, [src; dst] => write_arg w dst (tzcnt w (read_arg w src s)) s
  | Bswap, [a] => write_arg w a (bswap (Z.to_nat (w / 8)) (read_arg w a s)) s
  | Rol, [n; a] => write_arg w a (rol w (read_arg w a s) (read_arg 8 n s)) s
  | Ror, [n; a] => write_arg w a (ror w (read_arg w a s) (read_arg 8 n s)) s
  | Xchg, [a; b] => let va := read_arg w a s in let vb := read_arg w b s in write_arg w b va (write_arg w a vb s)
  | Cmpxchg, [src; dst] =>
      let old := read_arg w dst s in
      if old =? gpr_value RAX s mod 2 ^ w then write_arg w dst (read_arg w src s) s else set_gpr RAX old s
  | Xadd, [src; dst] =>
      let old := read_arg w dst s in
      let sum := old + read_arg w src s in
      write_arg w dst sum (write_arg w src old s)
  | Bt, [bit; a] => bit_string None bit a s
  | Bts, [bit; a] => bit_string (Some Z.lor) bit a s
  | Btr, [bit; a] => bit_string (Some Z.ldiff) bit a s
  | Btc, [bit; a] => bit_string (Some Z.lxor) bit a s
  | Setc, [a] => write_arg 8 a (Z.b2z (a_carry s)) s
  | Pushf, [] => set_stack (pushf (mov_from Rflags (a_cpu s)) :: a_stack s) s
  | Popf, [] =>
      let f := hd 0 (a_stack s) in
      set_stack (tl (a_stack s)) (set_cpu (mov_to Rflags (popf (mov_from Rflags (a_cpu s)) f) (a_cpu s)) s)
  | Push, [a] => set_stack (read_arg w a s :: a_stack s) s
  | Pop, [a] => set_stack (tl (a_stack s)) (write_arg w a (hd 0 (a_stack s)) s)
  | Rdfsbase, [a] => write_arg w a (mov_from (Msr MSR_FS_BASE) (a_cpu s)) s
  | Rdgsbase, [a] => write_arg w a (mov_from (Msr MSR_GS_BASE) (a_cpu s)) s
  | Wrfsbase, [a] => set_cpu (mov_to (Msr MSR_FS_BASE) (read_arg w a s) (a_cpu s)) s
  | Wrgsbase, [a] => set_cpu (mov_to (Msr MSR_GS_BASE) (read_arg w a s) (a_cpu s)) s
  | Rdmsr, [] => set_edx_eax (mov_from (Msr (u32 (gpr_value RCX s))) (a_cpu s)) s
  | Wrmsr, [] => set_cpu (mov_to (Msr (u32 (gpr_value RCX s))) (edx_eax s) (a_cpu s)) s
  | Xgetbv, [] => set_edx_eax (mov_from (Xcr (u32 (gpr_value RCX s))) (a_cpu s)) s
  | Xsetbv, [] => set_cpu (mov_to (Xcr (u32 (gpr_value RCX s))) (edx_eax s) (a_cpu s)) s
  | Invlpg, [a] => set_cpu (invlpg (read_arg 64 a s) (a_cpu s)) s
  | Out, [a; p] => set_cpu (out_port (w / 8) (read_arg 16 p s) (read_arg w a s) (a_cpu s)) s
  | Lldt, [a] => set_cpu (mov_to Ldtr (read_arg 16 a s) (a_cpu s)) s
  | Ltr, [a] => set_cpu (mov_to Tr (read_arg 16 a s) (a_cpu s)) s
  | Sldt, [a] => write_arg w a (u16 (mov_from Ldtr (a_cpu s))) s
  | Str, [a] => write_arg w a (u16 (mov_from Tr (a_cpu s))) s
  | _, _ => s
  end.

(** An operand in the place of an earlier one brings its value there. *)
Definition place_values (vals : list Z) : list Z :=
  foldl (fun l n => match place_at n with Some (Same k) => <[k := nth n vals 0]> l | _ => l end) vals
    (seq 0 (Datatypes.length vals)).
End execution.

(** The statement, from the values of its operands: the address of an operand in
    memory, the old contents of the register for one that is only written.  [None]
    where it does not assemble. *)
Definition asm (template : string) (ops : list opnd) (vals : list Z) (c : core) : option asm_state :=
  match assemble ops template with
  | Some prog => Some (foldl (fun s i => asm_exec ops i s) (mk_asm (place_values ops vals) c.1 c.2 false []) prog)
  | None => None
  end.

Definition final_core (s : asm_state) : core := (a_cpu s, a_mem s).

(** The statement for its effect, and for the value of operand [n]. *)
Definition asm_run (template : string) (ops : list opnd) (vals : list Z) (c : core) : option core :=
  final_core <$> asm template ops vals c.
Definition asm_get (n : nat) (template : string) (ops : list opnd) (vals : list Z) (c : core) : option (Z * core) :=
  (fun s => (slot_value n s, final_core s)) <$> asm template ops vals c.

(** The [int] with these 32 bits. *)
Definition int_of (v : Z) : Z := if u32 v <? 2 ^ 31 then u32 v else u32 v - 2 ^ 32.
Definition as_int (r : option (Z * core)) : option (Z * core) := (fun p : Z * core => (int_of p.1, p.2)) <$> r.

(** Text the assembler takes, and text it refuses. *)
Example bsfl_assembles : assemble [Op "=r" 32; Op "r" 32] "bsfl %1,%0" = Some [Instr Bsf 32 [Slot 1; Slot 0]].
Proof. reflexivity. Qed.
Example mixed_widths_refused : assemble [Op "=r" 32; Op "r" 64] "bsf  %1,%0" = None.
Proof. reflexivity. Qed.
Example locked_two_assemble :
  assemble [Op "=r" 32; Op "+m" 64; Op "r" 64] "lock bts %2,%1; setc %b0" =
  Some [Instr Bts 64 [Slot 2; Slot 1]; Instr Setc 8 [SlotByte 0]].
Proof. reflexivity. Qed.
