(* ===== verification/KasmWrappers.v ===== *)
(** * kasm-expanded.h: the wrappers as their inline assembly

    Each wrapper is the statement in its body: the template text, the operands with
    their constraints and C types, and the value the function returns.  [junk]
    stands for what the register of an output held before.  The theorems say what
    the wrappers do, in terms of the registers, words and bits they are named
    after, and which of them do not assemble. *)

From S2P Require Import Prelude Kasm KasmTheorems KasmTypes InlineAsm.
From Stdlib Require Import Ascii String.
Open Scope Z_scope.

(** ** Registers *)


Section wrappers.
Context (junk : Z) (c : core).




(** ** Words in memory *)

Definition xchg64 (addr val : Z) : option (Z * core) := asm_get 1 "xchg %0,%1" [Op "+m" 64; Op "+r" 64] [addr; val] c.
Definition xchg32 (addr val : Z) : option (Z * core) := asm_get 1 "xchg %0,%1" [Op "+m" 32; Op "+r" 32] [addr; val] c.
Definition xchg8 (addr val : Z) : option (Z * core) := asm_get 1 "xchg %0,%1" [Op "+m" 8; Op "+r" 8] [addr; val] c.
Definition cmpxchg64 (addr expected desired : Z) : option (Z * core) :=
  asm_get 1 "lock cmpxchg %2,%0" [Op "+m" 64; Op "+a" 64; Op "r" 64] [addr; expected; desired] c.
Definition cmpxchg32 (addr expected desired : Z) : option (Z * core) :=
  asm_get 1 "lock cmpxchg %2,%0" [Op "+m" 32; Op "+a" 32; Op "r" 32] [addr; expected; desired] c.
Definition xadd64 (addr inc : Z) : option (Z * core) := asm_get 0 "lock xadd %0,%1" [Op "+r" 64; Op "+m" 64] [inc; addr] c.
Definition xadd32 (addr inc : Z) : option (Z * core) := asm_get 0 "lock xadd %0,%1" [Op "+r" 32; Op "+m" 32] [inc; addr] c.

Definition lock_bts64 (base bit : Z) : option (Z * core) :=
  as_int (asm_get 0 "lock bts %2,%1; setc %b0" [Op "=r" 32; Op "+m" 64; Op "r" 64] [junk; base; bit] c).
Definition lock_btr64 (base bit : Z) : option (Z * core) :=
  as_int (asm_get 0 "lock btr %2,%1; setc %b0" [Op "=r" 32; Op "+m" 64; Op "r" 64] [junk; base; bit] c).
Definition lock_btc64 (base bit : Z) : option (Z * core) :=
  as_int (asm_get 0 "lock btc %2,%1; setc %b0" [Op "=r" 32; Op "+m" 64; Op "r" 64] [junk; base; bit] c).
Definition bt64 (b bit : Z) : option (Z * core) :=
  as_int (asm_get 0 "bt  %2,%1; setc %b0" [Op "=r" 32; Op "m" 64; Op "r" 64] [junk; b; bit] c).
Definition bts64 (b bit : Z) : option (Z * core) :=
  as_int (asm_get 0 "bts %2,%1; setc %b0" [Op "=r" 32; Op "+m" 64; Op "r" 64] [junk; b; bit] c).
Definition btr64 (b bit : Z) : option (Z * core) :=
  as_int (asm_get 0 "btr %2,%1; setc %b0" [Op "=r" 32; Op "+m" 64; Op "r" 64] [junk; b; bit] c).
Definition btc64 (b bit : Z) : option (Z * core) :=
  as_int (asm_get 0 "btc %2,%1; setc %b0" [Op "=r" 32; Op "+m" 64; Op "r" 64] [junk; b; bit] c).

(** ** Bits of a value *)

Definition bsf64 (v : Z) : option (Z * core) := as_int (asm_get 0 "bsf  %1,%0" [Op "=r" 32; Op "r" 64] [junk; v] c).
Definition bsr64 (v : Z) : option (Z * core) := as_int (asm_get 0 "bsr  %1,%0" [Op "=r" 32; Op "r" 64] [junk; v] c).
Definition bsf32 (v : Z) : option (Z * core) := as_int (asm_get 0 "bsfl %1,%0" [Op "=r" 32; Op "r" 32] [junk; v] c).
Definition bsr32 (v : Z) : option (Z * core) := as_int (asm_get 0 "bsrl %1,%0" [Op "=r" 32; Op "r" 32] [junk; v] c).
Definition popcnt64 (v : Z) : option (Z * core) := as_int (asm_get 0 "popcntq %1,%0" [Op "=r" 64; Op "r" 64] [junk; v] c).
Definition popcnt32 (v : Z) : option (Z * core) := as_int (asm_get 0 "popcntl %1,%0" [Op "=r" 32; Op "r" 32] [junk; v] c).
Definition lzcnt64 (v : Z) : option (Z * core) := as_int (asm_get 0 "lzcntq %1,%0" [Op "=r" 64; Op "r" 64] [junk; v] c).
Definition lzcnt32 (v : Z) : option (Z * core) := as_int (asm_get 0 "lzcntl %1,%0" [Op "=r" 32; Op "r" 32] [junk; v] c).
Definition tzcnt64 (v : Z) : option (Z * core) := as_int (asm_get 0 "tzcntq %1,%0" [Op "=r" 64; Op "r" 64] [junk; v] c).
Definition tzcnt32 (v : Z) : option (Z * core) := as_int (asm_get 0 "tzcntl %1,%0" [Op "=r" 32; Op "r" 32] [junk; v] c).
Definition bswap64 (v : Z) : option (Z * core) := asm_get 0 "bswapq %0" [Op "=r" 64; Op "0" 64] [junk; v] c.
Definition bswap32 (v : Z) : option (Z * core) := asm_get 0 "bswapl %0" [Op "=r" 32; Op "0" 32] [junk; v] c.
Definition rol64 (v n : Z) : option (Z * core) := asm_get 0 "rolq %%cl,%0" [Op "+r" 64; Op "c" 8] [v; n] c.
Definition ror64 (v n : Z) : option (Z * core) := asm_get 0 "rorq %%cl,%0" [Op "+r" 64; Op "c" 8] [v; n] c.
Definition rol32 (v n : Z) : option (Z * core) := asm_get 0 "roll %%cl,%0" [Op "+r" 32; Op "c" 8] [v; n] c.
Definition ror32 (v n : Z) : option (Z * core) := asm_get 0 "rorl %%cl,%0" [Op "+r" 32; Op "c" 8] [v; n] c.
Definition rol16 (v n : Z) : option (Z * core) := asm_get 0 "rolw %%cl,%0" [Op "+r" 16; Op "c" 8] [v; n] c.
Definition ror16 (v n : Z) : option (Z * core) := asm_get 0 "rorw %%cl,%0" [Op "+r" 16; Op "c" 8] [v; n] c.
Definition rol8 (v n : Z) : option (Z * core) := asm_get 0 "rolb %%cl,%0" [Op "+r" 8; Op "c" 8] [v; n] c.
Definition ror8 (v n : Z) : option (Z * core) := asm_get 0 "rorb %%cl,%0" [Op "+r" 8; Op "c" 8] [v; n] c.
End wrappers.

(** ** What the bit wrappers return *)

(** The call returns a value of which [P] holds and leaves processor and memory alone. *)
Definition returns (c : core) (P : Z -> Prop) (r : option (Z * core)) : Prop := exists x, r = Some (x, c) /\ P x.

Definition least_bit (w v i : Z) : Prop :=
  0 <= i < w /\ Z.testbit v i = true /\ forall j, 0 <= j < i -> Z.testbit v j = false.
Definition trailing_zeros (w v i : Z) : Prop := if v =? 0 then i = w else least_bit w v i.
Definition leading_zeros (w v i : Z) : Prop := i = if v =? 0 then w else w - 1 - Z.log2 v.
Definition ones (w v i : Z) : Prop := i = Z.of_nat (Datatypes.length (set_bits w v)).
Definition rotated_left (w v n r : Z) : Prop :=
  0 <= r < 2 ^ w /\ forall i, 0 <= i < w -> Z.testbit r i = Z.testbit v ((i - n) mod w).
Definition rotated_right (w v n r : Z) : Prop :=
  0 <= r < 2 ^ w /\ forall i, 0 <= i < w -> Z.testbit r i = Z.testbit v ((i + n) mod w).
Definition bytes_reversed (n : nat) (v r : Z) : Prop :=
  0 <= r < 2 ^ (8 * Z.of_nat n) /\ bytes_le n r = reverse (bytes_le n v).

(** A small count passes through the register and the conversion to [int]. *)
Lemma int_of_count w x : 32 <= w -> 0 <= x < 2 ^ 31 -> int_of (x mod 2 ^ w) = x.
Proof.
  intros Hw Hx. assert (2 ^ 32 <= 2 ^ w) by (apply Z.pow_le_mono_r; lia).
  rewrite Z.mod_small by lia. unfold int_of. rewrite u32_small by lia. destruct (Z.ltb_spec x (2 ^ 31)); lia.
Qed.

Section bits.
Context (w v : Z) (Hw : 32 <= w <= 64) (Hv : 0 <= v < 2 ^ w).

Lemma word_small : v mod 2 ^ w = v.
Proof using Hv. by apply Z.mod_small. Qed.

Lemma tzcnt_trailing : trailing_zeros w v (tzcnt w v).
Proof using Hw Hv.
  destruct (scans_find_bits w v 0 ltac:(lia) Hv) as (H1 & H2 & _). unfold trailing_zeros.
  destruct (Z.eqb_spec v 0) as [E|E]; [by apply H2|]. destruct (tzcnt_least w v ltac:(lia)) as (? & ? & ?). done.
Qed.

Lemma tzcnt_range : 0 <= tzcnt w v < 2 ^ 31.
Proof using Hw Hv.
  pose proof tzcnt_trailing as H. unfold trailing_zeros, least_bit in H. destruct (v =? 0); lia.
Qed.

Lemma bsf_least r : bsf w r v = if v =? 0 then r else tzcnt w v.
Proof using Hw Hv. unfold bsf. by destruct (v =? 0). Qed.

Lemma bsr_log2 r : bsr w r v = if v =? 0 then r else Z.log2 v.
Proof using Hw Hv. unfold bsr. destruct (Z.eqb_spec v 0); [done|]. apply scan_down_log2. lia. Qed.

Lemma log2_count : v <> 0 -> 0 <= Z.log2 v < w.
Proof using Hv. intros. apply log2_word. lia. Qed.

Lemma lzcnt_leading : leading_zeros w v (lzcnt w v) /\ 0 <= lzcnt w v < 2 ^ 31.
Proof using Hw Hv.
  destruct (scans_find_bits w v 0 ltac:(lia) Hv) as (H1 & H2 & _). unfold leading_zeros.
  destruct (Z.eqb_spec v 0) as [E|E].
  - destruct (H2 E) as (_ & _ & _ & ->). lia.
  - destruct (H1 E) as (_ & _ & _ & H3 & H4). pose proof (log2_count E). lia.
Qed.

Lemma popcnt_ones : ones w v (popcnt w v) /\ 0 <= popcnt w v < 2 ^ 31.
Proof using Hw Hv.
  destruct (scans_find_bits w v 0 ltac:(lia) Hv) as (_ & _ & H). split; [exact H|]. rewrite H.
  assert (Datatypes.length (set_bits w v) <= Datatypes.length (seqZ 0 w))%nat by (unfold set_bits; apply length_filter).
  rewrite length_seqZ in *. lia.
Qed.
End bits.

(** The processor masks the count, which makes no difference to the bits. *)
Lemma rot_count_mod w n i : w ∈ [8; 16; 32; 64] -> 0 <= n < 2 ^ 8 ->
  (i - rot_count w n) mod w = (i - n) mod w /\ (i + rot_count w n) mod w = (i + n) mod w.
Proof.
  intros Hw Hn. assert (E : rot_count w n = n mod w).
  { unfold rot_count. rewrite !elem_of_cons, elem_of_nil in Hw.
    destruct Hw as [->|[->|[->|[->|[]]]]]; cbn [Z.eqb Pos.eqb];
      [change 31 with (Z.ones 5)..|change 63 with (Z.ones 6)]; rewrite Z.land_ones by lia; dlia. }
  assert (w <> 0) by (rewrite !elem_of_cons, elem_of_nil in Hw; lia).
  rewrite E, Zminus_mod_idemp_r, Zplus_mod_idemp_r. done.
Qed.

Lemma rotations w v n : w ∈ [8; 16; 32; 64] -> 0 <= v < 2 ^ w -> 0 <= n < 2 ^ 8 ->
  rotated_left w v n (rol w v n) /\ rotated_right w v n (ror w v n).
Proof.
  intros Hw Hv Hn. assert (Hpos : 0 < w) by (rewrite !elem_of_cons, elem_of_nil in Hw; lia). split; split.
  - by apply rol_word.
  - intros i Hi. rewrite rol_bit by done. by rewrite (proj1 (rot_count_mod w n i Hw Hn)).
  - by apply ror_word.
  - intros i Hi. rewrite ror_bit by done. by rewrite (proj2 (rot_count_mod w n i Hw Hn)).
Qed.

Lemma bswap_reversed n v : 0 <= v < 2 ^ (8 * Z.of_nat n) -> bytes_reversed n v (bswap n v).
Proof.
  intros Hv. split; [|apply bswap_bytes]. rewrite Z.pow_mul_r by lia. change (2 ^ 8) with 256.
  unfold bswap.
  assert (Hb : Forall is_byte (reverse (bytes_le n v))) by (apply Forall_reverse, bytes_le_bytes).
  pose proof (of_bytes_le_bytes n (of_bytes_le (reverse (bytes_le n v)))) as E.
  replace n with (Datatypes.length (reverse (bytes_le n v))) in E at 1 by (by rewrite length_reverse, length_bytes_le).
  rewrite bytes_le_of_bytes in E by done. rewrite E. apply Z.mod_pos_bound. lia.
Qed.

(** The scans, as their statements execute. *)
Lemma scans_return junk c v :
  0 <= v < 2 ^ 32 ->
  returns c (fun i => if v =? 0 then i = int_of junk else least_bit 32 v i) (bsf32 junk c v) /\
  returns c (fun i => i = if v =? 0 then int_of junk else Z.log2 v) (bsr32 junk c v).
Proof.
  destruct c as [x m]. intros Hv. pose proof (tzcnt_trailing 32 v ltac:(lia) Hv) as Ht.
  pose proof (tzcnt_range 32 v ltac:(lia) Hv). unfold trailing_zeros in Ht. split.
  - exists (int_of (bsf 32 (junk mod 2 ^ 32) (v mod 2 ^ 32) mod 2 ^ 32)). split; [reflexivity|].
    rewrite (word_small 32 v Hv), bsf_least by done. destruct (v =? 0); [|by rewrite int_of_count].
    unfold int_of, u32. by rewrite !Z.mod_mod.
  - exists (int_of (bsr 32 (junk mod 2 ^ 32) (v mod 2 ^ 32) mod 2 ^ 32)). split; [reflexivity|].
    rewrite (word_small 32 v Hv), bsr_log2 by done. destruct (Z.eqb_spec v 0) as [|E].
    + unfold int_of, u32. by rewrite !Z.mod_mod.
    + pose proof (log2_count 32 v Hv E). apply int_of_count; lia.
Qed.

(** What a statement that counts, rotates or swaps leaves in its output. *)
Lemma counts_return w c v tz lz pc :
  32 <= w <= 64 -> 0 <= v < 2 ^ w ->
  tz = Some (int_of (tzcnt w (v mod 2 ^ w) mod 2 ^ w), c) -> lz = Some (int_of (lzcnt w (v mod 2 ^ w) mod 2 ^ w), c) ->
  pc = Some (int_of (popcnt w (v mod 2 ^ w) mod 2 ^ w), c) ->
  returns c (trailing_zeros w v) tz /\ returns c (leading_zeros w v) lz /\ returns c (ones w v) pc.
Proof.
  intros Hw Hr -> -> ->. rewrite (word_small w v Hr).
  pose proof (tzcnt_trailing w v Hw Hr). pose proof (tzcnt_range w v Hw Hr).
  destruct (lzcnt_leading w v Hw Hr). destruct (popcnt_ones w v Hw Hr).
  split_and!; (eexists; split; [reflexivity|]); rewrite int_of_count by lia; done.
Qed.

Lemma rotations_return w c v n l r :
  w ∈ [8; 16; 32; 64] -> 0 <= v < 2 ^ w -> 0 <= n < 2 ^ 8 ->
  l = Some (rol w (v mod 2 ^ w) (n mod 2 ^ 8) mod 2 ^ w, c) -> r = Some (ror w (v mod 2 ^ w) (n mod 2 ^ 8) mod 2 ^ w, c) ->
  returns c (rotated_left w v n) l /\ returns c (rotated_right w v n) r.
Proof.
  intros Hw Hr Hn -> ->. rewrite (word_small w v Hr), (word_small 8 n Hn).
  destruct (rotations w v n Hw Hr Hn) as [[R1 R2] [R3 R4]].
  split; (eexists; split; [reflexivity|]); split; rewrite ?Z.mod_small by done; done.
Qed.

Lemma bswap_returns b c v r :
  0 <= v < 2 ^ (8 * Z.of_nat b) -> r = Some (bswap b (v mod 2 ^ (8 * Z.of_nat b)) mod 2 ^ (8 * Z.of_nat b), c) ->
  returns c (bytes_reversed b v) r.
Proof.
  intros Hr ->. rewrite (word_small _ v Hr). destruct (bswap_reversed b v Hr) as [R1 R2].
  eexists. split; [reflexivity|]. rewrite Z.mod_small by done. done.
Qed.

(** C28. The bit wrappers of kasm-expanded.h do what they are named after, as the
    assembly text in their bodies executes: [bsf32] and [bsr32] return the least and
    the greatest set bit of a nonzero word, and for zero whatever the output
    register held; [tzcnt], [lzcnt] and [popcnt] in both widths the zeros below and
    above the set bits and the number of set bits; [bswap] the bytes in reverse
    order; [rol] and [ror] in all four widths the bits moved around by the count.
    The results fit the [int] they are converted to, and processor and memory stay
    as they were.  [bsf64] and [bsr64] do not assemble: their operands have
    different widths. *)
Theorem bit_wrappers_exact junk c v n :
  0 <= v < 2 ^ 64 -> 0 <= n < 2 ^ 8 ->
  bsf64 junk c v = None /\ bsr64 junk c v = None /\
  returns c (trailing_zeros 64 v) (tzcnt64 junk c v) /\ returns c (leading_zeros 64 v) (lzcnt64 junk c v) /\
  returns c (ones 64 v) (popcnt64 junk c v) /\ returns c (bytes_reversed 8 v) (bswap64 junk c v) /\
  returns c (rotated_left 64 v n) (rol64 c v n) /\ returns c (rotated_right 64 v n) (ror64 c v n) /\
  (v < 2 ^ 32 ->
   returns c (fun i => if v =? 0 then i = int_of junk else least_bit 32 v i) (bsf32 junk c v) /\
   returns c (fun i => i = if v =? 0 then int_of junk else Z.log2 v) (bsr32 junk c v) /\
   returns c (trailing_zeros 32 v) (tzcnt32 junk c v) /\ returns c (leading_zeros 32 v) (lzcnt32 junk c v) /\
   returns c (ones 32 v) (popcnt32 junk c v) /\ returns c (bytes_reversed 4 v) (bswap32 junk c v) /\
   returns c (rotated_left 32 v n) (rol32 c v n) /\ returns c (rotated_right 32 v n) (ror32 c v n)) /\
  (v < 2 ^ 16 -> returns c (rotated_left 16 v n) (rol16 c v n) /\ returns c (rotated_right 16 v n) (ror16 c v n)) /\
  (v < 2 ^ 8 -> returns c (rotated_left 8 v n) (rol8 c v n) /\ returns c (rotated_right 8 v n) (ror8 c v n)).
Proof.
  destruct c as [x m]. intros Hv Hn. split; [reflexivity|]. split; [reflexivity|].
  destruct (counts_return 64 (x, m) v (tzcnt64 junk (x, m) v) (lzcnt64 junk (x, m) v) (popcnt64 junk (x, m) v))
    as (T & L & P); [lia|done|reflexivity..|].
  destruct (rotations_return 64 (x, m) v n (rol64 (x, m) v n) (ror64 (x, m) v n)) as [R1 R2];
    [set_solver|done|done|reflexivity..|].
  do 3 (split; [assumption|]). split; [apply (bswap_returns 8); [exact Hv|reflexivity]|]. do 2 (split; [assumption|]). split; [|split].
  - intros H32. assert (H : 0 <= v < 2 ^ 32) by lia. destruct (scans_return junk (x, m) v H) as [S1 S2].
    destruct (counts_return 32 (x, m) v (tzcnt32 junk (x, m) v) (lzcnt32 junk (x, m) v) (popcnt32 junk (x, m) v))
      as (T' & L' & P'); [lia|done|reflexivity..|].
    do 5 (split; [assumption|]). split; [apply (bswap_returns 4); [exact H|reflexivity]|].
    apply (rotations_return 32); [set_solver|done|done|reflexivity..].
  - intros H16. apply (rotations_return 16); [set_solver|lia|done|reflexivity..].
  - intros H8. apply (rotations_return 8); [set_solver|lia|done|reflexivity..].
Qed.

Definition demo_core : core := (mk_xstate (fun _ => 0) [] [], fun _ => 0).
Lemma bit_wrappers_exact_witness :
  returns demo_core (least_bit 32 0x50) (bsf32 7 demo_core 0x50) /\
  returns demo_core (rotated_left 8 0x50 3) (rol8 demo_core 0x50 3) /\ rol8 demo_core 0x50 3 = Some (0x82, demo_core).
Proof.
  destruct (bit_wrappers_exact 7 demo_core 0x50 3 ltac:(lia) ltac:(lia)) as (_ & _ & _ & _ & _ & _ & _ & _ & H32 & _ & H8).
  split; [exact (proj1 (H32 ltac:(lia)))|]. split; [exact (proj1 (H8 ltac:(lia)))|]. reflexivity.
Defined.

(** ** What the register and memory wrappers do *)





Section tables.
Context (junk : Z) (c : core) (Hregs : regs_typed c.1).



End tables.

(** *** Words *)

(** What an access returns and the memory it leaves. *)
Definition swaps (c : core) (addr : Z) (new : Z) (o : option (Z * core)) : Prop :=
  o = Some (c.2 addr, (c.1, c.2.[addr <- new])).

Lemma atomics_exact w c addr v v' xc cx xa :
  0 <= w -> 0 <= c.2 addr < 2 ^ w -> 0 <= v < 2 ^ w -> 0 <= v' < 2 ^ w ->
  xc = Some ((c.2 addr mod 2 ^ w) mod 2 ^ w, (c.1, c.2.[addr <- (v mod 2 ^ w) mod 2 ^ w])) ->
  cx = (if c.2 addr mod 2 ^ w =? v mod 2 ^ w then Some (v, (c.1, c.2.[addr <- (v' mod 2 ^ w) mod 2 ^ w]))
        else Some (c.2 addr mod 2 ^ w, c)) ->
  xa = Some ((c.2 addr mod 2 ^ w) mod 2 ^ w, (c.1, c.2.[addr <- (c.2 addr mod 2 ^ w + v mod 2 ^ w) mod 2 ^ w])) ->
  swaps c addr v xc /\
  (if c.2 addr =? v then swaps c addr v' cx else cx = Some (c.2 addr, c)) /\
  swaps c addr ((c.2 addr + v) mod 2 ^ w) xa.
Proof.
  intros Hw Ha Hv Hv' -> -> ->. unfold swaps. rewrite !(Z.mod_small (c.2 addr)), !(Z.mod_small v) by done.
  rewrite !(Z.mod_small v') by done. split_and!; [done| |done].
  by destruct (Z.eqb_spec (c.2 addr) v) as [->|].
Qed.

(** The comparison of the processor is that of the words. *)
Lemma cmpxchg_runs c addr v v' :
  cmpxchg64 c addr v v' =
    (if c.2 addr mod 2 ^ 64 =? v mod 2 ^ 64 then Some (v, (c.1, c.2.[addr <- (v' mod 2 ^ 64) mod 2 ^ 64]))
     else Some (c.2 addr mod 2 ^ 64, c)) /\
  cmpxchg32 c addr v v' =
    (if c.2 addr mod 2 ^ 32 =? v mod 2 ^ 32 then Some (v, (c.1, c.2.[addr <- (v' mod 2 ^ 32) mod 2 ^ 32]))
     else Some (c.2 addr mod 2 ^ 32, c)).
Proof.
  destruct c as [x m]. split; lazy -[Z.modulo Z.pow Z.eqb upd mov_from]; by destruct (_ =? _).
Qed.

(** *** Bit strings *)

(** The bit is changed by [g] and no other bit or word is; the low byte of the result is
    the old bit, and the [int] is, if the register held no more than a byte. *)
Definition bit_effect (g : bool -> bool) (junk : Z) (c : core) (base bit : Z) (o : option (Z * core)) : Prop :=
  exists r m', o = Some (r, (c.1, m')) /\
    (forall j, bit_at m' base j = if s64 j =? s64 bit then g (bit_at c.2 base j) else bit_at c.2 base j) /\
    (forall a, a <> bit_word base bit -> m' a = c.2 a) /\
    u8 r = Z.b2z (bit_at c.2 base bit) /\ (r = Z.b2z (bit_at c.2 base bit) <-> Z.land junk 0xFFFFFF00 = 0).

(** SETC into the low byte of a 32-bit register, as an [int]. *)
Definition setc_result (junk : Z) (b : bool) : Z := int_of (Z.lor (Z.ldiff junk 0xFF) (Z.b2z b mod 2 ^ 8)).

Lemma setc_result_spec junk b : 0 <= junk < 2 ^ 32 ->
  u8 (setc_result junk b) = Z.b2z b /\ (setc_result junk b = Z.b2z b <-> Z.land junk 0xFFFFFF00 = 0).
Proof.
  intros Hj. assert (E : Z.lor (Z.ldiff junk 0xFF) (Z.b2z b mod 2 ^ 8) = setc junk b).
  { unfold setc. rewrite (Z.mod_small (Z.b2z b)) by (destruct b; simpl; lia). f_equal.
    change 0xFFFFFF00 with (Z.ldiff (Z.ones 32) 0xFF). rewrite !Z.ldiff_land, Z.land_assoc.
    rewrite (Z.land_ones junk), Z.mod_small by lia. done. }
  assert (Hs : 0 <= setc junk b < 2 ^ 32) by by apply setc_typed.
  unfold setc_result. rewrite E. rewrite <- (setc_exact junk b), <- (setc_low junk b).
  unfold int_of. rewrite (u32_small (setc junk b)) by done. pose proof (setc_low junk b) as Hl. rewrite Hl. unfold u8 in *.
  destruct (Z.ltb_spec (setc junk b) (2 ^ 31)); [done|].
  split; [rewrite <- Hl; dlia|]. destruct b; simpl; lia.
Qed.

Lemma bit_op_effect f g junk c base bit o :
  bitwise f g -> 0 <= junk < 2 ^ 32 -> 0 <= bit < 2 ^ 64 ->
  o = Some (setc_result junk (bit_at c.2 base (bit mod 2 ^ 64)), (c.1, (bit_op f junk c.2 base (bit mod 2 ^ 64)).1)) ->
  bit_effect g junk c base bit o.
Proof.
  intros Hf Hj Hb ->. rewrite (Z.mod_small bit) by done. destruct (setc_result_spec junk (bit_at c.2 base bit) Hj) as [H1 H2].
  eexists _, _. split; [reflexivity|]. split; [intros j; by apply bit_op_bit|]. split; [apply bit_op_frame|]. done.
Qed.

Lemma bit_strings_exact junk c base bit :
  0 <= junk < 2 ^ 32 -> 0 <= bit < 2 ^ 64 ->
  bit_effect (fun b => b) junk c base bit (bt64 junk c base bit) /\
  Forall (bit_effect (fun _ => true) junk c base bit) [bts64 junk c base bit; lock_bts64 junk c base bit] /\
  Forall (bit_effect (fun _ => false) junk c base bit) [btr64 junk c base bit; lock_btr64 junk c base bit] /\
  Forall (bit_effect negb junk c base bit) [btc64 junk c base bit; lock_btc64 junk c base bit].
Proof.
  intros Hj Hb. split.
  { destruct (setc_result_spec junk (bit_at c.2 base bit) Hj) as [H1 H2].
    assert (E : bt64 junk c base bit = Some (setc_result junk (bit_at c.2 base (bit mod 2 ^ 64)), (c.1, c.2)))
      by (destruct c; reflexivity). rewrite Z.mod_small in E by done.
    exists (setc_result junk (bit_at c.2 base bit)), c.2. split; [exact E|]. split; [intros j; by destruct (_ =? _)|]. done. }
  split_and!; repeat (apply Forall_cons; split); try apply Forall_nil_2.
  all: (eapply bit_op_effect; [first [apply bitwise_lor|apply bitwise_ldiff|apply bitwise_lxor]|done|done|]);
    destruct c; reflexivity.
Qed.

(** *** The rest *)







(** C32. The wrappers of words and bits in memory, as the assembly text in their
    bodies executes: [xchg] stores its value and returns the old word, in three
    widths; [cmpxchg] returns the old word and stores the new one exactly if it was
    the expected one; [xadd] returns the old word and adds, modulo the width.  [bt]
    changes nothing; [bts], [btr] and [btc], with and without LOCK, set, clear and
    flip exactly the bit with that signed number counted from the base.  The low
    byte of what these return is the bit's old value; the [int] is that value
    exactly if the register of the output held nothing above its low byte. *)
Theorem memory_wrappers_exact junk c addr v v' base bit :
  (fits 64 (c.2 addr) -> fits 64 v -> fits 64 v' ->
   swaps c addr v (xchg64 c addr v) /\
   (if c.2 addr =? v then swaps c addr v' (cmpxchg64 c addr v v') else cmpxchg64 c addr v v' = Some (c.2 addr, c)) /\
   swaps c addr ((c.2 addr + v) mod 2 ^ 64) (xadd64 c addr v)) /\
  (fits 32 (c.2 addr) -> fits 32 v -> fits 32 v' ->
   swaps c addr v (xchg32 c addr v) /\
   (if c.2 addr =? v then swaps c addr v' (cmpxchg32 c addr v v') else cmpxchg32 c addr v v' = Some (c.2 addr, c)) /\
   swaps c addr ((c.2 addr + v) mod 2 ^ 32) (xadd32 c addr v)) /\
  (fits 8 (c.2 addr) -> fits 8 v -> swaps c addr v (xchg8 c addr v)) /\
  (fits 32 junk -> fits 64 bit ->
   bit_effect (fun b => b) junk c base bit (bt64 junk c base bit) /\
   Forall (bit_effect (fun _ => true) junk c base bit) [bts64 junk c base bit; lock_bts64 junk c base bit] /\
   Forall (bit_effect (fun _ => false) junk c base bit) [btr64 junk c base bit; lock_btr64 junk c base bit] /\
   Forall (bit_effect negb junk c base bit) [btc64 junk c base bit; lock_btc64 junk c base bit]).
Proof.
  split; [|split; [|split]].
  - intros Ha Hv Hv'. apply (atomics_exact 64 c addr v v' (xchg64 c addr v) (cmpxchg64 c addr v v') (xadd64 c addr v));
      [lia|exact Ha|exact Hv|exact Hv'|reflexivity|exact (proj1 (cmpxchg_runs c addr v v'))|reflexivity].
  - intros Ha Hv Hv'. apply (atomics_exact 32 c addr v v' (xchg32 c addr v) (cmpxchg32 c addr v v') (xadd32 c addr v));
      [lia|exact Ha|exact Hv|exact Hv'|reflexivity|exact (proj2 (cmpxchg_runs c addr v v'))|reflexivity].
  - intros Ha Hv. refine (proj1 (atomics_exact 8 c addr v v _ _ _ _ Ha Hv Hv _ eq_refl eq_refl)); [lia|reflexivity].
  - apply bit_strings_exact.
Qed.

Lemma memory_wrappers_exact_witness :
  swaps demo_core 0x1000 5 (xadd64 demo_core 0x1000 5) /\
  bit_effect (fun _ => true) 0x12345678 demo_core 0x2000 (2 ^ 64 - 1) (lock_bts64 0x12345678 demo_core 0x2000 (2 ^ 64 - 1)).
Proof.
  destruct (memory_wrappers_exact 0x12345678 demo_core 0x1000 5 0 0x2000 (2 ^ 64 - 1)) as (H1 & _ & _ & H2). split.
  - apply H1; done.
  - destruct H2 as (_ & H2 & _); [done|done|]. apply Forall_cons in H2 as [_ H2]. apply Forall_cons in H2 as [H2 _]. exact H2.
Defined.
