(* ===== verification/KasmString.v ===== *)
(** * kasm-expanded.h: flag, sign-extension, string and system-call statements

    The instructions without operands, which work on fixed registers and on
    memory: each is the change it makes to the registers, the instruction
    pointer and a memory of bytes.  The string instructions come in four widths
    and move in the direction DF gives; a repeat prefix runs one RCX times, or
    until ZF says otherwise. *)

From S2P Require Import Prelude Kasm.

(** ** The machine *)

Record xmach : Type := mk_xmach {
  xm_x : xstate;
  xm_mem : mem;
  xm_rip : Z;
}.

Definition rg (r : gpr) (s : xmach) : Z := mov_from (Gpr r) (xm_x s).
Definition set_reg (r : reg) (v : Z) (s : xmach) : xmach := mk_xmach (mov_to r v (xm_x s)) (xm_mem s) (xm_rip s).
Definition set_rg (r : gpr) (v : Z) : xmach -> xmach := set_reg (Gpr r) v.
Definition set_bytes (m : mem) (s : xmach) : xmach := mk_xmach (xm_x s) m (xm_rip s).
Definition set_rip (a : Z) (s : xmach) : xmach := mk_xmach (xm_x s) (xm_mem s) a.
Definition flags (s : xmach) : Z := mov_from Rflags (xm_x s).

(** Bytes in memory, at addresses that wrap around. *)
Fixpoint load_bytes (n : nat) (m : mem) (a : Z) : list Z :=
  match n with O => [] | S n => m (u64 a) :: load_bytes n m (a + 1) end.
Fixpoint store_bytes (l : list Z) (m : mem) (a : Z) : mem :=
  match l with [] => m | b :: l => store_bytes l (m.[u64 a <- b]) (a + 1) end.

(** The low [w] bytes of a register.  Writing a byte or a word keeps the rest of
    the register, writing four bytes clears it. *)
Definition part (w : nat) (v : Z) : Z := v mod 256 ^ Z.of_nat w.
Definition merge (w : nat) (old v : Z) : Z :=
  if Nat.eqb w 4 then part w v else old - part w old + part w v.
Definition set_part (w : nat) (r : gpr) (v : Z) (s : xmach) : xmach := set_rg r (merge w (rg r s) v) s.

(** ** Flags *)

Definition put_flag (f : Z) (b : bool) (v : Z) : Z := if b then Z.lor v f else Z.ldiff v f.
Definition has_flag (f v : Z) : bool := negb (Z.land v f =? 0).
Definition set_flag (f : Z) (b : bool) (s : xmach) : xmach := set_reg Rflags (put_flag f b (flags s)) s.

Definition cli : xmach -> xmach := set_flag RFLAGS_IF false.
Definition sti : xmach -> xmach := set_flag RFLAGS_IF true.
Definition clc : xmach -> xmach := set_flag RFLAGS_CF false.
Definition stc : xmach -> xmach := set_flag RFLAGS_CF true.
Definition cmc (s : xmach) : xmach := set_flag RFLAGS_CF (negb (has_flag RFLAGS_CF (flags s))) s.
Definition cld : xmach -> xmach := set_flag RFLAGS_DF false.
Definition std_asm : xmach -> xmach := set_flag RFLAGS_DF true.

(** A word on the stack. *)
Definition push64 (v : Z) (s : xmach) : xmach :=
  let rsp := u64 (rg RSP s - 8) in
  set_rg RSP rsp (set_bytes (store_bytes (bytes_le 8 v) (xm_mem s) rsp) s).
Definition pop64 (s : xmach) : Z * xmach :=
  (of_bytes_le (load_bytes 8 (xm_mem s) (rg RSP s)), set_rg RSP (u64 (rg RSP s + 8)) s).

Definition pushfq (s : xmach) : xmach := push64 (pushf (flags s)) s.
Definition popfq (s : xmach) : xmach :=
  let '(v, s') := pop64 s in set_reg Rflags (popf (flags s) v) s'.
(** The five status flags that travel through AH; bit 1 reads as one. *)
Definition ah_flags : Z := foldr Z.lor 0 [RFLAGS_SF; RFLAGS_ZF; RFLAGS_AF; RFLAGS_PF; RFLAGS_CF].
Definition ah (v : Z) : Z := part 1 (v / 256).
Definition lahf (s : xmach) : xmach :=
  set_rg RAX (rg RAX s + 256 * (Z.lor (Z.land (flags s) ah_flags) 2 - ah (rg RAX s))) s.
Definition sahf (s : xmach) : xmach :=
  set_reg Rflags (Z.lor (Z.ldiff (flags s) ah_flags) (Z.land (ah (rg RAX s)) ah_flags)) s.

Definition leave_asm (s : xmach) : xmach :=
  let '(v, s) := pop64 (set_rg RSP (rg RBP s) s) in set_rg RBP v s.

(** ** Sign extension *)

(** The low [w] bytes as a signed number. *)
Definition sx (w : nat) (v : Z) : Z :=
  if part w v <? 256 ^ Z.of_nat w / 2 then part w v else part w v - 256 ^ Z.of_nat w.

Definition cbw (s : xmach) : xmach := set_part 2 RAX (sx 1 (rg RAX s)) s.
Definition cwde (s : xmach) : xmach := set_part 4 RAX (sx 2 (rg RAX s)) s.
Definition cdqe (s : xmach) : xmach := set_part 8 RAX (sx 4 (rg RAX s)) s.
Definition sign_word (w : nat) (s : xmach) : xmach :=
  set_part w RDX (if sx w (rg RAX s) <? 0 then -1 else 0) s.
Definition cwd : xmach -> xmach := sign_word 2.
Definition cdq : xmach -> xmach := sign_word 4.
Definition cqo : xmach -> xmach := sign_word 8.

Definition xlatb (s : xmach) : xmach :=
  set_part 1 RAX (xm_mem s (u64 (rg RBX s + part 1 (rg RAX s)))) s.

(** ** String instructions *)

Definition advance (w : nat) (r : gpr) (s : xmach) : xmach :=
  let d := if has_flag RFLAGS_DF (flags s) then - Z.of_nat w else Z.of_nat w in
  set_rg r (u64 (rg r s + d)) s.

Definition stos (w : nat) (s : xmach) : xmach :=
  advance w RDI (set_bytes (store_bytes (bytes_le w (rg RAX s)) (xm_mem s) (rg RDI s)) s).
Definition lods (w : nat) (s : xmach) : xmach :=
  advance w RSI (set_part w RAX (of_bytes_le (load_bytes w (xm_mem s) (rg RSI s))) s).
Definition movs (w : nat) (s : xmach) : xmach :=
  advance w RDI (advance w RSI
    (set_bytes (store_bytes (load_bytes w (xm_mem s) (rg RSI s)) (xm_mem s) (rg RDI s)) s)).

(** The flags of the difference of two [w]-byte numbers. *)
Definition sub_flags (w : nat) (a b v : Z) : Z :=
  let r := part w (a - b) in
  let neg x := sx w x <? 0 in
  let v := put_flag RFLAGS_CF (a <? b) v in
  let v := put_flag RFLAGS_PF (Z.even (count_bits 8 (part 1 r) 0 0)) v in
  let v := put_flag RFLAGS_AF (a mod 16 <? b mod 16) v in
  let v := put_flag RFLAGS_ZF (r =? 0) v in
  let v := put_flag RFLAGS_SF (neg r) v in
  put_flag RFLAGS_OF (negb (eqb (neg a) (neg b)) && negb (eqb (neg a) (neg r))) v.
Definition scas (w : nat) (s : xmach) : xmach :=
  let v := of_bytes_le (load_bytes w (xm_mem s) (rg RDI s)) in
  advance w RDI (set_reg Rflags (sub_flags w (part w (rg RAX s)) v (flags s)) s).

Definition stosb : xmach -> xmach := stos 1.
Definition stosw : xmach -> xmach := stos 2.
Definition stosd : xmach -> xmach := stos 4.
Definition stosq : xmach -> xmach := stos 8.
Definition lodsb : xmach -> xmach := lods 1.
Definition lodsw : xmach -> xmach := lods 2.
Definition lodsd : xmach -> xmach := lods 4.
Definition lodsq : xmach -> xmach := lods 8.
Definition movsb_str : xmach -> xmach := movs 1.
Definition movsw_str : xmach -> xmach := movs 2.
Definition movsd_str : xmach -> xmach := movs 4.
Definition movsq_str : xmach -> xmach := movs 8.
Definition scasb : xmach -> xmach := scas 1.
Definition scasw : xmach -> xmach := scas 2.
Definition scasd : xmach -> xmach := scas 4.
Definition scasq : xmach -> xmach := scas 8.

(** A repeat prefix: while RCX is not zero, the instruction, one off RCX, and the
    end when ZF is not the one the prefix goes on for. *)
Fixpoint repeat_while (turns : nat) (step : xmach -> xmach) (go_on : xmach -> bool) (s : xmach) : xmach :=
  match turns with
  | O => s
  | S t =>
      let s := step s in
      let s := set_rg RCX (u64 (rg RCX s - 1)) s in
      if go_on s then repeat_while t step go_on s else s
  end.
Definition rep (step : xmach -> xmach) (s : xmach) : xmach :=
  repeat_while (Z.to_nat (rg RCX s)) step (fun _ => true) s.
Definition repe (step : xmach -> xmach) (s : xmach) : xmach :=
  repeat_while (Z.to_nat (rg RCX s)) step (fun s => has_flag RFLAGS_ZF (flags s)) s.
Definition repne (step : xmach -> xmach) (s : xmach) : xmach :=
  repeat_while (Z.to_nat (rg RCX s)) step (fun s => negb (has_flag RFLAGS_ZF (flags s))) s.

Definition rep_stosb : xmach -> xmach := rep stosb.
Definition rep_stosd : xmach -> xmach := rep stosd.
Definition rep_stosq : xmach -> xmach := rep stosq.
Definition rep_movsb : xmach -> xmach := rep movsb_str.
Definition rep_movsq : xmach -> xmach := rep movsq_str.
Definition repe_scasb : xmach -> xmach := repe scasb.
Definition repe_scasq : xmach -> xmach := repe scasq.
Definition repne_scasb : xmach -> xmach := repne scasb.
Definition repne_scasq : xmach -> xmach := repne scasq.

(** ** Bits of the control registers *)

Definition CR0_PE : Z := 2 ^ 0.
Definition CR0_MP : Z := 2 ^ 1.
Definition CR0_EM : Z := 2 ^ 2.
Definition CR0_TS : Z := 2 ^ 3.
Definition CR0_NE : Z := 2 ^ 5.
Definition CR0_WP : Z := 2 ^ 16.
Definition CR0_AM : Z := 2 ^ 18.
Definition CR0_NW : Z := 2 ^ 29.
Definition CR0_CD : Z := 2 ^ 30.
Definition CR0_PG : Z := 2 ^ 31.
Definition CR4_VME : Z := 2 ^ 0.
Definition CR4_PVI : Z := 2 ^ 1.
Definition CR4_TSD : Z := 2 ^ 2.
Definition CR4_DE : Z := 2 ^ 3.
Definition CR4_PSE : Z := 2 ^ 4.
Definition CR4_PAE : Z := 2 ^ 5.
Definition CR4_MCE : Z := 2 ^ 6.
Definition CR4_PGE : Z := 2 ^ 7.
Definition CR4_OSFXSR : Z := 2 ^ 9.
Definition CR4_OSXMMEXCPT : Z := 2 ^ 10.
Definition CR4_UMIP : Z := 2 ^ 11.
Definition CR4_VMXE : Z := 2 ^ 13.
Definition CR4_FSGSBASE : Z := 2 ^ 16.
Definition CR4_PCIDE : Z := 2 ^ 17.
Definition CR4_OSXSAVE : Z := 2 ^ 18.
Definition CR4_SMEP : Z := 2 ^ 20.
Definition CR4_SMAP : Z := 2 ^ 21.
Definition EFER_LME : Z := 2 ^ 8.
Definition EFER_LMA : Z := 2 ^ 10.
Definition EFER_NXE : Z := 2 ^ 11.

Definition CR0_bits : list Z :=
  [CR0_PE; CR0_MP; CR0_EM; CR0_TS; CR0_NE; CR0_WP; CR0_AM; CR0_NW; CR0_CD; CR0_PG].
Definition CR4_bits : list Z :=
  [CR4_VME; CR4_PVI; CR4_TSD; CR4_DE; CR4_PSE; CR4_PAE; CR4_MCE; CR4_PGE; CR4_OSFXSR;
   CR4_OSXMMEXCPT; CR4_UMIP; CR4_VMXE; CR4_FSGSBASE; CR4_PCIDE; CR4_OSXSAVE; CR4_SMEP; CR4_SMAP].

(** ** System calls *)

Definition MSR_EFER : Z := 0xC0000080.
Definition MSR_STAR : Z := 0xC0000081.
Definition MSR_LSTAR : Z := 0xC0000082.
Definition MSR_SFMASK : Z := 0xC0000084.
Definition EFER_SCE : Z := 2 ^ 0.

Definition msr (n : Z) (s : xmach) : Z := mov_from (Msr n) (xm_x s).
Definition canonical48 (a : Z) : bool := (a <? 2 ^ 47) || (2 ^ 64 - 2 ^ 47 <=? a).
(** The flags SYSRET loads: all but RF and VM. *)
Definition sysret_loads : Z := 0x3C7FD7.

(** [None] is the exception the processor raises instead: #UD without EFER.SCE,
    #GP on a return address that is not canonical.  [xm_rip] is the address of the
    next instruction. *)
Definition syscall_asm (s : xmach) : option xmach :=
  if negb (has_flag EFER_SCE (msr MSR_EFER s)) then None else
  let sel := u16 (Z.shiftr (msr MSR_STAR s) 32) in
  let s1 := set_rg RCX (xm_rip s) s in
  let s1 := set_rg R11 (flags s) s1 in
  let s1 := set_reg Rflags (Z.ldiff (flags s) (u32 (msr MSR_SFMASK s))) s1 in
  let s1 := set_reg (Seg CS) (Z.land sel 0xFFFC) s1 in
  let s1 := set_reg (Seg SS) (u16 (sel + 8)) s1 in
  Some (set_rip (msr MSR_LSTAR s) s1).
Definition sysret64 (s : xmach) : option xmach :=
  if negb (has_flag EFER_SCE (msr MSR_EFER s)) then None else
  if negb (canonical48 (rg RCX s)) then None else
  let sel := u16 (Z.shiftr (msr MSR_STAR s) 48) in
  let s1 := set_reg Rflags (Z.lor (Z.land (rg R11 s) sysret_loads) 2) s in
  let s1 := set_reg (Seg CS) (Z.lor (u16 (sel + 16)) 3) s1 in
  let s1 := set_reg (Seg SS) (Z.lor (u16 (sel + 8)) 3) s1 in
  Some (set_rip (rg RCX s) s1).
