(* ===== verification/KasmStringTheorems.v ===== *)
(** * What the string instructions compute

    Filling, copying and scanning with a repeat prefix, in both directions and at
    every width, are the byte-level operations [memset], [memcpy] and
    [kstring_length] of the kernel; flags survive a round trip through the stack,
    through AH and through a system call; the sign extensions keep the number. *)

From S2P Require Import Prelude State Kstrings Kasm KasmTheorems KasmTypes KasmString.

(** ** Registers of the machine *)

Section registers.
Variables (r : gpr) (q : reg) (v : Z) (m : mem) (s : xmach).

Lemma rg_set_rg_eq : rg r (set_rg r v s) = v.
Proof using Type. unfold rg, set_rg, set_reg, mov_from, mov_to. cbn. by rewrite decide_True. Qed.
Lemma rg_set_rg_ne r' : r' <> r -> rg r' (set_rg r v s) = rg r' s.
Proof using Type. intros. unfold rg, set_rg, set_reg, mov_from, mov_to. cbn. by rewrite decide_False by congruence. Qed.
Lemma rg_set_flags : rg r (set_reg Rflags v s) = rg r s.
Proof using Type. done. Qed.
Lemma rg_set_bytes : rg r (set_bytes m s) = rg r s.
Proof using Type. done. Qed.
Lemma flags_set_rg : flags (set_rg r v s) = flags s.
Proof using Type. done. Qed.
Lemma flags_set_flags : flags (set_reg Rflags v s) = v.
Proof using Type. done. Qed.
Lemma flags_set_bytes : flags (set_bytes m s) = flags s.
Proof using Type. done. Qed.
Lemma mem_set_reg : xm_mem (set_reg q v s) = xm_mem s.
Proof using Type. done. Qed.
Lemma mem_set_rg : xm_mem (set_rg r v s) = xm_mem s.
Proof using Type. done. Qed.
Lemma mem_set_bytes : xm_mem (set_bytes m s) = m.
Proof using Type. done. Qed.
End registers.

(** Reads a register, the flags or the memory through the writes before it. *)
Ltac xm :=
  repeat first
    [ rewrite flags_set_rg | rewrite flags_set_flags | rewrite flags_set_bytes
    | rewrite mem_set_rg | rewrite mem_set_reg | rewrite mem_set_bytes
    | rewrite rg_set_flags | rewrite rg_set_bytes | rewrite rg_set_rg_eq
    | rewrite rg_set_rg_ne by discriminate ].

(** ** Bytes in memory *)

Lemma u64_succ a b : u64 a = u64 b -> u64 (a + 1) = u64 (b + 1).
Proof. unfold u64. intros H. by rewrite <- (Zplus_mod_idemp_l a), H, Zplus_mod_idemp_l. Qed.

Lemma store_bytes_cong l m a b : u64 a = u64 b -> store_bytes l m a = store_bytes l m b.
Proof.
  revert m a b. induction l as [|c l IH]; intros m a b H; [done|]. cbn [store_bytes]. rewrite H. by apply IH, u64_succ.
Qed.

Lemma store_bytes_app l1 l2 m a :
  store_bytes (l1 ++ l2) m a = store_bytes l2 (store_bytes l1 m a) (a + Z.of_nat (length l1)).
Proof.
  revert m a. induction l1 as [|c l1 IH]; intros m a; cbn [store_bytes app length]; [by rewrite Z.add_0_r|].
  rewrite IH. f_equal. lia.
Qed.

Lemma length_load_bytes n m a : length (load_bytes n m a) = n.
Proof. revert a. induction n as [|n IH]; intros a; [done|]. cbn [load_bytes length]. by rewrite IH. Qed.

(** Within the address space a list of bytes is what lies at its addresses. *)
Definition in_space (a : Z) (n : nat) : Prop := 0 <= a /\ a + Z.of_nat n <= 2 ^ 64.

Lemma load_bytes_nth n m a i :
  in_space a n -> (i < n)%nat -> load_bytes n m a !! i = Some (m (a + Z.of_nat i)).
Proof.
  unfold in_space. revert a i. induction n as [|n IH]; intros a i Ha Hi; [lia|]. cbn [load_bytes].
  destruct i as [|i]; cbn [lookup list_lookup].
  - by rewrite u64_small, Z.add_0_r by lia.
  - rewrite IH by lia. do 2 f_equal. lia.
Qed.

Lemma store_bytes_out l m a x :
  in_space a (length l) -> ~ a <= x < a + Z.of_nat (length l) -> store_bytes l m a x = m x.
Proof.
  unfold in_space. revert m a. induction l as [|c l IH]; intros m a Ha Hx; [done|]. cbn [store_bytes length] in *.
  rewrite IH by lia. rewrite u64_small by lia. apply upd_ne. lia.
Qed.

Lemma store_bytes_in l m a i c :
  in_space a (length l) -> l !! i = Some c -> store_bytes l m a (a + Z.of_nat i) = c.
Proof.
  unfold in_space. revert m a i. induction l as [|b l IH]; intros m a i Ha Hi; [done|]. cbn [store_bytes length] in *.
  destruct i as [|i]; cbn [lookup list_lookup] in Hi.
  - injection Hi as ->. rewrite store_bytes_out by (unfold in_space; lia). rewrite Z.add_0_r, u64_small by lia. apply upd_eq.
  - replace (a + Z.of_nat (S i)) with (a + 1 + Z.of_nat i) by lia. apply IH; [lia|done].
Qed.

Lemma load_store_bytes n l m a : length l = n -> in_space a n -> load_bytes n (store_bytes l m a) a = l.
Proof.
  intros Hn Ha. apply list_eq. intros i. destruct (decide (i < n)%nat) as [Hi|Hi].
  - rewrite load_bytes_nth by done. destruct (lookup_lt_is_Some_2 l i) as [c Hc]; [lia|]. rewrite Hc. f_equal.
    apply store_bytes_in; [|done]. by rewrite Hn.
  - rewrite !lookup_ge_None_2; rewrite ?length_load_bytes; (done || lia).
Qed.

Lemma load_bytes_same n m m' a :
  in_space a n -> (forall x, a <= x < a + Z.of_nat n -> m' x = m x) -> load_bytes n m' a = load_bytes n m a.
Proof.
  unfold in_space. revert a. induction n as [|n IH]; intros a Ha Hm; [done|]. cbn [load_bytes].
  rewrite (Hm (u64 a)) by (rewrite u64_small; lia). f_equal. apply IH; [lia|]. intros x Hx. apply Hm. lia.
Qed.

Lemma load_bytes_app n k m a : load_bytes (n + k) m a = load_bytes n m a ++ load_bytes k m (a + Z.of_nat n).
Proof.
  revert a. induction n as [|n IH]; intros a; cbn [load_bytes app Nat.add]; [by rewrite Z.add_0_r|].
  rewrite IH. do 3 f_equal. lia.
Qed.

Lemma of_bytes_le_app l1 l2 : of_bytes_le (l1 ++ l2) = of_bytes_le l1 + 256 ^ Z.of_nat (length l1) * of_bytes_le l2.
Proof.
  induction l1 as [|b l1 IH]; cbn [app of_bytes_le length]; [by rewrite Z.mul_1_l|].
  rewrite IH, Nat2Z.inj_succ, Z.pow_succ_r by lia. ring.
Qed.

(** ** Repeating an instruction *)

(** The distance one string instruction moves. *)
Definition stride (w : nat) (s : xmach) : Z :=
  if has_flag RFLAGS_DF (flags s) then - Z.of_nat w else Z.of_nat w.

(** Only the registers [rs] may differ. *)
Definition same_but (rs : list gpr) (s s' : xmach) : Prop :=
  flags s' = flags s /\ forall r, r ∉ rs -> rg r s' = rg r s.

Lemma same_but_trans rs s1 s2 s3 : same_but rs s1 s2 -> same_but rs s2 s3 -> same_but rs s1 s3.
Proof. intros [F1 H1] [F2 H2]. split; [congruence|]. intros r Hr. by rewrite H2, H1. Qed.
Lemma same_but_set rs r v s s' : r ∈ rs -> same_but rs s s' -> same_but rs s (set_rg r v s').
Proof.
  intros Hr [F H]. split; [done|]. intros r' Hr'. rewrite rg_set_rg_ne by set_solver. by apply H.
Qed.
Lemma same_but_bytes rs m s s' : same_but rs s s' -> same_but rs s (set_bytes m s').
Proof. done. Qed.
Lemma same_but_self rs s : same_but rs s s.
Proof. done. Qed.
Create HintDb xm discriminated.
#[export] Hint Resolve same_but_set same_but_bytes same_but_self : xm.
#[export] Hint Extern 1 (_ ∈ _) => (set_solver) : xm.

Lemma same_but_stride rs w s s' : same_but rs s s' -> stride w s' = stride w s.
Proof. intros [F _]. unfold stride. by rewrite F. Qed.

Lemma rg_advance w r s : rg r (advance w r s) = u64 (rg r s + stride w s).
Proof. apply rg_set_rg_eq. Qed.
Lemma rg_advance_ne w r r' s : r' <> r -> rg r' (advance w r s) = rg r' s.
Proof. apply rg_set_rg_ne. Qed.
Lemma same_but_advance rs w r s s' : r ∈ rs -> same_but rs s s' -> same_but rs s (advance w r s').
Proof. intros Hr H. by apply same_but_set. Qed.
#[export] Hint Resolve same_but_advance : xm.

(** One turn of a repeat prefix. *)
Definition turn (step : xmach -> xmach) (s : xmach) : xmach :=
  let s := step s in set_rg RCX (u64 (rg RCX s - 1)) s.

Lemma repeat_while_S t step go_on s :
  repeat_while (S t) step go_on s =
  if go_on (turn step s) then repeat_while t step go_on (turn step s) else turn step s.
Proof. done. Qed.

(** ** Filling *)

Lemma stos_turn w s :
  let s' := turn (stos w) s in
  xm_mem s' = store_bytes (bytes_le w (rg RAX s)) (xm_mem s) (rg RDI s) /\
  rg RDI s' = u64 (rg RDI s + stride w s) /\ rg RCX s' = u64 (rg RCX s - 1) /\ same_but [RDI; RCX] s s'.
Proof.
  cbv zeta. unfold turn, stos. split_and!; [done| | |auto with xm].
  - xm. by rewrite rg_advance.
  - xm. rewrite rg_advance_ne by discriminate. by xm.
Qed.

(** [rep stos] stores the pattern of the accumulator RCX times in a row. *)
Lemma rep_stos_forward w t s :
  stride w s = Z.of_nat w -> rg RCX s = Z.of_nat t -> Z.of_nat t < 2 ^ 64 ->
  let s' := repeat_while t (stos w) (fun _ => true) s in
  xm_mem s' = store_bytes (concat (replicate t (bytes_le w (rg RAX s)))) (xm_mem s) (rg RDI s) /\
  u64 (rg RDI s') = u64 (rg RDI s + Z.of_nat (t * w)) /\ rg RCX s' = 0 /\ same_but [RDI; RCX] s s'.
Proof.
  cbv zeta. revert s. induction t as [|t IH]; intros s Hw Hc Ht.
  { cbn. rewrite Z.add_0_r. auto with xm. }
  rewrite repeat_while_S. cbv iota. destruct (stos_turn w s) as (Hm & Hd & Hn & Hs). cbv zeta in *.
  generalize dependent (turn (stos w) s). intros s1 Hm Hd Hn Hs.
  destruct (IH s1) as (E1 & E2 & E3 & E4); [by rewrite (same_but_stride _ _ _ _ Hs)|rewrite Hn, u64_small; lia|lia|].
  rewrite E1, E2, E3, Hm. split_and!; [| |done|by eapply same_but_trans].
  - cbn [replicate concat]. rewrite store_bytes_app, length_bytes_le, (proj2 Hs RAX) by set_solver.
    apply store_bytes_cong. rewrite Hd, Hw. unfold u64. by rewrite Z.mod_mod.
  - rewrite Hd, Hw. unfold u64. rewrite Zplus_mod_idemp_l. f_equal. lia.
Qed.

Lemma concat_replicate {A} (n k : nat) (b : A) : concat (replicate n (replicate k b)) = replicate (n * k) b.
Proof. induction n as [|n IH]; [done|]. cbn [replicate concat Nat.mul]. by rewrite IH, <- replicate_add. Qed.

(** The accumulator that repeats one byte. *)
Definition byte_pattern (w : nat) (b : Z) : Z := of_bytes_le (replicate w b).

Lemma bytes_le_mod n v : bytes_le n (part n v) = bytes_le n v.
Proof.
  unfold part. rewrite <- of_bytes_le_bytes.
  rewrite <- (length_bytes_le n v) at 1. apply bytes_le_of_bytes, bytes_le_bytes.
Qed.

Lemma bytes_le_pattern w b v : is_byte b -> part w v = byte_pattern w b -> bytes_le w v = replicate w b.
Proof.
  intros Hb Hv. rewrite <- bytes_le_mod, Hv. unfold byte_pattern.
  rewrite <- (length_replicate w b) at 1. apply bytes_le_of_bytes. by apply Forall_replicate.
Qed.

Lemma store_replicate_memset n m a b :
  in_space a n -> store_bytes (replicate n b) m a = (Kstrings.rep_stosb n m a b).1.
Proof.
  unfold in_space. revert m a. induction n as [|n IH]; intros m a Ha; [done|].
  cbn [replicate store_bytes Kstrings.rep_stosb]. rewrite u64_small by lia. apply IH. lia.
Qed.

(** The [rep stos] of any width whose accumulator repeats the byte, over the same
    number of bytes, is the [memset] of kstrings.c. *)
Theorem rep_stos_memset w s n v :
  has_flag RFLAGS_DF (flags s) = false -> part w (rg RAX s) = byte_pattern w (u8 v) ->
  0 <= rg RCX s < 2 ^ 64 -> n = rg RCX s * Z.of_nat w -> in_space (rg RDI s) (Z.to_nat n) ->
  xm_mem (rep (stos w) s) = (memset (xm_mem s) (rg RDI s) v n).1 /\
  rg RCX (rep (stos w) s) = 0 /\ u64 (rg RDI (rep (stos w) s)) = u64 (rg RDI s + n).
Proof.
  intros Hdf Hv Hc -> Hsp. unfold rep.
  destruct (rep_stos_forward w (Z.to_nat (rg RCX s)) s) as (E1 & E2 & E3 & _); [|lia..|].
  { unfold stride. by rewrite Hdf. }
  assert (Hn : Z.to_nat (rg RCX s * Z.of_nat w) = (Z.to_nat (rg RCX s) * w)%nat) by lia.
  split_and!; [|done|rewrite E2; f_equal; lia].
  rewrite E1, (bytes_le_pattern w (u8 v)), concat_replicate, <- Hn; [|unfold is_byte, u8; apply Z.mod_pos_bound; lia|done].
  unfold memset. destruct (Z.eqb_spec (rg RCX s * Z.of_nat w) 0) as [->|]; [done|]. by apply store_replicate_memset.
Qed.

(** ** Copying *)

(** [m'] is [m] with the [n] bytes at [src], as they were, at [dst]. *)
Definition moved (m : mem) (src dst n : Z) (m' : mem) : Prop :=
  forall x, m' x = if (dst <=? x) && (x <? dst + n) then m (src + (x - dst)) else m x.

(** A copy in two parts, the low part first or the high part first. *)
Ltac range_cases :=
  repeat match goal with
  | |- context [?a <=? ?b] => destruct (Z.leb_spec a b)
  | |- context [?a <? ?b] => destruct (Z.ltb_spec a b)
  end; cbn [andb]; try lia; f_equal; lia.

Lemma moved_low_first m m1 m2 src dst a b :
  0 <= a -> 0 <= b -> dst <= src \/ src + (a + b) <= dst ->
  moved m src dst a m1 -> moved m1 (src + a) (dst + a) b m2 -> moved m src dst (a + b) m2.
Proof. intros Ha Hb Ho H1 H2 x. rewrite H2, !H1. range_cases. Qed.

Lemma moved_high_first m m1 m2 src dst a b :
  0 <= a -> 0 <= b -> src <= dst \/ dst + (a + b) <= src ->
  moved m (src + a) (dst + a) b m1 -> moved m1 src dst a m2 -> moved m src dst (a + b) m2.
Proof. intros Ha Hb Ho H1 H2 x. rewrite H2, !H1. range_cases. Qed.

Lemma moved_nothing m src dst : moved m src dst 0 m.
Proof. intros x. range_cases. Qed.

Lemma load_bytes_cong n m a b : u64 a = u64 b -> load_bytes n m a = load_bytes n m b.
Proof.
  revert a b. induction n as [|n IH]; intros a b H; [done|]. cbn [load_bytes]. rewrite H. f_equal. by apply IH, u64_succ.
Qed.

Lemma store_load_moved w m src dst :
  in_space src w -> in_space dst w -> moved m src dst (Z.of_nat w) (store_bytes (load_bytes w m src) m dst).
Proof.
  intros Hs Hd x. destruct ((dst <=? x) && (x <? dst + Z.of_nat w)) eqn:E.
  - assert (Hx : dst <= x < dst + Z.of_nat w) by lia. replace x with (dst + Z.of_nat (Z.to_nat (x - dst))) at 1 by lia.
    apply store_bytes_in; [by rewrite length_load_bytes|]. rewrite load_bytes_nth by (done || lia). do 2 f_equal. lia.
  - apply store_bytes_out; rewrite length_load_bytes; [done|lia].
Qed.

Lemma movs_turn w s src dst :
  rg RSI s = u64 src -> rg RDI s = u64 dst ->
  let s' := turn (movs w) s in
  xm_mem s' = store_bytes (load_bytes w (xm_mem s) src) (xm_mem s) dst /\
  rg RSI s' = u64 (src + stride w s) /\ rg RDI s' = u64 (dst + stride w s) /\
  rg RCX s' = u64 (rg RCX s - 1) /\ same_but [RSI; RDI; RCX] s s'.
Proof.
  intros Hs Hd. cbv zeta. unfold turn, movs.
  assert (Hu : forall a b, u64 (u64 a + b) = u64 (a + b)) by (intros; unfold u64; by rewrite Zplus_mod_idemp_l).
  split_and!; [| | | |auto with xm].
  - xm. change (xm_mem (advance w RDI ?x)) with (xm_mem x). change (xm_mem (advance w RSI ?x)) with (xm_mem x). xm.
    rewrite Hs, Hd. rewrite (load_bytes_cong _ _ (u64 src) src) by (unfold u64; by rewrite Z.mod_mod).
    apply store_bytes_cong. unfold u64. by rewrite Z.mod_mod.
  - xm. rewrite rg_advance_ne, rg_advance by discriminate. xm. by rewrite Hs, Hu.
  - xm. rewrite rg_advance, rg_advance_ne by discriminate. xm. by rewrite Hd, Hu.
  - xm. rewrite !rg_advance_ne by discriminate. by xm.
Qed.

Lemma rep_movs_forward w t s src dst :
  let n := Z.of_nat (t * w) in
  stride w s = Z.of_nat w -> rg RCX s = Z.of_nat t -> Z.of_nat t < 2 ^ 64 ->
  rg RSI s = u64 src -> rg RDI s = u64 dst -> in_space src (t * w) -> in_space dst (t * w) ->
  dst <= src \/ src + n <= dst ->
  let s' := repeat_while t (movs w) (fun _ => true) s in
  moved (xm_mem s) src dst n (xm_mem s') /\
  rg RCX s' = 0 /\ rg RSI s' = u64 (src + n) /\ rg RDI s' = u64 (dst + n) /\ same_but [RSI; RDI; RCX] s s'.
Proof.
  cbv zeta. revert s src dst. induction t as [|t IH]; intros s src dst Hw Hc Ht Hsi Hdi Hs Hd Ho.
  { cbn [repeat_while]. rewrite !Z.add_0_r. split_and!; [apply moved_nothing|done..|auto with xm]. }
  rewrite repeat_while_S. cbv iota. destruct (movs_turn w s src dst Hsi Hdi) as (Hm & H1 & H2 & Hn & Hf). cbv zeta in *.
  generalize dependent (turn (movs w) s). intros s1 Hm H1 H2 Hn Hf. unfold in_space in Hs, Hd.
  destruct (IH s1 (src + Z.of_nat w) (dst + Z.of_nat w)) as (E1 & E2 & E3 & E4 & E5);
    [by rewrite (same_but_stride _ _ _ _ Hf)|rewrite Hn, u64_small; lia|lia|by rewrite H1, Hw|by rewrite H2, Hw|unfold in_space; lia..|lia|].
  pose proof (store_load_moved w (xm_mem s) src dst ltac:(unfold in_space; lia) ltac:(unfold in_space; lia)) as Hone.
  rewrite <- Hm in Hone. split_and!; [|done|rewrite E3; f_equal; lia|rewrite E4; f_equal; lia|by eapply same_but_trans].
  replace (Z.of_nat (S t * w)) with (Z.of_nat w + Z.of_nat (t * w)) in * by lia. eapply moved_low_first; [lia..|done|done|done].
Qed.

Lemma rep_movs_backward w t s src dst :
  let n := Z.of_nat (t * w) in
  stride w s = - Z.of_nat w -> rg RCX s = Z.of_nat t -> Z.of_nat t < 2 ^ 64 ->
  rg RSI s = u64 (src + n - Z.of_nat w) -> rg RDI s = u64 (dst + n - Z.of_nat w) ->
  in_space src (t * w) -> in_space dst (t * w) ->
  src <= dst \/ dst + n <= src ->
  let s' := repeat_while t (movs w) (fun _ => true) s in
  moved (xm_mem s) src dst n (xm_mem s') /\ rg RCX s' = 0 /\ same_but [RSI; RDI; RCX] s s'.
Proof.
  cbv zeta. revert s. induction t as [|t IH]; intros s Hw Hc Ht Hsi Hdi Hs Hd Ho.
  { cbn [repeat_while]. split_and!; [apply moved_nothing|done|auto with xm]. }
  rewrite repeat_while_S. cbv iota.
  destruct (movs_turn w s _ _ Hsi Hdi) as (Hm & H1 & H2 & Hn & Hf). cbv zeta in *.
  generalize dependent (turn (movs w) s). intros s1 Hm H1 H2 Hn Hf. unfold in_space in Hs, Hd.
  replace (src + Z.of_nat (S t * w) - Z.of_nat w) with (src + Z.of_nat (t * w)) in * by lia.
  replace (dst + Z.of_nat (S t * w) - Z.of_nat w) with (dst + Z.of_nat (t * w)) in * by lia.
  destruct (IH s1) as (E1 & E2 & E3);
    [by rewrite (same_but_stride _ _ _ _ Hf)|rewrite Hn, u64_small; lia|lia|rewrite H1, Hw; f_equal; lia
    |rewrite H2, Hw; f_equal; lia|unfold in_space; lia..|lia|].
  pose proof (store_load_moved w (xm_mem s) (src + Z.of_nat (t * w)) (dst + Z.of_nat (t * w))
    ltac:(unfold in_space; lia) ltac:(unfold in_space; lia)) as Hone.
  rewrite <- Hm in Hone. split_and!; [|done|by eapply same_but_trans].
  replace (Z.of_nat (S t * w)) with (Z.of_nat (t * w) + Z.of_nat w) in * by lia. eapply moved_high_first; [lia..|done|done|done].
Qed.

(** [rep movs] forward of any width, over the same number of bytes, is the byte
    copy [memcpy] of pmap.c between buffers that are apart. *)
Lemma rep_movs_memcpy w s n :
  has_flag RFLAGS_DF (flags s) = false -> 0 <= rg RCX s < 2 ^ 64 -> n = rg RCX s * Z.of_nat w ->
  0 <= rg RSI s < 2 ^ 64 -> 0 <= rg RDI s < 2 ^ 64 ->
  in_space (rg RSI s) (Z.to_nat n) -> in_space (rg RDI s) (Z.to_nat n) ->
  rg RDI s + n <= rg RSI s \/ rg RSI s + n <= rg RDI s ->
  forall x, xm_mem (rep (movs w) s) x = (memcpy (xm_mem s) (rg RDI s) (rg RSI s) n).1 x.
Proof.
  intros Hdf Hc -> Hsi Hdi Hs Hd Ho x. unfold rep, memcpy. cbn [fst].
  assert (Hn : Z.to_nat (rg RCX s * Z.of_nat w) = (Z.to_nat (rg RCX s) * w)%nat) by lia. rewrite Hn in *.
  destruct (rep_movs_forward w (Z.to_nat (rg RCX s)) s (rg RSI s) (rg RDI s)) as (-> & _);
    [unfold stride; by rewrite Hdf|lia|lia|by rewrite u64_small..|done|done|lia|].
  symmetry. apply memcpy_loop_spec. lia.
Qed.

(** ** Scanning *)

Lemma has_flag_testbit i v : 0 <= i -> has_flag (2 ^ i) v = Z.testbit v i.
Proof.
  intros Hi. unfold has_flag. destruct (Z.eqb_spec (Z.land v (2 ^ i)) 0) as [E|E]; symmetry; cbn [negb].
  - assert (H : Z.testbit (Z.land v (2 ^ i)) i = false) by (by rewrite E, Z.bits_0).
    rewrite Z.land_spec, Z.pow2_bits_true, andb_true_r in H by done. done.
  - destruct (Z.testbit v i) eqn:Hb; [done|]. destruct E. apply Z.bits_inj'. intros j Hj.
    rewrite Z.land_spec, Z.bits_0, Z.pow2_bits_eqb by done. destruct (Z.eqb_spec i j) as [->|]; [by rewrite Hb|apply andb_false_r].
Qed.

Lemma put_flag_testbit i b v j : 0 <= i -> 0 <= j -> Z.testbit (put_flag (2 ^ i) b v) j = if i =? j then b else Z.testbit v j.
Proof.
  intros Hi Hj. unfold put_flag. destruct b; rewrite ?Z.lor_spec, ?Z.ldiff_spec, Z.pow2_bits_eqb by done;
    destruct (i =? j); cbn [negb]; by rewrite ?orb_true_r, ?orb_false_r, ?andb_false_r, ?andb_true_r.
Qed.

(** Every name of a control bit is one bit, and no two of a register are the same:
    setting or clearing one leaves the others. *)
Lemma control_bits_single :
  Forall (fun b => b = 2 ^ Z.log2 b /\ 0 <= Z.log2 b < 32) (CR0_bits ++ CR4_bits) /\ NoDup CR0_bits /\ NoDup CR4_bits.
Proof. split_and!; [repeat constructor| |]; apply (bool_decide_unpack _); vm_compute; exact I. Qed.

Lemma put_flag_other i j b v :
  0 <= i -> 0 <= j -> has_flag (2 ^ j) (put_flag (2 ^ i) b v) = if i =? j then b else has_flag (2 ^ j) v.
Proof. intros Hi Hj. rewrite !has_flag_testbit by done. by apply put_flag_testbit. Qed.

Lemma sub_flags_bit w a b v j :
  0 <= j -> j <> 0 -> j <> 2 -> j <> 4 -> j <> 6 -> j <> 7 -> j <> 11 ->
  Z.testbit (sub_flags w a b v) j = Z.testbit v j.
Proof.
  intros. unfold sub_flags, RFLAGS_CF, RFLAGS_PF, RFLAGS_AF, RFLAGS_ZF, RFLAGS_SF, RFLAGS_OF.
  rewrite !put_flag_testbit by lia. by rewrite !(proj2 (Z.eqb_neq _ _)) by lia.
Qed.

Lemma sub_flags_df w a b v : has_flag RFLAGS_DF (sub_flags w a b v) = has_flag RFLAGS_DF v.
Proof. unfold RFLAGS_DF. rewrite !has_flag_testbit by lia. apply sub_flags_bit; lia. Qed.

Lemma sub_flags_zf w a b v :
  0 <= a < 256 ^ Z.of_nat w -> 0 <= b < 256 ^ Z.of_nat w -> has_flag RFLAGS_ZF (sub_flags w a b v) = (a =? b).
Proof.
  intros Ha Hb. unfold sub_flags, RFLAGS_CF, RFLAGS_PF, RFLAGS_AF, RFLAGS_ZF, RFLAGS_SF, RFLAGS_OF.
  rewrite has_flag_testbit, !put_flag_testbit by lia. cbn [Z.eqb Pos.eqb]. unfold part.
  generalize dependent (256 ^ Z.of_nat w). intros P Ha Hb.
  destruct (Z.eqb_spec a b) as [->|Hab]; [by rewrite Z.sub_diag|]. apply Z.eqb_neq. intros E.
  apply Z.mod_divide in E as [k E]; [|lia]. assert (k = 0) by nia. lia.
Qed.

Lemma scasb_turn s c :
  is_byte c -> xm_mem s (u64 (rg RDI s)) = c ->
  let s' := turn scasb s in
  has_flag RFLAGS_ZF (flags s') = (part 1 (rg RAX s) =? c) /\
  has_flag RFLAGS_DF (flags s') = has_flag RFLAGS_DF (flags s) /\
  xm_mem s' = xm_mem s /\ rg RDI s' = u64 (rg RDI s + stride 1 s) /\ rg RCX s' = u64 (rg RCX s - 1) /\ rg RAX s' = rg RAX s.
Proof.
  intros Hc Hm. cbv zeta. unfold turn, scasb, scas. cbn [load_bytes of_bytes_le]. rewrite Hm.
  replace (c + 256 * 0) with c by lia.
  set (f := sub_flags 1 (part 1 (rg RAX s)) c (flags s)).
  assert (Ef : forall v, flags (set_rg RCX v (advance 1 RDI (set_reg Rflags f s))) = f) by done.
  rewrite Ef. split_and!; [| |done| | |].
  - apply sub_flags_zf; [|done]. unfold part. apply Z.mod_pos_bound. lia.
  - apply sub_flags_df.
  - xm. rewrite rg_advance. xm. f_equal. f_equal. unfold stride. xm. unfold f. by rewrite sub_flags_df.
  - xm. rewrite rg_advance_ne by discriminate. by xm.
  - xm. rewrite rg_advance_ne by discriminate. by xm.
Qed.

(** The bytes [l] lie at [a]. *)
Definition bytes_at (m : mem) (a : Z) (l : list Z) : Prop := forall i c, l !! i = Some c -> m (a + Z.of_nat i) = c.

(** [repne scasb] stops behind the first byte equal to AL. *)
Lemma repne_scasb_first l s a c t :
  has_flag RFLAGS_DF (flags s) = false -> part 1 (rg RAX s) = c -> Forall is_byte l -> c ∉ l ->
  rg RDI s = u64 a -> in_space a (S (length l)) -> bytes_at (xm_mem s) a (l ++ [c]) ->
  rg RCX s = Z.of_nat t -> Z.of_nat t < 2 ^ 64 -> (length l < t)%nat ->
  let s' := repeat_while t scasb (fun s => negb (has_flag RFLAGS_ZF (flags s))) s in
  has_flag RFLAGS_ZF (flags s') = true /\ rg RDI s' = u64 (a + Z.of_nat (length l) + 1) /\
  rg RCX s' = Z.of_nat t - Z.of_nat (length l) - 1 /\ xm_mem s' = xm_mem s.
Proof.
  cbv zeta. intros Hdf Hal Hl Hc. revert s a t Hdf Hal. induction l as [|b l IH]; intros s a t Hdf Hal Hdi Ha Hat Hcx Ht Hlt;
    (destruct t as [|t]; [cbn in Hlt; lia|]); cbn [length] in *; rewrite repeat_while_S; unfold in_space in Ha.
  - assert (Hb : is_byte c) by (subst; apply Z.mod_pos_bound; lia). pose proof (Hat 0%nat c eq_refl) as H0. rewrite Z.add_0_r in H0.
    destruct (scasb_turn s c Hb) as (E1 & _ & E3 & E4 & E5 & _); [by rewrite Hdi, (u64_small (u64 a)), u64_small by (rewrite ?u64_small; lia)|].
    cbv zeta in *. rewrite E1, Hal, Z.eqb_refl. cbn [negb]. rewrite E1, Hal, Z.eqb_refl, E3, E4, E5.
    unfold stride. rewrite Hdf, Hdi, Hcx. split_and!; [done| |rewrite u64_small by lia; lia|done].
    rewrite (u64_small a) by lia. f_equal. lia.
  - apply Forall_cons in Hl as [Hb Hl]. apply not_elem_of_cons in Hc as [Hcb Hc]. pose proof (Hat 0%nat b eq_refl) as H0. rewrite Z.add_0_r in H0.
    destruct (scasb_turn s b Hb) as (E1 & E2 & E3 & E4 & E5 & E6); [by rewrite Hdi, (u64_small (u64 a)), u64_small by (rewrite ?u64_small; lia)|].
    cbv zeta in *. rewrite E1, Hal, (proj2 (Z.eqb_neq c b)) by done. cbn [negb].
    generalize dependent (turn scasb s). intros s1 E1 E2 E3 E4 E5 E6.
    destruct (IH Hl Hc s1 (a + 1) t) as (F1 & F2 & F3 & F4);
      [by rewrite E2|by rewrite E6| |unfold in_space; lia| |rewrite E5, Hcx, u64_small; lia|lia|lia|].
    + rewrite E4, Hdi. unfold stride. rewrite Hdf, (u64_small a) by lia. done.
    + intros i d Hi. rewrite E3, <- (Hat (S i) d Hi). f_equal. lia.
    + rewrite F1, F2, F3, F4, E3. split_and!; [done|f_equal; lia|lia|done].
Qed.

Lemma cstring_bytes m a l : cstring m a l -> bytes_at m a (l ++ [0]) /\ Forall is_byte l /\ 0 ∉ l.
Proof.
  revert a. induction l as [|b l IH]; intros a; cbn [cstring].
  - intros H. split_and!; [|done|set_solver]. intros [|i] c; [|done]. intros [= <-]. by rewrite Z.add_0_r.
  - intros (Hb & Hm & Hl). destruct (IH _ Hl) as (H1 & H2 & H3). split_and!.
    + intros [|i] c Hi; [injection Hi as <-; by rewrite Z.add_0_r|]. rewrite <- (H1 i c Hi). f_equal. lia.
    + constructor; [unfold is_byte; lia|done].
    + apply not_elem_of_cons. split; [lia|done].
Qed.

(** The scan for the terminator leaves in RCX the complement of what
    [kstring_length] returns, less one. *)
Lemma repne_scasb_length s l turns :
  has_flag RFLAGS_DF (flags s) = false -> part 1 (rg RAX s) = 0 -> rg RCX s = 2 ^ 64 - 1 ->
  cstring (xm_mem s) (rg RDI s) l -> rg RDI s <> NULL -> in_space (rg RDI s) (S (length l)) -> (length l <= turns)%nat ->
  kstring_length turns (xm_mem s) (rg RDI s) = Some (u64 (Z.lnot (rg RCX (repne scasb s))) - 1).
Proof.
  intros Hdf Hal Hcx Hcs Hn Hsp Ht. destruct (cstring_bytes _ _ _ Hcs) as (H1 & H2 & H3). unfold in_space, NULL in *.
  destruct (repne_scasb_first l s (rg RDI s) 0 (Z.to_nat (rg RCX s))) as (_ & _ & E & _); [done..| | |done| | | |].
  1: rewrite u64_small; lia. 1-4: unfold in_space, NULL in *; lia.
  unfold repne. rewrite E, Hcx. unfold kstring_length. rewrite (proj2 (Z.eqb_neq _ _)) by done.
  rewrite (length_loop_spec _ _ l); [|by rewrite Z.add_0_r|lia..]. f_equal.
  unfold Z.lnot, u64. rewrite Z2Nat.id by lia. symmetry. apply Z.sub_move_r. replace (Z.pred _) with (Z.of_nat (length l) + 1 + (-1) * 2 ^ 64) by lia.
  rewrite Z.mod_add, Z.mod_small by lia. lia.
Qed.

(** C29. The string instructions compute what the kernel's own loops compute, in a
    machine whose direction flag is clear: [rep stos] of every width whose
    accumulator repeats a byte is [memset] over RCX times that many bytes, [rep movs]
    of every width is [memcpy] between buffers that are apart, and the scan for a
    zero byte leaves the complement of [kstring_length] in RCX.  With the flag set,
    [rep movs] from the last element moves overlapping buffers upwards intact. *)
Theorem string_instructions_correct s w :
  (0 <= rg RCX s < 2 ^ 64 /\ 0 <= rg RSI s < 2 ^ 64 /\ 0 <= rg RDI s < 2 ^ 64) ->
  let n := rg RCX s * Z.of_nat w in
  (has_flag RFLAGS_DF (flags s) = false ->
   (forall v, part w (rg RAX s) = byte_pattern w (u8 v) -> rg RDI s + n <= 2 ^ 64 ->
      xm_mem (rep (stos w) s) = (memset (xm_mem s) (rg RDI s) v n).1) /\
   (rg RSI s + n <= 2 ^ 64 -> rg RDI s + n <= 2 ^ 64 -> rg RDI s + n <= rg RSI s \/ rg RSI s + n <= rg RDI s ->
      forall x, xm_mem (rep (movs w) s) x = (memcpy (xm_mem s) (rg RDI s) (rg RSI s) n).1 x) /\
   (forall l turns, part 1 (rg RAX s) = 0 -> rg RCX s = 2 ^ 64 - 1 ->
      cstring (xm_mem s) (rg RDI s) l -> rg RDI s <> NULL -> rg RDI s + Z.of_nat (length l) < 2 ^ 64 -> (length l <= turns)%nat ->
      kstring_length turns (xm_mem s) (rg RDI s) = Some (u64 (Z.lnot (rg RCX (repne scasb s))) - 1))) /\
  (has_flag RFLAGS_DF (flags s) = true -> forall src dst,
     rg RSI s = u64 (src + n - Z.of_nat w) -> rg RDI s = u64 (dst + n - Z.of_nat w) ->
     0 <= src <= dst -> dst + n <= 2 ^ 64 -> moved (xm_mem s) src dst n (xm_mem (rep (movs w) s))).
Proof.
  intros (Hc & Hs & Hd) n. assert (Hn : n = Z.of_nat (Z.to_nat (rg RCX s) * w)) by lia.
  split; [intros Hdf; split_and!|intros Hdf src dst Hsi Hdi Ho Hdn].
  - intros v Hv Hb. apply rep_stos_memset; [done..|unfold in_space; lia].
  - intros Hsn Hdn Ho. apply rep_movs_memcpy; [done..|unfold in_space; lia|unfold in_space; lia|done].
  - intros l turns Ha Hm Hcs Hz Hb Ht. apply (repne_scasb_length s l); [done..|unfold in_space; lia|done].
  - rewrite Hn in *. unfold rep. apply (rep_movs_backward w (Z.to_nat (rg RCX s)) s src dst);
      [unfold stride; by rewrite Hdf|lia|lia|done|done|unfold in_space; lia..|lia].
Qed.

Definition demo_mach (df : Z) : xmach :=
  mk_xmach (mk_xstate (fun r => match r with
      | Gpr RCX => 3 | Gpr RSI => 116 | Gpr RDI => 120 | Gpr RAX => 0x2a2a2a2a | Rflags => df | _ => 0 end) [] [])
    (fun a => if (100 <=? a) && (a <? 112) then a else 0) 0x8000.

(** The three copies agree: doublewords of 0x2a, and twelve bytes moved up by four. *)
Lemma string_instructions_witness :
  xm_mem (rep (stos 4) (demo_mach 2)) = (memset (xm_mem (demo_mach 2)) 120 0x12a 12).1 /\
  moved (xm_mem (demo_mach 0x402)) 108 112 12 (xm_mem (rep (movs 4) (demo_mach 0x402))) /\
  map (xm_mem (rep (stos 4) (demo_mach 2))) [119; 120; 131; 132] = [0; 0x2a; 0x2a; 0] /\
  map (xm_mem (rep (movs 4) (demo_mach 0x402))) [111; 112; 115; 116; 124] = [111; 108; 111; 0; 0].
Proof.
  split; [|split; [|by vm_compute]].
  - refine (proj1 (proj1 (string_instructions_correct (demo_mach 2) 4 _) _) 0x12a _ _); vm_compute; repeat split; congruence.
  - refine (proj2 (string_instructions_correct (demo_mach 0x402) 4 _) _ 108 112 _ _ _ _); vm_compute; repeat split; congruence.
Defined.

(** ** Loading and storing one element *)

Lemma merge_part w old v : part w (merge w old v) = part w v.
Proof.
  unfold merge, part. assert (0 < 256 ^ Z.of_nat w) by (apply Z.pow_pos_nonneg; lia).
  destruct (Nat.eqb w 4); [by apply Z.mod_mod; lia|].
  replace (old - old mod 256 ^ Z.of_nat w) with (old / 256 ^ Z.of_nat w * 256 ^ Z.of_nat w)
    by (rewrite (Z.mod_eq old) by lia; lia).
  rewrite Z.add_comm, Z.mod_add, Z.mod_mod by lia. done.
Qed.

Lemma load_bytes_bytes n m a : (forall x, is_byte (m x)) -> Forall is_byte (load_bytes n m a).
Proof. intros Hm. revert a. induction n as [|n IH]; intros a; cbn [load_bytes]; constructor; auto. Qed.

(** A load followed by a store of the same width is a move. *)
Lemma lods_stos_movs w s :
  (forall x, is_byte (xm_mem s x)) -> xm_mem (stos w (lods w s)) = xm_mem (movs w s).
Proof.
  intros Hm. unfold stos, lods, movs, set_part.
  change (xm_mem (advance w RDI ?x)) with (xm_mem x). change (xm_mem (advance w RSI ?x)) with (xm_mem x). xm.
  rewrite !rg_advance_ne by discriminate. xm. f_equal.
  rewrite <- bytes_le_mod, merge_part, bytes_le_mod.
  rewrite <- (length_load_bytes w (xm_mem s) (rg RSI s)) at 1. by apply bytes_le_of_bytes, load_bytes_bytes.
Qed.

(** ** Sign extension *)

Lemma sx_part w v : sx w (part w v) = sx w v.
Proof. unfold sx, part. rewrite Z.mod_mod; [done|]. assert (0 < 256 ^ Z.of_nat w) by (apply Z.pow_pos_nonneg; lia). lia. Qed.

Lemma sx_merge w old v : sx w (merge w old v) = sx w v.
Proof. rewrite <- sx_part, merge_part. apply sx_part. Qed.

(** The number of the shorter register is the number of the longer one, and the
    pair of registers the double-width forms fill. *)
Theorem sign_extension_correct s :
  sx 2 (rg RAX (cbw s)) = sx 1 (rg RAX s) /\ sx 4 (rg RAX (cwde s)) = sx 2 (rg RAX s) /\
  sx 8 (rg RAX (cdqe s)) = sx 4 (rg RAX s) /\
  sx 2 (rg RDX (cwd s)) * 2 ^ 16 + part 2 (rg RAX (cwd s)) = sx 2 (rg RAX s) /\
  sx 4 (rg RDX (cdq s)) * 2 ^ 32 + part 4 (rg RAX (cdq s)) = sx 4 (rg RAX s) /\
  sx 8 (rg RDX (cqo s)) * 2 ^ 64 + part 8 (rg RAX (cqo s)) = sx 8 (rg RAX s).
Proof.
  unfold cbw, cwde, cdqe, cwd, cdq, cqo, sign_word, set_part. rewrite !rg_set_rg_eq, !sx_merge.
  rewrite !rg_set_rg_ne by discriminate. generalize (rg RAX s). intros a. unfold sx, part.
  change (Z.of_nat 1) with 1. change (Z.of_nat 2) with 2. change (Z.of_nat 4) with 4. change (Z.of_nat 8) with 8.
  split_and!; repeat case_match; dlia.
Qed.

(** ** Round trips of the flags *)

(** The bits POPFQ can bring back, and flags made of those: RF clear, bit 1 set. *)
Definition popf_covers : Z := Z.lor (Z.lor popf_keeps popf_loads) 2.
Definition flags_regular (f : Z) : Prop := 0 <= f < 2 ^ 64 /\ Z.ldiff f popf_covers = 0 /\ Z.land f 2 = 2.

Lemma popf_pushf f : flags_regular f -> popf f (pushf f) = f.
Proof.
  intros (_ & Hc & H2). unfold popf, pushf.
  assert (E : Z.land (Z.ldiff f (Z.lor RFLAGS_VM RFLAGS_RF)) popf_loads = Z.land f popf_loads).
  { rewrite Z.ldiff_land, <- Z.land_assoc. f_equal. }
  rewrite E, <- Z.land_lor_distr_r, <- H2 at 1. rewrite <- Z.land_lor_distr_r. fold popf_covers.
  rewrite <- (Z.lor_ldiff_and f popf_covers) at 2. by rewrite Hc, Z.lor_0_l.
Qed.

Lemma pop_push v s :
  0 <= v < 2 ^ 64 -> 8 <= rg RSP s < 2 ^ 64 ->
  (pop64 (push64 v s)).1 = v /\ rg RSP (pop64 (push64 v s)).2 = rg RSP s /\ flags (push64 v s) = flags s.
Proof.
  intros Hv Hsp. unfold pop64, push64. cbn [fst snd]. xm. rewrite (u64_small (rg RSP s - 8)) by lia. split_and!; [|rewrite u64_small; lia|done].
  rewrite load_store_bytes by (unfold in_space; rewrite ?length_bytes_le; lia).
  rewrite of_bytes_le_bytes. apply Z.mod_small. change (256 ^ Z.of_nat 8) with (2 ^ 64). lia.
Qed.

Lemma pushfq_popfq s :
  flags_regular (flags s) -> 8 <= rg RSP s < 2 ^ 64 ->
  flags (popfq (pushfq s)) = flags s /\ rg RSP (popfq (pushfq s)) = rg RSP s.
Proof.
  intros Hf Hsp. unfold popfq, pushfq.
  destruct (pop_push (pushf (flags s)) s) as (E1 & E2 & E3); [|done|].
  { destruct Hf as (H & _). by apply (fits_ldiff 64). }
  destruct (pop64 (push64 (pushf (flags s)) s)) as [v s'] eqn:E. cbn [fst snd] in *. subst v. rewrite E3.
  split; [by apply popf_pushf|done].
Qed.

Lemma lahf_sahf s : flags (sahf (lahf s)) = flags s.
Proof.
  unfold sahf, lahf. xm. set (X := Z.lor (Z.land (flags s) ah_flags) 2).
  assert (HX : 0 <= X < 256).
  { apply (fits_lor 8); [lia| |unfold fits; lia]. rewrite Z.land_comm. apply fits_land; [lia|]. by vm_compute. }
  replace (ah (rg RAX s + 256 * (X - ah (rg RAX s)))) with X
    by (unfold ah, part; change (256 ^ Z.of_nat 1) with 256; dlia).
  unfold X. rewrite Z.land_lor_distr_l, <- Z.land_assoc, Z.land_diag.
  change (Z.land 2 ah_flags) with 0. rewrite Z.lor_0_r. apply Z.lor_ldiff_and.
Qed.

Lemma syscall_sysret s :
  flags_regular (flags s) -> has_flag EFER_SCE (msr MSR_EFER s) = true -> canonical48 (xm_rip s) = true ->
  Z.ldiff (flags s) sysret_loads = 0 ->
  exists s1, syscall_asm s = Some s1 /\ xm_rip s1 = msr MSR_LSTAR s /\
    Z.land (flags s1) (u32 (msr MSR_SFMASK s)) = 0 /\
    forall s2, rg RCX s2 = rg RCX s1 -> rg R11 s2 = rg R11 s1 -> (forall n, msr n s2 = msr n s1) ->
      exists s3, sysret64 s2 = Some s3 /\ xm_rip s3 = xm_rip s /\ flags s3 = flags s.
Proof.
  intros (_ & _ & H2) Hsce Hcan Hl. unfold syscall_asm. rewrite Hsce. cbn [negb]. eexists. split; [done|].
  split; [done|]. split.
  { change (Z.land (Z.ldiff (flags s) (u32 (msr MSR_SFMASK s))) (u32 (msr MSR_SFMASK s)) = 0).
    apply Z.land_ldiff. }
  intros s2 Hrcx Hr11 Hmsr. change (rg RCX s2 = xm_rip s) in Hrcx. change (rg R11 s2 = flags s) in Hr11.
  unfold sysret64. rewrite Hmsr, Hrcx, Hr11, Hcan.
  change (msr MSR_EFER (set_rip _ _)) with (msr MSR_EFER s). rewrite Hsce. cbn [negb]. eexists. split; [done|].
  split; [done|]. change (Z.lor (Z.land (flags s) sysret_loads) 2 = flags s).
  rewrite <- (Z.lor_ldiff_and (flags s) sysret_loads) at 2. rewrite Hl, Z.lor_0_l, <- H2, <- Z.land_lor_distr_r.
  by vm_compute (Z.lor sysret_loads 2).
Qed.
