(* ===== verification/BootLoader.v ===== *)
(** * The boot loader: mikroBootldr-stg1-x86.asm and mikroBootldr-stg2-x86.asm

    What the two stages compute before the kernel runs: the disk geometry, the
    memory map and the screen mode they hand over, the tests of the A20 line and
    of the processor, and the page tables the kernel starts on.  The BIOS and the
    processor's CPUID are parameters: a service is the registers and bytes it
    returns for the registers it is called with. *)

From S2P Require Import Prelude State Kasm KasmString Screen.
Open Scope Z_scope.

(** ** Stage 1: finding stage 2 on the disk *)

(** [div r/m8]: AL and AH, or the divide error. *)
Definition div8 (ax d : Z) : option (Z * Z) :=
  if (d =? 0) || (255 <? ax / d) then None else Some (ax / d, ax mod d).

Record chs : Type := mk_chs { Cylinder : Z; Head : Z; Sector : Z }.

(** [.lba_unsupported]: the place of block 1 from the geometry in CL and DH. *)
Definition chs_of_geometry (cl dh : Z) : option chs :=
  let TotalHeads := u8 (dh + 1) in
  let SectorPerTrack := Z.land cl 0x3f in
  match div8 1 SectorPerTrack with
  | None => None
  | Some (al, ah) =>
      let sector := u8 (ah + 1) in
      match div8 al TotalHeads with
      | None => None
      | Some (al, ah) => Some (mk_chs al ah sector)
      end
  end.

Definition default_geometry : chs := mk_chs 0 0 2.

(** What stage 2 is entered with, besides the drive in DL. *)
Inductive stage1_result : Type :=
  | EnterStage2 (dh di : Z)
  | DivideError.

(** The disk services: the extension check and the extended read leave DH, the
    [n]th read by geometry only succeeds or fails. *)
Record disk_bios : Type := mk_disk_bios {
  d_check : bool * Z * Z * Z;       (** CF, BX, CX, DH *)
  d_read_lba : bool * Z;            (** CF, DH *)
  d_geometry : bool * Z * Z;        (** CF, CL, DH *)
  d_read_chs : nat -> chs -> bool;  (** CF *)
}.

Section stage1.
Context (bios : disk_bios).

(** [.chs_load_stage2]; an error sets DI and tries again with the default geometry. *)
Fixpoint chs_load_stage2 (turns n : nat) (g : chs) (di : Z) : option stage1_result :=
  match turns with
  | O => None
  | S t =>
      if d_read_chs bios n g then chs_load_stage2 t (S n) default_geometry 0xeffe
      else Some (EnterStage2 1 di)
  end.

Definition lba_unsupported (turns : nat) (di : Z) : option stage1_result :=
  let '(cf, cl, dh) := d_geometry bios in
  if cf then chs_load_stage2 turns 0 default_geometry di else
  match chs_of_geometry cl dh with
  | None => Some DivideError
  | Some g => chs_load_stage2 turns 0 g di
  end.

Definition stage1 (turns : nat) (di : Z) : option stage1_result :=
  let '(cf, bx, cx, _) := d_check bios in
  if cf then lba_unsupported turns di else
  if negb (bx =? 0xaa55) then lba_unsupported turns di else
  if Z.land cx 1 =? 0 then lba_unsupported turns di else
  let '(cf, dh) := d_read_lba bios in
  if cf then chs_load_stage2 turns 0 default_geometry 0xeffe else
  Some (EnterStage2 dh di).
End stage1.

(** ** Stage 2: what the BIOS knows *)

(** The packet of the extended read of the kernel: [db 0x10, 0; dw KERNEL_SECTORS,
    0x0000, 0x1300; dd 5, 0]. *)
Definition disk_address_packet_kernel (KERNEL_SECTORS : Z) : list Z :=
  [0x10; 0] ++ bytes_le 2 KERNEL_SECTORS ++ bytes_le 2 0x0000 ++ bytes_le 2 0x1300 ++ bytes_le 4 5 ++ bytes_le 4 0.
(** The same sectors by geometry. *)
Definition load_kernel_CHS : chs := mk_chs 0 0 6.

Definition SMAP : Z := 0x534D4150.
Definition MMAP_ENTRIES : Z := 0x5000.
Definition MMAP_COUNT : Z := 0x7000.

(** INT 15h, EAX = E820h, with EDX and EBX; the bytes go to ES:DI. *)
Record e820_reply : Type := mk_e820_reply {
  er_cf : bool; er_eax : Z; er_ebx : Z; er_ecx : Z; er_edx : Z; er_bytes : list Z
}.

Section e820.
Context (bios : Z -> Z -> e820_reply).

Fixpoint e820_loop (turns : nat) (edx ebx di bp : Z) (m : mem) : option (Z * mem) :=
  match turns with
  | O => None
  | S t =>
      let r := bios edx ebx in
      let m := store_bytes (er_bytes r) m di in
      if er_cf r then Some (bp, m) else
      if negb (er_eax r =? SMAP) then Some (bp, m) else
      if er_ebx r =? 0 then Some (bp, m) else
      if er_ecx r =? 0 then e820_loop t (er_edx r) (er_ebx r) di bp m else
      e820_loop t (er_edx r) (er_ebx r) (u16 (di + 24)) (u16 (bp + 1)) m
  end.

(** [.e820_done]: [inc bp], and the count is stored. *)
Definition load_mmap_BIOS (turns : nat) (m : mem) : option (Z * mem) :=
  match e820_loop turns SMAP 0 MMAP_ENTRIES 0 m with
  | None => None
  | Some (bp, m) => let bp := u16 (bp + 1) in Some (bp, store_bytes (bytes_le 2 bp) m MMAP_COUNT)
  end.
End e820.

(** A mode of the display, as INT 10h, AX = 4F01h describes it. *)
Record vbe_mode : Type := mk_vbe_mode {
  vm_attributes : Z; vm_pitch : Z; vm_width : Z; vm_height : Z; vm_bpp : Z; vm_model : Z; vm_framebuffer : Z
}.

Section vbe.
Context (VESA_WIDTH VESA_HEIGHT : Z) (mode_at : Z -> Z) (mode_info : Z -> vbe_mode).

(** The five tests of the loop: a linear frame buffer, the size, 32 bits, direct
    colour. *)
Definition usable (v : vbe_mode) : bool :=
  Z.testbit (vm_attributes v) 7 && (vm_width v =? VESA_WIDTH) && (vm_height v =? VESA_HEIGHT) &&
  (vm_bpp v =? 32) && (vm_model v =? 0x06).

Inductive vbe_result : Type :=
  | FoundMode (cx : Z) (info : vbe_mode)
  | NoMode.

Fixpoint loop_vbe (turns : nat) (si : Z) : option vbe_result :=
  match turns with
  | O => None
  | S t =>
      let cx := mode_at si in
      if cx =? 0xffff then Some NoMode else
      if usable (mode_info cx) then Some (FoundMode cx (mode_info cx)) else
      loop_vbe t (u16 (si + 2))
  end.

(** The words at [0x7100] the kernel reads. *)
Definition vbe_handoff (v : vbe_mode) : boot_vbe_handoff :=
  mk_vbe (vm_framebuffer v) (vm_pitch v) (vm_width v) (vm_height v).
(** BX of the call that sets the mode. *)
Definition vbe_set_mode (cx : Z) : Z := Z.lor cx 0x4000.
End vbe.

(** ** The A20 line *)

(** Where a real-mode address leads: with the line off, bit 20 is zero. *)
Definition real_addr (a20 : bool) (seg off : Z) : Z :=
  let a := 16 * seg + off in if a20 then a else Z.clearbit a 20.

(** [xor r, r]: the value and ZF. *)
Definition xor_same : Z * bool := (0, true).

(** The ZF of the compare does not reach the jump: the [xor] behind it sets ZF.  The
    two bytes are saved on the stack, which is elsewhere. *)
Definition test_a20 (a20 : bool) (m : mem) : Z * mem :=
  let lo := real_addr a20 0 0x0500 in
  let hi := real_addr a20 0xffff 0x0510 in
  let saved_lo := m lo in
  let saved_hi := m hi in
  let m := m.[lo <- 0x00] in
  let m := m.[hi <- 0xff] in
  let zf := m lo =? 0xff in
  let m := m.[hi <- saved_hi] in
  let m := m.[lo <- saved_lo] in
  let '(ax, zf) := xor_same in
  if zf then (ax, m) else (1, m).

(** What is written to port 92h, if anything. *)
Definition load_fast_a20 (al : Z) : option Z :=
  if negb (Z.land al 2 =? 0) then None else Some (Z.land (Z.lor al 2) 0xFE).

(** ** The processor *)

Definition EFLAGS_ID : Z := Z.shiftl 1 21.
Definition CPUID_EXTENSIONS : Z := 0x80000000.
Definition CPUID_EXT_FEATURES : Z := 0x80000001.
Definition CPUID_EDX_EXT_FEAT_LM : Z := Z.shiftl 1 29.

(** [popfd] changes the bits the processor lets it change. *)
Definition popfd (writable old v : Z) : Z := Z.lor (Z.ldiff old writable) (Z.land v writable).

Definition check_cpuid (writable eflags : Z) : bool :=
  let ecx := eflags in
  let eax := Z.lxor eflags EFLAGS_ID in
  let eax := popfd writable eflags eax in
  negb (Z.lxor eax ecx =? 0).

Section cpu.
Context (cpuid_hw : Z -> Z -> cpuid_result_t).

Definition query_long_mode : bool :=
  if c_eax (cpuid cpuid_hw CPUID_EXTENSIONS) <? CPUID_EXT_FEATURES then false else
  if negb (Z.testbit (c_edx (cpuid cpuid_hw CPUID_EXT_FEATURES)) 26) then false else
  if c_eax (cpuid cpuid_hw CPUID_EXTENSIONS) <? CPUID_EXT_FEATURES then false else
  negb (Z.land (c_edx (cpuid cpuid_hw CPUID_EXT_FEATURES)) CPUID_EDX_EXT_FEAT_LM =? 0).

(** mmu.asm: the same question about five-level tables. *)
Definition pml5_detect : Z := if Z.testbit (c_ecx (cpuid_ex cpuid_hw 7 0)) 16 then 1 else 0.
End cpu.

(** ** The descriptor tables *)

(** [dw limit, base; db base, access, flags, base] *)
Definition descriptor (access flags limit : Z) : list Z := bytes_le 2 limit ++ bytes_le 2 0 ++ [0; access; flags; 0].
Definition gdt64 : list Z := bytes_le 8 0 ++ descriptor 0x9a 0x20 0 ++ descriptor 0x92 0 0.
Definition gdt32 : list Z := bytes_le 8 0 ++ descriptor 0x9a 0xcf 0xffff ++ descriptor 0x92 0xcf 0xffff.
Definition CODE_SEG64 : Z := 8.
Definition DATA_SEG64 : Z := 16.
Definition CODE_SEG32 : Z := 8.
Definition DATA_SEG32 : Z := 16.

(** ** The page tables the kernel starts on *)

Definition PML4T_ADDR : Z := 0x9000.
Definition PDPT_ADDR : Z := 0xa000.
Definition SECOND_PDPT_ADDR : Z := 0xb000.
Definition PD_ADDR : Z := 0xc000.
Definition PT_ADDR : Z := 0xd000.
Definition PTE_PRESENT : Z := 1.
Definition PTE_WRITABLE : Z := 2.
Definition PTE_PS : Z := Z.shiftl 1 7.
Definition PTE_NX : Z := 0x8000000000000000.
Definition KERNEL_IMAGE_START : Z := 0xFFFFFFFF80000000.
Definition KERNEL_PHYS_START : Z := 0x13000.

(** [mov dword [a], v], [mov r32, v], [push r32] and [pop r32]. *)
Definition mov_dword (a v : Z) (s : xmach) : xmach := set_bytes (store_bytes (bytes_le 4 v) (xm_mem s) a) s.
Definition mov_r32 (r : gpr) (v : Z) : xmach -> xmach := set_part 4 r v.
Definition push32 (r : gpr) (s : xmach) : xmach :=
  let esp := u32 (rg RSP s - 4) in mov_dword esp (rg r s) (set_rg RSP esp s).
Definition pop32 (r : gpr) (s : xmach) : xmach :=
  let v := of_bytes_le (load_bytes 4 (xm_mem s) (rg RSP s)) in
  mov_r32 r v (set_rg RSP (u32 (rg RSP s + 4)) s).

Definition protected_mode_start (s : xmach) : xmach := mov_r32 RBP 0 (mov_r32 RSP 0x90000 s).

(** Flags of the arithmetic are not followed: nothing here reads them. *)
Definition setup_paging (s : xmach) : xmach :=
  let s := mov_r32 RDI PML4T_ADDR s in
  let s := set_reg (Cr 3) (rg RDI s) s in
  let s := mov_r32 RAX 0 s in
  let s := mov_r32 RCX (1024 * 5) s in
  let s := rep_stosd s in
  let s := mov_dword (PML4T_ADDR + 0 * 8) (Z.lor (Z.lor PDPT_ADDR PTE_PRESENT) PTE_WRITABLE) s in
  let s := mov_dword (PML4T_ADDR + 4) 0 s in
  let giant a := Z.lor (Z.lor (Z.lor a PTE_PRESENT) PTE_WRITABLE) PTE_PS in
  let s := mov_dword (PDPT_ADDR + 0 * 8) (giant 0) s in
  let s := mov_dword (PDPT_ADDR + 4) 0 s in
  let s := mov_dword (PDPT_ADDR + 1 * 8) (giant 0x40000000) s in
  let s := mov_dword (PDPT_ADDR + 12) 0 s in
  let s := mov_dword (PDPT_ADDR + 2 * 8) (giant 0x80000000) s in
  let s := mov_dword (PDPT_ADDR + 2 * 8 + 4) 0 s in
  let s := mov_dword (PDPT_ADDR + 3 * 8) (giant 0xc0000000) s in
  mov_dword (PDPT_ADDR + 3 * 8 + 4) 0 s.

(** [push eax; or eax, edx; ... pop eax; add eax, 0x1000; inc ecx; cmp ecx, 512; jne] *)
Fixpoint cover_pt_loop (turns : nat) (s : xmach) : option xmach :=
  match turns with
  | O => None
  | S t =>
      let s := push32 RAX s in
      let s := mov_r32 RAX (Z.lor (rg RAX s) (rg RDX s)) s in
      let s := mov_dword (PT_ADDR + rg RCX s * 8) (rg RAX s) s in
      let s := mov_dword (PT_ADDR + rg RCX s * 8 + 4) 0 s in
      let s := pop32 RAX s in
      let s := mov_r32 RAX (rg RAX s + 0x1000) s in
      let s := mov_r32 RCX (rg RCX s + 1) s in
      if rg RCX s =? 512 then Some s else cover_pt_loop t s
  end.

(** EDX takes the low half of the flags only: [PTE_NX] is bit 63. *)
Definition map_kernel_half (turns : nat) (s : xmach) : option xmach :=
  let s := mov_dword (PML4T_ADDR + 511 * 8) (Z.lor (Z.lor SECOND_PDPT_ADDR PTE_PRESENT) PTE_WRITABLE) s in
  let s := mov_dword (PML4T_ADDR + 511 * 8 + 4) 0 s in
  let s := mov_dword (SECOND_PDPT_ADDR + 510 * 8) (Z.lor (Z.lor PD_ADDR PTE_PRESENT) PTE_WRITABLE) s in
  let s := mov_dword (SECOND_PDPT_ADDR + 510 * 8 + 4) 0 s in
  let s := mov_dword PD_ADDR (Z.lor (Z.lor PT_ADDR PTE_PRESENT) PTE_WRITABLE) s in
  let s := mov_dword (PD_ADDR + 4) 0 s in
  let s := push32 RCX (push32 RAX (push32 RDX s)) in
  let s := mov_r32 RCX 0 s in
  let s := mov_r32 RDX 0 s in
  let s := mov_r32 RDX (Z.lor (Z.lor (Z.lor 0 PTE_PRESENT) PTE_WRITABLE) PTE_NX) s in
  let s := mov_r32 RAX 0 s in
  match cover_pt_loop turns s with
  | None => None
  | Some s => Some (pop32 RDX (pop32 RAX (pop32 RCX s)))
  end.

(** PAE, then LME and NXE, then paging. *)
Definition transition_to_lm (s : xmach) : xmach :=
  let cr n := mov_from (Cr n) (xm_x s) in
  let s := set_reg (Cr 4) (Z.lor (cr 4) 0x20) s in
  let s := set_reg (Msr MSR_EFER) (Z.lor (mov_from (Msr MSR_EFER) (xm_x s)) (Z.lor (Z.shiftl 1 8) (Z.shiftl 1 11))) s in
  set_reg (Cr 0) (Z.lor (mov_from (Cr 0) (xm_x s)) (Z.shiftl 1 31)) s.

(** [long_mode_start]: the stack, cleared registers, and the jump. *)
Definition long_mode_start (s : xmach) : xmach :=
  let s := set_rg RBP 0 (set_rg RSP 0x90000 s) in
  let s := set_rg R9 0 (set_rg R8 0 (set_rg RCX 0 (set_rg RDX 0 (set_rg RSI 0 (set_rg RDI 0 s))))) in
  set_rip (u64 (KERNEL_IMAGE_START + KERNEL_PHYS_START)) s.

(** From [protected_mode_start] to the first instruction of the kernel, on a processor
    that passes [check_cpuid] and [query_long_mode]; otherwise stage 2 stops there. *)
Definition enter_kernel (s : xmach) : option xmach :=
  match map_kernel_half 512 (setup_paging (protected_mode_start s)) with
  | None => None
  | Some s => Some (long_mode_start (transition_to_lm s))
  end.
