(* ===== verification/BootLoaderTheorems.v ===== *)
(** * The boot loader: theorems

    The place of stage 2 on the disk, the memory map against what the BIOS
    describes, the mode search, the A20 test, and the translation the page tables
    of stage 2 give. *)

From S2P Require Import Prelude State Kstrings Kasm KasmTheorems KasmTypes KasmString KasmStringTheorems Screen BootLoader.
Open Scope Z_scope.

(** ** Stage 1 *)

(** The geometry gives block 1 its place: the usual numbering of blocks. *)
Theorem chs_of_geometry_correct cl dh :
  0 <= dh < 255 -> Z.land cl 0x3f <> 0 ->
  let spt := Z.land cl 0x3f in let heads := dh + 1 in
  exists g, chs_of_geometry cl dh = Some g /\
    (Cylinder g * heads + Head g) * spt + (Sector g - 1) = 1 /\ 1 <= Sector g <= spt /\ 0 <= Head g < heads.
Proof.
  intros Hd Hs spt heads. assert (Hspt : 0 < spt < 64).
  { unfold spt in *. change 0x3f with (Z.ones 6) in *. rewrite Z.land_ones in * by lia.
    pose proof (Z.mod_pos_bound cl (2 ^ 6) ltac:(lia)). lia. }
  unfold chs_of_geometry. fold spt. clearbody spt. fold heads. unfold u8 at 1. rewrite (Z.mod_small heads) by (unfold heads; lia).
  assert (Hh : 1 <= heads < 256) by lia. clearbody heads.
  assert (Hq : forall a d, 0 <= a <= 1 -> 0 < d -> div8 a d = Some (a / d, a mod d)).
  { intros a d Ha Hp. unfold div8. rewrite (proj2 (Z.eqb_neq d 0)) by lia.
    pose proof (Z.div_le_upper_bound a d 1 ltac:(lia) ltac:(nia)). by rewrite (proj2 (Z.ltb_ge 255 _)) by lia. }
  rewrite (Hq 1 spt) by lia. assert (H1 : 0 <= 1 / spt <= 1) by (split; [apply Z.div_pos; lia|apply Z.div_le_upper_bound; nia]).
  rewrite Hq by lia. eexists. split; [done|]. cbn [Cylinder Head Sector].
  pose proof (Z.mod_pos_bound 1 spt ltac:(lia)). pose proof (Z.mod_pos_bound (1 / spt) heads ltac:(lia)).
  pose proof (Z.div_mod 1 spt ltac:(lia)). pose proof (Z.div_mod (1 / spt) heads ltac:(lia)).
  unfold u8. rewrite (Z.mod_small (1 mod spt + 1)) by lia. split_and!; nia.
Qed.

Lemma chs_of_geometry_witness : chs_of_geometry 0x3f 15 = Some (mk_chs 0 0 2) /\
  exists g, chs_of_geometry 1 0 = Some g /\ (Cylinder g * (0 + 1) + Head g) * 1 + (Sector g - 1) = 1.
Proof.
  split; [done|]. destruct (chs_of_geometry_correct 1 0) as (g & E & H & _); [lia|done|]. by exists g.
Defined.

(** A drive with 256 heads, or one that reports no sectors, stops stage 1. *)
Lemma geometry_divide_error cl dh : dh = 255 \/ Z.land cl 0x3f = 0 -> chs_of_geometry cl dh = None.
Proof.
  unfold chs_of_geometry. intros [->|E]; [|by rewrite E].
  destruct (div8 1 (Z.land cl 63)) as [[al ah]|]; [|done]. reflexivity.
Qed.

Lemma chs_load_S bios t n g di :
  chs_load_stage2 bios (S t) n g di =
  if d_read_chs bios n g then chs_load_stage2 bios t (S n) default_geometry 0xeffe else Some (EnterStage2 1 di).
Proof. done. Qed.

(** Reading by geometry goes on until a read succeeds, and for ever if none does. *)
Lemma chs_load_reads bios k n g di :
  (forall j, (j < k)%nat -> forall h, d_read_chs bios (n + j) h = true) -> (forall h, d_read_chs bios (n + k) h = false) ->
  chs_load_stage2 bios (S k) n g di = Some (EnterStage2 1 (if Nat.eqb k 0 then di else 0xeffe)).
Proof.
  revert n g di. induction k as [|k IH]; intros n g di Hf Hs; rewrite chs_load_S.
  - pose proof (Hs g) as E. rewrite Nat.add_0_r in E. by rewrite E.
  - pose proof (Hf O ltac:(lia) g) as E. rewrite Nat.add_0_r in E. rewrite E, IH.
    + by destruct k.
    + intros j Hj h. replace (S n + j)%nat with (n + S j)%nat by lia. apply Hf. lia.
    + intros h. replace (S n + k)%nat with (n + S k)%nat by lia. apply Hs.
Qed.

Lemma chs_load_hangs bios turns n g di :
  (forall j h, d_read_chs bios j h = true) -> chs_load_stage2 bios turns n g di = None.
Proof.
  intros H. revert n g di. induction turns as [|t IH]; intros n g di; cbn [chs_load_stage2]; [done|]. by rewrite H, IH.
Qed.

(** Through the extended read DH is whatever the BIOS left there: not always 0. *)
Lemma stage1_lba_dh bios turns di cx dh0 dh :
  d_check bios = (false, 0xaa55, cx, dh0) -> Z.land cx 1 <> 0 -> d_read_lba bios = (false, dh) ->
  stage1 bios turns di = Some (EnterStage2 dh di).
Proof. intros E1 Hc E2. unfold stage1. rewrite E1, E2. cbn. by rewrite (proj2 (Z.eqb_neq _ 0)). Qed.

(** The packet and the geometry name the same sectors and the same place, the one
    the kernel is entered at. *)
Lemma kernel_sectors_agree n heads spt :
  0 <= n < 2 ^ 16 -> 6 <= spt ->
  let packet := disk_address_packet_kernel n in let field off k := of_bytes_le (take k (drop off packet)) in
  length packet = 16%nat /\ field 2%nat 2%nat = n /\ 16 * field 6%nat 2%nat + field 4%nat 2%nat = KERNEL_PHYS_START /\
  (Cylinder load_kernel_CHS * heads + Head load_kernel_CHS) * spt + (Sector load_kernel_CHS - 1) = field 8%nat 8%nat /\
  Sector load_kernel_CHS <= spt.
Proof.
  intros Hn Hs. cbv zeta. split_and!; try done.
  change (of_bytes_le (bytes_le 2 n) = n). rewrite of_bytes_le_bytes. apply Z.mod_small. exact Hn.
Qed.

(** ** The memory map *)

Section e820.
Context (bios : Z -> Z -> e820_reply).

(** The replies from continuation [ebx] on describe [es], 24 bytes each; the last
    one says so with a continuation of 0. *)
Inductive describes : Z -> list (list Z) -> Prop :=
  | describes_last ebx e :
      let r := bios SMAP ebx in
      er_cf r = false -> er_eax r = SMAP -> er_ebx r = 0 -> er_bytes r = e -> length e = 24%nat ->
      describes ebx [e]
  | describes_more ebx e es :
      let r := bios SMAP ebx in
      er_cf r = false -> er_eax r = SMAP -> er_ebx r <> 0 -> er_ecx r <> 0 -> er_edx r = SMAP ->
      er_bytes r = e -> length e = 24%nat -> describes (er_ebx r) es -> describes ebx (e :: es).

(** As before, but the end is an error on the call behind the last entry. *)
Inductive describes_cf : Z -> list (list Z) -> Prop :=
  | describes_end ebx : er_cf (bios SMAP ebx) = true -> er_bytes (bios SMAP ebx) = [] -> describes_cf ebx []
  | describes_next ebx e es :
      let r := bios SMAP ebx in
      er_cf r = false -> er_eax r = SMAP -> er_ebx r <> 0 -> er_ecx r <> 0 -> er_edx r = SMAP ->
      er_bytes r = e -> length e = 24%nat -> describes_cf (er_ebx r) es -> describes_cf ebx (e :: es).

Lemma e820_loop_spec es ebx di bp m turns :
  describes ebx es -> (length es <= turns)%nat -> 0 <= di -> di + 24 * Z.of_nat (length es) <= 0x10000 ->
  0 <= bp -> bp + Z.of_nat (length es) <= 0x10000 ->
  e820_loop bios turns SMAP ebx di bp m = Some (bp + Z.of_nat (length es) - 1, store_bytes (concat es) m di).
Proof.
  intros H. revert di bp m turns. induction H as [ebx e r H1 H2 H3 H4 H5|ebx e es r H1 H2 H3 H4 H5 H6 H7 H8 IH];
    intros di bp m turns Ht Hd1 Hd2 Hb1 Hb2; (destruct turns as [|t]; [cbn in Ht; lia|]); cbn [e820_loop length concat] in *; fold r.
  - rewrite H1, H2, H3, H4, Z.eqb_refl. cbn [negb]. rewrite app_nil_r. f_equal. f_equal. lia.
  - assert (0 < Z.of_nat (length es)) by (inversion H8; cbn [length]; lia).
    rewrite H1, H2, H5, H6, Z.eqb_refl. cbn [negb]. rewrite (proj2 (Z.eqb_neq _ 0)), (proj2 (Z.eqb_neq _ 0)) by done.
    unfold u16. rewrite !Z.mod_small by lia. rewrite IH by lia. rewrite store_bytes_app, H7. f_equal. f_equal. lia.
Qed.

Lemma e820_loop_cf es ebx di bp m turns :
  describes_cf ebx es -> (length es < turns)%nat -> 0 <= di -> di + 24 * Z.of_nat (length es) < 0x10000 ->
  0 <= bp -> bp + Z.of_nat (length es) < 0x10000 ->
  e820_loop bios turns SMAP ebx di bp m = Some (bp + Z.of_nat (length es), store_bytes (concat es) m di).
Proof.
  intros H. revert di bp m turns. induction H as [ebx H1 H2|ebx e es r H1 H2 H3 H4 H5 H6 H7 H8 IH];
    intros di bp m turns Ht Hd1 Hd2 Hb1 Hb2; (destruct turns as [|t]; [cbn in Ht; lia|]); cbn [e820_loop length concat] in *.
  - rewrite H1, H2. f_equal. f_equal. lia.
  - fold r. rewrite H1, H2, H5, H6, Z.eqb_refl. cbn [negb]. rewrite (proj2 (Z.eqb_neq _ 0)), (proj2 (Z.eqb_neq _ 0)) by done.
    unfold u16. rewrite !Z.mod_small by lia. rewrite IH by lia. rewrite store_bytes_app, H7. f_equal. f_equal. lia.
Qed.

(** The map the kernel reads: up to 341 entries lie in a row at [0x5000] with their
    number at [0x7000].  A BIOS that marks the end by an error on the next call
    makes the number one too large. *)
Theorem load_mmap_correct es m turns :
  (length es < 341)%nat -> (length es < turns)%nat ->
  let table n := store_bytes (bytes_le 2 n) (store_bytes (concat es) m MMAP_ENTRIES) MMAP_COUNT in
  let n := Z.of_nat (length es) in
  (describes 0 es -> load_mmap_BIOS bios turns m = Some (n, table n)) /\
  (describes_cf 0 es -> load_mmap_BIOS bios turns m = Some (n + 1, table (n + 1))).
Proof.
  intros Hn Ht table n. unfold load_mmap_BIOS. split; intros H.
  - rewrite (e820_loop_spec es) by (done || unfold MMAP_ENTRIES; lia). unfold u16. fold n.
    replace (0 + n - 1 + 1) with n by lia. rewrite Z.mod_small by lia. done.
  - rewrite (e820_loop_cf es) by (done || unfold MMAP_ENTRIES; lia). unfold u16. fold n.
    replace (0 + n + 1) with (n + 1) by lia. rewrite Z.mod_small by lia. done.
Qed.
End e820.

(** ** The screen *)

(** The loop takes the first mode of the list that is usable, and stops for good
    when there is none. *)
Theorem loop_vbe_first w h mode_at info l si turns :
  (forall i c, (l ++ [0xffff]) !! i = Some c -> mode_at (si + 2 * Z.of_nat i) = c) -> 0xffff ∉ l ->
  0 <= si -> si + 2 * Z.of_nat (length l) < 0x10000 -> (length l < turns)%nat ->
  loop_vbe w h mode_at info turns si =
  Some (match list_find (fun c => usable w h (info c) = true) l with
        | Some (_, c) => FoundMode c (info c) | None => NoMode end).
Proof.
  revert si turns. induction l as [|c l IH]; intros si turns Hm Hn Hs1 Hs2 Ht;
    (destruct turns as [|t]; [cbn in Ht; lia|]); cbn [loop_vbe length] in *.
  - pose proof (Hm O 0xffff eq_refl) as E. rewrite Z.add_0_r in E. by rewrite E.
  - pose proof (Hm O c eq_refl) as E. rewrite Z.add_0_r in E. rewrite E.
    rewrite (proj2 (Z.eqb_neq c 0xffff)) by (intros ->; apply Hn; left). cbn [list_find].
    destruct (decide (usable w h (info c) = true)) as [Hu|Hu]; [by rewrite Hu|].
    apply not_true_iff_false in Hu. rewrite Hu. unfold u16. rewrite Z.mod_small by lia.
    rewrite IH; [by destruct (list_find _ l) as [[? ?]|]| |set_solver|lia|lia|lia].
    intros i d Hi. replace (si + 2 + 2 * Z.of_nat i) with (si + 2 * Z.of_nat (S i)) by lia. by apply Hm.
Qed.

(** ** The A20 line *)

(** The probe tells the two cases apart and leaves memory as it was, but the routine
    answers 0, the line is off, in both. *)
Theorem test_a20_blind a20 m :
  (test_a20 a20 m).1 = 0 /\ (forall a, (test_a20 a20 m).2 a = m a) /\
  (let lo := real_addr a20 0 0x500 in let hi := real_addr a20 0xffff 0x510 in
   m.[lo <- 0].[hi <- 0xff] lo = if a20 then 0 else 0xff).
Proof.
  split; [done|]. split.
  - intros a. unfold test_a20, xor_same. cbv zeta. cbn [snd].
    set (lo := real_addr a20 0 0x500). set (hi := real_addr a20 0xffff 0x510).
    destruct (decide (a = lo)) as [->|H1]; [apply upd_eq|]. rewrite upd_ne by congruence.
    destruct (decide (a = hi)) as [->|H2]; [apply upd_eq|]. by rewrite !upd_ne by congruence.
  - destruct a20; [reflexivity|]. apply upd_eq.
Qed.

(** Port 92h is written with the line on and without a reset. *)
Lemma fast_a20_sets al v : load_fast_a20 al = Some v -> Z.testbit v 1 = true /\ Z.testbit v 0 = false.
Proof.
  unfold load_fast_a20. destruct (negb _); [done|]. intros [= <-].
  rewrite !Z.land_spec, !Z.lor_spec. cbn. by rewrite orb_true_r, andb_false_r.
Qed.

(** ** The processor *)

Lemma check_cpuid_id writable eflags : check_cpuid writable eflags = Z.testbit writable 21.
Proof.
  assert (E : Z.lxor (popfd writable eflags (Z.lxor eflags EFLAGS_ID)) eflags = Z.land EFLAGS_ID writable).
  { apply Z.bits_inj'. intros i Hi. unfold popfd. rewrite !Z.lxor_spec, !Z.lor_spec, !Z.ldiff_spec, !Z.land_spec, !Z.lxor_spec.
    by destruct (Z.testbit eflags i), (Z.testbit writable i), (Z.testbit EFLAGS_ID i). }
  unfold check_cpuid. cbv zeta. rewrite E. unfold EFLAGS_ID. change (Z.shiftl 1 21) with (2 ^ 21).
  destruct (Z.testbit writable 21) eqn:Hb.
  - apply negb_true_iff, Z.eqb_neq. intros E0. assert (Z.testbit (Z.land (2 ^ 21) writable) 21 = false) as H by (by rewrite E0, Z.bits_0).
    rewrite Z.land_spec, Hb in H. done.
  - apply negb_false_iff, Z.eqb_eq. apply Z.bits_inj'. intros i Hi. rewrite Z.land_spec, Z.bits_0, Z.pow2_bits_eqb by lia.
    destruct (Z.eqb_spec 21 i) as [<-|]; [by rewrite Hb|done].
Qed.

(** Long mode is entered on a processor that has it and 1 GB pages. *)
Lemma query_long_mode_iff hw :
  query_long_mode hw = true <-> CPUID_EXT_FEATURES <= c_eax (cpuid hw CPUID_EXTENSIONS) /\
    Z.testbit (c_edx (cpuid hw CPUID_EXT_FEATURES)) 26 = true /\ Z.testbit (c_edx (cpuid hw CPUID_EXT_FEATURES)) 29 = true.
Proof.
  unfold query_long_mode. set (d := c_edx _). set (x := c_eax _).
  assert (E : negb (Z.land d CPUID_EDX_EXT_FEAT_LM =? 0) = Z.testbit d 29).
  { change (has_flag (2 ^ 29) d = Z.testbit d 29). apply has_flag_testbit. lia. }
  rewrite E. destruct (Z.ltb_spec x CPUID_EXT_FEATURES); [split; [done|lia]|].
  destruct (Z.testbit d 26); cbn [negb]; naive_solver.
Qed.

(** ** The descriptor tables *)

(** Fields of the descriptor a selector names. *)
Definition desc (gdt : list Z) (sel : Z) : list Z := take 8 (drop (Z.to_nat sel) gdt).
Definition desc_base (d : list Z) : Z := of_bytes_le (take 3 (drop 2 d)) + 2 ^ 24 * nth 7 d 0.
Definition desc_limit (d : list Z) : Z := of_bytes_le (take 2 d) + 2 ^ 16 * (nth 6 d 0 mod 16).

(** Both modes run in flat, present segments of ring 0; the code segment of long mode
    has its L bit set and D clear, those of protected mode cover 4 GB. *)
Lemma segments_flat :
  Forall (fun d => desc_base d = 0 /\ Z.testbit (nth 5 d 0) 7 = true /\ (nth 5 d 0 / 32) mod 4 = 0)
    [desc gdt64 CODE_SEG64; desc gdt64 DATA_SEG64; desc gdt32 CODE_SEG32; desc gdt32 DATA_SEG32] /\
  Z.testbit (nth 6 (desc gdt64 CODE_SEG64) 0) 5 = true /\ Z.testbit (nth 6 (desc gdt64 CODE_SEG64) 0) 6 = false /\
  Forall (fun d => desc_limit d = 0xfffff /\ Z.testbit (nth 6 d 0) 7 = true) [desc gdt32 CODE_SEG32; desc gdt32 DATA_SEG32] /\
  Forall (fun d => Z.testbit (nth 5 d 0) 3 = true) [desc gdt64 CODE_SEG64; desc gdt32 CODE_SEG32].
Proof. repeat split; repeat constructor. Qed.

(** ** The page tables *)

Definition qword (m : mem) (a : Z) : Z := of_bytes_le (load_bytes 8 m a).

Lemma mov_dword_out a v s x : in_space a 4 -> ~ a <= x < a + 4 -> xm_mem (mov_dword a v s) x = xm_mem s x.
Proof. intros Ha Hx. apply store_bytes_out; rewrite length_bytes_le; (done || lia). Qed.

Lemma dword_same a v s b n :
  in_space a 4 -> in_space b n -> b + Z.of_nat n <= a \/ a + 4 <= b ->
  load_bytes n (xm_mem (mov_dword a v s)) b = load_bytes n (xm_mem s) b.
Proof. intros Ha Hb Hd. apply load_bytes_same; [done|]. intros x Hx. apply mov_dword_out; [done|lia]. Qed.

Lemma dword_at a v s : in_space a 4 -> load_bytes 4 (xm_mem (mov_dword a v s)) a = bytes_le 4 v.
Proof. apply load_store_bytes, length_bytes_le. Qed.

(** The words of the five tables, counted from [PML4T_ADDR]. *)
Definition holds (s : xmach) (T : Z -> Z) : Prop :=
  forall k, 0 <= k < 2560 -> qword (xm_mem s) (PML4T_ADDR + 8 * k) = T k.

Lemma holds_ext s T T' : (forall k, T k = T' k) -> holds s T -> holds s T'.
Proof. intros E H k Hk. by rewrite <- E, H. Qed.

Lemma holds_mem s s' T : xm_mem s' = xm_mem s -> holds s T -> holds s' T.
Proof. unfold holds. by intros ->. Qed.

Lemma holds_out s T a v : 0xe000 <= a < 2 ^ 32 -> holds s T -> holds (mov_dword a v s) T.
Proof.
  intros Ha H k Hk. unfold qword. rewrite dword_same; [by apply H| | |]; unfold in_space, PML4T_ADDR; lia.
Qed.

Lemma holds_pair s T k a b lo hi :
  holds s T -> 0 <= k < 2560 -> a = PML4T_ADDR + 8 * k -> b = a + 4 -> 0 <= lo < 2 ^ 32 -> 0 <= hi < 2 ^ 32 ->
  holds (mov_dword b hi (mov_dword a lo s)) (T.[k <- lo + 2 ^ 32 * hi]).
Proof.
  intros H Hk -> -> Hlo Hhi j Hj. unfold qword. destruct (decide (j = k)) as [->|Hne].
  - rewrite upd_eq. change 8%nat with (4 + 4)%nat at 1. rewrite load_bytes_app, of_bytes_le_app, length_load_bytes.
    rewrite dword_same by (unfold in_space, PML4T_ADDR; lia). rewrite !dword_at by (unfold in_space, PML4T_ADDR; lia).
    rewrite !of_bytes_le_bytes. change (256 ^ Z.of_nat 4) with (2 ^ 32). by rewrite !Z.mod_small by lia.
  - rewrite upd_ne by done. rewrite !dword_same by (unfold in_space, PML4T_ADDR; lia). by apply H.
Qed.

Lemma rg_mov r v s : rg r (mov_r32 r v s) = v mod 2 ^ 32.
Proof. unfold mov_r32, set_part. by rewrite rg_set_rg_eq. Qed.
Lemma rg_mov_ne r r' v s : r' <> r -> rg r' (mov_r32 r v s) = rg r' s.
Proof. intros H. unfold mov_r32, set_part. by rewrite rg_set_rg_ne. Qed.
Lemma rg_mov_dword r a v s : rg r (mov_dword a v s) = rg r s.
Proof. done. Qed.
Lemma mem_mov r v s : xm_mem (mov_r32 r v s) = xm_mem s.
Proof. done. Qed.

Ltac bl :=
  repeat first [ rewrite rg_mov | rewrite rg_mov_ne by discriminate | rewrite rg_mov_dword
               | rewrite rg_set_rg_eq | rewrite rg_set_rg_ne by discriminate ].

(** One turn of the loop over the page table. *)
Definition cover_turn (s : xmach) : xmach :=
  let s := push32 RAX s in
  let s := mov_r32 RAX (Z.lor (rg RAX s) (rg RDX s)) s in
  let s := mov_dword (PT_ADDR + rg RCX s * 8) (rg RAX s) s in
  let s := mov_dword (PT_ADDR + rg RCX s * 8 + 4) 0 s in
  let s := pop32 RAX s in
  let s := mov_r32 RAX (rg RAX s + 0x1000) s in
  mov_r32 RCX (rg RCX s + 1) s.

Lemma cover_pt_loop_S t s :
  cover_pt_loop (S t) s = if rg RCX (cover_turn s) =? 512 then Some (cover_turn s) else cover_pt_loop t (cover_turn s).
Proof. done. Qed.

Lemma lor_flags i : 0 <= i -> Z.lor (4096 * i) 3 = 4096 * i + 3.
Proof.
  intros Hi. assert (E : Z.land (4096 * i) 3 = 0) by (change 3 with (Z.ones 2); rewrite Z.land_ones by lia; change (2 ^ 2) with 4; dlia).
  by rewrite <- Z.lxor_lor, <- Z.add_nocarry_lxor by done.
Qed.

(** The registers between two turns. *)
Record covering (i esp : Z) (s : xmach) : Prop := {
  cv_eax : rg RAX s = 4096 * i;
  cv_ecx : rg RCX s = i;
  cv_edx : rg RDX s = 3;
  cv_esp : rg RSP s = esp;
}.

Lemma cover_turn_spec i esp s T :
  0 <= i < 512 -> 0xe004 <= esp < 2 ^ 32 -> covering i esp s -> holds s T ->
  covering (i + 1) esp (cover_turn s) /\ holds (cover_turn s) (T.[2048 + i <- 4096 * i + 3]).
Proof.
  intros Hi He [Ha Hc Hd Hs] HT. unfold cover_turn.
  set (s1 := push32 RAX s). assert (R1 : rg RAX s1 = 4096 * i /\ rg RCX s1 = i /\ rg RDX s1 = 3 /\ rg RSP s1 = esp - 4).
  { unfold s1, push32. bl. rewrite Ha, Hc, Hd, Hs. unfold u32. by rewrite Z.mod_small by lia. }
  assert (H1 : holds s1 T).
  { unfold s1, push32. rewrite Hs. unfold u32. rewrite Z.mod_small by lia. apply holds_out; [lia|].
    eapply holds_mem; [|exact HT]. done. }
  assert (M1 : load_bytes 4 (xm_mem s1) (esp - 4) = bytes_le 4 (4096 * i)).
  { unfold s1, push32. rewrite Hs. unfold u32. rewrite Z.mod_small by lia. rewrite dword_at by (unfold in_space; lia).
    bl. by rewrite Ha. }
  clearbody s1. destruct R1 as (A1 & C1 & D1 & S1). rewrite A1, D1, lor_flags by lia.
  set (s2 := mov_r32 RAX _ s1). assert (R2 : rg RAX s2 = 4096 * i + 3 /\ rg RCX s2 = i /\ rg RSP s2 = esp - 4 /\ rg RDX s2 = 3).
  { unfold s2. bl. rewrite Z.mod_small by lia. done. }
  assert (M2 : xm_mem s2 = xm_mem s1) by done. clearbody s2. destruct R2 as (A2 & C2 & S2 & D2).
  rewrite A2, rg_mov_dword, C2.
  set (s3 := mov_dword _ 0 _). assert (H3 : holds s3 (T.[2048 + i <- 4096 * i + 3])).
  { replace (4096 * i + 3) with (4096 * i + 3 + 2 ^ 32 * 0) at 1 by lia.
    apply (holds_pair s2 T (2048 + i)); [by apply (holds_mem s1)|lia|unfold PT_ADDR, PML4T_ADDR; lia|done|lia|lia]. }
  assert (M3 : load_bytes 4 (xm_mem s3) (esp - 4) = bytes_le 4 (4096 * i)).
  { unfold s3. rewrite !dword_same by (unfold in_space, PT_ADDR; lia). by rewrite M2. }
  assert (R3 : rg RCX s3 = i /\ rg RSP s3 = esp - 4 /\ rg RDX s3 = 3) by done. clearbody s3. destruct R3 as (C3 & S3 & D3).
  unfold pop32. rewrite S3, M3, of_bytes_le_bytes. split; [|by apply (holds_mem s3)].
  split; bl; rewrite ?C3, ?D3; change (256 ^ Z.of_nat 4) with (2 ^ 32); unfold u32; rewrite ?(Z.mod_small (4096 * i)) by lia;
    rewrite ?Z.mod_small by lia; lia.
Qed.

(** Only general registers change. *)
Definition same_ctl (s s' : xmach) : Prop := forall q, (forall r, q <> Gpr r) -> mov_from q (xm_x s') = mov_from q (xm_x s).

Lemma same_ctl_refl s : same_ctl s s.
Proof. done. Qed.
Lemma same_ctl_trans s1 s2 s3 : same_ctl s1 s2 -> same_ctl s2 s3 -> same_ctl s1 s3.
Proof. intros H1 H2 q Hq. by rewrite H2, H1. Qed.
Lemma same_ctl_rg r v s s' : same_ctl s s' -> same_ctl s (set_rg r v s').
Proof.
  intros H q Hq. rewrite <- H by done. unfold set_rg, set_reg, mov_to, mov_from. cbn. by rewrite decide_False by apply Hq.
Qed.
Lemma same_ctl_bytes m s s' : same_ctl s s' -> same_ctl s (set_bytes m s').
Proof. done. Qed.

Lemma same_ctl_repeat t step go_on s :
  (forall s, same_ctl s (step s)) -> same_ctl s (repeat_while t step go_on s).
Proof.
  intros Hs. revert s. induction t as [|t IH]; intros s; [done|]. rewrite repeat_while_S.
  assert (Ht : same_ctl s (turn step s)) by (by apply same_ctl_rg). destruct (go_on _); [|done]. by eapply same_ctl_trans.
Qed.

Lemma same_ctl_stos w s : same_ctl s (stos w s).
Proof. unfold stos, advance. by apply same_ctl_rg, same_ctl_bytes. Qed.

Lemma same_ctl_cover s : same_ctl s (cover_turn s).
Proof. unfold cover_turn, pop32, push32, mov_dword, mov_r32, set_part. repeat (apply same_ctl_rg || apply same_ctl_bytes). done. Qed.

Lemma cover_pt_loop_spec n i esp s T :
  0 <= i -> i + Z.of_nat (S n) = 512 -> 0xe004 <= esp < 2 ^ 32 -> covering i esp s -> holds s T ->
  exists s', cover_pt_loop (S n) s = Some s' /\ rg RSP s' = esp /\ same_ctl s s' /\
    holds s' (fun k => if (2048 + i <=? k) && (k <? 2560) then 4096 * (k - 2048) + 3 else T k).
Proof.
  revert i s T. induction n as [|n IH]; intros i s T Hi Hn He Hc HT; rewrite cover_pt_loop_S;
    destruct (cover_turn_spec i esp s T ltac:(lia) He Hc HT) as [Hc' HT']; rewrite (cv_ecx _ _ _ Hc').
  - rewrite (proj2 (Z.eqb_eq (i + 1) 512)) by lia. eexists. split_and!; [done|apply Hc'|apply same_ctl_cover|].
    intros k Hk. rewrite HT' by done. destruct (decide (k = 2048 + i)) as [->|Hne].
    + rewrite upd_eq, (proj2 (Z.leb_le _ _)), (proj2 (Z.ltb_lt _ _)) by lia. cbn. lia.
    + rewrite upd_ne by done. destruct (Z.leb_spec (2048 + i) k); [lia|done].
  - rewrite (proj2 (Z.eqb_neq (i + 1) 512)) by lia.
    destruct (IH (i + 1) (cover_turn s) _ ltac:(lia) ltac:(lia) He Hc' HT') as (s' & E & Hs & Hctl & H').
    exists s'. split_and!; [done|done|by eapply same_ctl_trans; [apply same_ctl_cover|]|]. intros k Hk. rewrite H' by done.
    destruct (decide (k = 2048 + i)) as [->|Hne].
    + rewrite (proj2 (Z.leb_gt (2048 + (i + 1)) _)), (proj2 (Z.leb_le _ (2048 + i))), (proj2 (Z.ltb_lt _ _)) by lia.
      cbn [andb]. rewrite upd_eq. lia.
    + rewrite upd_ne by done. destruct (Z.leb_spec (2048 + (i + 1)) k), (Z.leb_spec (2048 + i) k); (done || lia).
Qed.

(** The words of the tables when they are done. *)
Definition boot_words (k : Z) : Z :=
  if k =? 0 then PDPT_ADDR + 3 else
  if k =? 511 then SECOND_PDPT_ADDR + 3 else
  if (512 <=? k) && (k <? 516) then 2 ^ 30 * (k - 512) + 0x83 else
  if k =? 1534 then PD_ADDR + 3 else
  if k =? 1536 then PT_ADDR + 3 else
  if (2048 <=? k) && (k <? 2560) then 4096 * (k - 2048) + 3 else 0.

Lemma zeroed_holds s m n a :
  0 <= a -> a <= PML4T_ADDR -> PML4T_ADDR + 0x5000 <= a + Z.of_nat n -> a + Z.of_nat n < 2 ^ 32 ->
  xm_mem s = store_bytes (replicate n 0) m a -> holds s (fun _ => 0).
Proof.
  intros H0 H1 H2 H3 E k Hk. unfold qword, PML4T_ADDR in *.
  assert (Hl : load_bytes 8 (xm_mem s) (0x9000 + 8 * k) = load_bytes 8 (fun _ => 0) (0x9000 + 8 * k)).
  { apply load_bytes_same; [unfold in_space; lia|]. intros x Hx. rewrite E.
    replace x with (a + Z.of_nat (Z.to_nat (x - a))) by lia. apply store_bytes_in.
    - unfold in_space. rewrite length_replicate. lia.
    - apply lookup_replicate. split; [done|lia]. }
  rewrite Hl. reflexivity.
Qed.

Definition giant (a : Z) : Z := Z.lor (Z.lor (Z.lor a PTE_PRESENT) PTE_WRITABLE) PTE_PS.

Lemma zero_tables s :
  has_flag RFLAGS_DF (flags s) = false -> rg RDI s = PML4T_ADDR -> rg RAX s = 0 -> rg RCX s = 5120 ->
  holds (rep_stosd s) (fun _ => 0) /\ rg RSP (rep_stosd s) = rg RSP s /\ same_ctl s (rep_stosd s).
Proof.
  intros Hdf Hd Ha Hc. unfold rep_stosd, rep, stosd. rewrite Hc.
  assert (exists n, Z.to_nat 5120 = n /\ Z.of_nat n = 5120) as (n & -> & Hn) by (eexists; split; [done|lia]).
  destruct (rep_stos_forward 4 n s) as (E1 & _ & _ & E4); [unfold stride; by rewrite Hdf|lia|lia|].
  assert (E : concat (replicate n (bytes_le 4 0)) = replicate (n * 4) 0)
    by (change (bytes_le 4 0) with (replicate 4 0); apply concat_replicate).
  rewrite Hd, Ha, E in E1. split_and!; [|apply E4; set_solver|apply same_ctl_repeat, same_ctl_stos].
  eapply zeroed_holds; [..|exact E1]; unfold PML4T_ADDR; lia.
Qed.

(** What [setup_paging] and the first half of [map_kernel_half] write. *)
Lemma setup_paging_spec s :
  has_flag RFLAGS_DF (flags s) = false ->
  let s' := setup_paging s in
  holds s' (fun k => if (k =? 511) || (k =? 1534) || (k =? 1536) || (2048 <=? k) then 0 else boot_words k) /\
  rg RSP s' = rg RSP s /\ mov_from (Cr 3) (xm_x s') = PML4T_ADDR /\
  (forall q, q <> Cr 3 -> (forall r, q <> Gpr r) -> mov_from q (xm_x s') = mov_from q (xm_x s)).
Proof.
  intros Hdf s'. unfold s', setup_paging. fold giant.
  set (s1 := mov_r32 RCX _ _).
  assert (R : rg RDI s1 = PML4T_ADDR /\ rg RAX s1 = 0 /\ rg RCX s1 = 5120 /\ rg RSP s1 = rg RSP s /\
    flags s1 = flags s /\ mov_from (Cr 3) (xm_x s1) = PML4T_ADDR) by (split_and!; reflexivity).
  assert (C : forall q, q <> Cr 3 -> (forall r, q <> Gpr r) -> mov_from q (xm_x s1) = mov_from q (xm_x s)).
  { intros q Hq Hg. unfold s1, mov_r32, set_part, set_rg, set_reg, mov_to, mov_from. cbn. by rewrite !decide_False by auto. }
  clearbody s1. destruct R as (R1 & R2 & R3 & R4 & R5 & R6).
  destruct (zero_tables s1) as (HT & Hsp & Hctl); [by rewrite R5|done..|]. generalize dependent (rep_stosd s1). intros s2 HT Hsp Hctl.
  split_and!; [|by rewrite <- R4, <- Hsp|by rewrite <- R6; apply Hctl|intros q Hq Hg; rewrite <- C by done; by apply Hctl].
  apply (holds_pair _ _ 0 (PML4T_ADDR + 0 * 8) (PML4T_ADDR + 4) 0xa003 0) in HT; [|done..].
  apply (holds_pair _ _ 512 (PDPT_ADDR + 0 * 8) (PDPT_ADDR + 4) (giant 0) 0) in HT; [|done..].
  apply (holds_pair _ _ 513 (PDPT_ADDR + 1 * 8) (PDPT_ADDR + 12) (giant 0x40000000) 0) in HT; [|done..].
  apply (holds_pair _ _ 514 (PDPT_ADDR + 2 * 8) (PDPT_ADDR + 2 * 8 + 4) (giant 0x80000000) 0) in HT; [|done..].
  apply (holds_pair _ _ 515 (PDPT_ADDR + 3 * 8) (PDPT_ADDR + 3 * 8 + 4) (giant 0xc0000000) 0) in HT; [|done..].
  eapply holds_ext; [|exact HT]. intros k. cbv beta. unfold boot_words.
  repeat match goal with |- (?f.[?i <- ?v]) k = _ => destruct (decide (k = i)) as [->|]; [by rewrite upd_eq|rewrite upd_ne by done] end.
  destruct (Z.eqb_spec k 0); [lia|]. destruct (Z.eqb_spec k 511); [done|]. destruct (Z.eqb_spec k 1534); [done|].
  destruct (Z.eqb_spec k 1536); [done|]. destruct (Z.leb_spec 2048 k); [done|]. cbn [orb andb].
  destruct (Z.leb_spec 512 k), (Z.ltb_spec k 516); (done || lia).
Qed.

(** The links to the page table, above the loop. *)
Definition link_kernel_half (s : xmach) : xmach :=
  let s := mov_dword (PML4T_ADDR + 511 * 8) (Z.lor (Z.lor SECOND_PDPT_ADDR PTE_PRESENT) PTE_WRITABLE) s in
  let s := mov_dword (PML4T_ADDR + 511 * 8 + 4) 0 s in
  let s := mov_dword (SECOND_PDPT_ADDR + 510 * 8) (Z.lor (Z.lor PD_ADDR PTE_PRESENT) PTE_WRITABLE) s in
  let s := mov_dword (SECOND_PDPT_ADDR + 510 * 8 + 4) 0 s in
  let s := mov_dword PD_ADDR (Z.lor (Z.lor PT_ADDR PTE_PRESENT) PTE_WRITABLE) s in
  mov_dword (PD_ADDR + 4) 0 s.

Lemma link_kernel_half_spec s T :
  holds s T -> holds (link_kernel_half s) (T.[511 <- 0xb003].[1534 <- 0xc003].[1536 <- 0xd003]).
Proof.
  intros HT. unfold link_kernel_half.
  apply (holds_pair _ _ 511 (PML4T_ADDR + 511 * 8) (PML4T_ADDR + 511 * 8 + 4) 0xb003 0) in HT; [|done..].
  apply (holds_pair _ _ 1534 (SECOND_PDPT_ADDR + 510 * 8) (SECOND_PDPT_ADDR + 510 * 8 + 4) 0xc003 0) in HT; [|done..].
  apply (holds_pair _ _ 1536 PD_ADDR (PD_ADDR + 4) 0xd003 0) in HT; [|done..]. exact HT.
Qed.

Lemma push32_spec r s T :
  0xe004 <= rg RSP s < 2 ^ 32 -> holds s T ->
  holds (push32 r s) T /\ rg RSP (push32 r s) = rg RSP s - 4 /\ same_ctl s (push32 r s).
Proof.
  intros Hs HT. unfold push32, u32. rewrite Z.mod_small by lia. split_and!.
  - apply holds_out; [lia|]. eapply holds_mem; [apply mem_set_rg|exact HT].
  - by rewrite rg_mov_dword, rg_set_rg_eq.
  - by apply same_ctl_bytes, same_ctl_rg.
Qed.

(** The registers the loop starts with. *)
Definition cover_start (s : xmach) : xmach :=
  let s := mov_r32 RCX 0 s in
  let s := mov_r32 RDX 0 s in
  let s := mov_r32 RDX (Z.lor (Z.lor (Z.lor 0 PTE_PRESENT) PTE_WRITABLE) PTE_NX) s in
  mov_r32 RAX 0 s.

Lemma cover_start_spec s T :
  holds s T -> covering 0 (rg RSP s) (cover_start s) /\ holds (cover_start s) T /\ same_ctl s (cover_start s).
Proof.
  intros HT. unfold cover_start. split_and!; [split|by apply (holds_mem s)|by repeat apply same_ctl_rg]; bl; reflexivity.
Qed.

Lemma map_kernel_half_steps turns s :
  map_kernel_half turns s =
  match cover_pt_loop turns (cover_start (push32 RCX (push32 RAX (push32 RDX (link_kernel_half s))))) with
  | None => None
  | Some s => Some (pop32 RDX (pop32 RAX (pop32 RCX s)))
  end.
Proof. reflexivity. Qed.

Lemma half_words k :
  (if (2048 <=? k) && (k <? 2560) then 4096 * (k - 2048) + 3 else
   (fun k => if (k =? 511) || (k =? 1534) || (k =? 1536) || (2048 <=? k) then 0 else boot_words k)
     .[511 <- 0xb003].[1534 <- 0xc003].[1536 <- 0xd003] k) = boot_words k.
Proof.
  destruct (decide (k = 511)) as [->|N1]; [done|]. destruct (decide (k = 1534)) as [->|N2]; [done|].
  destruct (decide (k = 1536)) as [->|N3]; [done|]. rewrite !upd_ne by done. unfold boot_words.
  rewrite (proj2 (Z.eqb_neq k 511)), (proj2 (Z.eqb_neq k 1534)), (proj2 (Z.eqb_neq k 1536)) by done. cbn [orb].
  destruct (Z.leb_spec 2048 k); [|done]. cbn [andb].
  rewrite (proj2 (Z.eqb_neq k 0)), (proj2 (Z.ltb_ge k 516)), andb_false_r by lia. done.
Qed.

Lemma map_kernel_half_spec n s :
  Z.of_nat (S n) = 512 -> rg RSP s = 0x90000 ->
  holds s (fun k => if (k =? 511) || (k =? 1534) || (k =? 1536) || (2048 <=? k) then 0 else boot_words k) ->
  exists s', map_kernel_half (S n) s = Some s' /\ holds s' boot_words /\ same_ctl s s'.
Proof.
  intros Hn Hsp HT. rewrite map_kernel_half_steps. apply link_kernel_half_spec in HT.
  assert (S1 : rg RSP (link_kernel_half s) = 0x90000) by (rewrite <- Hsp; reflexivity).
  assert (C1 : same_ctl s (link_kernel_half s)) by (intros q Hq; reflexivity).
  generalize dependent (link_kernel_half s). intros s1 HT S1 C1.
  destruct (push32_spec RDX s1 _ ltac:(lia) HT) as (H2 & S2 & C2). generalize dependent (push32 RDX s1). intros s2 H2 S2 C2.
  destruct (push32_spec RAX s2 _ ltac:(lia) H2) as (H3 & S3 & C3). generalize dependent (push32 RAX s2). intros s3 H3 S3 C3.
  destruct (push32_spec RCX s3 _ ltac:(lia) H3) as (H4 & S4 & C4). generalize dependent (push32 RCX s3). intros s4 H4 S4 C4.
  destruct (cover_start_spec s4 _ H4) as (Hc & H5 & C5). generalize dependent (cover_start s4). intros s5 Hc H5 C5.
  destruct (cover_pt_loop_spec n 0 (rg RSP s4) s5 _ ltac:(lia) ltac:(lia) ltac:(lia) Hc H5) as (s6 & -> & _ & C6 & H6).
  eexists. split; [done|]. split.
  - apply (holds_mem s6); [reflexivity|]. eapply holds_ext; [|exact H6]. exact half_words.
  - do 5 (eapply same_ctl_trans; [eassumption|]). eapply same_ctl_trans; [exact C6|].
    unfold pop32, mov_r32, set_part. by repeat apply same_ctl_rg.
Qed.

(** *** What the processor makes of them *)

(** The walk through four levels, with pages of 1 GB, 2 MB and 4 KB: the physical
    address and the bits of the last entry that are not address bits. *)
Definition walk (m : mem) (cr3 v : Z) : option (Z * Z) :=
  let mask := 0x000FFFFFFFFFF000 in
  let idx n := (v / 2 ^ n) mod 512 in
  let e4 := qword m (cr3 + 8 * idx 39) in
  if negb (Z.testbit e4 0) then None else
  let e3 := qword m (Z.land e4 mask + 8 * idx 30) in
  if negb (Z.testbit e3 0) then None else
  if Z.testbit e3 7 then Some (Z.land e3 0x000FFFFFC0000000 + v mod 2 ^ 30, Z.ldiff e3 mask) else
  let e2 := qword m (Z.land e3 mask + 8 * idx 21) in
  if negb (Z.testbit e2 0) then None else
  if Z.testbit e2 7 then Some (Z.land e2 0x000FFFFFFFE00000 + v mod 2 ^ 21, Z.ldiff e2 mask) else
  let e1 := qword m (Z.land e2 mask + 8 * idx 12) in
  if negb (Z.testbit e1 0) then None else
  Some (Z.land e1 mask + v mod 2 ^ 12, Z.ldiff e1 mask).

Section walk.
Context (s : xmach) (H : holds s boot_words).

Lemma word_at base k a : base = PML4T_ADDR + 8 * k -> 0 <= k -> 0 <= a < 512 -> k + 512 <= 2560 ->
  qword (xm_mem s) (base + 8 * a) = boot_words (k + a).
Proof using H. intros -> Hk Ha Hb. rewrite <- (H (k + a)) by lia. f_equal. lia. Qed.

Lemma boot_words_none k :
  0 < k < 511 \/ 516 <= k < 1534 \/ k = 1535 \/ 1536 < k < 2048 -> boot_words k = 0.
Proof using Type.
  intros Hk. unfold boot_words. rewrite (proj2 (Z.eqb_neq k 0)), (proj2 (Z.eqb_neq k 511)), (proj2 (Z.eqb_neq k 1534)),
    (proj2 (Z.eqb_neq k 1536)), (proj2 (Z.leb_gt 2048 k)) by lia.
  destruct (Z.leb_spec 512 k), (Z.ltb_spec k 516); (done || lia).
Qed.

Lemma giant_word c :
  0 <= c < 4 -> let e := boot_words (512 + c) in
  Z.testbit e 0 = true /\ Z.testbit e 7 = true /\ Z.land e 0x000FFFFFC0000000 = 1073741824 * c /\
  Z.ldiff e 0x000FFFFFFFFFF000 = 0x83.
Proof using Type.
  intros Hc. assert (c = 0 \/ c = 1 \/ c = 2 \/ c = 3) as Hd by lia. destruct_or! Hd; subst c; vm_compute; split_and!; reflexivity.
Qed.

Lemma page_word i :
  0 <= i < 512 -> let e := boot_words (2048 + i) in
  Z.testbit e 0 = true /\ Z.land e 0x000FFFFFFFFFF000 = 4096 * i /\ Z.ldiff e 0x000FFFFFFFFFF000 = 3.
Proof using Type.
  intros Hi. cbv zeta. assert (Hall : Forall (fun i => Z.testbit (boot_words (2048 + i)) 0 = true /\
    Z.land (boot_words (2048 + i)) 0x000FFFFFFFFFF000 = 4096 * i /\
    Z.ldiff (boot_words (2048 + i)) 0x000FFFFFFFFFF000 = 3) (seqZ 0 512)).
  { apply (bool_decide_unpack _). vm_compute. exact I. }
  rewrite Forall_forall in Hall. apply Hall, elem_of_seqZ. lia.
Qed.

Lemma walk_low v : 0 <= v < 2 ^ 32 -> walk (xm_mem s) PML4T_ADDR v = Some (v, 0x83).
Proof using H.
  intros Hv. unfold walk. cbv zeta. change (2 ^ 39) with 549755813888. change (2 ^ 30) with 1073741824 in *.
  change (2 ^ 32) with 4294967296 in Hv.
  replace ((v / 549755813888) mod 512) with 0 by dlia. rewrite (word_at _ 0) by (done || lia).
  change (negb (Z.testbit (boot_words (0 + 0)) 0)) with false. cbv iota.
  change (Z.land (boot_words (0 + 0)) 4503599627366400) with PDPT_ADDR.
  assert (Hi : (v / 1073741824) mod 512 = v / 1073741824 /\ 0 <= v / 1073741824 < 4) by dlia. destruct Hi as [-> Hi].
  rewrite (word_at _ 512) by (done || lia).
  assert (E : v = 1073741824 * (v / 1073741824) + v mod 1073741824) by (apply Z.div_mod; lia).
  destruct (giant_word (v / 1073741824) Hi) as (-> & -> & -> & ->). cbn [negb]. by rewrite <- E.
Qed.

(** Addresses of the lower half above 4 GB, and all but one directory of the upper. *)
Lemma walk_none v :
  2 ^ 32 <= v < 2 ^ 47 \/ 2 ^ 64 - 2 ^ 47 <= v < KERNEL_IMAGE_START \/ KERNEL_IMAGE_START + 2 ^ 21 <= v < 2 ^ 64 ->
  walk (xm_mem s) PML4T_ADDR v = None.
Proof using H.
  intros Hv. unfold walk. cbv zeta. unfold KERNEL_IMAGE_START in Hv. change (2 ^ 39) with 549755813888. change (2 ^ 30) with 1073741824.
  change (2 ^ 21) with 2097152 in *. change (2 ^ 12) with 4096. change (2 ^ 32) with 4294967296 in Hv.
  change (2 ^ 47) with 140737488355328 in Hv. change (2 ^ 64) with 18446744073709551616 in Hv.
  set (i4 := (v / 549755813888) mod 512). assert (H4 : 0 <= i4 < 512) by (apply Z.mod_pos_bound; lia).
  rewrite (word_at _ 0) by (done || lia). rewrite Z.add_0_l.
  destruct (decide (i4 = 0)) as [E|N0].
  { rewrite E. change (negb (Z.testbit (boot_words 0) 0)) with false. cbv iota.
    change (Z.land (boot_words 0) 4503599627366400) with PDPT_ADDR.
    assert (H3 : 4 <= (v / 1073741824) mod 512 < 512) by (unfold i4 in E; dlia).
    rewrite (word_at _ 512) by (done || lia). rewrite boot_words_none by lia. done. }
  destruct (decide (i4 = 511)) as [E|N1]; [|rewrite boot_words_none by lia; done].
  rewrite E. change (negb (Z.testbit (boot_words 511) 0)) with false. cbv iota.
  change (Z.land (boot_words 511) 4503599627366400) with SECOND_PDPT_ADDR.
  set (i3 := (v / 1073741824) mod 512). assert (H3 : 0 <= i3 < 512) by (apply Z.mod_pos_bound; lia).
  rewrite (word_at _ 1024) by (done || lia).
  destruct (decide (i3 = 510)) as [E3|N3]; [|rewrite boot_words_none by lia; done].
  rewrite E3. change (negb (Z.testbit (boot_words (1024 + 510)) 0)) with false. change (Z.testbit (boot_words (1024 + 510)) 7) with false.
  cbv iota. change (Z.land (boot_words (1024 + 510)) 4503599627366400) with PD_ADDR.
  assert (H2 : 1 <= (v / 2097152) mod 512 < 512) by (unfold i4 in E; unfold i3 in E3; dlia).
  rewrite (word_at _ 1536) by (done || lia). rewrite boot_words_none by lia. done.
Qed.

Lemma walk_kernel v :
  KERNEL_IMAGE_START <= v < KERNEL_IMAGE_START + 2 ^ 21 -> walk (xm_mem s) PML4T_ADDR v = Some (v - KERNEL_IMAGE_START, 3).
Proof using H.
  intros Hv. unfold walk. cbv zeta. unfold KERNEL_IMAGE_START in *. change (2 ^ 39) with 549755813888. change (2 ^ 30) with 1073741824.
  change (2 ^ 21) with 2097152 in *. change (2 ^ 12) with 4096.
  replace ((v / 549755813888) mod 512) with 511 by dlia. rewrite (word_at _ 0) by (done || lia).
  change (negb (Z.testbit (boot_words (0 + 511)) 0)) with false. cbv iota.
  change (Z.land (boot_words (0 + 511)) 4503599627366400) with SECOND_PDPT_ADDR.
  replace ((v / 1073741824) mod 512) with 510 by dlia. rewrite (word_at _ 1024) by (done || lia).
  change (negb (Z.testbit (boot_words (1024 + 510)) 0)) with false. change (Z.testbit (boot_words (1024 + 510)) 7) with false.
  cbv iota. change (Z.land (boot_words (1024 + 510)) 4503599627366400) with PD_ADDR.
  replace ((v / 2097152) mod 512) with 0 by dlia. rewrite (word_at _ 1536) by (done || lia).
  change (negb (Z.testbit (boot_words (1536 + 0)) 0)) with false. change (Z.testbit (boot_words (1536 + 0)) 7) with false.
  cbv iota. change (Z.land (boot_words (1536 + 0)) 4503599627366400) with PT_ADDR.
  set (i := (v / 4096) mod 512). assert (Hi : 0 <= i < 512) by (apply Z.mod_pos_bound; lia).
  rewrite (word_at _ 2048) by (done || lia). destruct (page_word i Hi) as (-> & -> & ->). cbn [negb]. f_equal. f_equal.
  unfold i. dlia.
Qed.
End walk.

(** The switches and the jump. *)
Lemma jump_state s :
  let s' := long_mode_start (transition_to_lm s) in
  xm_rip s' = KERNEL_IMAGE_START + KERNEL_PHYS_START /\ rg RSP s' = 0x90000 /\
  has_flag CR0_PG (mov_from (Cr 0) (xm_x s')) = true /\ has_flag CR4_PAE (mov_from (Cr 4) (xm_x s')) = true /\
  has_flag EFER_LME (mov_from (Msr MSR_EFER) (xm_x s')) = true /\ has_flag EFER_NXE (mov_from (Msr MSR_EFER) (xm_x s')) = true /\
  flags s' = flags s /\ xm_mem s' = xm_mem s /\ mov_from (Cr 3) (xm_x s') = mov_from (Cr 3) (xm_x s).
Proof.
  cbv zeta. set (s' := long_mode_start _).
  assert (E0 : mov_from (Cr 0) (xm_x s') = Z.lor (mov_from (Cr 0) (xm_x s)) (2 ^ 31)) by reflexivity.
  assert (E4 : mov_from (Cr 4) (xm_x s') = Z.lor (mov_from (Cr 4) (xm_x s)) (2 ^ 5)) by reflexivity.
  assert (E8 : mov_from (Msr MSR_EFER) (xm_x s') = Z.lor (mov_from (Msr MSR_EFER) (xm_x s)) (2 ^ 8 + 2 ^ 11)) by reflexivity.
  unfold CR0_PG, CR4_PAE, EFER_LME, EFER_NXE. rewrite !has_flag_testbit by lia.
  rewrite E0, E4, E8, !Z.lor_spec. change (Z.testbit (2 ^ 31) 31) with true. change (Z.testbit (2 ^ 5) 5) with true.
  change (Z.testbit (2 ^ 8 + 2 ^ 11) 8) with true. change (Z.testbit (2 ^ 8 + 2 ^ 11) 11) with true. rewrite !orb_true_r.
  split_and!; reflexivity.
Qed.

(** C13. Stage 2 from [protected_mode_start] to the jump: with DF clear it ends at the
    first instruction of the kernel, [KERNEL_IMAGE_START + 0x13000], with paging,
    PAE, long mode and no-execute switched on and the stack at [0x90000].  Its
    tables translate every address below 4 GB to itself and the first 2 MB of
    the kernel's image to physical 0 on, present and writable, and no other address:
    the two views of memory the kernel uses until [__init_mmu]. *)
Theorem enter_kernel_correct s :
  has_flag RFLAGS_DF (flags s) = false ->
  exists s', enter_kernel s = Some s' /\
    xm_rip s' = KERNEL_IMAGE_START + KERNEL_PHYS_START /\ rg RSP s' = 0x90000 /\
    has_flag CR0_PG (mov_from (Cr 0) (xm_x s')) = true /\ has_flag CR4_PAE (mov_from (Cr 4) (xm_x s')) = true /\
    has_flag EFER_LME (mov_from (Msr MSR_EFER) (xm_x s')) = true /\ has_flag EFER_NXE (mov_from (Msr MSR_EFER) (xm_x s')) = true /\
    let seen := walk (xm_mem s') (mov_from (Cr 3) (xm_x s')) in
    (forall v, 0 <= v < 2 ^ 32 -> seen v = Some (v, 0x83)) /\
    (forall v, KERNEL_IMAGE_START <= v < KERNEL_IMAGE_START + 2 ^ 21 -> seen v = Some (v - KERNEL_IMAGE_START, 3)) /\
    (forall v, 2 ^ 32 <= v < 2 ^ 47 \/ 2 ^ 64 - 2 ^ 47 <= v < KERNEL_IMAGE_START \/ KERNEL_IMAGE_START + 2 ^ 21 <= v < 2 ^ 64 ->
       seen v = None).
Proof.
  intros Hdf. unfold enter_kernel. set (s1 := protected_mode_start s).
  assert (Hdf1 : has_flag RFLAGS_DF (flags s1) = false) by exact Hdf.
  assert (Hsp1 : rg RSP s1 = 0x90000) by reflexivity. clearbody s1.
  destruct (setup_paging_spec s1 Hdf1) as (H2 & S2 & C2 & _). cbv zeta in H2. rewrite Hsp1 in S2.
  generalize dependent (setup_paging s1). intros s2 H2 S2 C2.
  destruct (map_kernel_half_spec 511 s2 ltac:(lia) S2 H2) as (s3 & E3 & H3 & C3). rewrite E3.
  clear E3. assert (Hcr : mov_from (Cr 3) (xm_x s3) = PML4T_ADDR) by (rewrite (C3 (Cr 3)); [exact C2|discriminate]).
  destruct (jump_state s3) as (J1 & J2 & J3 & J4 & J5 & J6 & J7 & J8 & J9).
  exists (long_mode_start (transition_to_lm s3)). split_and!; try assumption; [reflexivity|..]; cbv zeta; rewrite J8, J9, Hcr.
  - by apply walk_low.
  - by apply walk_kernel.
  - by apply walk_none.
Qed.

Lemma enter_kernel_witness :
  exists s', enter_kernel (mk_xmach (mk_xstate (fun _ => 0) [] []) (fun _ => 0xcc) 0x7e00) = Some s' /\
    walk (xm_mem s') (mov_from (Cr 3) (xm_x s')) (xm_rip s') = Some (0x13000, 3).
Proof.
  destruct (enter_kernel_correct (mk_xmach (mk_xstate (fun _ => 0) [] []) (fun _ => 0xcc) 0x7e00) eq_refl)
    as (s' & E & Hr & _ & _ & _ & _ & _ & _ & Hk & _).
  exists s'. split; [exact E|]. clear E. rewrite Hr.
  apply (Hk (KERNEL_IMAGE_START + KERNEL_PHYS_START)). unfold KERNEL_PHYS_START. lia.
Defined.
