(* ===== verification/InterruptEntry.v ===== *)
(** * Entering and leaving an exception handler: idt_common.asm

    The stubs [isr0] to [isr31] and [isr_common_handler], instruction by
    instruction, between the processor's delivery of an exception through the
    loaded table and [isr_dispatch].  The delivery is the one of a 64-bit
    processor that stays at privilege level 0. *)

From S2P Require Import Prelude Buddy Screen ScreenTheorems Interrupts InterruptTheorems Kasm KasmTheorems.

(** ** The processor *)

(** What an exception interrupts: the general registers (RSP among them), the
    instruction pointer, the flags, the two selectors and the memory. *)
Record context : Type := mk_context {
  c_gpr : gpr -> Z;
  c_rip : Z;
  c_cs : Z;
  c_rflags : Z;
  c_ss : Z;
  c_mem : mem;
}.

Definition set_gpr (r : gpr) (v : Z) (c : context) : context :=
  mk_context (fun r' => if decide (r' = r) then v else c_gpr c r') (c_rip c) (c_cs c) (c_rflags c) (c_ss c) (c_mem c).
Definition set_words (m : mem) (c : context) : context :=
  mk_context (c_gpr c) (c_rip c) (c_cs c) (c_rflags c) (c_ss c) m.

Definition continue_at (rip cs rflags : Z) (c : context) : context :=
  mk_context (c_gpr c) rip cs rflags (c_ss c) (c_mem c).

Definition push (v : Z) (c : context) : context :=
  let rsp := u64 (c_gpr c RSP - 8) in
  set_gpr RSP rsp (set_words (c_mem c).[rsp <- v] c).
Definition top (c : context) : Z := c_mem c (c_gpr c RSP).
Definition drop_word (c : context) : context := set_gpr RSP (u64 (c_gpr c RSP + 8)) c.

(** The exceptions for which the processor pushes an error code. *)
Definition has_error_code (vec : Z) : bool :=
  bool_decide (vec ∈ [8; 10; 11; 12; 13; 14; 17; 21; 29; 30]).

(** Delivery clears TF, NT, RF and VM, and IF too unless the gate is a trap gate. *)
Definition handler_flags (g : IDT_gate_descriptor_64bit) (rflags : Z) : Z :=
  let cleared := Z.lor (Z.lor RFLAGS_TF RFLAGS_NT) (Z.lor RFLAGS_RF RFLAGS_VM) in
  Z.ldiff rflags (if Z.land (type_attr g) 0xf =? 0xe then Z.lor cleared RFLAGS_IF else cleared).

(** Delivery through gate [g]: align the stack, push the interrupted state and the
    error code if there is one, and continue at the handler. *)
Definition deliver (g : IDT_gate_descriptor_64bit) (vec error : Z) (c : context) : context :=
  let c1 := set_gpr RSP (Z.land (c_gpr c RSP) (not64 0xf)) c in
  let c1 := push (c_ss c) c1 in
  let c1 := push (c_gpr c RSP) c1 in
  let c1 := push (c_rflags c) c1 in
  let c1 := push (c_cs c) c1 in
  let c1 := push (c_rip c) c1 in
  let c1 := if has_error_code vec then push error c1 else c1 in
  continue_at (gate_target g) (selector g) (handler_flags g (c_rflags c)) c1.

(** ** The code *)

Inductive instr : Set :=
  | Push (imm : Z) | PushR (r : gpr) | PopR (r : gpr) | Mov (dst src : gpr) | Add (r : gpr) (imm : Z)
  | CallDispatch | Iretq.

(** The registers in the order the handler pushes them. *)
Definition saved_registers : list gpr :=
  [RAX; RBX; RCX; RDX; RSI; RDI; RBP; R8; R9; R10; R11; R12; R13; R14; R15].

Definition isr_common_handler : list instr :=
  (PushR <$> saved_registers) ++ [Mov RDI RSP; CallDispatch] ++ (PopR <$> reverse saved_registers) ++
  [Add RSP 16; Iretq].

(** [isr0] to [isr31]: the vectors whose stub pushes its number only, and the
    others, which push a zero first; each ends in [jmp isr_common_handler]. *)
Definition isr (vec : Z) : list instr :=
  (match vec with
   | 8 | 10 | 11 | 12 | 13 | 14 | 17 | 21 | 29 | 30 => [Push vec]
   | _ => [Push 0; Push vec]
   end) ++ isr_common_handler.

Section exec.
(** [dispatch] runs from the entry of [isr_dispatch] to its return, if it returns;
    [ret_addr] is the address behind the call. *)
Context (dispatch : context -> option context) (ret_addr : Z).

Fixpoint exec (code : list instr) (c : context) : option context :=
  match code with
  | [] => None
  | Push imm :: code => exec code (push imm c)
  | PushR r :: code => exec code (push (c_gpr c r) c)
  | PopR r :: code => exec code (set_gpr r (top c) (drop_word c))
  | Mov dst src :: code => exec code (set_gpr dst (c_gpr c src) c)
  | Add r imm :: code => exec code (set_gpr r (u64 (c_gpr c r + imm)) c)
  | CallDispatch :: code =>
      match dispatch (push ret_addr c) with
      | Some c => exec code (drop_word c)
      | None => None
      end
  | Iretq :: _ =>
      let rsp := c_gpr c RSP in let m := c_mem c in
      Some (mk_context (c_gpr (set_gpr RSP (m (rsp + 24)) c)) (m rsp) (m (rsp + 8)) (m (rsp + 16)) (m (rsp + 32)) m)
  end.
End exec.

(** ** The argument of [isr_dispatch] *)

(** [registers_t] (isr_dispatch.h): the registers in the order of the structure. *)
Record registers_t : Type := mk_registers {
  rg_gpr : gpr -> Z;
  rg_vec : Z;
  rg_error_code : Z;
  rg_rip : Z;
  rg_cs : Z;
  rg_rflags : Z;
  rg_rsp : Z;
  rg_ss : Z;
}.

Definition field_index (r : gpr) : Z :=
  match r with
  | R15 => 0 | R14 => 1 | R13 => 2 | R12 => 3 | R11 => 4 | R10 => 5 | R9 => 6 | R8 => 7 | RBP => 8 | RDI => 9
  | RSI => 10 | RDX => 11 | RCX => 12 | RBX => 13 | RAX => 14
  | RSP => 20
  end.

Definition registers_at (m : mem) (p : Z) : registers_t :=
  mk_registers (fun r => m (p + 8 * field_index r)) (m (p + 120)) (m (p + 128)) (m (p + 136)) (m (p + 144))
    (m (p + 152)) (m (p + 160)) (m (p + 168)).

(** ** Runs of pushes and pops *)

Fixpoint pushes (l : list Z) (c : context) : context :=
  match l with [] => c | v :: l => pushes l (push v c) end.

Lemma pushes_app l l' c : pushes (l ++ l') c = pushes l' (pushes l c).
Proof. revert c. induction l as [|v l IH]; intros c; simpl; [done|apply IH]. Qed.

Lemma gpr_set_eq r v c : c_gpr (set_gpr r v c) r = v.
Proof. simpl. by rewrite decide_True. Qed.
Lemma gpr_set_ne r r' v c : r' <> r -> c_gpr (set_gpr r v c) r' = c_gpr c r'.
Proof. intros. simpl. by rewrite decide_False. Qed.

Record pushed (l : list Z) (c c' : context) : Prop := {
  pu_rsp : c_gpr c' RSP = c_gpr c RSP - 8 * Z.of_nat (length l);
  pu_gpr : forall r, r <> RSP -> c_gpr c' r = c_gpr c r;
  pu_rest : c_rip c' = c_rip c /\ c_cs c' = c_cs c /\ c_rflags c' = c_rflags c /\ c_ss c' = c_ss c;
  pu_in : forall i v, l !! i = Some v -> c_mem c' (c_gpr c RSP - 8 * Z.of_nat (S i)) = v;
  pu_out : forall a, a < c_gpr c RSP - 8 * Z.of_nat (length l) \/ c_gpr c RSP - 8 < a -> c_mem c' a = c_mem c a;
}.

Lemma pushes_spec l c :
  8 * Z.of_nat (length l) <= c_gpr c RSP < 2 ^ 64 -> pushed l c (pushes l c).
Proof.
  revert c. induction l as [|v l IH]; intros c Hc; cbn [pushes length] in *.
  { split; simpl; intros; first [done | lia | split_and!; done]. }
  assert (Er : c_gpr (push v c) RSP = c_gpr c RSP - 8) by (unfold push; rewrite gpr_set_eq; apply u64_small; lia).
  assert (Em : c_mem (push v c) = (c_mem c).[c_gpr c RSP - 8 <- v])
    by (unfold push; simpl; by rewrite u64_small by lia).
  destruct (IH (push v c) ltac:(lia)) as [P1 P2 P3 P4 P5]. rewrite Er in *. split; rewrite ?length_cons.
  - rewrite P1. lia.
  - intros r Hr. rewrite P2 by done. unfold push. by rewrite gpr_set_ne.
  - done.
  - intros [|i] w Hi; simpl in Hi.
    + simplify_eq. rewrite P5, Em by lia. replace (8 * Z.of_nat 1) with 8 by lia. apply upd_eq.
    + rewrite <- (P4 i w Hi). f_equal. lia.
  - intros a Ha. rewrite P5, Em by lia. apply upd_ne. lia.
Qed.

(** Reading the stack downwards: word [n - 1 - i] from the top is the [i]th pushed. *)
Lemma pushed_word l c c' k v :
  pushed l c c' -> reverse l !! k = Some v -> c_mem c' (c_gpr c' RSP + 8 * Z.of_nat k) = v.
Proof.
  intros Hp Hk. pose proof (lookup_lt_Some _ _ _ Hk) as Hlt. rewrite length_reverse in Hlt.
  rewrite reverse_lookup in Hk by done. rewrite (pu_rsp _ _ _ Hp). rewrite <- (pu_in _ _ _ Hp _ _ Hk).
  f_equal. lia.
Qed.

Section exec_runs.
Context (d : context -> option context) (ra : Z).

Lemma exec_push ls code c : exec d ra ((Push <$> ls) ++ code) c = exec d ra code (pushes ls c).
Proof using Type. revert c. induction ls as [|v ls IH]; intros c; [done|apply IH]. Qed.

Lemma exec_pushR rs code c :
  RSP ∉ rs -> exec d ra ((PushR <$> rs) ++ code) c = exec d ra code (pushes (c_gpr c <$> rs) c).
Proof using Type.
  revert c. induction rs as [|r rs IH]; intros c Hrs; simpl; [done|].
  apply not_elem_of_cons in Hrs as [Hr Hrs]. rewrite (IH _ Hrs). f_equal. f_equal.
  apply list_fmap_ext. intros i x Hx. unfold push. rewrite gpr_set_ne; [done|]. intros ->. apply Hrs. by eapply list_elem_of_lookup_2.
Qed.

(** Popping registers reads the words on top of the stack. *)
Lemma exec_popR rs code c :
  RSP ∉ rs -> NoDup rs -> 0 <= c_gpr c RSP -> c_gpr c RSP + 8 * Z.of_nat (length rs) < 2 ^ 64 ->
  exists c', exec d ra ((PopR <$> rs) ++ code) c = exec d ra code c' /\ c_mem c' = c_mem c /\
    c_gpr c' RSP = c_gpr c RSP + 8 * Z.of_nat (length rs) /\
    (forall i r, rs !! i = Some r -> c_gpr c' r = c_mem c (c_gpr c RSP + 8 * Z.of_nat i)) /\
    (forall r, r ∉ rs -> r <> RSP -> c_gpr c' r = c_gpr c r).
Proof using Type.
  revert c. induction rs as [|r rs IH]; intros c Hrs Hnd Hlo Hhi; cbn [fmap list_fmap app exec length] in *.
  { exists c. split_and!; try done; lia. }
  apply not_elem_of_cons in Hrs as [Hr Hrs]. apply NoDup_cons in Hnd as [Hnr Hnd].
  set (c1 := set_gpr r (top c) (drop_word c)).
  assert (Er : c_gpr c1 RSP = c_gpr c RSP + 8).
  { unfold c1, drop_word. rewrite gpr_set_ne, gpr_set_eq by done. apply u64_small. lia. }
  destruct (IH c1 Hrs Hnd ltac:(lia) ltac:(lia)) as (c' & -> & Em & E1 & E2 & E3).
  exists c'. split_and!; [done|done|rewrite E1; lia| |].
  - intros [|i] r' Hi; simpl in Hi.
    + simplify_eq. rewrite E3 by done. unfold c1. rewrite gpr_set_eq. unfold top. f_equal. lia.
    + rewrite (E2 i r' Hi), Er. change (c_mem c1) with (c_mem c). f_equal. lia.
  - intros r' H1 H2. apply not_elem_of_cons in H1 as [Hne H1]. rewrite E3 by done. unfold c1, drop_word.
    by rewrite !gpr_set_ne by done.
Qed.
End exec_runs.

(** ** The frame *)

(** [fr] holds the state [c] was interrupted in, with the vector and error code. *)
Record frame_of (c : context) (vec error : Z) (fr : registers_t) : Prop := {
  fo_gpr : forall r, rg_gpr fr r = c_gpr c r;
  fo_vec : rg_vec fr = vec;
  fo_error : rg_error_code fr = error;
  fo_rip : rg_rip fr = c_rip c;
  fo_cs : rg_cs fr = c_cs c;
  fo_rflags : rg_rflags fr = c_rflags c;
  fo_rsp : rg_rsp fr = c_gpr c RSP;
  fo_ss : rg_ss fr = c_ss c;
}.

(** [c'] continues where [c] was interrupted. *)
Record resumes (c c' : context) : Prop := {
  re_gpr : forall r, c_gpr c' r = c_gpr c r;
  re_rip : c_rip c' = c_rip c;
  re_cs : c_cs c' = c_cs c;
  re_rflags : c_rflags c' = c_rflags c;
  re_ss : c_ss c' = c_ss c;
}.

(** The error code the handler sees. *)
Definition error_seen (vec error : Z) : Z := if has_error_code vec then error else 0.

(** The words on the stack at the call, first pushed first. *)
Definition frame_words (c : context) (vec error : Z) : list Z :=
  [c_ss c; c_gpr c RSP; c_rflags c; c_cs c; c_rip c; error_seen vec error; vec] ++ (c_gpr c <$> saved_registers).

Definition aligned_rsp (c : context) : Z := c_gpr c RSP - c_gpr c RSP mod 16.

Lemma frame_of_words c c0 c1 vec error :
  pushed (frame_words c vec error) c0 c1 ->
  frame_of c vec (error_seen vec error) (registers_at (c_mem c1) (c_gpr c1 RSP)).
Proof.
  intros Hp. assert (Hw : forall k v, reverse (frame_words c vec error) !! k = Some v ->
    c_mem c1 (c_gpr c1 RSP + 8 * Z.of_nat k) = v) by (intros; by eapply pushed_word).
  split; cbn [registers_at rg_gpr rg_vec rg_error_code rg_rip rg_cs rg_rflags rg_rsp rg_ss].
  - intros r. destruct r; unfold field_index.
    all: match goal with |- c_mem _ (_ + 8 * ?k) = _ => exact (Hw (Z.to_nat k) _ eq_refl) end.
  - exact (Hw 15%nat _ eq_refl).
  - exact (Hw 16%nat _ eq_refl).
  - exact (Hw 17%nat _ eq_refl).
  - exact (Hw 18%nat _ eq_refl).
  - exact (Hw 19%nat _ eq_refl).
  - exact (Hw 20%nat _ eq_refl).
  - exact (Hw 21%nat _ eq_refl).
Qed.

(** ** Entry and return *)

(** The state in which the stub begins, before the words are on the stack. *)
Definition base_context (g : IDT_gate_descriptor_64bit) (c : context) : context :=
  continue_at (gate_target g) (selector g) (handler_flags g (c_rflags c)) (set_gpr RSP (aligned_rsp c) c).

Lemma pushes_continue l rip cs rflags c :
  pushes l (continue_at rip cs rflags c) = continue_at rip cs rflags (pushes l c).
Proof. revert c. induction l as [|v l IH]; intros c; [done|exact (IH (push v c))]. Qed.

Lemma deliver_pushes g vec error c :
  0 <= c_gpr c RSP < 2 ^ 64 ->
  deliver g vec error c =
  pushes ([c_ss c; c_gpr c RSP; c_rflags c; c_cs c; c_rip c] ++ if has_error_code vec then [error] else []) (base_context g c).
Proof.
  intros Hc. assert (Ha : Z.land (c_gpr c RSP) (not64 0xf) = aligned_rsp c) by exact (land_not64_low _ 4 Hc ltac:(lia)).
  unfold deliver, base_context. cbv zeta. rewrite Ha, pushes_continue. f_equal.
  destruct (has_error_code vec); cbn [app pushes]; reflexivity.
Qed.

Lemma isr_shape vec :
  0 <= vec < 32 ->
  isr vec = (Push <$> if has_error_code vec then [vec] else [0; vec]) ++ isr_common_handler.
Proof.
  intros Hv. assert (He : vec ∈ seqZ 0 32) by (apply elem_of_seqZ; lia).
  cbv [seqZ seq fmap list_fmap Z.to_nat Pos.to_nat Pos.iter_op Init.Nat.add Z.of_nat Pos.of_succ_nat Pos.succ Z.add Pos.add] in He.
  repeat (apply elem_of_cons in He as [->|He]; [reflexivity|]). by apply elem_of_nil in He.
Qed.

(** Interrupts stay off in the handler except behind the trap gate of vector 3. *)
Lemma handler_flags_if g vec f :
  type_attr g = gate_flags vec -> Z.testbit (handler_flags g f) 9 = (vec =? 3) && Z.testbit f 9.
Proof.
  intros Hty. unfold handler_flags. rewrite Hty. unfold gate_flags. rewrite Z.ldiff_spec.
  destruct (vec =? 3); destruct (Z.testbit f 9); reflexivity.
Qed.

Lemma rsp_not_saved : RSP ∉ saved_registers.
Proof. refine (bool_decide_unpack _ _). reflexivity. Qed.

(** Delivery and the stub leave the whole frame on the stack. *)
Lemma entry_words d ra g vec error c :
  0 <= vec < 32 -> 0 <= c_gpr c RSP < 2 ^ 64 ->
  exec d ra (isr vec) (deliver g vec error c) =
  exec d ra ([Mov RDI RSP; CallDispatch] ++ (PopR <$> reverse saved_registers) ++ [Add RSP 16; Iretq])
    (pushes (frame_words c vec error) (base_context g c)).
Proof.
  intros Hv Hc. rewrite (isr_shape vec Hv), (deliver_pushes g vec error c Hc).
  set (b := base_context g c). unfold isr_common_handler.
  generalize ([Mov RDI RSP; CallDispatch] ++ (PopR <$> reverse saved_registers) ++ [Add RSP 16; Iretq]). intros code.
  assert (Hb : forall l r, r <> RSP -> c_gpr (pushes l b) r = c_gpr c r).
  { intros l. assert (Hb : forall r, r <> RSP -> c_gpr b r = c_gpr c r) by (intros; by apply gpr_set_ne).
    revert Hb. generalize b. induction l as [|v l IH]; intros b0 Hb r Hr; cbn [pushes]; [by apply Hb|].
    apply IH; [|done]. intros r' Hr'. unfold push. rewrite gpr_set_ne by done. by apply Hb. }
  assert (Hrun : forall l, exec d ra ((PushR <$> saved_registers) ++ code) (pushes l b) =
    exec d ra code (pushes (l ++ (c_gpr c <$> saved_registers)) b)).
  { intros l. rewrite (exec_pushR _ _ _ _ _ rsp_not_saved), pushes_app.
    replace (c_gpr (pushes l b) <$> saved_registers) with (c_gpr c <$> saved_registers); [done|].
    apply list_fmap_ext. intros i r Hr. symmetry. apply Hb. intros ->.
    apply rsp_not_saved. by eapply list_elem_of_lookup_2. }
  rewrite exec_push, <- pushes_app, Hrun. f_equal. f_equal. unfold frame_words, error_seen.
  by destruct (has_error_code vec).
Qed.

Lemma frame_of_ext c vec error m m' p :
  (forall a, p <= a < p + 176 -> m a = m' a) -> frame_of c vec error (registers_at m p) ->
  frame_of c vec error (registers_at m' p).
Proof.
  intros Hm [F1 F2 F3 F4 F5 F6 F7 F8].
  split; cbn [registers_at rg_gpr rg_vec rg_error_code rg_rip rg_cs rg_rflags rg_rsp rg_ss] in *; try (rewrite <- Hm by lia; done).
  intros r. rewrite <- Hm; [apply F1|]. destruct r; cbn [field_index]; lia.
Qed.

(** After [isr_dispatch] the handler pops the frame and returns. *)
Lemma return_resumes d ra c vec error c2 p :
  176 <= p -> p + 176 < 2 ^ 64 -> c_gpr c2 RSP = p ->
  frame_of c vec error (registers_at (c_mem c2) p) ->
  exists c', exec d ra ((PopR <$> reverse saved_registers) ++ [Add RSP 16; Iretq]) c2 = Some c' /\
    resumes c c' /\ c_mem c' = c_mem c2.
Proof.
  intros Hlo Hhi Hrsp Hfr.
  destruct (exec_popR d ra (reverse saved_registers) [Add RSP 16; Iretq] c2) as (c3 & -> & Em & E1 & E2 & _).
  - rewrite elem_of_reverse. apply rsp_not_saved.
  - refine (bool_decide_unpack _ _). reflexivity.
  - lia.
  - rewrite Hrsp. cbn [length reverse saved_registers rev_append]. lia.
  - change (Z.of_nat (length (reverse saved_registers))) with 15 in E1. cbn [exec]. rewrite gpr_set_eq.
    rewrite E1, Hrsp, u64_small by lia. change (c_mem (set_gpr RSP (p + 8 * 15 + 16) c3)) with (c_mem c3). rewrite Em.
    replace (p + 8 * 15 + 16) with (p + 136) by lia. rewrite <- !Z.add_assoc. eexists. split; [done|].
    split; [|done]. destruct Hfr as [F1 F2 F3 F4 F5 F6 F7 F8]. cbn [registers_at rg_gpr rg_rip rg_cs rg_rflags rg_rsp rg_ss] in *.
    split; cbn [c_gpr c_rip c_cs c_rflags c_ss]; try done. intros r. destruct (decide (r = RSP)) as [->|Hr]; [by rewrite gpr_set_eq|].
    rewrite !gpr_set_ne by done. rewrite <- F1. rewrite Hrsp in E2.
    assert (Hi : reverse saved_registers !! Z.to_nat (field_index r) = Some r) by (by destruct r).
    rewrite (E2 _ _ Hi). f_equal. rewrite Z2Nat.id by (by destruct r). done.
Qed.

Lemma frame_words_length c vec error : length (frame_words c vec error) = 22%nat.
Proof. done. Qed.

Lemma aligned_bounds c : 0 <= c_gpr c RSP - aligned_rsp c < 16 /\ (aligned_rsp c - 176) mod 16 = 0.
Proof. unfold aligned_rsp. dlia. Qed.

(** The state at the call. *)
Record at_call (g : IDT_gate_descriptor_64bit) (vec error ra p : Z) (c c1 : context) : Prop := {
  ac_rdi : c_gpr c1 RDI = p;
  ac_rsp : c_gpr c1 RSP = p - 8;
  ac_frame : frame_of c vec (error_seen vec error) (registers_at (c_mem c1) p);
  ac_out : forall a, a < p - 8 \/ p + 168 < a -> c_mem c1 a = c_mem c a;
  ac_cs : c_cs c1 = selector g;
  ac_rflags : c_rflags c1 = handler_flags g (c_rflags c);
}.

(** Pushing the frame, setting RDI and calling. *)
Lemma call_state g vec error ra c :
  512 <= c_gpr c RSP < 2 ^ 64 ->
  c_gpr (pushes (frame_words c vec error) (base_context g c)) RSP = aligned_rsp c - 176 /\
  at_call g vec error ra (aligned_rsp c - 176) c
    (push ra (set_gpr RDI (aligned_rsp c - 176) (pushes (frame_words c vec error) (base_context g c)))).
Proof.
  intros Hc. pose proof (aligned_bounds c) as [Hal _].
  assert (Hb : c_gpr (base_context g c) RSP = aligned_rsp c) by apply gpr_set_eq.
  pose proof (pushes_spec (frame_words c vec error) (base_context g c)) as Hp. rewrite frame_words_length, Hb in Hp.
  specialize (Hp ltac:(lia)). generalize dependent (pushes (frame_words c vec error) (base_context g c)). intros cf Hp.
  assert (Hr : c_gpr cf RSP = aligned_rsp c - 176) by (rewrite (pu_rsp _ _ _ Hp), Hb, frame_words_length; lia).
  split; [exact Hr|]. pose proof (frame_of_words c _ cf vec error Hp) as Hf. rewrite Hr in Hf.
  set (p := aligned_rsp c - 176) in *.
  assert (Hd : c_gpr (set_gpr RDI p cf) RSP = p) by (rewrite gpr_set_ne by done; exact Hr).
  pose proof (pushes_spec [ra] (set_gpr RDI p cf)) as Hq. rewrite Hd in Hq. cbn [length pushes] in Hq.
  specialize (Hq ltac:(lia)). destruct Hq as [Q1 Q2 (_ & Q3 & Q4 & _) _ Q6]. rewrite Hd in *. cbn [length] in *.
  destruct Hp as [_ _ (_ & P3 & P4 & _) _ P6]. rewrite frame_words_length, Hb in P6.
  change (c_mem (set_gpr RDI p cf)) with (c_mem cf) in Q6.
  change (c_cs (set_gpr RDI p cf)) with (c_cs cf) in Q3. change (c_rflags (set_gpr RDI p cf)) with (c_rflags cf) in Q4.
  split.
  - rewrite Q2 by done. apply gpr_set_eq.
  - rewrite Q1. lia.
  - eapply frame_of_ext; [|exact Hf]. intros a Ha. symmetry. apply Q6. lia.
  - intros a Ha. rewrite Q6, P6 by lia. done.
  - rewrite Q3. exact P3.
  - rewrite Q4. exact P4.
Qed.

(** C12. An exception the processor delivers through the table [__init_idt] loads
    runs the stub of its vector, which calls [isr_dispatch] with a 16-byte aligned
    stack and a pointer to a [registers_t] that holds the interrupted registers,
    the vector and the error code (zero for an exception without one), with
    interrupts off except for a breakpoint, and with no other word written below
    the interrupted stack pointer.  If the handler returns with its stack pointer
    and the structure as they were, the interrupted context resumes in every
    register; if it does not return, nothing after the call runs. *)
Theorem interrupt_entry_correct isr_entry idt code s vec error c ra :
  (forall v, 0 <= v < 32 -> 0 <= isr_entry v < 2 ^ 64 /\ code (isr_entry v) = isr v) ->
  0 <= vec < 32 -> 512 <= c_gpr c RSP < 2 ^ 64 ->
  let c0 := deliver (i_idt (__init_idt isr_entry idt s) vec) vec error c in
  let p := aligned_rsp c - 176 in
  exists c1, c_gpr c1 RDI = p /\ c_gpr c1 RSP = p - 8 /\ p mod 16 = 0 /\
    frame_of c vec (error_seen vec error) (registers_at (c_mem c1) p) /\
    (forall a, a < p - 8 \/ aligned_rsp c - 8 < a -> c_mem c1 a = c_mem c a) /\
    c_cs c1 = 0x08 /\ Z.testbit (c_rflags c1) 9 = (vec =? 3) && Z.testbit (c_rflags c) 9 /\
    forall dispatch, match dispatch c1 with
      | None => exec dispatch ra (code (c_rip c0)) c0 = None
      | Some c2 => c_gpr c2 RSP = c_gpr c1 RSP -> (forall a, p <= a < p + 176 -> c_mem c2 a = c_mem c1 a) ->
          exists c', exec dispatch ra (code (c_rip c0)) c0 = Some c' /\ resumes c c' /\ c_mem c' = c_mem c2
      end.
Proof.
  intros Hcode Hv Hc. destruct (init_idt_table isr_entry idt (fun v Hv => proj1 (Hcode v Hv)) s) as [Hg _].
  specialize (Hg vec Hv). generalize dependent (i_idt (__init_idt isr_entry idt s) vec). intros g Hg. cbv zeta.
  destruct Hg as (Ht & Hsel & Hty & _). pose proof (aligned_bounds c) as [Hal Hmod].
  destruct (call_state g vec error ra c Hc) as [Hr [C1 C2 C3 C4 C5 C6]].
  change (c_rip (deliver g vec error c)) with (gate_target g). rewrite Ht, (proj2 (Hcode vec Hv)).
  assert (Hx : forall d, exec d ra (isr vec) (deliver g vec error c) = _)
    by (intros d; exact (entry_words d ra g vec error c Hv ltac:(lia))).
  revert Hr C1 C2 C3 C4 C5 C6 Hx. generalize (pushes (frame_words c vec error) (base_context g c)).
  set (p := aligned_rsp c - 176) in *. intros cf Hr C1 C2 C3 C4 C5 C6 Hx.
  exists (push ra (set_gpr RDI p cf)). split_and!; [exact C1|exact C2|exact Hmod|exact C3| | | |].
  - intros a Ha. apply C4. lia.
  - by rewrite C5.
  - rewrite C6. by apply handler_flags_if.
  - intros d. rewrite Hx. cbn [app exec]. rewrite Hr. generalize dependent (push ra (set_gpr RDI p cf)). intros c1 C1 C2 C3 C4 _ _.
    destruct (d c1) as [c2|]; [|done]. intros E2 Hk.
    destruct (return_resumes d ra c vec (error_seen vec error) (drop_word c2) p) as (c' & E & R & M); [lia|lia| | |by exists c'].
    + unfold drop_word. rewrite gpr_set_eq, E2, C2. rewrite u64_small; lia.
    + eapply frame_of_ext; [|exact C3]. intros a Ha. symmetry. by apply Hk.
Qed.

(** A page fault on a demonstration stack, with a handler that returns at once. *)
Definition demo_stubs (v : Z) : Z := 0xffffffff80012000 + 16 * v.
Definition demo_context : context :=
  mk_context (fun r => if decide (r = RSP) then 0xfffffc0000603ff8 else field_index r) 0xffffffff80010123 0x08 0x202 0x10
    (fun _ => 0).

Lemma interrupt_entry_correct_witness :
  exists c1, c_gpr c1 RDI = 0xfffffc0000603f40 /\ rg_error_code (registers_at (c_mem c1) 0xfffffc0000603f40) = 2 /\
    exists c', exec Some 0 (isr 14) (deliver (i_idt (__init_idt demo_stubs 0xffffffff80050000
      (mk_istate (fun _ => mk_gate 0 0 0 0 0 0 0) (mk_idtr 0 0) (mk_idtr 0 0) [])) 14) 14 2 demo_context) = Some c' /\
      resumes demo_context c'.
Proof.
  pose proof (interrupt_entry_correct demo_stubs 0xffffffff80050000 (fun a => isr ((a - 0xffffffff80012000) / 16))
    (mk_istate (fun _ => mk_gate 0 0 0 0 0 0 0) (mk_idtr 0 0) (mk_idtr 0 0) []) 14 2 demo_context 0
    ltac:(intros v Hv; split; [unfold demo_stubs; lia|]; f_equal; unfold demo_stubs; dlia) ltac:(lia) ltac:(done)) as H.
  destruct H as (c1 & H1 & _ & _ & H3 & _ & _ & _ & H4). exists c1. split; [exact H1|].
  split; [exact (fo_error _ _ _ _ H3)|]. destruct (H4 Some eq_refl (fun _ _ => eq_refl)) as (c' & E & R & _).
  exists c'. split; [exact E|exact R].
Defined.
