(* ===== verification/PerCpu.v ===== *)
(** * per_cpu.c and the task pointer of vm.c

    Each processor keeps a [struct cpu_local] behind its GS base.  The header
    that declares the structure and the routines that touch the hardware are not
    part of the repository: the structure's size and offsets and the routines
    are parameters, [CpuOps] naming the routines and [CpuLaws] what the code
    relies on.  Processors share the kernel's memory; each has its own flags,
    CPUID answer and hardware state.

    Every pointer this code dereferences goes through the address space the
    processors run on, also a parameter: the direct-map pointers of the start-up
    code and the bare physical address behind the GS base alike.  Where nothing is
    mapped the access faults. *)

From stdpp Require Import gmap.
From S2P Require Import Prelude State Kmath Buddy FreeList BuddyInv BuddyDemo BuddyOps Slab SlabTheorems SlabRings.
From S2P Require Import PhysKmalloc SlabObjects SlabAlloc Mapped Kasm KasmTheorems.

(** ** The hardware *)

Class CpuOps (H : Type) : Type := {
  write_gs_base : Z -> H -> H;
  write_kernel_gs_base : Z -> H -> H;
  swap_gs : H -> H;
  get_cpu_id : H -> Z;
  get_cpu_local_gs : H -> ptr;
  supports_fsgsbase : H -> bool;
  enable_fsgsbase : H -> H;
}.

(** The two base registers exist, the writes set them, SWAPGS exchanges them, and
    the accessor returns the active one; none of this changes the processor's
    number. *)
Class CpuLaws (H : Type) `{CpuOps H} : Type := {
  gs_base : H -> Z;
  kernel_gs_base : H -> Z;
  gs_write (v : Z) h : 0 <= v < 2 ^ 64 -> gs_base (write_gs_base v h) = v;
  gs_write_kernel (v : Z) h : kernel_gs_base (write_gs_base v h) = kernel_gs_base h;
  kernel_write (v : Z) h : 0 <= v < 2 ^ 64 -> kernel_gs_base (write_kernel_gs_base v h) = v;
  gs_swap h : gs_base (swap_gs h) = kernel_gs_base h;
  gs_read h : get_cpu_local_gs h = gs_base h;
  id_enable h : get_cpu_id (enable_fsgsbase h) = get_cpu_id h;
  id_gs (v : Z) h : get_cpu_id (write_gs_base v h) = get_cpu_id h;
  id_kernel_gs (v : Z) h : get_cpu_id (write_kernel_gs_base v h) = get_cpu_id h;
  id_swap h : get_cpu_id (swap_gs h) = get_cpu_id h;
}.

(** ** The structure *)

(** [struct cpu_local]: its size, and the fields the code uses. *)
Record cpu_local_layout : Type := mk_layout {
  sizeof_cpu_local : Z;
  off_current : Z;
  off_cpu_id : Z;
}.

(** Its objects fit a slab cache and the two fields lie inside, apart. *)
Record layout_ok (lay : cpu_local_layout) : Prop := {
  lo_size : 8 <= sizeof_cpu_local lay <= 2048;
  lo_current : 0 <= off_current lay /\ off_current lay + 8 <= sizeof_cpu_local lay;
  lo_cpu_id : 0 <= off_cpu_id lay /\ off_cpu_id lay + 4 <= sizeof_cpu_local lay;
  lo_apart : off_current lay + 8 <= off_cpu_id lay \/ off_cpu_id lay + 4 <= off_current lay;
}.

(** [struct task_struct] and [struct mm] (tasks.h) *)
Definition off_task_mm : Z := 8.
Definition off_vma_tree : Z := 8.
Definition off_phys_pml4t : Z := 0.

(** ** The routines *)

(** What [isr_dispatch] shows for vector 14 before it halts. *)
Definition page_fault : string := "#PF  Page Fault, vector: 0x0E".

Section percpu.
Context {H : Type} `{CpuOps H}.
(** [cache] is the address of [cpu_local_kmem_cache] in the kernel image; [space]
    gives the physical address behind a virtual one. *)
Context (space : Z -> option Z) (lay : cpu_local_layout) (cache : ptr).

Abbreviation cpu_cmd := (cmd (kstate * H)).

Definition on_kernel {A} (c : cmd kstate A) : cpu_cmd A := fun s =>
  match c s.1 with Ret a k => Ret a (k, s.2) | Panic msg => Panic msg | Diverge => Diverge end.
Definition on_cpu (f : H -> H) : cpu_cmd unit := modify (fun s => (s.1, f s.2)).

(** The physical address of [n] bytes at [p], each of which has to be mapped. *)
Definition reach (p n : Z) : cmd kstate Z :=
  match space p with
  | Some pa => if forallb (fun i => match space (p + i) with Some _ => true | None => false end) (seqZ 0 n)
               then ret pa else panic page_fault
  | None => panic page_fault
  end.

(** [memset(p, 0, n)], byte by byte. *)
Fixpoint memset_zero (n : nat) (p : ptr) : cmd kstate unit :=
  match n with
  | O => ret tt
  | S n => let! pa := reach p 1 in store pa 0;; memset_zero n (p + 1)
  end.
(** A field of [n] bytes behind a pointer. *)
Definition load_field (p off n : Z) : cmd kstate Z :=
  let! pa := reach (p + off) n in load pa.
Definition store_field (p off n v : Z) : cmd kstate unit :=
  let! pa := reach (p + off) n in store pa v.

Definition percpu_init : cpu_cmd unit :=
  let! ok := gets (fun s => supports_fsgsbase s.2) in
  if negb ok then panic "FSGSBASE hardware extension not supported" else
  on_cpu enable_fsgsbase;;
  let! _ := on_kernel (kmem_cache_create_sl cache (sizeof_cpu_local lay)) in
  let! cpu_local := on_kernel (mapped_kmem_cache_kalloc cache) in
  if cpu_local =? NULL then panic "allocator failure: cant allocate BSP cpu_local data" else
  on_kernel (memset_zero (Z.to_nat (sizeof_cpu_local lay)) cpu_local);;
  let paddr := u64 (cpu_local - DIRECT_MAP_START) in
  on_cpu (write_kernel_gs_base paddr);;
  on_cpu (write_gs_base 0);;
  on_cpu swap_gs.

Definition percpu_init_ap : cpu_cmd unit :=
  on_cpu enable_fsgsbase;;
  let! cpu_local := on_kernel (mapped_kmem_cache_kalloc cache) in
  if cpu_local =? NULL then panic "allocator failure: cant allocate cpu_local data" else
  on_kernel (memset_zero (Z.to_nat (sizeof_cpu_local lay)) cpu_local);;
  let! id := gets (fun s => get_cpu_id s.2) in
  on_kernel (store_field cpu_local (off_cpu_id lay) 4 (u32 id));;
  let paddr := u64 (cpu_local - DIRECT_MAP_START) in
  on_cpu (write_kernel_gs_base paddr);;
  on_cpu swap_gs.

Definition get_cpu_local : cpu_cmd ptr := gets (fun s => get_cpu_local_gs s.2).

Definition cpu_set_current (task : ptr) : cpu_cmd unit :=
  let! cpu_local := get_cpu_local in
  on_kernel (store_field cpu_local (off_current lay) 8 task).

Definition cpu_get_current_task : cpu_cmd ptr :=
  let! cpu_local := get_cpu_local in
  on_kernel (load_field cpu_local (off_current lay) 8).

(** vm.c reads the current task's tree and does nothing with it yet. *)
Definition vm_handle_userland_fault (addr : Z) : cpu_cmd unit := ret tt.
Definition vm_handle_page_fault (addr : Z) : cpu_cmd unit :=
  if addr <? PML4_KERNEL_HALF_BASE then vm_handle_userland_fault addr
  else
    let! current := cpu_get_current_task in
    let! task_mm := on_kernel (load_field current off_task_mm 8) in
    let! _ := on_kernel (load_field task_mm off_vma_tree 8) in
    ret tt.
(** The function has no return statement: what it computes is its two reads. *)
Definition vm_mmap : cpu_cmd (Z * Z) :=
  let! current := cpu_get_current_task in
  let! task_mm := on_kernel (load_field current off_task_mm 8) in
  let! rb_root := on_kernel (load_field task_mm off_vma_tree 8) in
  let! phys_pml4t := on_kernel (load_field task_mm off_phys_pml4t 8) in
  ret (rb_root, phys_pml4t).
End percpu.

(** ** Several processors *)

Record processor (H : Type) : Type := mk_processor { cpu_rflags : Z; cpu_ebx : Z; cpu_hw : H }.
Arguments mk_processor {H} _ _ _.
Arguments cpu_rflags {H} _.
Arguments cpu_ebx {H} _.
Arguments cpu_hw {H} _.
Record machine (H : Type) : Type := mk_machine { m_k : kstate; m_cpus : nat -> processor H }.
Arguments mk_machine {H} _ _.
Arguments m_k {H} _.
Arguments m_cpus {H} _.

(** The kernel's state as processor [c] sees it. *)
Definition seat {H} (c : processor H) (k : kstate) : kstate :=
  mk_kstate (k_mem k) (k_buddy k) (k_locks k) (cpu_rflags c) (cpu_ebx c) (phys_map_offset k) (k_invlpg k)
    (k_slab_caches k).

Definition run_on {H A} (i : nat) (c : cmd (kstate * H) A) : cmd (machine H) A := fun M =>
  let p := m_cpus M i in
  match c (seat p (m_k M), cpu_hw p) with
  | Ret a (k, h) =>
      Ret a (mk_machine k (fun j => if decide (j = i) then mk_processor (k_rflags k) (cpu_ebx p) h else m_cpus M j))
  | Panic msg => Panic msg
  | Diverge => Diverge
  end.

(** What a processor does: come up, name its task, ask for it. *)
Inductive cpu_op : Set := InitAp | SetCurrent (task : Z) | GetCurrent.
#[export] Instance cpu_op_eq_dec : EqDecision cpu_op.
Proof. solve_decision. Defined.

Section machine.
Context {H : Type} `{CpuOps H} (space : Z -> option Z) (lay : cpu_local_layout) (cache : ptr).

Definition cpu_step (op : cpu_op) : cmd (kstate * H) (option Z) :=
  match op with
  | InitAp => percpu_init_ap space lay cache;; ret None
  | SetCurrent task => cpu_set_current space lay task;; ret None
  | GetCurrent => let! t := cpu_get_current_task space lay in ret (Some t)
  end.

Fixpoint machine_run (ops : list (nat * cpu_op)) : cmd (machine H) (list (option Z)) :=
  match ops with
  | [] => ret []
  | (i, op) :: ops =>
      let! r := run_on i (cpu_step op) in
      let! rs := machine_run ops in
      ret (r :: rs)
  end.
End machine.

(** ** The contract

    A finite map from the processors that are up to their current task and
    number.  A processor comes up once, and names or asks for its task only
    while it is up. *)

Definition spec_step (ids : nat -> Z) (i : nat) (op : cpu_op) (m : gmap nat (Z * Z)) :
    option (option Z * gmap nat (Z * Z)) :=
  match op, m !! i with
  | InitAp, None => Some (None, <[i := (0, u32 (ids i))]> m)
  | SetCurrent task, Some (_, id) => Some (None, <[i := (task, id)]> m)
  | GetCurrent, Some (t, _) => Some (Some t, m)
  | _, _ => None
  end.

Fixpoint spec_run (ids : nat -> Z) (ops : list (nat * cpu_op)) (m : gmap nat (Z * Z)) :
    option (list (option Z) * gmap nat (Z * Z)) :=
  match ops with
  | [] => Some ([], m)
  | (i, op) :: ops =>
      match spec_step ids i op m with
      | Some (r, m) => match spec_run ids ops m with Some (rs, m) => Some (r :: rs, m) | None => None end
      | None => None
      end
  end.
