(* ===== verification/PerCpuTheorems.v ===== *)
(** * Per-processor data: theorems

    Processors that come up one after the other get structures that do not
    overlap.  While the structures are mapped at their physical addresses, the task
    each processor names is the task it later gets back, whatever the others did in
    between: the routines refine a finite map from processors to tasks.  Where they
    are not, as in the kernel's final address space, the first use of a structure
    faults.  The witnesses instantiate the hardware with the registers of Kasm. *)

From stdpp Require Import gmap.
From S2P Require Import Prelude State Kmath Buddy FreeList BuddyInv BuddyDemo BuddyOps Slab SlabTheorems SlabRings.
From S2P Require Import PhysKmalloc SlabObjects SlabAlloc Mapped Kasm KasmString KasmTheorems PerCpu.

(** ** The shared state *)

(** The pages lie in the direct map; they are, or are not, mapped at their physical
    addresses too. *)
Definition at_direct_map (space : Z -> option Z) (pages : list Z) : Prop :=
  forall a, page_of a ∈ pages -> a < DIRECT_MAP_END - DIRECT_MAP_START /\ space (DIRECT_MAP_START + a) = Some a.
Definition at_identity (space : Z -> option Z) (pages : list Z) : Prop :=
  forall a, page_of a ∈ pages -> space a = Some a.
Definition not_at_identity (space : Z -> option Z) (pages : list Z) : Prop :=
  forall a, page_of a ∈ pages -> space a = None.

Section shared.
Context (space : Z -> option Z) (pages : list Z) (lay : cpu_local_layout) (cache o al n : Z).
Context (Hsp : at_direct_map space pages).
Context (Hat : cache_at cache (sizeof_cpu_local lay) o al n) (Hlay : layout_ok lay).
Implicit Types (k : kstate) (L : Z -> list ptr) (R : slab_class -> list ptr) (fl : ptr -> list ptr).

Abbreviation size := (sizeof_cpu_local lay).
Abbreviation used := (used_objects size al n).

(** The cache of structures is in order, its locks are free, and every page it
    has or can get is one of [pages]. *)
Record owns k L R fl : Prop := {
  ow_cache : cache_owns cache size o al n k L R fl;
  ow_slab : lock_free k slab_lock;
  ow_buddy : lock_free k buddy_lock;
  ow_offset : phys_map_offset k = DIRECT_MAP_START;
  ow_pages : forall pg, pg ∈ free_pages L ++ slab_pages o R -> pg ∈ pages;
}.

Lemma owns_seat {H} (c : processor H) k L R fl : owns k L R fl -> owns (seat c k) L R fl.
Proof using Type. intros [[? ? ?] ? ? ? ?]. by split. Qed.

Lemma used_byte k L R fl p a :
  owns k L R fl -> p ∈ used R fl -> p <= a < p + size -> page_of a ∈ pages.
Proof using Hat.
  destruct Hat as [Hg Hs Hc]. intros [Ho _ _ _ Hp] [(d & Hd & Hu) _]%used_elem Ha.
  apply (slab_object_bounds size o al n Hg Hs) in Hu as [H1 H2].
  apply Hp. apply elem_of_app. right. apply list_elem_of_bind. exists d. split; [|done].
  apply (slab_page size o al n Hg Hs); [by apply (inv_place _ _ _ _ _ _ _ _ (co_cache _ _ _ _ _ _ _ _ _ Ho))|]. lia.
Qed.

Lemma used_place k L R fl p :
  owns k L R fl -> p ∈ used R fl -> 0 < p /\ p + size <= DIRECT_MAP_END - DIRECT_MAP_START.
Proof using Hat Hsp Hlay.
  intros Ho Hp. pose proof (lo_size _ Hlay).
  destruct (Hsp (p + size - 1)) as [Hlt _]; [eapply used_byte; [done..|lia]|]. split; [|lia].
  destruct Hat as [Hg Hs Hc]. destruct Ho as [Ho _ _ _ _]. apply used_elem in Hp as [(d & Hd & Hu) _].
  pose proof (inv_place _ _ _ _ _ _ _ _ (co_cache _ _ _ _ _ _ _ _ _ Ho) d Hd) as Hpl.
  apply (slab_object_bounds size o al n Hg Hs) in Hu as [H1 H2]. destruct Hpl. lia.
Qed.

(** Direct-map pointers to objects. *)
Lemma used_shift k L R fl p :
  owns k L R fl -> p ∈ used R fl ->
  u64 (p + DIRECT_MAP_START) = p + DIRECT_MAP_START /\ u64 (p + DIRECT_MAP_START - DIRECT_MAP_START) = p /\
  p + DIRECT_MAP_START <> NULL.
Proof using Hat Hlay Hsp.
  intros Ho Hp. destruct (used_place _ _ _ _ _ Ho Hp) as [H1 H2]. pose proof (lo_size _ Hlay).
  destruct (direct_mapped_shift p ltac:(lia)) as (E1 & E2 & E3). split_and!; [done|done|unfold NULL, DIRECT_MAP_START in *; lia].
Qed.

(** Accesses through a mapped pointer. *)
Lemma reach_mapped p pa n0 Q k :
  0 < n0 -> (forall i, 0 <= i < n0 -> space (p + i) = Some (pa + i)) -> Q pa k -> wp (reach space p n0) Q k.
Proof using Type.
  intros Hn Hm HQ. unfold reach. pose proof (Hm 0 ltac:(lia)) as E. rewrite !Z.add_0_r in E. rewrite E.
  rewrite (proj2 (forallb_forall _ _)); [by apply wp_ret|].
  intros i Hi%list_elem_of_In%elem_of_seqZ. by rewrite Hm by lia.
Qed.

Lemma memset_mapped p pa n0 Q k :
  (forall i, 0 <= i < Z.of_nat n0 -> space (p + i) = Some (pa + i)) ->
  (forall m', (forall a, pa <= a < pa + Z.of_nat n0 -> m' a = 0) ->
     (forall a, ~ pa <= a < pa + Z.of_nat n0 -> m' a = k_mem k a) -> Q tt (set_mem m' k)) ->
  wp (memset_zero space n0 p) Q k.
Proof using Type.
  revert p pa k. induction n0 as [|n0 IH]; intros p pa k Hm HQ; cbn [memset_zero].
  { apply wp_ret. replace k with (set_mem (k_mem k) k) by (by destruct k). apply HQ; [lia|done]. }
  apply wp_bind. apply (reach_mapped p pa); [lia|intros i Hi; apply Hm; lia|]. kwp.
  apply (IH (p + 1) (pa + 1)).
  { intros i Hi. rewrite <- !Z.add_assoc. apply Hm. lia. }
  intros m' H1 H2. apply (HQ m').
  - intros a Ha. destruct (decide (a = pa)) as [->|]; [rewrite H2 by lia; apply upd_eq|]. apply H1. lia.
  - intros a Ha. rewrite H2 by lia. apply upd_ne. lia.
Qed.

(** An object is reached through the direct map, and a field of it through its
    physical address while the identity map holds. *)
Lemma direct_bytes k L R fl p i :
  owns k L R fl -> p ∈ used R fl -> 0 <= i < size -> space (p + DIRECT_MAP_START + i) = Some (p + i).
Proof using Hat Hsp.
  intros Ho Hp Hi. replace (p + DIRECT_MAP_START + i) with (DIRECT_MAP_START + (p + i)) by lia.
  apply Hsp. eapply used_byte; [done..|lia].
Qed.

Lemma identity_field k L R fl p off w Q k' :
  at_identity space pages -> owns k L R fl -> p ∈ used R fl -> 0 <= off -> off + w <= size -> 0 < w ->
  Q (p + off) k' -> wp (reach space (p + off) w) Q k'.
Proof using Hat.
  intros Hi Ho Hp H1 H2 H3. apply reach_mapped; [done|]. intros i Hii. apply Hi. eapply used_byte; [done..|lia].
Qed.

(** Words of objects in use may change. *)
Lemma owns_objects k L R fl m' :
  owns k L R fl -> object_writes size al n R fl (k_mem k) m' -> owns (set_mem m' k) L R fl.
Proof using Hat.
  destruct Hat as [Hg Hs Hc]. intros [H1 H2 H3 H4 H5] Hw. split; try done. by apply cache_owns_objects.
Qed.

Lemma owns_store k L R fl p off v :
  owns k L R fl -> p ∈ used R fl -> 0 <= off < size ->
  owns (set_mem (k_mem k).[p + off <- v] k) L R fl.
Proof using Hat.
  intros Ho Hp Hoff. apply owns_objects; [done|]. intros a Ha. apply upd_ne. intros ->.
  apply (Ha p Hp). lia.
Qed.

Lemma used_apart k L R fl p q :
  owns k L R fl -> p ∈ used R fl -> q ∈ used R fl -> p <> q -> p + size <= q \/ q + size <= p.
Proof using Hat.
  intros Ho Hp Hq Hne. assert (Hc : client_inv cache size o al n k (used R fl)).
  { split_and!; [apply Ho|apply Ho|]. exists L, R, fl. split; [apply Ho|done]. }
  apply client_inv_overlap_free in Hc as [_ Hc]; [by apply Hc|done].
Qed.

(** An allocation returns the direct-map address of a fresh object, or NULL. *)
Lemma kalloc_local_wp k L R fl :
  owns k L R fl ->
  wp (mapped_kmem_cache_kalloc cache) (fun v k' => kframe k k' /\
    (v = NULL \/ exists p L' R' fl', v = p + DIRECT_MAP_START /\ owns k' L' R' fl' /\
       used R' fl' ≡ₚ p :: used R fl /\
       (forall u a, u ∈ used R fl -> u <= a < u + size -> k_mem k' a = k_mem k a))) k.
Proof using Hat Hlay Hsp.
  pose proof Hat as [Hg Hs Hc]. intros Ho. pose proof Ho as [H1 H2 H3 H4 H5].
  unfold mapped_kmem_cache_kalloc, to_mapped. wp_step. eapply wp_mono; [by eapply kalloc_at|]. cbv beta.
  intros p k' [Hk Ht]. destruct (taken_used _ _ _ _ _ Hg Hs Hc _ _ _ _ _ _ H1 Ht) as [Hu Hm].
  destruct (Z.eqb_spec p NULL) as [->|Hp]; wp_step; [by auto|]. split; [done|]. right.
  destruct Hu as [?|(L' & R' & fl' & Ho' & HU & _ & HP & _)]; [done|].
  assert (Hn : owns k' L' R' fl').
  { split; [done|by apply Hk|by apply Hk|rewrite (kf_offset _ _ Hk); done|]. intros pg. rewrite <- HP. apply H5. }
  exists p, L', R', fl'. split_and!; [|done|done|done].
  rewrite (kf_offset _ _ Hk), H4. apply (used_shift k' L' R' fl' p Hn). rewrite HU. left.
Qed.
End shared.

(** ** One processor *)

Section lifting.
Context {H A B : Type}.

Lemma wpe_on_kernel (c : cmd kstate A) (Q : A -> kstate * H -> Prop) P s :
  wpe c (fun a k => Q a (k, s.2)) P s.1 -> wpe (on_kernel c) Q P s.
Proof. unfold wpe, on_kernel. by destruct (c s.1). Qed.

Lemma wpe_on_cpu (f : H -> H) (Q : unit -> kstate * H -> Prop) P s :
  Q tt (s.1, f s.2) -> wpe (on_cpu f) Q P s.
Proof. done. Qed.
End lifting.

(** Walk a [wpe] goal of per-processor code. *)
Ltac cpu_step_tac :=
  match goal with
  | |- wpe (bind _ _) _ _ _ => apply wpe_bind
  | |- wpe (ret _) _ _ _ => apply wpe_wp, wp_ret
  | |- wpe (gets _) _ _ _ => apply wpe_wp, wp_gets
  | |- wpe (modify _) _ _ _ => apply wpe_wp, wp_modify
  | |- wpe (on_cpu _) _ _ _ => apply wpe_on_cpu
  | |- wpe (on_kernel _) _ _ _ => apply wpe_on_kernel
  end; cbv beta; cbn [fst snd].
Ltac cpu_steps := repeat cpu_step_tac.

Section one.
Context {H : Type} `{CpuLaws H} (space : Z -> option Z) (pages : list Z).
Context (lay : cpu_local_layout) (cache o al n : Z) (Hsp : at_direct_map space pages).
Context (Hat : cache_at cache (sizeof_cpu_local lay) o al n) (Hlay : layout_ok lay).

Abbreviation size := (sizeof_cpu_local lay).
Abbreviation used := (used_objects size al n).
Abbreviation owns := (owns pages lay cache o al n).

(** A processor has come up with the fresh structure [p]. *)
Record came_up (id : Z) (k : kstate) (h : H) (R : slab_class -> list ptr) (fl : ptr -> list ptr)
    (s' : kstate * H) : Prop := {
  cu_frame : kframe k s'.1;
  cu_id : get_cpu_id s'.2 = get_cpu_id h;
  cu_new : exists p L' R' fl', owns s'.1 L' R' fl' /\ used R' fl' ≡ₚ p :: used R fl /\ gs_base s'.2 = p /\
    (forall off, 0 <= off < size -> k_mem s'.1 (p + off) = if off =? off_cpu_id lay then id else 0);
  cu_old : forall u a, u ∈ used R fl -> u <= a < u + size -> k_mem s'.1 a = k_mem k a;
}.

Lemma kframe_mem k k' m : kframe k k' -> kframe k (set_mem m k').
Proof using Type. intros [? ? ? ? ?]. by split. Qed.

Lemma used_new k L R fl p u k' L' R' fl' :
  owns k L R fl -> owns k' L' R' fl' -> used R' fl' ≡ₚ p :: used R fl -> u ∈ used R fl ->
  u + size <= p \/ p + size <= u.
Proof using Hat.
  intros Ho Ho' HU Hu. pose proof Hat as [Hg Hs Hc].
  assert (Hnd : NoDup (used R' fl')).
  { apply NoDup_filter. eapply (all_objects_nodup _ _ _ _ _ Hg Hs). apply (co_cache _ _ _ _ _ _ _ _ _ (ow_cache _ _ _ _ _ _ _ _ _ _ Ho')). }
  rewrite HU in Hnd. apply NoDup_cons in Hnd as [Hn _].
  eapply used_apart; [done|exact Ho'|rewrite HU; by right|rewrite HU; left|]. by intros ->.
Qed.

Lemma came_up_intro id k h L R fl k1 p L' R' fl' m' h' :
  owns k L R fl -> kframe k k1 -> owns k1 L' R' fl' -> used R' fl' ≡ₚ p :: used R fl ->
  (forall u a, u ∈ used R fl -> u <= a < u + size -> k_mem k1 a = k_mem k a) ->
  (forall off, 0 <= off < size -> m' (p + off) = if off =? off_cpu_id lay then id else 0) ->
  (forall a, ~ p <= a < p + size -> m' a = k_mem k1 a) ->
  gs_base h' = p -> get_cpu_id h' = get_cpu_id h -> came_up id k h R fl (set_mem m' k1, h').
Proof using Hat.
  intros Ho Hk Ho1 HU Hm Hin Hout Hgs Hid. split; cbn [fst snd].
  - by apply kframe_mem.
  - done.
  - exists p, L', R', fl'. split_and!; try done. eapply owns_objects; [done..|]. intros a Ha. apply Hout.
    apply Ha. rewrite HU. left.
  - intros u a Hu Ha. cbn [k_mem set_mem]. rewrite <- (Hm u a) by done. apply Hout.
    pose proof (used_new _ _ _ _ _ _ _ _ _ _ Ho Ho1 HU Hu). lia.
Qed.

(** Every byte of a new structure is cleared through the direct map. *)
Lemma clear_wpe k L R fl p Q (P : string -> Prop) :
  owns k L R fl -> p ∈ used R fl ->
  (forall m', (forall a, p <= a < p + size -> m' a = 0) -> (forall a, ~ p <= a < p + size -> m' a = k_mem k a) ->
     Q tt (set_mem m' k)) ->
  wpe (memset_zero space (Z.to_nat size) (p + DIRECT_MAP_START)) Q P k.
Proof using Hat Hlay Hsp.
  intros Ho Hp HQ. pose proof (lo_size _ Hlay). apply wpe_wp. apply (memset_mapped space _ p).
  - intros i Hi. eapply direct_bytes; [exact Hsp|exact Hat|done|done|lia].
  - rewrite Z2Nat.id by lia. exact HQ.
Qed.

Lemma percpu_init_ap_wpe k h L R fl :
  owns k L R fl ->
  wpe (percpu_init_ap space lay cache) (fun _ s' => came_up (u32 (get_cpu_id h)) k h R fl s')
    (fun msg => msg = "allocator failure: cant allocate cpu_local data"%string) (k, h).
Proof using Hat Hlay Hsp.
  intros Ho. unfold percpu_init_ap. cpu_steps. apply wpe_wp.
  eapply wp_mono; [by eapply kalloc_local_wp|]. cbv beta. intros v k1 [Hk [->|(p & L' & R' & fl' & -> & Ho1 & HU & Hm)]].
  { done. }
  assert (Hp : p ∈ used R' fl') by (rewrite HU; left).
  destruct (used_shift _ _ _ _ _ _ _ Hsp Hat Hlay _ _ _ _ _ Ho1 Hp) as (E1 & E2 & E3).
  destruct (used_place _ _ _ _ _ _ _ Hsp Hat Hlay _ _ _ _ _ Ho1 Hp) as [Hp0 Hp1].
  rewrite (proj2 (Z.eqb_neq _ _)) by done. pose proof (lo_cpu_id _ Hlay) as Hid. cpu_steps.
  eapply clear_wpe; [done..|]. intros m' Hin Hout. unfold store_field. cpu_steps. apply wpe_wp.
  apply (reach_mapped space _ (p + off_cpu_id lay)); [lia| |].
  { intros i Hi. rewrite <- !Z.add_assoc. eapply eq_trans; [|eapply (direct_bytes space pages); [done..|]]; [f_equal; lia|lia]. }
  rewrite E2. unfold store. cpu_steps. cbn [k_mem set_mem fst snd].
  eapply (came_up_intro _ k h L R fl k1 p L' R' fl' _ _ Ho Hk Ho1 HU Hm).
  - intros off Hoff. destruct (Z.eqb_spec off (off_cpu_id lay)) as [->|]; [by rewrite upd_eq, id_enable|].
    rewrite upd_ne by lia. apply Hin. lia.
  - intros a Ha. rewrite upd_ne by lia. apply Hout. lia.
  - cbn [fst snd]. rewrite gs_swap, kernel_write; [done|]. unfold DIRECT_MAP_END, DIRECT_MAP_START in *. lia.
  - cbn [fst snd]. by rewrite id_swap, id_kernel_gs, id_enable.
Qed.

(** The bootstrap processor creates the cache first; its number stays 0. *)
Lemma percpu_init_wpe k h L :
  buddy_inv (k_mem k) (k_buddy k) L -> lock_free k slab_lock -> lock_free k buddy_lock ->
  phys_map_offset k = DIRECT_MAP_START -> (forall pg, pg ∈ free_pages L -> pg ∈ pages) -> supports_fsgsbase h = true ->
  wpe (percpu_init space lay cache) (fun _ s' =>
      kframe k s'.1 /\ get_cpu_id s'.2 = get_cpu_id h /\ gs_base s'.2 <> NULL /\
      exists L' R' fl', owns s'.1 L' R' fl' /\ used R' fl' ≡ₚ [gs_base s'.2] /\
        (forall off, 0 <= off < size -> k_mem s'.1 (gs_base s'.2 + off) = 0))
    (fun msg => msg = "allocator failure: cant allocate BSP cpu_local data"%string) (k, h).
Proof using Hat Hlay Hsp.
  intros Hb H2 H3 H4 Hpg Hsup. pose proof Hat as [Hg Hs Hc]. unfold percpu_init. cpu_steps. rewrite Hsup. cbn [negb].
  cpu_steps. apply wpe_wp, create_sl_wp; [lia|done|]. intros k1 Hk Eb Hr Hout. cpu_steps.
  assert (Ho : owns k1 L (fun _ => []) (fun _ => [])).
  { split; [|by apply Hk|by apply Hk|by rewrite (kf_offset _ _ Hk)|by rewrite app_nil_r].
    apply ready_cache_owns; [done|done| |done|done]. rewrite Eb. eapply buddy_inv_local; [exact Hb|]. intros a Ha. apply Hout.
    destruct (decide (a < cache)); [by left|]. exfalso. eapply (high_page _ _ _ a Hb); [lia|exact Ha]. }
  apply wpe_wp. eapply wp_mono; [by eapply kalloc_local_wp|]. cbv beta.
  intros v k2 [Hk2 [->|(p & L' & R' & fl' & -> & Ho1 & HU & Hm)]]; [done|].
  assert (Hp : p ∈ used R' fl') by (rewrite HU; left).
  destruct (used_shift _ _ _ _ _ _ _ Hsp Hat Hlay _ _ _ _ _ Ho1 Hp) as (E1 & E2 & E3).
  destruct (used_place _ _ _ _ _ _ _ Hsp Hat Hlay _ _ _ _ _ Ho1 Hp) as [Hp0 Hp1].
  rewrite (proj2 (Z.eqb_neq _ _)) by done. cpu_steps. eapply clear_wpe; [done..|]. intros m' Hin Hclr. cpu_steps.
  rewrite E2. cbn [fst snd].
  assert (Egs : gs_base (swap_gs (write_gs_base 0 (write_kernel_gs_base p (enable_fsgsbase h)))) = p).
  { rewrite gs_swap, gs_write_kernel, kernel_write; [done|]. unfold DIRECT_MAP_END, DIRECT_MAP_START in *. lia. }
  rewrite !Egs. split_and!.
  - apply kframe_mem. by transitivity k1.
  - by rewrite id_swap, id_gs, id_kernel_gs, id_enable.
  - unfold NULL. lia.
  - exists L', R', fl'. split_and!; [|done|intros off Hoff; apply Hin; lia].
    eapply owns_objects; [done..|]. intros a Ha. apply Hclr. by apply (Ha p Hp).
Qed.
End one.

(** ** The machine *)

Definition put_cpu {H} (M : machine H) (i : nat) (s' : kstate * H) : machine H :=
  mk_machine s'.1 (fun j => if decide (j = i) then mk_processor (k_rflags s'.1) (cpu_ebx (m_cpus M i)) s'.2
                            else m_cpus M j).

Lemma wpe_run_on {H A} i (c : cmd (kstate * H) A) (Q : A -> machine H -> Prop) P M :
  wpe c (fun a s' => Q a (put_cpu M i s')) P (seat (m_cpus M i) (m_k M), cpu_hw (m_cpus M i)) ->
  wpe (run_on i c) Q P M.
Proof. unfold wpe, run_on. by destruct (c _) as [a [k h]| |]. Qed.

Section refinement.
Context {H : Type} `{CpuLaws H} (space : Z -> option Z) (pages : list Z) (Hsp : at_direct_map space pages).
Context (lay : cpu_local_layout) (cache o al n : Z) (ids : nat -> Z).
Context (Hat : cache_at cache (sizeof_cpu_local lay) o al n) (Hlay : layout_ok lay).
Implicit Types (M : machine H) (m : gmap nat (Z * Z)).

Abbreviation size := (sizeof_cpu_local lay).
Abbreviation used := (used_objects size al n).
Abbreviation owns := (owns pages lay cache o al n).

Definition base M (i : nat) : ptr := gs_base (cpu_hw (m_cpus M i)).

(** The structure behind a processor's GS base is an object in use of its own
    that holds what the map says. *)
Record related M m : Prop := {
  re_owns : exists L R fl, owns (m_k M) L R fl /\ forall i c, m !! i = Some c -> base M i ∈ used R fl;
  re_words : forall i cur id, m !! i = Some (cur, id) ->
    k_mem (m_k M) (base M i + off_current lay) = cur /\ k_mem (m_k M) (base M i + off_cpu_id lay) = id;
  re_apart : forall i j c d, m !! i = Some c -> m !! j = Some d -> base M i = base M j -> i = j;
  re_ids : forall i, get_cpu_id (cpu_hw (m_cpus M i)) = ids i;
}.

Lemma base_put M i s' j : base (put_cpu M i s') j = if decide (j = i) then gs_base s'.2 else base M j.
Proof. unfold base, put_cpu. cbn. by case_decide. Qed.

Lemma ids_put M i s' :
  (forall j, get_cpu_id (cpu_hw (m_cpus M j)) = ids j) -> get_cpu_id s'.2 = ids i ->
  forall j, get_cpu_id (cpu_hw (m_cpus (put_cpu M i s') j)) = ids j.
Proof. intros Hall Hi j. unfold put_cpu. cbn. case_decide; [by subst|done]. Qed.

Lemma related_init M m i s' :
  related M m -> m !! i = None -> (exists L R fl, owns (m_k M) L R fl /\
    (forall i c, m !! i = Some c -> base M i ∈ used R fl) /\
    came_up pages lay cache o al n (u32 (ids i)) (seat (m_cpus M i) (m_k M)) (cpu_hw (m_cpus M i)) R fl s') ->
  related (put_cpu M i s') (<[i := (0, u32 (ids i))]> m).
Proof using Hat Hlay.
  intros [_ Hw Ha Hids] Hi (L & R & fl & Ho & Hu & [Hk Hid (p & L' & R' & fl' & Ho' & HU & Hgs & Hp) Hold]).
  pose proof (lo_current _ Hlay). pose proof (lo_cpu_id _ Hlay). pose proof (lo_apart _ Hlay).
  assert (Hfresh : forall j c, m !! j = Some c -> base M j <> p).
  { intros j c Hj E. pose proof (lo_size _ Hlay). pose proof (Hu j c Hj) as Hj'.
    destruct (used_new pages lay cache o al n Hat _ _ _ _ p (base M j) _ _ _ _ Ho Ho' HU Hj'); lia. }
  split.
  - exists L', R', fl'. split; [done|]. intros j c. rewrite base_put, lookup_insert_Some. intros [[<- _]|[Hne Hj]].
    + rewrite decide_True by done. rewrite HU, Hgs. left.
    + rewrite decide_False by done. rewrite HU. right. by eapply Hu.
  - intros j cur id. rewrite base_put, lookup_insert_Some. intros [[<- E]|[Hne Hj]].
    + injection E as <- <-. rewrite decide_True by done. rewrite Hgs. cbn [m_k put_cpu].
      rewrite !Hp by lia. rewrite Z.eqb_refl, (proj2 (Z.eqb_neq _ _)) by lia. done.
    + rewrite decide_False by done. cbn [m_k put_cpu]. pose proof (Hu j _ Hj) as Hj'.
      rewrite !(Hold (base M j)) by (done || lia). by apply Hw.
  - intros j j' c d. rewrite !base_put, !lookup_insert_Some. rewrite Hgs.
    intros [[<- _]|[Hne Hj]] [[<- _]|[Hne' Hj']]; repeat case_decide; try done.
    + intros E. by destruct (Hfresh _ _ Hj' (eq_sym E)).
    + intros E. by destruct (Hfresh _ _ Hj E).
    + by eapply Ha.
  - apply ids_put; [done|]. rewrite Hid. apply Hids.
Qed.

Lemma related_get M m i cur id :
  at_identity space pages -> related M m -> m !! i = Some (cur, id) ->
  wpe (run_on i (cpu_step space lay cache GetCurrent)) (fun r M' => r = Some cur /\ related M' m) (fun _ => False) M.
Proof using Hat Hlay.
  intros Hid Hr Hi. pose proof Hr as [(L & R & fl & Ho & Hu) Hw Ha Hids]. pose proof (lo_current _ Hlay). apply wpe_run_on.
  unfold cpu_step, cpu_get_current_task, get_cpu_local, load_field. cpu_steps. rewrite gs_read. fold (base M i). apply wpe_wp.
  eapply identity_field; [exact Hat|exact Hid|exact Ho|by eapply Hu|lia..|]. unfold load. cpu_steps. split; [f_equal; exact (proj1 (Hw i cur id Hi))|].
  split; [|intros j cur' id' Hj; rewrite base_put; cbn [snd]|intros j j' c d; rewrite !base_put; cbn [snd]|apply ids_put; [done|apply Hids]].
  - exists L, R, fl. split; [by apply owns_seat|]. intros j c Hj. rewrite base_put. cbn [snd].
    case_decide; subst; by eapply Hu.
  - case_decide; subst; by apply Hw.
  - intros Hj Hj'. repeat case_decide; subst; try done; by eapply Ha.
Qed.

Lemma related_set M m i task cur id :
  at_identity space pages -> related M m -> m !! i = Some (cur, id) ->
  wpe (run_on i (cpu_step space lay cache (SetCurrent task)))
    (fun r M' => r = None /\ related M' (<[i := (task, id)]> m)) (fun _ => False) M.
Proof using Hat Hlay.
  intros Hid Hr Hi. pose proof Hr as [(L & R & fl & Ho & Hu) Hw Ha Hids]. pose proof (lo_current _ Hlay). apply wpe_run_on.
  unfold cpu_step, cpu_set_current, get_cpu_local, store_field. cpu_steps. rewrite gs_read. fold (base M i).
  pose proof (Hu i _ Hi) as Hui. apply wpe_wp.
  eapply identity_field; [exact Hat|exact Hid|exact Ho|exact Hui|lia..|]. unfold store. cpu_steps. split; [done|].
 pose proof (lo_cpu_id _ Hlay). pose proof (lo_apart _ Hlay).
  assert (Hb : forall j, base (put_cpu M i (set_mem ((k_mem (m_k M)).[base M i + off_current lay <- task])
    (seat (m_cpus M i) (m_k M)), cpu_hw (m_cpus M i))) j = base M j)
    by (intros j; rewrite base_put; cbn [snd]; case_decide; by subst).
  split; [|intros j cur' id'; rewrite Hb|intros j j' c d; rewrite !Hb|apply ids_put; [done|apply Hids]].
  - exists L, R, fl. split; [apply owns_store; [done|by apply owns_seat|done|lia]|].
    intros j c. rewrite Hb, lookup_insert_Some. intros [[<- _]|[_ Hj]]; [done|by eapply Hu].
  - rewrite lookup_insert_Some. cbn [m_k put_cpu fst k_mem set_mem seat]. intros [[<- E]|[Hne Hj]].
    + injection E as <- <-. rewrite upd_eq, upd_ne by lia. by rewrite (proj2 (Hw i cur id Hi)).
    + pose proof (used_apart _ _ _ _ _ _ Hat _ _ _ _ _ _ Ho (Hu j _ Hj) Hui) as Hap.
      rewrite !upd_ne; [by apply Hw| |]; intros E; apply Hne; symmetry; eapply (Ha j i); try done;
        destruct (decide (base M j = base M i)); [done|specialize (Hap n0); lia|done|specialize (Hap n0); lia].
  - rewrite !lookup_insert_Some. intros [[<- _]|[_ Hj]] [[<- _]|[_ Hj']]; [done|by eapply Ha..].
Qed.

Definition no_memory : string := "allocator failure: cant allocate cpu_local data".

(** A start-up never touches the physical address. *)
Lemma related_up M m i r m' :
  related M m -> spec_step ids i InitAp m = Some (r, m') ->
  wpe (run_on i (cpu_step space lay cache InitAp)) (fun r' M' => r' = r /\ related M' m') (fun msg => msg = no_memory) M.
Proof using Hat Hlay Hsp.
  intros Hr. unfold spec_step. destruct (m !! i) as [[cur id]|] eqn:Hi; [done|].
  intros [= <- <-]. pose proof Hr as [(L & R & fl & Ho & Hu) _ _ Hids]. apply wpe_run_on.
  unfold cpu_step. apply wpe_bind.
  eapply wpe_mono; [eapply (percpu_init_ap_wpe space pages); [done|done|done|by apply owns_seat]| |done].
  cbv beta. intros _ s' Hc. cpu_steps. split; [done|]. apply related_init; [done|done|].
  exists L, R, fl. split; [done|]. split; [done|]. by rewrite <- Hids.
Qed.

Lemma cpu_step_refines M m i op r m' :
  at_identity space pages \/ op = InitAp -> related M m -> spec_step ids i op m = Some (r, m') ->
  wpe (run_on i (cpu_step space lay cache op)) (fun r' M' => r' = r /\ related M' m') (fun msg => msg = no_memory) M.
Proof using Hat Hlay Hsp.
  intros Hop Hr. destruct op as [|task|]; [by apply related_up|..]; destruct Hop as [Hid|]; try done;
    unfold spec_step; destruct (m !! i) as [[cur id]|] eqn:Hi; try done; intros [= <- <-].
  - eapply wpe_mono; [by eapply related_set|done|done].
  - eapply wpe_mono; [by eapply related_get|done|done].
Qed.

Lemma machine_run_refines ops M m rs m' :
  at_identity space pages \/ Forall (fun io => io.2 = InitAp) ops -> related M m -> spec_run ids ops m = Some (rs, m') ->
  wpe (machine_run space lay cache ops) (fun rs' M' => rs' = rs /\ related M' m') (fun msg => msg = no_memory) M.
Proof using Hat Hlay Hsp.
  revert M m rs m'. induction ops as [|[i op] ops IH]; intros M m rs m' Hop Hr; cbn [spec_run machine_run].
  { intros [= <- <-]. by cpu_steps. }
  destruct (spec_step ids i op m) as [[r m1]|] eqn:E1; [|done].
  destruct (spec_run ids ops m1) as [[rs1 m2]|] eqn:E2; [|done]. intros [= <- <-].
  rewrite Forall_cons in Hop. cbn [snd] in Hop.
  apply wpe_bind. eapply wpe_mono; [eapply cpu_step_refines; [|done|done]; tauto| |done]. cbv beta. intros r' M1 [-> Hr1].
  apply wpe_bind. eapply wpe_mono; [eapply IH; [|done|done]; tauto| |done]. cbv beta. intros rs' M2 [-> Hr2]. by cpu_steps.
Qed.

(** Without the identity map the first use of a structure faults. *)
Lemma cpu_step_faults M m i op r m' :
  not_at_identity space pages -> op <> InitAp -> related M m -> spec_step ids i op m = Some (r, m') ->
  run_on i (cpu_step space lay cache op) M = Panic page_fault.
Proof using Hat Hlay.
  intros Hno Hop [(L & R & fl & Ho & Hu) _ _ _] Hs. pose proof (lo_current _ Hlay) as Hc.
  assert (Hi : exists c, m !! i = Some c) by (unfold spec_step in Hs; destruct op, (m !! i); try done; by eexists).
  destruct Hi as [c Hi].
  assert (E : space (base M i + off_current lay) = None).
  { apply Hno. eapply used_byte; [exact Hat|exact Ho|by eapply Hu|lia]. }
  unfold run_on, cpu_step, cpu_set_current, cpu_get_current_task, get_cpu_local, store_field, load_field.
  destruct op; [done|..]; unfold bind, gets, on_kernel, reach; cbn [fst snd]; rewrite gs_read; fold (base M i); by rewrite E.
Qed.

Lemma machine_run_faults ops M m rs m' :
  not_at_identity space pages -> Exists (fun io => io.2 <> InitAp) ops -> related M m ->
  spec_run ids ops m = Some (rs, m') ->
  wpe (machine_run space lay cache ops) (fun _ _ => False) (fun msg => msg = page_fault \/ msg = no_memory) M.
Proof using Hat Hlay Hsp.
  intros Hno. revert M m rs m'. induction ops as [|[i op] ops IH]; intros M m rs m' Hex Hr; [by inversion Hex|].
  cbn [spec_run machine_run]. destruct (spec_step ids i op m) as [[r m1]|] eqn:E1; [|done].
  destruct (spec_run ids ops m1) as [[rs1 m2]|] eqn:E2; [|done]. intros _. apply wpe_bind.
  destruct (decide (op = InitAp)) as [->|Hop].
  - eapply wpe_mono; [by eapply related_up| |by right]. cbv beta. intros r' M1 [-> Hr1]. apply wpe_bind.
    eapply wpe_mono; [eapply IH; [|done|done]|done|done]. apply Exists_cons in Hex as [?|?]; [done|done].
  - unfold wpe. rewrite (cpu_step_faults _ _ _ _ _ _ Hno Hop Hr E1). by left.
Qed.
End refinement.

(** ** From the bootstrap processor on *)

Section boot.
Context {H : Type} `{CpuLaws H} (space : Z -> option Z) (pages : list Z) (Hsp : at_direct_map space pages).
Context (lay : cpu_local_layout) (cache o al n : Z) (ids : nat -> Z).
Context (Hat : cache_at cache (sizeof_cpu_local lay) o al n) (Hlay : layout_ok lay).

Definition no_bsp_memory : string := "allocator failure: cant allocate BSP cpu_local data".

Lemma boot_related (M : machine H) L :
  buddy_inv (k_mem (m_k M)) (k_buddy (m_k M)) L -> lock_free (m_k M) slab_lock -> lock_free (m_k M) buddy_lock ->
  phys_map_offset (m_k M) = DIRECT_MAP_START -> (forall pg, pg ∈ free_pages L -> pg ∈ pages) ->
  supports_fsgsbase (cpu_hw (m_cpus M 0)) = true -> (forall i, get_cpu_id (cpu_hw (m_cpus M i)) = ids i) ->
  wpe (run_on 0 (percpu_init space lay cache)) (fun _ M' => related pages lay cache o al n ids M' {[0%nat := (0, 0)]})
    (fun msg => msg = no_bsp_memory) M.
Proof using Hat Hlay Hsp.
  intros Hb H2 H3 H4 Hpg Hsup Hids. apply wpe_run_on.
  eapply wpe_mono; [by eapply (percpu_init_wpe space pages lay cache o al n)| |done].
  cbv beta. intros _ s' (Hk & Hid & Hgs & L' & R' & fl' & Ho & HU & Hz). split.
  - exists L', R', fl'. split; [done|]. intros i c [<- _]%lookup_singleton_Some. rewrite base_put, decide_True by done.
    rewrite HU. left.
  - intros i cur id [<- E]%lookup_singleton_Some. injection E as <- <-. rewrite base_put, decide_True by done.
    pose proof (lo_current _ Hlay). pose proof (lo_cpu_id _ Hlay). split; apply Hz; lia.
  - intros i j c d [<- _]%lookup_singleton_Some [<- _]%lookup_singleton_Some. done.
  - apply ids_put; [done|]. by rewrite Hid.
Qed.
End boot.

(** ** The registers of Kasm as the hardware *)

Definition demo_cpuid (leaf subleaf : Z) : cpuid_result_t := mk_cpuid 0 (if leaf =? 7 then 1 else 0) 0 0.

#[export] Instance kasm_cpu : CpuOps (xstate * Z) := {
  write_gs_base v h := (wrmsr MSR_GS_BASE v h.1, h.2);
  write_kernel_gs_base v h := (wrmsr MSR_KERNEL_GS_BASE v h.1, h.2);
  swap_gs h := (swapgs h.1, h.2);
  get_cpu_id h := h.2;
  get_cpu_local_gs h := read_gsbase h.1;
  supports_fsgsbase h := Z.testbit (c_ebx (cpuid_ex demo_cpuid 7 0)) 0;
  enable_fsgsbase h := (write_cr 4 (Z.lor (read_cr 4 h.1) CR4_FSGSBASE) h.1, h.2);
}.

#[export, refine] Instance kasm_cpu_laws : CpuLaws (xstate * Z) := {
  gs_base h := mov_from (Msr MSR_GS_BASE) h.1;
  kernel_gs_base h := mov_from (Msr MSR_KERNEL_GS_BASE) h.1;
}.
Proof.
  - intros v h Hv. change (mov_from (Msr MSR_GS_BASE) (wrmsr MSR_GS_BASE v h.1) = v).
    unfold wrmsr. by rewrite mov_to_same, halves_join.
  - done.
  - intros v h Hv. change (mov_from (Msr MSR_KERNEL_GS_BASE) (wrmsr MSR_KERNEL_GS_BASE v h.1) = v).
    unfold wrmsr. by rewrite mov_to_same, halves_join.
  - intros h. change (mov_from (Msr MSR_GS_BASE) (swapgs h.1) = mov_from (Msr MSR_KERNEL_GS_BASE) h.1).
    unfold swapgs. by rewrite mov_to_same.
  - done.
  - done.
  - done.
  - done.
  - done.
Defined.

(** C11. Processors share the kernel's memory and come up one after the other, the
    bootstrap processor with [percpu_init], the others with [percpu_init_ap].  The
    start-ups write through the direct map, but the GS base they load is a bare
    physical address.

    While the pages of the allocator are mapped at their physical addresses too (the
    boot loader's memory, before [unmap_boot_memory]), whatever sequence of
    start-ups, [cpu_set_current] and [cpu_get_current_task] the processors run in
    whatever order, the answers are those of a finite map from processors to tasks:
    each structure is zeroed when its processor comes up (no task, its own number
    stored), no two overlap, and what a processor names as its task is what it gets
    back, or the run stops in one of the two PANICs for lack of memory.

    Where they are not mapped there, start-ups alone still do the same, but no run
    that also sets or asks for a task returns: the first such call ends in a page
    fault, unless memory ran out before.

    It needs a page allocator in order, its pages in the direct map, and the
    FSGSBASE instructions. *)
Theorem percpu_refines_task_map {H : Type} `{CpuLaws H} space lay cache o al n ids (M : machine H) L ops rs m :
  cache_at cache (sizeof_cpu_local lay) o al n -> layout_ok lay ->
  buddy_inv (k_mem (m_k M)) (k_buddy (m_k M)) L -> lock_free (m_k M) slab_lock -> lock_free (m_k M) buddy_lock ->
  phys_map_offset (m_k M) = DIRECT_MAP_START -> at_direct_map space (free_pages L) ->
  supports_fsgsbase (cpu_hw (m_cpus M 0)) = true -> (forall i, get_cpu_id (cpu_hw (m_cpus M i)) = ids i) ->
  spec_run ids ops {[0%nat := (0, 0)]} = Some (rs, m) ->
  let run := run_on 0 (percpu_init space lay cache);; machine_run space lay cache ops in
  let starved msg := msg = no_bsp_memory \/ msg = no_memory in
  (at_identity space (free_pages L) \/ Forall (fun io => io.2 = InitAp) ops ->
   wpe run (fun rs' M' => rs' = rs /\ related (free_pages L) lay cache o al n ids M' m) starved M) /\
  (not_at_identity space (free_pages L) -> Exists (fun io => io.2 <> InitAp) ops ->
   wpe run (fun _ _ => False) (fun msg => msg = page_fault \/ starved msg) M).
Proof.
  intros Hat Hlay Hb H2 H3 H4 Hsp Hsup Hids Hrun run starved. subst run starved. cbv beta.
  pose proof (boot_related space (free_pages L) Hsp lay cache o al n ids Hat Hlay M L Hb H2 H3 H4 ltac:(done) Hsup Hids) as Hboot.
  split; [intros Hop|intros Hno Hex]; apply wpe_bind; (eapply wpe_mono; [exact Hboot| |by auto]); cbv beta; intros _ M' Hr.
  - eapply wpe_mono; [by eapply machine_run_refines|done|by right].
  - eapply wpe_mono; [by eapply machine_run_faults|done|]. intros msg [->| ->]; by auto.
Qed.

Definition demo_layout : cpu_local_layout := mk_layout 64 8 0.
Definition demo_machine : machine (xstate * Z) :=
  mk_machine mapped_demo (fun i => mk_processor 0x202 0 (mk_xstate (fun _ => 0) [] [], Z.of_nat i)).
Definition demo_cpu_ops : list (nat * cpu_op) :=
  [(0%nat, SetCurrent 0x1000); (1%nat, InitAp); (1%nat, GetCurrent); (1%nat, SetCurrent 0x2000);
   (0%nat, GetCurrent); (1%nat, GetCurrent)].

Lemma demo_layout_ok : layout_ok demo_layout.
Proof. split; vm_compute; intuition congruence. Qed.

(** The direct map over the allocator's pages, with the boot loader's first 16 MB
    and without them. *)
Definition direct_space (v : Z) : option Z :=
  if (DIRECT_MAP_START <=? v) && (v <? DIRECT_MAP_START + 2 ^ 32) then Some (v - DIRECT_MAP_START) else None.
Definition boot_space (v : Z) : option Z :=
  if (0 <=? v) && (v <? 0x1000000) then Some v else direct_space v.

Lemma demo_page_low a : page_of a ∈ free_pages demo_lists -> 0 <= a < 0x1000000.
Proof.
  intros Hpg. assert (Hall : Forall (fun pg => (0 <=? pg) && (pg + PAGE_SIZE <=? 0x1000000) = true) (free_pages demo_lists))
    by (apply (bool_decide_unpack _); vm_compute; exact I).
  rewrite Forall_forall in Hall. specialize (Hall _ Hpg). cbv beta in Hall.
  apply andb_true_iff in Hall as [H1%Z.leb_le H2%Z.leb_le]. unfold page_of, PAGE_SIZE in *. dlia.
Qed.

Lemma demo_direct space :
  (forall v, DIRECT_MAP_START <= v -> space v = direct_space v) -> at_direct_map space (free_pages demo_lists).
Proof.
  intros E a Ha%demo_page_low. split; [unfold DIRECT_MAP_START, DIRECT_MAP_END; lia|]. rewrite E by lia. unfold direct_space.
  rewrite (proj2 (Z.leb_le _ _)), (proj2 (Z.ltb_lt _ _)) by lia. simpl. f_equal. lia.
Qed.

Lemma boot_space_high v : DIRECT_MAP_START <= v -> boot_space v = direct_space v.
Proof. intros Hv. unfold boot_space, DIRECT_MAP_START in *. destruct (Z.ltb_spec v 0x1000000); [lia|]. by rewrite andb_false_r. Qed.

(** The same run with the boot loader's memory mapped, where it answers as the map
    does, and without it, where it ends in a page fault. *)
Lemma percpu_refines_task_map_witness :
  let run space := run_on 0 (percpu_init space demo_layout demo_cache);; machine_run space demo_layout demo_cache demo_cpu_ops in
  wpe (run boot_space) (fun rs' _ => rs' = [None; None; Some 0; None; Some 0x1000; Some 0x2000])
    (fun msg => msg = no_bsp_memory \/ msg = no_memory) demo_machine /\
  wpe (run direct_space) (fun _ _ => False) (fun msg => msg = page_fault \/ msg = no_bsp_memory \/ msg = no_memory) demo_machine.
Proof.
  assert (Hrun : spec_run Z.of_nat demo_cpu_ops {[0%nat := (0, 0)]} =
    Some ([None; None; Some 0; None; Some 0x1000; Some 0x2000], {[0%nat := (0x1000, 0); 1%nat := (0x2000, 1)]}))
    by (vm_compute; reflexivity).
  split.
  - destruct (percpu_refines_task_map boot_space demo_layout demo_cache 0 16 63 Z.of_nat demo_machine demo_lists demo_cpu_ops
      [None; None; Some 0; None; Some 0x1000; Some 0x2000] {[0%nat := (0x1000, 0); 1%nat := (0x2000, 1)]}
      demo_cache_at demo_layout_ok demo_inv eq_refl eq_refl eq_refl (demo_direct _ boot_space_high)) as [Ha _]; [done|done|exact Hrun|].
    eapply wpe_mono; [apply Ha; left|intros rs M [E _]; exact E|done].
    intros a Hpa%demo_page_low. unfold boot_space. rewrite (proj2 (Z.leb_le _ _)), (proj2 (Z.ltb_lt _ _)) by lia. done.
  - destruct (percpu_refines_task_map direct_space demo_layout demo_cache 0 16 63 Z.of_nat demo_machine demo_lists demo_cpu_ops
      [None; None; Some 0; None; Some 0x1000; Some 0x2000] {[0%nat := (0x1000, 0); 1%nat := (0x2000, 1)]}
      demo_cache_at demo_layout_ok demo_inv eq_refl eq_refl eq_refl (demo_direct _ (fun _ _ => eq_refl))) as [_ Hb]; [done|done|exact Hrun|].
    apply Hb; [|by left].
    intros a Hpa%demo_page_low. unfold direct_space, DIRECT_MAP_START. rewrite (proj2 (Z.leb_gt _ _)) by lia. done.
Defined.

(** Both runs have the memory they need. *)
Example percpu_demo_runs :
  let run space := run_on 0 (percpu_init space demo_layout demo_cache);; machine_run space demo_layout demo_cache demo_cpu_ops in
  match run boot_space demo_machine with
  | Ret rs _ => rs = [None; None; Some 0; None; Some 0x1000; Some 0x2000]
  | _ => False
  end /\ run direct_space demo_machine = Panic page_fault.
Proof. split; vm_compute; reflexivity. Qed.
