(* ===== verification/Boot.v ===== *)
(** * The boot sequence: start_kernel.c, kmain.c and enter_virtual

    The two entry routines over the state of all the parts they start: the kernel's
    memory and page tables, the screen, the interrupt table, the bytes of the
    image, and the stack pointer.  Where the linker puts things and what the boot
    loader hands over are parameters. *)

From stdpp Require Import functions.
From S2P Require Import Prelude State Kmath Buddy FreeList BuddyInv BuddyDemo BuddyOps BuddyInit BuddyFresh BuddyTheorems.
From S2P Require Import Slab SlabTheorems SlabRings PhysKmalloc SlabObjects SlabAlloc Mmu MmuInv MmuOps.
From S2P Require Import MmuTheorems RbTree RbRep RbInsert RbBalance RbTheorems Vm Paging LockFrame PagingInv.
From S2P Require Import PagingTheorems Kunmap AddressSpace UnmapHuge InitMmu Screen Interrupts InterruptTheorems Kstrings.
From Stdlib Require Import Ascii String.
Open Scope Z_scope.

(** What the linker, the assembler and the boot loader fix.  [e_turns] bounds the
    searches in the tree of areas. *)
Record boot_env : Type := mk_boot_env {
  e_vma_cache : ptr;
  e_kernel_start : Z;
  e_kernel_end : Z;
  e_text_end : Z;
  e_rodata_start : Z;
  e_rodata_end : Z;
  e_data_start : Z;
  e_entries : list mmap_entry_0xe820;
  e_handoff : boot_vbe_handoff;
  e_font : Z -> Z;
  e_isr_entry : Z -> Z;
  e_idt : ptr;
  e_pmap_buf : ptr;
  e_mmap_table : ptr;
  e_turns : nat;
}.

Definition image_of (e : boot_env) : kernel_image :=
  mk_kernel_image (e_vma_cache e) (e_kernel_start e) (e_kernel_end e) (e_text_end e) (e_rodata_start e)
    (e_rodata_end e) (e_data_start e) (e_entries e) (vbe_framebuffer_address (e_handoff e)) (vbe_pitch (e_handoff e))
    (vbe_height_px (e_handoff e)).

Record bstate : Type := mk_bstate {
  b_p : pstate;
  b_screen : screen;
  b_int : istate;
  b_bytes : mem;
  b_rsp : Z;
}.

(** Kernel routines; the address they give the screen is the screen's. *)
Definition run_kernel {A} (c : cmd pstate A) : cmd bstate A := fun b =>
  match c (b_p b) with
  | Ret a p =>
      Ret a (mk_bstate p (mk_screen (s_vbe_info (b_screen b)) (p_fb_virtual p) (s_mem (b_screen b)))
               (b_int b) (b_bytes b) (b_rsp b))
  | Panic msg => Panic msg
  | Diverge => Diverge
  end.
Definition on_screen (f : screen -> screen) : cmd bstate unit :=
  modify (fun b => mk_bstate (b_p b) (f (b_screen b)) (b_int b) (b_bytes b) (b_rsp b)).
Definition on_interrupts (f : istate -> istate) : cmd bstate unit :=
  modify (fun b => mk_bstate (b_p b) (b_screen b) (f (b_int b)) (b_bytes b) (b_rsp b)).
Definition on_bytes (f : mem -> mem) : cmd bstate unit :=
  modify (fun b => mk_bstate (b_p b) (b_screen b) (b_int b) (f (b_bytes b)) (b_rsp b)).

Section boot.
Context (e : boot_env).

Definition vhello : cmd bstate unit :=
  on_screen vbe_black_screen;;
  on_screen (vesa_nt_println (e_font e) (bytes_of "entered virtual kernel entry") 0 0).

Definition kmain : cmd bstate unit :=
  vhello;;
  on_interrupts (_reload_idt_virtual (e_isr_entry e) (e_idt e));;
  on_bytes (__init_pmap (e_pmap_buf e) (e_mmap_table e) (Z.of_nat (List.length (e_entries e))));;
  run_kernel (unmap_boot_memory (image_of e) (e_turns e));;
  panic "HELLO VIRTUAL".

(** [mov rsp, rdi; xor rbp, rbp; jmp rsi] *)
Definition enter_virtual (rsp : Z) (entry : cmd bstate unit) : cmd bstate unit :=
  modify (fun b => mk_bstate (b_p b) (b_screen b) (b_int b) (b_bytes b) rsp);;
  entry.

Definition khello : cmd bstate unit :=
  on_screen vbe_black_screen;;
  on_screen (vesa_nt_println (e_font e) (bytes_of "Welcome to E.K's mikrokernellib") 0 0).

Definition start_kernel : cmd bstate unit :=
  on_screen (__init_vbe_handoff (e_handoff e));;
  khello;;
  on_interrupts (__init_idt (e_isr_entry e) (e_idt e));;
  run_kernel (lift (__init_phys_kmalloc (e_kernel_end e) (e_entries e)));;
  let! rsp := run_kernel (__init_mmu (image_of e) (e_turns e)) in
  enter_virtual rsp kmain;;
  panic "HALTING SYSTEM, KERNEL BOOTING RETURNED UNEXPECTEDLY!".
End boot.

(** ** The physical allocator at boot *)

(** [__init_phys_kmalloc] hands [__init_mmu] a page allocator in order, with the
    whole pages of the region free and, where the run ends at a 32 KB boundary, a
    bitmap that is right about single pages. *)
Lemma init_phys_wp kernel_end entries s b sz :
  chosen_region kernel_end entries = (b, sz) -> 0 < b -> b + sz <= 2 ^ 48 -> 2 ^ 22 <= sz <= 2 ^ 43 ->
  2 ^ 48 <= k_slab_caches s ->
  wp (__init_phys_kmalloc kernel_end entries) (fun _ s' => exists L,
    buddy_inv (k_mem s') (k_buddy s') L /\ lock_free s' slab_lock /\ lock_free s' buddy_lock /\
    sz < (Z.of_nat (List.length (free_pages L)) + 1026) * PAGE_SIZE /\
    ((8 * PAGE_SIZE | b + sz) -> fresh (k_buddy s') L)) s.
Proof.
  intros Hc H1 H2 H3 Hcaches. unfold __init_phys_kmalloc. wp_step.
  eapply wp_mono; [exact (init_wp kernel_end entries s b sz Hc H1 H2 H3)|]. cbv beta zeta.
  intros _ s1 (L & Hi & Hl & Hb & He & HP & _ & Eo & Ebit & Ek & HL0 & Hpg). wp_step.
  eapply wp_mono; [apply init_slab_wp; rewrite Ek; lia|]. cbv beta.
  intros r s2 (-> & Hl1 & Eb & Hl2 & Hout & _). cbn [Z.eqb negb STATUS_OK]. wp_steps. exists L. split_and!.
  - rewrite Eb. eapply buddy_inv_local; [exact Hi|]. intros a Ha. apply Hout.
    destruct (decide (a < k_slab_caches s1)); [by left|]. exfalso. eapply (high_page _ _ _ a Hi); [lia|exact Ha].
  - done.
  - by apply Hl2.
  - rewrite HP. unfold page_range. rewrite length_fmap, length_seqZ. unfold PAGE_SIZE in *. 
    set (size := bm_size (k_buddy s1)) in *. set (base := bm_base_address (k_buddy s1)) in *. clearbody size base.
    pose proof (Z.div_mod size 0x1000 ltac:(lia)). pose proof (Z.mod_pos_bound size 0x1000 ltac:(lia)).
    change (2 ^ 22) with 0x400000 in *. lia.
  - intros H8. rewrite Eb. pose proof (bi_align _ _ _ Hi) as Hal.
    assert (Hal8 : (8 * PAGE_SIZE | bm_base_address (k_buddy s1))).
    { etrans; [|exact Hal]. change 8 with (2 ^ 3). by apply pow2_divide. }
    assert (Hend : bm_base_address (k_buddy s1) + bm_size (k_buddy s1) = b + sz).
    { clear -He H8 Hal8 Hpg. destruct H8 as [x Hx], Hal8 as [y Hy], Hpg as [z Hz]. unfold PAGE_SIZE in *. lia. }
    assert (Hs8 : (8 * PAGE_SIZE | bm_size (k_buddy s1))).
    { replace (bm_size (k_buddy s1)) with (b + sz - bm_base_address (k_buddy s1)) by lia. by apply Z.divide_sub_r. }
    eapply init_fresh; [apply Hi|exact Hal|apply Hi| |exact Hs8|exact HP|exact Eo|exact Ebit|by apply HL0].
    unfold PAGE_SIZE in *. lia.
Qed.

(** ** The low memory goes *)

(** What a client of the page allocator keeps matters to the allocator only. *)
Lemma space_any (client : AllocClient) img o al n s L l :
  space (client := client) img o al n s L l -> space (client := any_client) img o al n s L l.
Proof.
  intros [(R & fl & t & [H1 [C1 C2 C3 _ _] H3 H4 H5 _] & Ha) Hl Ht]. split; [|done|done]. exists R, fl, t.
  split; [|done]. by split.
Qed.

Lemma first_space_any (client : AllocClient) img o al n s p :
  first_space (client := client) img o al n s p -> first_space (client := any_client) img o al n s p.
Proof. intros [H1 H2 H3 (L & H4) H5 H6]. split; try done. exists L. by apply (space_any client). Qed.

Lemma kunmap_pages_cr3 img turns pa va flags num s :
  match kunmap_pages img turns pa va flags num s with Ret _ s' => p_cr3 s' = p_cr3 s | _ => True end.
Proof.
  unfold kunmap_pages, find_vma, rb_remove_vma, lift, of_loop, bind, gets, modify, ret, diverge.
  repeat (case_match; simplify_eq/=; try done).
Qed.

(** The plan without the low memory. *)
Definition rest_plan (img : kernel_image) (p : ptr) : list request :=
  (mmap_bios_entries img ≫= direct_plan) ++ framebuffer_request img :: stack_request p :: image_plan img.

Lemma mmu_plan_rest img p : mmu_plan img p ≡ₚ boot_request :: rest_plan img p.
Proof.
  unfold mmu_plan, late_plan, rest_plan. rewrite <- app_assoc. cbn [app]. by rewrite <- Permutation_middle.
Qed.

Section low.
Context (img : kernel_image) (turns : nat) (o al n : Z).
Context (Hat : cache_at (vma_cache img) sizeof_vma o al n).

(** The first 16 MB are not mapped any more, the rest of the address space is as it
    was, and so is the record of its areas.  The page allocator has gained the
    frames of the tables that are gone; the directory of the low memory is one of
    them, if no other range begins in the first gigabyte. *)
Record low_unmapped (p : ptr) (s s' : pstate) : Prop := {
  lu_cr3 : p_cr3 s' = p_cr3 s;
  lu_space : exists L L' D, space img o al n s L (mmu_plan img p) /\ space img o al n s' L' (rest_plan img p) /\
    free_pages L' ≡ₚ D ++ free_pages L /\ given_back (p_cr3 s) (k_mem (p_k s)) (k_mem (p_k s')) D /\
    (Forall (fun r => 2 ^ 30 <= rq_va r) (rest_plan img p) ->
     exists t, tbl (k_mem (p_k s)) (p_cr3 s) [0; 0] = Some t /\ tbl (k_mem (p_k s')) (p_cr3 s) [0; 0] = None /\ t ∈ D);
  lu_low : forall v, 0 <= v < 8 * HUGE_PAGE_SIZE -> translate (k_mem (p_k s')) (p_cr3 s') v = None;
  lu_rest : forall v, canonical v -> ~ 0 <= v < 8 * HUGE_PAGE_SIZE ->
    translate (k_mem (p_k s')) (p_cr3 s') v = translate (k_mem (p_k s)) (p_cr3 s) v;
}.

Lemma unmap_boot_memory_wp md0 s p :
  first_space (client := fresh_client md0) img o al n s p -> plan_ok (mmu_plan img p) ->
  (2 * Nat.log2 (List.length (mmu_plan img p) + 1) <= turns)%nat ->
  wp (unmap_boot_memory img turns) (fun _ s' => low_unmapped p s s') s.
Proof using Hat.
  intros [Hcr _ _ (L & Hsp) _ _] Hok Hfuel. pose proof (mmu_plan_rest img p) as HP.
  destruct (wp_elim _ _ _ (kunmap_request_wp img turns o al n Hat md0 s L boot_request (rest_plan img p) _ Hsp HP Hok
    eq_refl ltac:(done) Hfuel)) as ([] & s' & E & fl & L' & _ & _ & Er & Hsp' & Hne & D & HD & HG).
  pose proof (kunmap_pages_cr3 img turns 0 0 boot_flags 8 s) as Ec. eapply wp_intro; [exact E|].
  change (kunmap_pages img turns 0 0 boot_flags 8 s = Ret tt s') in E. rewrite E in Ec.
  pose proof (space_any _ _ _ _ _ _ _ _ Hsp) as Hsp0.
  apply (plan_ok_perm _ _ HP) in Hok. apply (space_perm _ _ _ _ _ _ _ _ HP) in Hsp.
  pose proof (sp_tables _ _ _ _ _ _ _ Hsp) as Ht. pose proof (sp_tables _ _ _ _ _ _ _ Hsp') as Ht'. rewrite Er in Ht'.
  destruct (without_translates _ (k_mem (p_k s')) _ boot_request (rest_plan img p) Hok Ht Ht') as [T1 T2].
  split; [done| |by rewrite Ec, Hcr|by rewrite Ec, Hcr].
  exists L, L', D. rewrite Hcr. split_and!; try done. intros Hhigh. pose proof Hok as [[Hr _]%Forall_cons _].
  destruct (request_directory _ _ _ _ Hr eq_refl Ht) as [t T]. exists t.
  assert (Hgone : tbl (k_mem (p_k s')) (kernel_pml4t s) (pd_path 0) = None).
  { apply (directory_gone _ _ 0 (rest_plan img p)); [by left|done|done|]. rewrite Forall_forall in Hhigh.
    intros r Hrr. specialize (Hhigh r Hrr). right. change (0 / 2 ^ 30) with 0.
    enough (1 <= rq_va r / 2 ^ 30) by lia. apply Z.div_le_lower_bound; lia. }
  split_and!; [exact T|exact Hgone|]. apply (gb_gone _ _ _ _ HG). exists (pd_path 0). split; [apply pd_path_ok|done].
Qed.
End low.

(** ** The whole sequence *)

Section sequence.
Context (e : boot_env).

Lemma kmain_halts b :
  (exists msg, kmain e b = Panic msg) \/ kmain e b = Diverge.
Proof.
  unfold kmain, vhello, on_screen, on_interrupts, on_bytes, bind, modify, panic, run_kernel.
  destruct (unmap_boot_memory _ _ _); eauto.
Qed.

(** Where the image and the memory have to lie for the allocators to reach what they
    use.  Before the switch that is the map of the boot loader, the first 4 GB and
    the image, loaded into conventional memory; after it, the sections, four pages
    behind them for the metadata of the page allocator, and the whole pages of each
    entry of the memory map. *)
Record boot_reachable (slab_caches rb sz : Z) : Prop := {
  br_run : 2 ^ 20 <= rb /\ rb + sz <= 2 ^ 32;
  br_pages : forall pg, (PAGE_SIZE | pg) -> rb <= pg -> pg + PAGE_SIZE <= rb + sz ->
    exists me, me ∈ e_entries e /\ me_type me = 1 /\ 0 <= me_base_address me <= pg /\
      pg + PAGE_SIZE <= me_base_address me + me_chunk_size me <= DIRECT_MAP_END - DIRECT_MAP_START;
  br_statics : KERNEL_IMAGE_START <= e_data_start e /\ e_data_start e <= slab_caches /\
    slab_caches + NUM_CACHES * sizeof_kmem_cache <= e_kernel_end e /\
    e_data_start e <= e_vma_cache e /\ e_vma_cache e + sizeof_kmem_cache <= e_kernel_end e;
  br_metadata : metadata_end (e_kernel_end e) sz <=
    e_data_start e + (e_kernel_end e - e_data_start e) / PAGE_SIZE * PAGE_SIZE + 4 * PAGE_SIZE;
  br_loaded : metadata_end (e_kernel_end e) sz <= KERNEL_IMAGE_START + 0xA0000;
}.

(** What [kmain] starts from: the address space, in which the data of the image, the
    metadata behind it and the pages of the run can be reached, the stack, the
    interrupt table and the screen. *)
Record kernel_ready (o al n rb sz : Z) (b : bstate) : Prop := {
  kr_space : exists p, first_space (image_of e) o al n (b_p b) p;
  kr_data : forall a, e_data_start e <= a < metadata_end (e_kernel_end e) sz -> exists flags,
    has_flag flags PTE_WRITABLE = true /\
    translate (k_mem (p_k (b_p b))) (p_cr3 (b_p b)) a = Some (a - KERNEL_IMAGE_START, flags);
  kr_pages : forall pa, rb <= page_of pa -> page_of pa + PAGE_SIZE <= rb + sz -> exists flags,
    direct_flags flags /\
    translate (k_mem (p_k (b_p b))) (p_cr3 (b_p b)) (DIRECT_MAP_START + pa) = Some (pa, flags);
  kr_rsp : b_rsp b = KERNEL_STACKS_START + 4 * PAGE_SIZE - 8;
  kr_idtr : i_loaded (b_int b) = mk_idtr 4095 (e_idt e);
  kr_gates : forall v, 0 <= v < 32 -> gate_for (e_isr_entry e v) (gate_flags v) (i_idt (b_int b) v);
  kr_vbe : s_vbe_info (b_screen b) = e_handoff e;
  kr_fb : s_fb_virt (b_screen b) = u64 (DIRECT_MAP_START + vbe_framebuffer_address (e_handoff e));
}.

(** The two ranges of the plan behind [data_start]. *)
Lemma data_requests p a sz caches rb :
  boot_reachable caches rb sz -> 0 <= sz -> e_data_start e <= a < metadata_end (e_kernel_end e) sz ->
  exists r, r ∈ mmu_plan (image_of e) p /\ AddressSpace.inside r a /\ target r a = (a - KERNEL_IMAGE_START, rq_flags r) /\
    has_flag (rq_flags r) PTE_WRITABLE = true.
Proof.
  intros [_ _ (H1 & H2 & H3) H4 H5] Hsz Ha.
  assert (Hlast : e_kernel_end e <= metadata_end (e_kernel_end e) sz).
  { unfold metadata_end, sizeof_buddy_metadata, sizeof_pointer, PAGE_SIZE. dlia. }
  assert (Hin : forall r, r ∈ image_plan (image_of e) -> r ∈ mmu_plan (image_of e) p).
  { intros r Hr. unfold mmu_plan. apply elem_of_app. right. by right. }
  unfold NUM_CACHES, sizeof_kmem_cache, KERNEL_IMAGE_START, PAGE_SIZE in *.
  set (ds := e_data_start e) in *. set (ke := e_kernel_end e) in *. set (last := metadata_end ke sz) in *.
  set (cnt := (ke - ds) / 0x1000) in *. assert (Hn : 0 <= cnt /\ cnt * 0x1000 <= ke - ds) by (unfold cnt; split; dlia).
  assert (En : u64 (ke - ds) / 0x1000 = cnt) by (rewrite u64_small by lia; done).
  assert (Ev : u64 (ds + u64 (cnt * 0x1000)) = ds + cnt * 0x1000).
  { rewrite (u64_small (cnt * 0x1000)) by lia. apply u64_small. lia. }
  set (data := section_request ds ke PTE_FLAGS_KERNEL_DATA).
  set (behind := mk_request (u64 (ds + cnt * 0x1000 - KERNEL_IMAGE_START)) (ds + cnt * 0x1000) (Z.lor RODATA_FLAGS PTE_WRITABLE) 4).
  assert (Ep : rq_page data = 0x1000 /\ rq_page behind = 0x1000) by (split; vm_compute; reflexivity). destruct Ep as [Ep1 Ep2].
  destruct (Z.lt_ge_cases a (ds + cnt * 0x1000)) as [Hlt|Hge].
  - exists data. split_and!.
    + apply Hin. right. right. left.
    + unfold AddressSpace.inside, rq_last, rq_bytes. rewrite Ep1. cbn [data section_request rq_va rq_num]. unfold PAGE_SIZE. rewrite En. lia.
    + unfold target. cbn [data section_request rq_pa rq_va rq_flags]. unfold KERNEL_IMAGE_START. rewrite u64_small by lia. f_equal. lia.
    + vm_compute. reflexivity.
  - exists behind. split_and!.
    + apply Hin. right. right. right. unfold image_plan, section_request. cbn [rq_num data_start_addr kernel_end_addr image_of].
      unfold PAGE_SIZE. fold ds ke. rewrite En, Ev. left.
    + unfold AddressSpace.inside, rq_last, rq_bytes. rewrite Ep2. cbn [behind rq_va rq_num]. lia.
    + unfold target. cbn [behind rq_pa rq_va rq_flags]. unfold KERNEL_IMAGE_START. rewrite u64_small by lia. f_equal. lia.
    + vm_compute. reflexivity.
Qed.

(** The pages of the run lie whole in entries of the memory map. *)
Lemma run_pages o al n s p caches rb sz pa :
  first_space (image_of e) o al n s p -> boot_reachable caches rb sz ->
  rb <= page_of pa -> page_of pa + PAGE_SIZE <= rb + sz ->
  exists flags, direct_flags flags /\ translate (k_mem (p_k s)) (p_cr3 s) (DIRECT_MAP_START + pa) = Some (pa, flags).
Proof.
  intros Hfs [_ Hpg _ _ _] H1 H2.
  destruct (Hpg (page_of pa)) as (me & Hme & Ht & Hb & Hl); [|done|done|].
  { unfold page_of. exists (pa / PAGE_SIZE). lia. }
  apply (space_direct _ _ _ _ _ _ Hfs me); try done; [lia|unfold PAGE_SIZE in *; lia|lia|].
  unfold first_page, last_page, page_of, PAGE_SIZE in *. dlia.
Qed.

Lemma info_println msg row col s : s_vbe_info (vesa_nt_println (e_font e) msg row col s) = s_vbe_info s.
Proof.
  assert (Hc : forall turns c bits x line s, s_vbe_info (draw_cols turns c bits x line s) = s_vbe_info s).
  { intros turns. induction turns as [|t IH]; intros; [done|]. cbn [draw_cols]. by rewrite IH. }
  assert (Hr : forall turns r g x y s, s_vbe_info (draw_rows (e_font e) turns r g x y s) = s_vbe_info s).
  { intros turns. induction turns as [|t IH]; intros; [done|]. cbn [draw_rows]. by rewrite IH, Hc. }
  revert col s. induction msg as [|ch msg IH]; intros col s; [done|]. cbn [vesa_nt_println].
  destruct (ch =? 0); [done|]. by rewrite IH, Hr.
Qed.

Lemma info_black s : s_vbe_info (vbe_black_screen s) = s_vbe_info s.
Proof.
  assert (Hl : forall turns x line color s, s_vbe_info (fill_line turns x line color s) = s_vbe_info s).
  { intros turns. induction turns as [|t IH]; intros; [done|]. cbn [fill_line]. by rewrite IH. }
  unfold vbe_black_screen. generalize 0 at 1. generalize (Z.to_nat (vbe_height_px (s_vbe_info s))) as turns.
  intros turns. revert s. induction turns as [|t IH]; intros s y; [done|]. cbn [fill_screen]. by rewrite IH, Hl.
Qed.

(** The client of the page allocator: with a run that ends at a 32 KB boundary, one
    that knows the bitmap to be right about single pages. *)
Lemma boot_client o al n rb sz md L :
  cache_at (e_vma_cache e) sizeof_vma o al n -> ((8 * PAGE_SIZE | rb + sz) -> fresh md L) ->
  exists client : AllocClient, ac_order o /\ ac_order 2 /\ ac_inv md L /\
    ((8 * PAGE_SIZE | rb + sz) -> exists md0, client = fresh_client md0).
Proof.
  intros Hat Hf. destruct (decide ((rb + sz) mod (8 * PAGE_SIZE) = 0)) as [Hd%Z.mod_divide|Hd]; [|done|].
  2:{ exists any_client. split_and!; [done..|]. by intros Hd'%Z.mod_divide. }
  exists (fresh_client md). cbn. split_and!; [|by right|by split; [apply Hf|]|by exists md].
  left. by eapply (vma_slab_page (image_of e)).
Qed.

(** The steps before [kmain]. *)
Lemma start_kernel_steps o al n b rb sz :
  cache_at (e_vma_cache e) sizeof_vma o al n ->
  chosen_region (e_kernel_end e) (e_entries e) = (rb, sz) -> 2 ^ 22 <= sz ->
  boot_reachable (k_slab_caches (p_k (b_p b))) rb sz -> kernel_rb_root (b_p b) = NULL ->
  plan_ok (mmu_plan (image_of e) 0) ->
  (2 * Nat.log2 (List.length (mmu_plan (image_of e) 0) + 1) <= e_turns e)%nat ->
  (forall i, 0 <= i < 32 -> 0 <= e_isr_entry e i < 2 ^ 64) ->
  (exists b', start_kernel e b = (kmain e;; panic "HALTING SYSTEM, KERNEL BOOTING RETURNED UNEXPECTEDLY!") b' /\
     kernel_ready o al n rb sz b' /\
     ((8 * PAGE_SIZE | rb + sz) -> exists md0 p, first_space (client := fresh_client md0) (image_of e) o al n (b_p b') p /\
        plan_ok (mmu_plan (image_of e) p))) \/
  (exists msg, start_kernel e b = Panic msg /\
     (sz < (Z.of_nat (boot_budget (image_of e) o) + 1026) * PAGE_SIZE \/ msg = no_stack)).
Proof.
  intros Hat Hc H3 Hbr Hroot Hok Hfuel Hstubs.
  assert (Hrun : 0 < rb /\ rb + sz <= 2 ^ 48 /\ 2 ^ 22 <= sz <= 2 ^ 43 /\ 2 ^ 48 <= k_slab_caches (p_k (b_p b))).
  { destruct Hbr as [Hr _ (Hs1 & Hs2 & _) _ _]. unfold KERNEL_IMAGE_START in *. lia. }
  destruct Hrun as (H1 & H2 & H3' & Hca).
  set (b1 := mk_bstate (b_p b) (vesa_nt_println (e_font e) (bytes_of "Welcome to E.K's mikrokernellib") 0 0
    (vbe_black_screen (__init_vbe_handoff (e_handoff e) (b_screen b)))) (__init_idt (e_isr_entry e) (e_idt e) (b_int b))
    (b_bytes b) (b_rsp b)).
  assert (Es : start_kernel e b = (run_kernel (lift (__init_phys_kmalloc (e_kernel_end e) (e_entries e)));;
    let! rsp := run_kernel (__init_mmu (image_of e) (e_turns e)) in
    enter_virtual rsp (kmain e);;
    panic "HALTING SYSTEM, KERNEL BOOTING RETURNED UNEXPECTEDLY!") b1) by reflexivity.
  assert (Ei : s_vbe_info (b_screen b1) = e_handoff e) by (unfold b1; cbn [b_screen]; by rewrite info_println, info_black).
  assert (Et : i_loaded (b_int b1) = mk_idtr 4095 (e_idt e) /\
    forall v, 0 <= v < 32 -> gate_for (e_isr_entry e v) (gate_flags v) (i_idt (b_int b1) v)).
  { split; [apply (init_idt_rest (e_isr_entry e) (e_idt e) Hstubs)|].
    apply (init_idt_table (e_isr_entry e) (e_idt e) Hstubs). }
  assert (Ep : b_p b1 = b_p b) by reflexivity. clearbody b1. revert Es. generalize (start_kernel e b). intros r Er.
  unfold bind at 1, run_kernel at 1, lift at 1 in Er. rewrite Ep in Er.
  destruct (wp_elim _ _ _ (init_phys_wp (e_kernel_end e) (e_entries e) (p_k (b_p b)) rb sz Hc H1 H2 H3' Hca))
    as ([] & k1 & E1 & L & Hi & Hl1 & Hl2 & Hsz & Hfr).
  destruct (boot_client o al n rb sz (k_buddy k1) L Hat Hfr) as (client & Ho & Ho2 & Hcl & Hcf).
  rewrite E1 in Er. unfold bind at 1, run_kernel at 1 in Er. cbn [b_p] in Er.
  destruct (wpe_elim _ _ _ _ (init_mmu_wpe (client := client) (image_of e) (e_turns e) o al n Hat Ho Ho2 (set_k k1 (b_p b)) L Hi Hcl Hl1 Hl2 Hroot Hok Hfuel))
    as [(rsp & p2 & E2 & -> & p & Hp1 & Hp2 & Hp3 & Hfs)|(msg & E2 & HP)]; rewrite E2 in Er.
  - left. eexists. split; [exact Er|]. destruct Et as [Et1 Et2]. split; cbn [b_p b_rsp b_int b_screen s_vbe_info s_fb_virt].
    + split; cbn [b_p b_rsp b_int b_screen s_vbe_info s_fb_virt]; try done; [| | |exact (fs_screen _ _ _ _ _ _ Hfs)].
      * exists p. by apply (first_space_any client).
      * intros a Ha. destruct (data_requests p a sz _ rb Hbr ltac:(lia) Ha) as (rq & Hr & Hin & Et' & Hw).
        exists (rq_flags rq). split; [done|]. by rewrite (fs_mapped _ _ _ _ _ _ Hfs rq a Hr Hin), Et'.
      * intros pa. eapply run_pages; [by apply (first_space_any client)|exact Hbr].
    + intros [md0 ->]%Hcf. exists md0, p. split; [done|]. by apply plan_ok_stack.
  - right. exists msg. split; [done|]. destruct HP as [Hlt|HP]; [left|by right]. unfold PAGE_SIZE in *. lia.
Qed.

Lemma kmain_end b msg : (kmain e;; panic msg) b = kmain e b.
Proof. unfold bind at 1. destruct (kmain_halts b) as [[m ->]| ->]; done. Qed.

Lemma kmain_unmaps b p2 : unmap_boot_memory (image_of e) (e_turns e) (b_p b) = Ret tt p2 -> kmain e b = Panic "HELLO VIRTUAL".
Proof.
  intros E. unfold kmain, vhello, on_screen, on_interrupts, on_bytes, bind, modify, panic, run_kernel. cbn [b_p]. by rewrite E.
Qed.

(** C9. [start_kernel], on a machine whose memory map has a usable run of at least
    4 MB below 4 GB and with an image whose ranges fit together: it enters [kmain]
    on the new stack with the kernel's address space in force (every requested
    range translated, nothing else), the 32 exception gates loaded and the screen
    reachable through the direct map; or it stops in PANIC, and then the run was
    smaller than the budget of the plan or held no 16 KB block for the stack.  It
    never returns to the boot loader.

    It needs what the allocators use to be reachable ([boot_reachable]): before the
    switch the first 4 GB and the loaded image; after it the metadata of the page
    allocator, free-list heads and bitmap, inside the sections and the four pages
    mapped behind them, and the pages of the run whole inside usable entries.  Then
    [kmain] finds data, metadata and pages mapped where the code looks for them.
    It also needs [kernel_rb_root] to be NULL, which nothing in the code sees to.

    When the run ends at a 32 KB boundary, [kmain] reaches its last line: the first
    16 MB are unmapped, every other address is translated as before, and the page
    allocator has gained exactly the frames of the tables that are gone, among them
    the directory of the low memory if no other range begins in the first
    gigabyte. *)
Theorem start_kernel_reaches_kmain o al n b rb sz :
  cache_at (e_vma_cache e) sizeof_vma o al n ->
  chosen_region (e_kernel_end e) (e_entries e) = (rb, sz) -> 2 ^ 22 <= sz ->
  boot_reachable (k_slab_caches (p_k (b_p b))) rb sz -> kernel_rb_root (b_p b) = NULL ->
  plan_ok (mmu_plan (image_of e) 0) ->
  (2 * Nat.log2 (List.length (mmu_plan (image_of e) 0) + 1) <= e_turns e)%nat ->
  (forall i, 0 <= i < 32 -> 0 <= e_isr_entry e i < 2 ^ 64) ->
  ((exists b', start_kernel e b = kmain e b' /\ kernel_ready o al n rb sz b' /\
      ((8 * PAGE_SIZE | rb + sz) -> kmain e b' = Panic "HELLO VIRTUAL" /\
         exists p s', unmap_boot_memory (image_of e) (e_turns e) (b_p b') = Ret tt s' /\
           low_unmapped (image_of e) o al n p (b_p b') s')) \/
   (exists msg, start_kernel e b = Panic msg /\
      (sz < (Z.of_nat (boot_budget (image_of e) o) + 1026) * PAGE_SIZE \/ msg = no_stack))) /\
  (forall r b', start_kernel e b <> Ret r b').
Proof.
  intros Hat Hc Hsz Hbr Hroot Hok Hfuel Hstubs.
  destruct (start_kernel_steps o al n b rb sz Hat Hc Hsz Hbr Hroot Hok Hfuel Hstubs)
    as [(b' & E & Hr & Hfs)|(msg & E & HP)].
  - rewrite kmain_end in E. rewrite E. split; [left|].
    + exists b'. split; [done|]. split; [done|]. intros (md0 & p & Hfs' & Hokp)%Hfs.
      assert (Hlen : List.length (mmu_plan (image_of e) p) = List.length (mmu_plan (image_of e) 0))
        by (unfold mmu_plan; by rewrite !length_app).
      destruct (wp_elim _ _ _ (unmap_boot_memory_wp (image_of e) (e_turns e) o al n Hat md0 (b_p b') p Hfs' Hokp
        ltac:(by rewrite Hlen))) as ([] & s' & Eu & Hlow). split; [by eapply kmain_unmaps|]. by exists p, s'.
    + intros r b2. destruct (kmain_halts b') as [[m ->]| ->]; done.
  - rewrite E. split; [right; by exists msg|done].
Qed.
End sequence.

(** ** A small machine *)

(** One run of 15 MB, a screen of 16 by 4 pixels, a font of one-pixel glyphs. *)
Definition demo_env : boot_env :=
  mk_boot_env 0xffffffff80040000 0xffffffff80013000 0xffffffff80060000 0xffffffff80015000
    0xffffffff80015000 0xffffffff80016000 0xffffffff80016000
    [mk_mmap_entry 0 0x9f000 1 0; mk_mmap_entry 0xf0000 0x10000 2 0; mk_mmap_entry 0x100000 0xf00000 1 0]
    (mk_vbe 0xfd000000 64 16 4) (fun i => if i =? 3 then 1 else 0) (fun i => 0xffffffff80013000 + 16 * i)
    0xffffffff80050000 0xffffffff80051000 0x7200 8.
Definition demo_bstate : bstate :=
  mk_bstate (mk_pstate demo_state NULL NULL NULL 0) (mk_screen (mk_vbe 0 0 0 0) 0 (fun _ => 0))
    (mk_istate (fun _ => mk_gate 0 0 0 0 0 0 0) (mk_idtr 0 0) (mk_idtr 0 0) []) (fun _ => 0) 0.

Lemma demo_env_plan : plan_ok (mmu_plan (image_of demo_env) 0).
Proof. apply plan_check_ok. vm_compute. reflexivity. Qed.
Lemma demo_env_cache : cache_at (e_vma_cache demo_env) sizeof_vma 0 8 72.
Proof. split; [vm_compute; reflexivity|done|done]. Qed.
Lemma demo_env_reachable : boot_reachable demo_env (k_slab_caches (p_k (b_p demo_bstate))) 0x100000 0xf00000.
Proof.
  split; [vm_compute; split; discriminate| |vm_compute; split_and!; discriminate|vm_compute; discriminate..].
  intros pg _ H1 H2. exists (mk_mmap_entry 0x100000 0xf00000 1 0). split; [right; right; left|].
  cbn [me_base_address me_chunk_size me_type]. unfold DIRECT_MAP_START, DIRECT_MAP_END, PAGE_SIZE in *. lia.
Qed.
Lemma demo_env_fuel : (2 * Nat.log2 (List.length (mmu_plan (image_of demo_env) 0) + 1) <= e_turns demo_env)%nat.
Proof. vm_compute. lia. Qed.

Lemma demo_rest_high p : Forall (fun r => 2 ^ 30 <= rq_va r) (rest_plan (image_of demo_env) p).
Proof.
  change (rest_plan (image_of demo_env) p) with
    ((mmap_bios_entries (image_of demo_env) ≫= direct_plan) ++ framebuffer_request (image_of demo_env) :: stack_request p ::
      image_plan (image_of demo_env)).
  apply Forall_app. split; [|apply Forall_cons_2; [|apply Forall_cons_2]].
  - apply (bool_decide_unpack _). vm_compute. exact I.
  - vm_compute. discriminate.
  - vm_compute. discriminate.
  - apply (bool_decide_unpack _). vm_compute. exact I.
Qed.

(** Run to the end: the low memory is unmapped again and the last message of
    [kmain] is reached. *)
Example demo_boot : start_kernel demo_env demo_bstate = Panic "HELLO VIRTUAL".
Proof. vm_compute. reflexivity. Qed.

Lemma start_kernel_reaches_kmain_witness :
  start_kernel demo_env demo_bstate = Panic "HELLO VIRTUAL" /\
  exists b' p s', kernel_ready demo_env 0 8 72 0x100000 0xf00000 b' /\ unmap_boot_memory (image_of demo_env) (e_turns demo_env) (b_p b') = Ret tt s' /\
    low_unmapped (image_of demo_env) 0 8 72 p (b_p b') s' /\
    tbl (k_mem (p_k (b_p b'))) (p_cr3 (b_p b')) [0; 0] <> None /\ tbl (k_mem (p_k s')) (p_cr3 (b_p b')) [0; 0] = None.
Proof.
  split; [exact demo_boot|].
  destruct (start_kernel_reaches_kmain demo_env 0 8 72 demo_bstate 0x100000 0xf00000 demo_env_cache) as [[H|H] _]; try done.
  - exact demo_env_reachable.
  - exact demo_env_plan.
  - exact demo_env_fuel.
  - intros i Hi. unfold demo_env. cbn [e_isr_entry]. lia.
  - destruct H as (b' & _ & Hr & Hd). destruct Hd as (_ & p & s' & H1 & H2); [by exists 512|].
    exists b', p, s'. split; [exact Hr|]. split; [exact H1|]. split; [exact H2|].
    destruct (lu_space _ _ _ _ _ _ _ H2) as (L & L' & D & _ & _ & _ & _ & Hd).
    destruct (Hd (demo_rest_high p)) as (t & T & T' & _). by rewrite T.
  - exfalso. rewrite demo_boot in H. destruct H as (msg & E & [Hlt| ->]); [|discriminate]. revert Hlt. vm_compute. discriminate.
Defined.

(** The address space [__init_mmu] built, without its low memory: the directory of
    that memory is back in the page allocator. *)
Lemma kunmap_huge_request_witness :
  exists md0 s L p, space (client := fresh_client md0) (image_of demo_env) 0 8 72 s L (mmu_plan (image_of demo_env) p) /\
  exists s', kunmap_pages (image_of demo_env) 8 0 0 boot_flags 8 s = Ret tt s' /\
    translate (k_mem (p_k s')) (kernel_pml4t s') 0x7200 = None /\
    exists L' D t, free_pages L' ≡ₚ D ++ free_pages L /\ tbl (k_mem (p_k s)) (kernel_pml4t s) [0; 0] = Some t /\ t ∈ D.
Proof.
  destruct (start_kernel_steps demo_env 0 8 72 demo_bstate 0x100000 0xf00000 demo_env_cache) as [H|H]; try done.
  - exact demo_env_reachable.
  - exact demo_env_plan.
  - exact demo_env_fuel.
  - intros i Hi. unfold demo_env. cbn [e_isr_entry]. lia.
  - destruct H as (b' & _ & _ & Hd). destruct Hd as (md0 & p & [_ _ _ (L & Hsp) _ _] & Hok); [by exists 512|].
    exists md0, (b_p b'), L, p. split; [done|].
    destruct (kunmap_huge_request_correct (image_of demo_env) 8 0 8 72 demo_env_cache md0 (b_p b') L boot_request
      (rest_plan (image_of demo_env) p) _ Hsp (mmu_plan_rest _ p) Hok eq_refl ltac:(done)) as (s' & fl & L' & D & E & _ & _ & _ & Er & Hn & _ & HD & _ & _ & Hdir).
    { exact demo_env_fuel. }
    exists s'. split; [exact E|]. split; [rewrite Er; by apply Hn|]. destruct Hdir as (t & T & _ & Ht); [|by exists L', D, t].
    intros r Hr. right. pose proof (demo_rest_high p) as Hh. rewrite Forall_forall in Hh. specialize (Hh r Hr).
    change (rq_va boot_request / 2 ^ 30) with 0. enough (1 <= rq_va r / 2 ^ 30) by lia. apply Z.div_le_lower_bound; lia.
  - exfalso. rewrite demo_boot in H. destruct H as (msg & E & [Hlt| ->]); [|discriminate]. revert Hlt. vm_compute. discriminate.
Defined.
